(** * A model of the clang AST exporter ([libtooling/ASTExporter.h])

    The exporter walks an already built clang AST and drives an ATD writer
    ([OF]) with calls such as "open an object of [n] fields", "emit a tag",
    "emit a string".  The model below keeps the structure of the C++ code:

    - the writer calls are recorded as a tree of [atd] items;
    - the mutable state (the globals [pointerMap] and [pointerCounter], the
      members of the exporter, the allocator of the context) is threaded
      through a state-and-output monad [M];
    - every [dumpX] / [VisitX] member function is a function of the same name.
*)

From stdpp Require Import gmap strings list pretty.

Set Warnings "-register-all".

#[local] Open Scope Z_scope.

(** ** Machine integers and addresses *)

(** Node identity is the address of the node ([const void *]). *)
Definition ptr := Z.
Definition nullptr : ptr := 0.

(** [int] is 32 bits wide; [pointerCounter++] is computed with wrap-around. *)
Definition INT_MAX : Z := 2147483647.
Definition wrap_int (z : Z) : Z := (z + 2147483648) `mod` 4294967296 - 2147483648.

(** [~0U], the initial value of [LastLocLine]. *)
Definition UINT_MAX : Z := 4294967295.

(** [snprintf(str, 20, ...)] keeps at most 19 characters. *)
Definition snprintf20 (s : string) : string := String.substring 0 19 s.

(** ** The ATD writer *)

(** Modelled from the spec: the output-framing backend
    ([atdlib/ATDWriter.h]) is not part of the sources.  The spec lists its
    primitives (open an aggregate, array or tuple with the number of
    elements that will follow, open a variant with its tag, emit a tag, a
    string, an integer, a boolean, and [emitFlag], which writes the field
    only when the value is true).  An [atd] item records one such call;
    a scope records the declared size together with everything that was
    written before the scope was closed.  [None] as a size stands for a
    scope opened without a size ([TupleScope Scope(OF)]). *)
Inductive atd : Type :=
| ATag (name : string)
| AString (s : string)
| AInteger (z : Z)
| ABoolean (b : bool)
| ASimpleVariant (tag : string)
| AObject (size : Z) (body : list atd)
| AArray (size : option Z) (body : list atd)
| ATuple (size : option Z) (body : list atd)
| AVariant (tag : string) (body : list atd).

(** ** Mutable state *)

(** [pointerMap] and [pointerCounter] are namespace-scope globals of the
    translation unit.  [NullPtrStmt], [NullPtrDecl], [NullPtrComment],
    [LastLocFilename], [LastLocLine] and [FC] are data members of the
    exporter object; the first three hold the addresses of the nodes the
    constructor allocates.  [allocated] is the state of the allocator of
    the [ASTContext]: the number of nodes exporters have allocated from it.
    [consulted] records, in order, the declarations handed to
    [FileUtils::shouldTraverseDeclFile]. *)
Record World : Type := mkWorld {
  pointerMap : gmap Z Z;
  pointerCounter : Z;
  NullPtrStmt : ptr;
  NullPtrDecl : ptr;
  NullPtrComment : ptr;
  LastLocFilename : string;
  LastLocLine : Z;
  FC : ptr;
  allocated : nat;
  consulted : list ptr
}.

(** Static initialisation of the globals, before any exporter exists and
    before anything is allocated for one. *)
Definition process_start : World :=
  {| pointerMap := ∅; pointerCounter := 0;
     NullPtrStmt := nullptr; NullPtrDecl := nullptr; NullPtrComment := nullptr;
     LastLocFilename := ""; LastLocLine := UINT_MAX; FC := nullptr;
     allocated := 0; consulted := [] |}.

(** ** The monad: state passing plus the items written so far *)

Definition M (A : Type) : Type := World → A * World * list atd.

#[global] Instance M_ret : MRet M := λ A a w, (a, w, []).
#[global] Instance M_bind : MBind M := λ A B f m w,
  let '(a, w1, o1) := m w in
  let '(b, w2, o2) := f a w1 in
  (b, w2, o1 ++ o2).

Definition get : M World := λ w, (w, w, []).
Definition put (w : World) : M unit := λ _, (tt, w, []).
Definition emit (x : atd) : M unit := λ w, (tt, w, [x]).

(** What a computation wrote and the state it left. *)
Definition written {A} (m : M A) (w : World) : list atd := (m w).2.
Definition state_after {A} (m : M A) (w : World) : World := (m w).1.2.

(** A scope object: everything written while it is alive ends up inside. *)
Definition scope {A} (wrap : list atd → atd) (m : M A) : M A := λ w,
  let '(a, w1, o) := m w in (a, w1, [wrap o]).

Definition ObjectScope {A} (size : Z) : M A → M A := scope (AObject size).
Definition ArrayScope {A} (size : Z) : M A → M A := scope (AArray (Some size)).
Definition TupleScope {A} (size : Z) : M A → M A := scope (ATuple (Some size)).
Definition TupleScope_unsized {A} : M A → M A := scope (ATuple None).
Definition VariantScope {A} (tag : string) : M A → M A := scope (AVariant tag).

Definition emitTag (name : string) : M unit := emit (ATag name).
Definition emitString (s : string) : M unit := emit (AString s).
Definition emitInteger (z : Z) : M unit := emit (AInteger z).
Definition emitBoolean (b : bool) : M unit := emit (ABoolean b).
Definition emitSimpleVariant (tag : string) : M unit := emit (ASimpleVariant tag).
Definition emitFlag (name : string) (value : bool) : M unit :=
  if value then emitTag name ;; emitBoolean true else mret tt.

(** [for (auto I : range) body(I)] *)
Definition forM_ {A} (f : A → M unit) : list A → M unit :=
  fix go l := match l with [] => mret tt | x :: xs => f x ;; go xs end.

Definition when (b : bool) (m : M unit) : M unit := if b then m else mret tt.

(** [if (p) { ... *p ... }] for a pointer that may be null. *)
Definition whenSome {A} (p : option A) (f : A → M unit) : M unit :=
  match p with Some x => f x | None => mret tt end.
Definition notnull {A} (p : option A) : bool :=
  match p with Some _ => true | None => false end.
Definition notnullptr (p : Z) : bool := negb (p =? 0).

(** [(bool) p] for a pointer, and a [bool] used as a summand. *)
Definition b2z (b : bool) : Z := if b then 1 else 0.
Definition len {A} (l : list A) : Z := Z.of_nat (length l).

(** ** Kind taxonomies

    [clang/AST/DeclNodes.inc], [StmtNodes.inc], [TypeNodes.def] and
    [CommentNodes.inc] belong to clang, not to the exporter.  Each lists
    entries [DECL(DERIVED, BASE)].  A class for which the exporter declares
    a visitor ([DECLARE_VISITOR]) is a constructor of its own; every other
    entry of the table is [cOther... DERIVED BASE], whatever the table
    contains. *)

Inductive DeclClass : Type :=
| cDecl | cBlockDecl | cCapturedDecl | cLinkageSpecDecl | cNamespaceDecl
| cObjCContainerDecl | cTagDecl | cTypeDecl | cTranslationUnitDecl
| cNamedDecl | cValueDecl | cTypedefDecl | cEnumDecl | cRecordDecl
| cEnumConstantDecl | cIndirectFieldDecl | cFunctionDecl | cFieldDecl
| cVarDecl | cFileScopeAsmDecl | cImportDecl
| cUsingDirectiveDecl | cNamespaceAliasDecl | cCXXRecordDecl
| cObjCIvarDecl | cObjCMethodDecl | cObjCCategoryDecl | cObjCCategoryImplDecl
| cObjCProtocolDecl | cObjCInterfaceDecl | cObjCImplementationDecl
| cObjCCompatibleAliasDecl | cObjCPropertyDecl | cObjCPropertyImplDecl
| cOtherDecl (DERIVED : string) (BASE : DeclClass).

(** Classes the exporter names without declaring a visitor for them; their
    base is the one of clang's table. *)
Definition cTypedefNameDecl : DeclClass := cOtherDecl "TypedefName" cTypeDecl.
Definition cDeclaratorDecl : DeclClass := cOtherDecl "Declarator" cValueDecl.
Definition cObjCImplDecl : DeclClass := cOtherDecl "ObjCImpl" cObjCContainerDecl.
(** The class of the node [EmptyDecl::Create] returns. *)
Definition cEmptyDecl : DeclClass := cOtherDecl "Empty" cDecl.

(** The immediate base class; [None] for the root. *)
Definition DeclBASE (c : DeclClass) : option DeclClass :=
  match c with
  | cDecl => None
  | cBlockDecl | cCapturedDecl | cLinkageSpecDecl | cTranslationUnitDecl
  | cNamedDecl | cFileScopeAsmDecl | cImportDecl | cObjCPropertyImplDecl => Some cDecl
  | cNamespaceDecl | cObjCContainerDecl | cTypeDecl | cValueDecl
  | cUsingDirectiveDecl | cNamespaceAliasDecl | cObjCMethodDecl
  | cObjCCompatibleAliasDecl | cObjCPropertyDecl => Some cNamedDecl
  | cTagDecl => Some cTypeDecl
  | cTypedefDecl => Some cTypedefNameDecl
  | cEnumDecl | cRecordDecl => Some cTagDecl
  | cEnumConstantDecl | cIndirectFieldDecl => Some cValueDecl
  | cFunctionDecl | cFieldDecl | cVarDecl => Some cDeclaratorDecl
  | cCXXRecordDecl => Some cRecordDecl
  | cObjCIvarDecl => Some cFieldDecl
  | cObjCCategoryDecl | cObjCProtocolDecl | cObjCInterfaceDecl => Some cObjCContainerDecl
  | cObjCCategoryImplDecl | cObjCImplementationDecl => Some cObjCImplDecl
  | cOtherDecl _ BASE => Some BASE
  end.

(** [Decl::getDeclKindName()]: the [DERIVED] of the entry. *)
Definition getDeclKindName (c : DeclClass) : string :=
  match c with
  | cDecl => "" | cBlockDecl => "Block" | cCapturedDecl => "Captured"
  | cLinkageSpecDecl => "LinkageSpec" | cNamespaceDecl => "Namespace"
  | cObjCContainerDecl => "ObjCContainer" | cTagDecl => "Tag" | cTypeDecl => "Type"
  | cTranslationUnitDecl => "TranslationUnit" | cNamedDecl => "Named"
  | cValueDecl => "Value" | cTypedefDecl => "Typedef" | cEnumDecl => "Enum"
  | cRecordDecl => "Record" | cEnumConstantDecl => "EnumConstant"
  | cIndirectFieldDecl => "IndirectField" | cFunctionDecl => "Function"
  | cFieldDecl => "Field" | cVarDecl => "Var" | cFileScopeAsmDecl => "FileScopeAsm"
  | cImportDecl => "Import" | cUsingDirectiveDecl => "UsingDirective"
  | cNamespaceAliasDecl => "NamespaceAlias" | cCXXRecordDecl => "CXXRecord"
  | cObjCIvarDecl => "ObjCIvar" | cObjCMethodDecl => "ObjCMethod"
  | cObjCCategoryDecl => "ObjCCategory" | cObjCCategoryImplDecl => "ObjCCategoryImpl"
  | cObjCProtocolDecl => "ObjCProtocol" | cObjCInterfaceDecl => "ObjCInterface"
  | cObjCImplementationDecl => "ObjCImplementation"
  | cObjCCompatibleAliasDecl => "ObjCCompatibleAlias"
  | cObjCPropertyDecl => "ObjCProperty" | cObjCPropertyImplDecl => "ObjCPropertyImpl"
  | cOtherDecl DERIVED _ => DERIVED
  end.

(** [isa<NamedDecl>], [isa<ValueDecl>], [isa<CXXConstructorDecl>]. *)
Fixpoint isa_NamedDecl (c : DeclClass) : bool :=
  match c with
  | cDecl | cBlockDecl | cCapturedDecl | cLinkageSpecDecl | cTranslationUnitDecl
  | cFileScopeAsmDecl | cImportDecl | cObjCPropertyImplDecl => false
  | cOtherDecl _ BASE => isa_NamedDecl BASE
  | _ => true
  end.

Fixpoint isa_ValueDecl (c : DeclClass) : bool :=
  match c with
  | cValueDecl | cEnumConstantDecl | cIndirectFieldDecl | cFunctionDecl
  | cFieldDecl | cVarDecl | cObjCIvarDecl => true
  | cOtherDecl _ BASE => isa_ValueDecl BASE
  | _ => false
  end.

Fixpoint isa_CXXConstructorDecl (c : DeclClass) : bool :=
  match c with
  | cOtherDecl DERIVED BASE =>
      bool_decide (DERIVED = "CXXConstructor") || isa_CXXConstructorDecl BASE
  | _ => false
  end.

Inductive StmtClass : Type :=
| cStmt | cDeclStmt | cAttributedStmt | cLabelStmt | cGotoStmt | cCXXCatchStmt
| cExpr | cCastExpr | cExplicitCastExpr | cDeclRefExpr | cPredefinedExpr
| cCharacterLiteral | cIntegerLiteral | cFloatingLiteral | cStringLiteral
| cUnaryOperator | cUnaryExprOrTypeTraitExpr | cMemberExpr
| cExtVectorElementExpr | cBinaryOperator | cCompoundAssignOperator
| cAddrLabelExpr | cBlockExpr | cOpaqueValueExpr
| cCXXNamedCastExpr | cCXXBoolLiteralExpr | cCXXConstructExpr
| cCXXBindTemporaryExpr | cMaterializeTemporaryExpr | cExprWithCleanups
| cOverloadExpr | cUnresolvedLookupExpr | cLambdaExpr | cCXXNewExpr
| cCXXDeleteExpr
| cObjCAtCatchStmt | cObjCEncodeExpr | cObjCMessageExpr | cObjCBoxedExpr
| cObjCSelectorExpr | cObjCProtocolExpr | cObjCPropertyRefExpr
| cObjCSubscriptRefExpr | cObjCIvarRefExpr | cObjCBoolLiteralExpr
| cOtherStmt (CLASS : string) (PARENT : StmtClass).

(** The class of the node [new (Context) NullStmt(...)] builds. *)
Definition cNullStmt : StmtClass := cOtherStmt "NullStmt" cStmt.

Definition StmtPARENT (c : StmtClass) : option StmtClass :=
  match c with
  | cStmt => None
  | cDeclStmt | cAttributedStmt | cLabelStmt | cGotoStmt | cCXXCatchStmt
  | cExpr | cObjCAtCatchStmt => Some cStmt
  | cCastExpr => Some cExpr
  | cExplicitCastExpr => Some cCastExpr
  | cCXXNamedCastExpr => Some cExplicitCastExpr
  | cCompoundAssignOperator => Some cBinaryOperator
  | cUnresolvedLookupExpr => Some cOverloadExpr
  | cOtherStmt _ PARENT => Some PARENT
  | _ => Some cExpr
  end.

(** [Stmt::getStmtClassName()]: the [CLASS] of the entry. *)
Definition getStmtClassName (c : StmtClass) : string :=
  match c with
  | cStmt => "" | cDeclStmt => "DeclStmt" | cAttributedStmt => "AttributedStmt"
  | cLabelStmt => "LabelStmt" | cGotoStmt => "GotoStmt"
  | cCXXCatchStmt => "CXXCatchStmt" | cExpr => "Expr" | cCastExpr => "CastExpr"
  | cExplicitCastExpr => "ExplicitCastExpr" | cDeclRefExpr => "DeclRefExpr"
  | cPredefinedExpr => "PredefinedExpr" | cCharacterLiteral => "CharacterLiteral"
  | cIntegerLiteral => "IntegerLiteral" | cFloatingLiteral => "FloatingLiteral"
  | cStringLiteral => "StringLiteral" | cUnaryOperator => "UnaryOperator"
  | cUnaryExprOrTypeTraitExpr => "UnaryExprOrTypeTraitExpr"
  | cMemberExpr => "MemberExpr" | cExtVectorElementExpr => "ExtVectorElementExpr"
  | cBinaryOperator => "BinaryOperator"
  | cCompoundAssignOperator => "CompoundAssignOperator"
  | cAddrLabelExpr => "AddrLabelExpr" | cBlockExpr => "BlockExpr"
  | cOpaqueValueExpr => "OpaqueValueExpr" | cCXXNamedCastExpr => "CXXNamedCastExpr"
  | cCXXBoolLiteralExpr => "CXXBoolLiteralExpr"
  | cCXXConstructExpr => "CXXConstructExpr"
  | cCXXBindTemporaryExpr => "CXXBindTemporaryExpr"
  | cMaterializeTemporaryExpr => "MaterializeTemporaryExpr"
  | cExprWithCleanups => "ExprWithCleanups" | cOverloadExpr => "OverloadExpr"
  | cUnresolvedLookupExpr => "UnresolvedLookupExpr" | cLambdaExpr => "LambdaExpr"
  | cCXXNewExpr => "CXXNewExpr" | cCXXDeleteExpr => "CXXDeleteExpr"
  | cObjCAtCatchStmt => "ObjCAtCatchStmt" | cObjCEncodeExpr => "ObjCEncodeExpr"
  | cObjCMessageExpr => "ObjCMessageExpr" | cObjCBoxedExpr => "ObjCBoxedExpr"
  | cObjCSelectorExpr => "ObjCSelectorExpr" | cObjCProtocolExpr => "ObjCProtocolExpr"
  | cObjCPropertyRefExpr => "ObjCPropertyRefExpr"
  | cObjCSubscriptRefExpr => "ObjCSubscriptRefExpr"
  | cObjCIvarRefExpr => "ObjCIvarRefExpr"
  | cObjCBoolLiteralExpr => "ObjCBoolLiteralExpr"
  | cOtherStmt CLASS _ => CLASS
  end.

Inductive TypeClass : Type :=
| cType | cAdjustedType | cArrayType | cConstantArrayType | cAtomicType
| cBlockPointerType | cBuiltinType | cDecltypeType | cFunctionType
| cFunctionProtoType | cMemberPointerType | cObjCObjectPointerType
| cObjCObjectType | cObjCInterfaceType | cParenType | cPointerType
| cReferenceType | cTagType | cTypedefType
| cOtherType (DERIVED : string) (BASE : TypeClass).

Definition TypeBASE (c : TypeClass) : option TypeClass :=
  match c with
  | cType => None
  | cConstantArrayType => Some cArrayType
  | cFunctionProtoType => Some cFunctionType
  | cObjCInterfaceType => Some cObjCObjectType
  | cOtherType _ BASE => Some BASE
  | _ => Some cType
  end.

(** [Type::getTypeClassName()]. *)
Definition getTypeClassName (c : TypeClass) : string :=
  match c with
  | cType => "" | cAdjustedType => "Adjusted" | cArrayType => "Array"
  | cConstantArrayType => "ConstantArray" | cAtomicType => "Atomic"
  | cBlockPointerType => "BlockPointer" | cBuiltinType => "Builtin"
  | cDecltypeType => "Decltype" | cFunctionType => "Function"
  | cFunctionProtoType => "FunctionProto" | cMemberPointerType => "MemberPointer"
  | cObjCObjectPointerType => "ObjCObjectPointer" | cObjCObjectType => "ObjCObject"
  | cObjCInterfaceType => "ObjCInterface" | cParenType => "Paren"
  | cPointerType => "Pointer" | cReferenceType => "Reference" | cTagType => "Tag"
  | cTypedefType => "Typedef"
  | cOtherType DERIVED _ => DERIVED
  end.

(** The classes of [CommentNodes.inc]: the entries [COMMENT(CLASS, PARENT)].
    The root [Comment] is no entry of the list, so it is no constructor:
    [cChildOfComment CLASS] is an entry whose parent is the root.  The
    enumerator [Comment::NoCommentKind] is no class either; it is the kind
    of the node the constructor of the exporter builds and of no node of a
    tree. *)
Inductive CommentClass : Type :=
| cTextComment
| cChildOfComment (CLASS : string)
| cOtherComment (CLASS : string) (PARENT : CommentClass).

(** The parent of a class; [None] for a class whose parent is the root. *)
Definition CommentPARENT (c : CommentClass) : option CommentClass :=
  match c with
  | cTextComment => Some (cChildOfComment "InlineContentComment")
  | cChildOfComment _ => None
  | cOtherComment _ PARENT => Some PARENT
  end.

(** [Comment::getCommentKindName()], for a node of a class of the list. *)
Definition getCommentKindName (c : CommentClass) : string :=
  match c with
  | cTextComment => "TextComment"
  | cChildOfComment CLASS => CLASS
  | cOtherComment CLASS _ => CLASS
  end.

(** ** The kind-arity resolver ([TupleSizeBase] and its overrides)

    [TupleSizeBase] generates, for every entry [DECL(DERIVED, BASE)],
    a member [DERIVED##DeclTupleSize()] that returns [BASE##TupleSize()];
    the exporter replaces it for the classes it declares a visitor for. *)

Module TupleSize.
Definition DeclTupleSize : Z := 1.
Definition DeclContextTupleSize : Z := 2.
Definition NamedDeclTupleSize : Z := DeclTupleSize + 1.
Definition BlockDeclTupleSize : Z := DeclTupleSize + DeclContextTupleSize + 1.
Definition CapturedDeclTupleSize : Z := DeclTupleSize + DeclContextTupleSize.
Definition LinkageSpecDeclTupleSize : Z := DeclTupleSize + DeclContextTupleSize.
Definition NamespaceDeclTupleSize : Z := NamedDeclTupleSize + DeclContextTupleSize + 1.
Definition ObjCContainerDeclTupleSize : Z := NamedDeclTupleSize + DeclContextTupleSize.
Definition TypeDeclTupleSize : Z := NamedDeclTupleSize + 1 + 1.
Definition TagDeclTupleSize : Z := TypeDeclTupleSize + DeclContextTupleSize.
Definition ValueDeclTupleSize : Z := NamedDeclTupleSize + 1.
Definition TranslationUnitDeclTupleSize : Z := DeclTupleSize + DeclContextTupleSize + 1.
(* generated: DECL(TypedefName, TypeDecl) *)
Definition TypedefNameDeclTupleSize : Z := TypeDeclTupleSize.
Definition TypedefDeclTupleSize : Z := TypedefNameDeclTupleSize + 1.
Definition EnumDeclTupleSize : Z := TagDeclTupleSize + 1.
Definition RecordDeclTupleSize : Z := TagDeclTupleSize + 1.
Definition EnumConstantDeclTupleSize : Z := ValueDeclTupleSize + 1.
Definition IndirectFieldDeclTupleSize : Z := ValueDeclTupleSize + 1.
(* generated: DECL(Declarator, ValueDecl) *)
Definition DeclaratorDeclTupleSize : Z := ValueDeclTupleSize.
Definition FunctionDeclTupleSize : Z := DeclaratorDeclTupleSize + 1.
Definition FieldDeclTupleSize : Z := DeclaratorDeclTupleSize + 1.
Definition VarDeclTupleSize : Z := DeclaratorDeclTupleSize + 1.
Definition FileScopeAsmDeclTupleSize : Z := DeclTupleSize + 1.
Definition ImportDeclTupleSize : Z := DeclTupleSize + 1.
Definition UsingDirectiveDeclTupleSize : Z := NamedDeclTupleSize + 1.
Definition NamespaceAliasDeclTupleSize : Z := NamedDeclTupleSize + 1.
Definition CXXRecordDeclTupleSize : Z := RecordDeclTupleSize + 1.
Definition ObjCIvarDeclTupleSize : Z := FieldDeclTupleSize + 1.
Definition ObjCMethodDeclTupleSize : Z := NamedDeclTupleSize + 1.
Definition ObjCCategoryDeclTupleSize : Z := ObjCContainerDeclTupleSize + 1.
(* generated: DECL(ObjCImpl, ObjCContainerDecl) *)
Definition ObjCImplDeclTupleSize : Z := ObjCContainerDeclTupleSize.
Definition ObjCCategoryImplDeclTupleSize : Z := ObjCImplDeclTupleSize + 1.
Definition ObjCProtocolDeclTupleSize : Z := ObjCContainerDeclTupleSize + 1.
Definition ObjCInterfaceDeclTupleSize : Z := ObjCContainerDeclTupleSize + 1.
Definition ObjCImplementationDeclTupleSize : Z := ObjCImplDeclTupleSize + 1.
Definition ObjCCompatibleAliasDeclTupleSize : Z := NamedDeclTupleSize + 1.
Definition ObjCPropertyDeclTupleSize : Z := NamedDeclTupleSize + 1.
Definition ObjCPropertyImplDeclTupleSize : Z := DeclTupleSize + 1.

Definition StmtTupleSize : Z := 2.
Definition DeclStmtTupleSize : Z := StmtTupleSize + 1.
Definition AttributedStmtTupleSize : Z := StmtTupleSize + 1.
Definition LabelStmtTupleSize : Z := StmtTupleSize + 1.
Definition GotoStmtTupleSize : Z := StmtTupleSize + 1.
Definition CXXCatchStmtTupleSize : Z := StmtTupleSize + 1.
Definition ExprTupleSize : Z := StmtTupleSize + 1.
Definition CastExprTupleSize : Z := ExprTupleSize + 1.
Definition ExplicitCastExprTupleSize : Z := CastExprTupleSize + 1.
Definition DeclRefExprTupleSize : Z := ExprTupleSize + 1.
Definition OverloadExprTupleSize : Z := ExprTupleSize + 1.
Definition UnresolvedLookupExprTupleSize : Z := OverloadExprTupleSize + 1.
Definition ObjCIvarRefExprTupleSize : Z := ExprTupleSize + 1.
Definition PredefinedExprTupleSize : Z := ExprTupleSize + 1.
Definition CharacterLiteralTupleSize : Z := ExprTupleSize + 1.
Definition IntegerLiteralTupleSize : Z := ExprTupleSize + 1.
Definition FloatingLiteralTupleSize : Z := ExprTupleSize + 1.
Definition StringLiteralTupleSize : Z := ExprTupleSize + 1.
Definition UnaryOperatorTupleSize : Z := ExprTupleSize + 1.
Definition UnaryExprOrTypeTraitExprTupleSize : Z := ExprTupleSize + 1.
Definition MemberExprTupleSize : Z := ExprTupleSize + 1.
Definition ExtVectorElementExprTupleSize : Z := ExprTupleSize + 1.
Definition BinaryOperatorTupleSize : Z := ExprTupleSize + 1.
Definition CompoundAssignOperatorTupleSize : Z := BinaryOperatorTupleSize + 1.
Definition BlockExprTupleSize : Z := ExprTupleSize + DeclTupleSize.
Definition OpaqueValueExprTupleSize : Z := ExprTupleSize + 1.
Definition AddrLabelExprTupleSize : Z := ExprTupleSize + 1.
Definition CXXNamedCastExprTupleSize : Z := ExplicitCastExprTupleSize + 1.
Definition CXXBoolLiteralExprTupleSize : Z := ExprTupleSize + 1.
Definition CXXConstructExprTupleSize : Z := ExprTupleSize + 1.
Definition CXXBindTemporaryExprTupleSize : Z := ExprTupleSize + 1.
Definition MaterializeTemporaryExprTupleSize : Z := ExprTupleSize + 1.
Definition ExprWithCleanupsTupleSize : Z := ExprTupleSize + 1.
Definition LambdaExprTupleSize : Z := ExprTupleSize + DeclTupleSize.
Definition CXXNewExprTupleSize : Z := ExprTupleSize + 1.
Definition CXXDeleteExprTupleSize : Z := ExprTupleSize + 1.
Definition ObjCMessageExprTupleSize : Z := ExprTupleSize + 1.
Definition ObjCBoxedExprTupleSize : Z := ExprTupleSize + 1.
Definition ObjCAtCatchStmtTupleSize : Z := StmtTupleSize + 1.
Definition ObjCEncodeExprTupleSize : Z := ExprTupleSize + 1.
Definition ObjCSelectorExprTupleSize : Z := ExprTupleSize + 1.
Definition ObjCProtocolExprTupleSize : Z := ExprTupleSize + 1.
Definition ObjCPropertyRefExprTupleSize : Z := ExprTupleSize + 1.
Definition ObjCSubscriptRefExprTupleSize : Z := ExprTupleSize + 1.
Definition ObjCBoolLiteralExprTupleSize : Z := ExprTupleSize + 1.
End TupleSize.
Import TupleSize.

(** [tupleSizeOfDeclKind]: the [switch] sends a kind to its own
    [...TupleSize()]; a class without an override runs the generated member,
    which asks its [BASE]. *)
Fixpoint tupleSizeOfDeclKind (kind : DeclClass) : Z :=
  match kind with
  | cDecl => DeclTupleSize
  | cBlockDecl => BlockDeclTupleSize
  | cCapturedDecl => CapturedDeclTupleSize
  | cLinkageSpecDecl => LinkageSpecDeclTupleSize
  | cNamespaceDecl => NamespaceDeclTupleSize
  | cObjCContainerDecl => ObjCContainerDeclTupleSize
  | cTagDecl => TagDeclTupleSize
  | cTypeDecl => TypeDeclTupleSize
  | cTranslationUnitDecl => TranslationUnitDeclTupleSize
  | cNamedDecl => NamedDeclTupleSize
  | cValueDecl => ValueDeclTupleSize
  | cTypedefDecl => TypedefDeclTupleSize
  | cEnumDecl => EnumDeclTupleSize
  | cRecordDecl => RecordDeclTupleSize
  | cEnumConstantDecl => EnumConstantDeclTupleSize
  | cIndirectFieldDecl => IndirectFieldDeclTupleSize
  | cFunctionDecl => FunctionDeclTupleSize
  | cFieldDecl => FieldDeclTupleSize
  | cVarDecl => VarDeclTupleSize
  | cFileScopeAsmDecl => FileScopeAsmDeclTupleSize
  | cImportDecl => ImportDeclTupleSize
  | cUsingDirectiveDecl => UsingDirectiveDeclTupleSize
  | cNamespaceAliasDecl => NamespaceAliasDeclTupleSize
  | cCXXRecordDecl => CXXRecordDeclTupleSize
  | cObjCIvarDecl => ObjCIvarDeclTupleSize
  | cObjCMethodDecl => ObjCMethodDeclTupleSize
  | cObjCCategoryDecl => ObjCCategoryDeclTupleSize
  | cObjCCategoryImplDecl => ObjCCategoryImplDeclTupleSize
  | cObjCProtocolDecl => ObjCProtocolDeclTupleSize
  | cObjCInterfaceDecl => ObjCInterfaceDeclTupleSize
  | cObjCImplementationDecl => ObjCImplementationDeclTupleSize
  | cObjCCompatibleAliasDecl => ObjCCompatibleAliasDeclTupleSize
  | cObjCPropertyDecl => ObjCPropertyDeclTupleSize
  | cObjCPropertyImplDecl => ObjCPropertyImplDeclTupleSize
  | cOtherDecl _ BASE => tupleSizeOfDeclKind BASE
  end.

Fixpoint tupleSizeOfStmtClass (stmtClass : StmtClass) : Z :=
  match stmtClass with
  | cStmt => StmtTupleSize
  | cDeclStmt => DeclStmtTupleSize
  | cAttributedStmt => AttributedStmtTupleSize
  | cLabelStmt => LabelStmtTupleSize
  | cGotoStmt => GotoStmtTupleSize
  | cCXXCatchStmt => CXXCatchStmtTupleSize
  | cExpr => ExprTupleSize
  | cCastExpr => CastExprTupleSize
  | cExplicitCastExpr => ExplicitCastExprTupleSize
  | cDeclRefExpr => DeclRefExprTupleSize
  | cPredefinedExpr => PredefinedExprTupleSize
  | cCharacterLiteral => CharacterLiteralTupleSize
  | cIntegerLiteral => IntegerLiteralTupleSize
  | cFloatingLiteral => FloatingLiteralTupleSize
  | cStringLiteral => StringLiteralTupleSize
  | cUnaryOperator => UnaryOperatorTupleSize
  | cUnaryExprOrTypeTraitExpr => UnaryExprOrTypeTraitExprTupleSize
  | cMemberExpr => MemberExprTupleSize
  | cExtVectorElementExpr => ExtVectorElementExprTupleSize
  | cBinaryOperator => BinaryOperatorTupleSize
  | cCompoundAssignOperator => CompoundAssignOperatorTupleSize
  | cAddrLabelExpr => AddrLabelExprTupleSize
  | cBlockExpr => BlockExprTupleSize
  | cOpaqueValueExpr => OpaqueValueExprTupleSize
  | cCXXNamedCastExpr => CXXNamedCastExprTupleSize
  | cCXXBoolLiteralExpr => CXXBoolLiteralExprTupleSize
  | cCXXConstructExpr => CXXConstructExprTupleSize
  | cCXXBindTemporaryExpr => CXXBindTemporaryExprTupleSize
  | cMaterializeTemporaryExpr => MaterializeTemporaryExprTupleSize
  | cExprWithCleanups => ExprWithCleanupsTupleSize
  | cOverloadExpr => OverloadExprTupleSize
  | cUnresolvedLookupExpr => UnresolvedLookupExprTupleSize
  | cLambdaExpr => LambdaExprTupleSize
  | cCXXNewExpr => CXXNewExprTupleSize
  | cCXXDeleteExpr => CXXDeleteExprTupleSize
  | cObjCAtCatchStmt => ObjCAtCatchStmtTupleSize
  | cObjCEncodeExpr => ObjCEncodeExprTupleSize
  | cObjCMessageExpr => ObjCMessageExprTupleSize
  | cObjCBoxedExpr => ObjCBoxedExprTupleSize
  | cObjCSelectorExpr => ObjCSelectorExprTupleSize
  | cObjCProtocolExpr => ObjCProtocolExprTupleSize
  | cObjCPropertyRefExpr => ObjCPropertyRefExprTupleSize
  | cObjCSubscriptRefExpr => ObjCSubscriptRefExprTupleSize
  | cObjCIvarRefExpr => ObjCIvarRefExprTupleSize
  | cObjCBoolLiteralExpr => ObjCBoolLiteralExprTupleSize
  | cOtherStmt _ PARENT => tupleSizeOfStmtClass PARENT
  end.

(** ** The AST, as the exporter sees it through clang's accessors

    Nodes are owned by clang.  A field of a record below is the result of
    the accessor of the same name; an accessor of a class the node does not
    belong to is never called, and its field is then irrelevant. *)

(** The presumed location [SM.getPresumedLoc(SM.getSpellingLoc(Loc))] that a
    [SourceLocation] resolves to.  [PLoc.isInvalid()] holds for
    [PLocInvalid] only; the default [SourceLocation()] is invalid. *)
Inductive PresumedLoc : Type :=
| PLocInvalid
| PLocValid (Filename : string) (Line : Z) (Column : Z).

Definition SourceLocation : Type := PresumedLoc.
Record SourceRange : Type := { getBegin : SourceLocation; getEnd : SourceLocation }.
Definition SourceRange_invalid : SourceRange :=
  {| getBegin := PLocInvalid; getEnd := PLocInvalid |}.

Record QualType : Type := {
  QT_isNull : bool;
  QT_getAsString : string;            (* QualType::getAsString(T.split()) *)
  QT_isSugared : bool;                (* T.split() != T.getSplitDesugaredType() *)
  QT_getDesugaredAsString : string;   (* getAsString(T.getSplitDesugaredType()) *)
  QT_getTypePtrOrNull : ptr
}.
Definition QualType_null : QualType :=
  {| QT_isNull := true; QT_getAsString := ""; QT_isSugared := false;
     QT_getDesugaredAsString := ""; QT_getTypePtrOrNull := nullptr |}.

(** What is reachable through a [const Decl &] without walking its
    children: this is all [dumpDeclRef] and [dumpName] read. *)
Record DeclRef : Type := {
  DR_ptr : ptr;
  DR_getKind : DeclClass;
  DR_getNameAsString : string;
  DR_getQualifiedNameAsString : string;
  DR_isHidden : bool;
  DR_getType : QualType
}.

Record Attr : Type := {
  A_ptr : ptr;
  A_getKindName : string;             (* the X of [attr::X] *)
  A_getRange : SourceRange;
  A_isInherited : bool;
  A_isImplicit : bool;
  A_parameters : list string          (* what AttrDump.inc prints *)
}.

Record TypeRef : Type := {            (* a non-null [const Type *] *)
  TR_ptr : ptr;
  TR_getDesugaredAsString : string
}.

Record CXXBaseSpecifier : Type := {
  BS_isVirtual : bool;
  BS_getType : QualType;
  BS_getRecordName : string           (* getType()->getAs<RecordType>()->getDecl()->getName() *)
}.

Inductive SpecifierKind : Type :=
| NNS_Identifier | NNS_Namespace | NNS_NamespaceAlias | NNS_TypeSpec
| NNS_TypeSpecWithTemplate | NNS_Global | NNS_Super.

Record NestedNameSpecifierLoc : Type := {
  NNS_getKind : SpecifierKind;
  NNS_getAsNamespace : DeclRef;
  NNS_getAsNamespaceAlias : DeclRef
}.

Inductive StorageClass : Type :=
| SC_None
| SC_Some (getStorageClassSpecifierString : string).

Inductive TLSKind : Type := TLS_None | TLS_Static | TLS_Dynamic.
Inductive AccessControl : Type := AC_None | AC_Private | AC_Protected | AC_Public | AC_Package.
Inductive PropertyControl : Type := PC_None | PC_Required | PC_Optional.
Inductive PropertyImplKind : Type := PI_Synthesize | PI_Dynamic.

(** [ObjCPropertyDecl::PropertyAttributeKind], a bit mask (clang's values). *)
Definition OBJC_PR_noattr : Z := 0.
Definition OBJC_PR_readonly : Z := 1.
Definition OBJC_PR_getter : Z := 2.
Definition OBJC_PR_assign : Z := 4.
Definition OBJC_PR_readwrite : Z := 8.
Definition OBJC_PR_retain : Z := 16.
Definition OBJC_PR_copy : Z := 32.
Definition OBJC_PR_nonatomic : Z := 64.
Definition OBJC_PR_setter : Z := 128.
Definition OBJC_PR_atomic : Z := 256.
Definition OBJC_PR_weak : Z := 512.
Definition OBJC_PR_strong : Z := 1024.
Definition OBJC_PR_unsafe_unretained : Z := 2048.
(** [bool b = Attrs & MASK] *)
Definition has_bits (Attrs MASK : Z) : bool := negb (Z.land Attrs MASK =? 0).

Inductive DeclarationNameKind : Type :=
| DN_Identifier | DN_ObjCZeroArgSelector | DN_ObjCOneArgSelector
| DN_ObjCMultiArgSelector | DN_CXXConstructorName | DN_CXXDestructorName
| DN_CXXConversionFunctionName | DN_CXXOperatorName
| DN_CXXLiteralOperatorName | DN_CXXUsingDirective.

Record DeclarationName : Type := {
  DN_getNameKind : DeclarationNameKind;
  DN_getAsString : string
}.

Inductive ExprValueKind : Type := VK_RValue | VK_LValue | VK_XValue.
Inductive ExprObjectKind : Type :=
| OK_Ordinary | OK_BitField | OK_VectorComponent | OK_ObjCProperty | OK_ObjCSubscript.
Inductive IdentType : Type :=
| PE_Func | PE_Function | PE_LFunction | PE_FuncDName | PE_FuncSig
| PE_PrettyFunction | PE_PrettyFunctionNoVirtual.
Inductive UnaryOperatorKind : Type :=
| UO_PostInc | UO_PostDec | UO_PreInc | UO_PreDec | UO_AddrOf | UO_Deref
| UO_Plus | UO_Minus | UO_Not | UO_LNot | UO_Real | UO_Imag | UO_Extension.
Inductive UnaryExprOrTypeTrait : Type := UETT_SizeOf | UETT_AlignOf | UETT_VecStep.
Inductive BinaryOperatorKind : Type :=
| BO_PtrMemD | BO_PtrMemI | BO_Mul | BO_Div | BO_Rem | BO_Add | BO_Sub
| BO_Shl | BO_Shr | BO_LT | BO_GT | BO_LE | BO_GE | BO_EQ | BO_NE | BO_And
| BO_Xor | BO_Or | BO_LAnd | BO_LOr | BO_Assign | BO_MulAssign | BO_DivAssign
| BO_RemAssign | BO_AddAssign | BO_SubAssign | BO_ShlAssign | BO_ShrAssign
| BO_AndAssign | BO_XorAssign | BO_OrAssign | BO_Comma.
Inductive ReceiverKind : Type := RK_Class | RK_Instance | RK_SuperClass | RK_SuperInstance.

(** Comments form a tree of their own.  A node of a tree is of a class of
    [CommentNodes.inc]. *)
Inductive Comment : Type := MkComment {
  C_ptr : ptr;
  C_getCommentKind : CommentClass;
  C_getSourceRange : SourceRange;
  C_children : list Comment;
  C_getText : string                  (* TextComment *)
}.

(** Types are only ever reached through pointers: no type owns a node. *)
Record Type_ : Type := {
  T_ptr : ptr;
  T_getTypeClass : TypeClass;
  T_getAsString : string;             (* QualType(T, 0).getAsString() *)
  T_getUnqualifiedDesugaredType : ptr;
  T_getAdjustedType : QualType;
  T_getElementType : QualType;
  T_getSize : Z;                      (* getSize().getLimitedValue() *)
  T_getValueType : QualType;
  T_getPointeeType : QualType;
  T_getBuiltinKindName : string;      (* the TYPE of BUILTIN_TYPE(TYPE, ID) *)
  T_getUnderlyingType : QualType;
  T_getReturnType : QualType;
  T_getParamTypes : list QualType;
  T_getBaseType : QualType;
  T_getProtocols : list ptr;
  T_getDecl : ptr;
  T_getInnerType : QualType;
  T_desugar : QualType
}.

Record CXXCtorInitializer_ (Stmt : Type) : Type := {
  CI_getInit : option Stmt;
  CI_getAnyMember : option DeclRef;
  CI_isDelegatingInitializer : bool;
  CI_getType : QualType;              (* getTypeSourceInfo()->getType() *)
  CI_isBaseVirtual : bool
}.
Arguments CI_getInit {Stmt}.
Arguments CI_getAnyMember {Stmt}.
Arguments CI_isDelegatingInitializer {Stmt}.
Arguments CI_getType {Stmt}.
Arguments CI_isBaseVirtual {Stmt}.

Record Capture_ (Stmt : Type) : Type := {
  Cap_isByRef : bool;
  Cap_isNested : bool;
  Cap_getVariable : option DeclRef;
  Cap_hasCopyExpr : bool;
  Cap_getCopyExpr : option Stmt
}.
Arguments Cap_isByRef {Stmt}.
Arguments Cap_isNested {Stmt}.
Arguments Cap_getVariable {Stmt}.
Arguments Cap_hasCopyExpr {Stmt}.
Arguments Cap_getCopyExpr {Stmt}.

(** Declarations and statements.  A field of type [Decl], [Stmt] (or a list
    or option of them) is a node the exporter encodes by value; a [DeclRef]
    or a [ptr] is a node it only refers to.  A node that clang hands out
    through two accessors (a parameter of a block is also a member of the
    block) appears under both, with the same address. *)
Inductive Decl : Type := MkDecl {
  D_ref : DeclRef;
  (* Decl *)
  D_getLexicalDeclContext : ptr;
  D_getDeclContext : ptr;
  D_getDeclContext_asDecl : ptr;      (* cast<Decl>(D->getDeclContext()) *)
  D_getOwningModule : option string;  (* M->getFullModuleName() *)
  D_isImplicit : bool;
  D_isUsed : bool;
  D_isThisDeclarationReferenced : bool;
  D_isInvalidDecl : bool;
  D_isModulePrivate : bool;
  D_getSourceRange : SourceRange;
  D_getAttrs : list Attr;
  D_getLocalCommentForDeclUncached : option Comment;
  (* DeclContext *)
  D_decls : list Decl;
  D_hasExternalLexicalStorage : bool;
  D_hasExternalVisibleStorage : bool;
  (* TypeDecl *)
  D_getTypeForDecl : option TypeRef;
  (* NamespaceDecl *)
  D_isInline : bool;
  D_isOriginalNamespace : bool;
  D_getOriginalNamespace : DeclRef;
  (* EnumDecl, RecordDecl, CXXRecordDecl *)
  D_isScoped : bool;
  D_isScopedUsingClassTag : bool;
  D_isCompleteDefinition : bool;
  D_bases : list CXXBaseSpecifier;
  D_isCLike : bool;
  (* EnumConstantDecl, IndirectFieldDecl *)
  D_getInitExpr : option Stmt;
  D_chain : list DeclRef;
  (* FunctionDecl *)
  D_getStorageClass : StorageClass;
  D_isInlineSpecified : bool;
  D_isVirtualAsWritten : bool;
  D_isPure : bool;
  D_isDeletedAsWritten : bool;
  D_inits : list (CXXCtorInitializer_ Stmt);
  D_doesThisDeclarationHaveABody : bool;
  D_getBody : option Stmt;
  D_getDeclsInPrototypeScope : list (option Decl);
  D_params : list (option Decl);
  (* FieldDecl, VarDecl *)
  D_isMutable : bool;
  D_isBitField : bool;
  D_getBitWidth : option Stmt;
  D_getInClassInitializer : option Stmt;
  D_getTLSKind : TLSKind;
  D_isNRVOVariable : bool;
  D_hasInit : bool;
  D_getInit : option Stmt;
  (* FileScopeAsmDecl, ImportDecl *)
  D_getAsmString : string;
  D_getImportedModuleName : string;
  (* UsingDirectiveDecl, NamespaceAliasDecl *)
  D_getUsingLoc : SourceLocation;
  D_getNamespaceKeyLocation : SourceLocation;
  D_getQualifierLoc : list NestedNameSpecifierLoc;  (* NNS, NNS.getPrefix(), ... *)
  D_getNominatedNamespace : option DeclRef;
  D_getNamespaceLoc : SourceLocation;
  D_getTargetNameLoc : SourceLocation;
  D_getNamespace : DeclRef;
  (* Objective-C *)
  D_getSynthesize : bool;
  D_getAccessControl : AccessControl;
  D_isInstanceMethod : bool;
  D_isVariadic : bool;
  D_getReturnType : QualType;
  D_getClassInterface : option DeclRef;
  D_getImplementation : option DeclRef;
  D_protocols : list DeclRef;
  D_getCategoryDecl : option DeclRef;
  D_getSuperClass : option DeclRef;
  D_getPropertyImplementation : PropertyControl;
  D_getPropertyAttributes : Z;
  D_getPropertyType : QualType;       (* ObjCPropertyDecl::getType() *)
  D_getGetterMethodDecl : DeclRef;
  D_getSetterMethodDecl : DeclRef;
  D_getPropertyImplKind : PropertyImplKind;  (* ObjCPropertyImplDecl::getPropertyImplementation() *)
  D_getPropertyDecl : option DeclRef;
  D_getPropertyIvarDecl : option DeclRef;
  (* BlockDecl *)
  D_capturesCXXThis : bool;
  D_captures : list (Capture_ Stmt)
}
with Stmt : Type := MkStmt {
  S_ptr : ptr;
  S_getStmtClass : StmtClass;
  S_getSourceRange : SourceRange;
  S_children : list (option Stmt);
  (* DeclStmt, AttributedStmt, LabelStmt, GotoStmt, AddrLabelExpr, CXXCatchStmt *)
  S_decls : list (option Decl);
  S_getAttrs : list Attr;
  S_getName : string;
  S_getLabelName : string;            (* getLabel()->getName() *)
  S_getLabel : ptr;
  S_getExceptionDecl : option Decl;
  (* Expr *)
  S_getType : QualType;
  S_getValueKind : ExprValueKind;
  S_getObjectKind : ExprObjectKind;
  (* casts *)
  S_getCastKindName : string;
  S_path : list CXXBaseSpecifier;
  S_getTypeAsWritten : QualType;
  S_getCastName : string;
  (* DeclRefExpr, OverloadExpr, UnresolvedLookupExpr, MemberExpr *)
  S_getDecl : option DeclRef;
  S_getFoundDecl : option DeclRef;
  S_overload_decls : list DeclRef;     (* OverloadExpr::decls(); getNumDecls() is its length *)
  S_getDeclarationName : DeclarationName;  (* OverloadExpr::getName() *)
  S_requiresADL : bool;
  S_isOverloaded : bool;
  S_getNamingClass : option DeclRef;
  S_isArrow : bool;
  S_getMemberDecl : DeclRef;
  (* literals and operators *)
  S_getIdentType : IdentType;
  S_getCharacterValue : Z;            (* CharacterLiteral::getValue() *)
  S_isSignedIntegerType : bool;       (* getType()->isSignedIntegerType() *)
  S_getBitWidth : Z;                  (* getValue().getBitWidth() *)
  S_getValueAsString : string;        (* getValue().toString(...) *)
  S_getBytes : string;
  S_getBoolValue : bool;              (* CXXBoolLiteralExpr / ObjCBoolLiteralExpr *)
  S_getUnaryOpcode : UnaryOperatorKind;
  S_isPostfix : bool;
  S_getTraitKind : UnaryExprOrTypeTrait;
  S_isArgumentType : bool;
  S_getArgumentType : QualType;
  S_getAccessorName : string;         (* getAccessor().getNameStart() *)
  S_getBinaryOpcode : BinaryOperatorKind;
  S_getComputationLHSType : QualType;
  S_getComputationResultType : QualType;
  (* BlockExpr, LambdaExpr, OpaqueValueExpr, ExprWithCleanups *)
  S_getBlockDecl : option Decl;
  S_getLambdaClass : option Decl;
  S_getSourceExpr : option Stmt;
  S_getObjects : list DeclRef;        (* getObject(i), i < getNumObjects() *)
  S_getSubExpr : option Stmt;
  (* C++ *)
  S_isElidable : bool;
  S_requiresZeroInitialization : bool;
  S_getConstructorType : QualType;    (* getConstructor()->getType() *)
  S_getTemporary : ptr;
  S_getExtendingDecl : option DeclRef;
  S_isArray : bool;
  S_getArraySize : ptr;
  S_hasInitializer : bool;
  S_getInitializer : ptr;
  S_isArrayForm : bool;
  (* Objective-C *)
  S_getCatchParamDecl : option Decl;
  S_getEncodedType : QualType;
  S_getSelector : string;             (* getSelector().getAsString() *)
  S_getReceiverInterface : bool;      (* is it non-null? *)
  S_lookupPrivateMethod : ptr;        (* receiver->lookupPrivateMethod(selector, IsInst) *)
  S_lookupMethod : ptr;               (* receiver->lookupMethod(selector, IsInst) *)
  S_getReceiverKind : ReceiverKind;
  S_getClassReceiver : QualType;
  S_getBoxingMethodSelector : string;
  S_getProtocol : DeclRef;
  S_isSuperReceiver : bool;
  S_isMessagingGetter : bool;
  S_isMessagingSetter : bool;
  S_isImplicitProperty : bool;
  S_getImplicitPropertyGetter : option string;   (* its selector *)
  S_getImplicitPropertySetter : option string;
  S_getExplicitProperty : DeclRef;
  S_getAtIndexMethodDecl : option string;
  S_setAtIndexMethodDecl : option string;
  S_isArraySubscriptRefExpr : bool;
  S_getIvarDecl : DeclRef;            (* ObjCIvarRefExpr::getDecl() *)
  S_isFreeIvar : bool
}.

Abbreviation CXXCtorInitializer := (CXXCtorInitializer_ Stmt).
Abbreviation Capture := (Capture_ Stmt).

Definition D_ptr (D : Decl) : ptr := DR_ptr (D_ref D).
Definition D_getKind (D : Decl) : DeclClass := DR_getKind (D_ref D).

(** *** Nodes with every accessor at its default

    [mkDecl] and [mkStmt] build a node from the few accessors that matter in
    the examples; every other accessor returns null, false or empty. *)

Definition mkDeclRef (p : ptr) (kind : DeclClass) (name qualName : string) : DeclRef :=
  {| DR_ptr := p; DR_getKind := kind; DR_getNameAsString := name;
     DR_getQualifiedNameAsString := qualName; DR_isHidden := false;
     DR_getType := QualType_null |}.

Definition mkDecl (ref : DeclRef) (DC : ptr) (range : SourceRange)
    (decls : list Decl) (params : list (option Decl)) (body : option Stmt) : Decl :=
  {| D_ref := ref;
     D_getLexicalDeclContext := DC; D_getDeclContext := DC;
     D_getDeclContext_asDecl := DC; D_getOwningModule := None;
     D_isImplicit := false; D_isUsed := false;
     D_isThisDeclarationReferenced := false; D_isInvalidDecl := false;
     D_isModulePrivate := false; D_getSourceRange := range;
     D_getAttrs := []; D_getLocalCommentForDeclUncached := None;
     D_decls := decls; D_hasExternalLexicalStorage := false;
     D_hasExternalVisibleStorage := false;
     D_getTypeForDecl := None;
     D_isInline := false; D_isOriginalNamespace := true;
     D_getOriginalNamespace := ref;
     D_isScoped := false; D_isScopedUsingClassTag := false;
     D_isCompleteDefinition := false; D_bases := []; D_isCLike := false;
     D_getInitExpr := None; D_chain := [];
     D_getStorageClass := SC_None; D_isInlineSpecified := false;
     D_isVirtualAsWritten := false; D_isPure := false;
     D_isDeletedAsWritten := false; D_inits := [];
     D_doesThisDeclarationHaveABody := notnull body; D_getBody := body;
     D_getDeclsInPrototypeScope := []; D_params := params;
     D_isMutable := false; D_isBitField := false; D_getBitWidth := None;
     D_getInClassInitializer := None; D_getTLSKind := TLS_None;
     D_isNRVOVariable := false; D_hasInit := false; D_getInit := None;
     D_getAsmString := ""; D_getImportedModuleName := "";
     D_getUsingLoc := PLocInvalid; D_getNamespaceKeyLocation := PLocInvalid;
     D_getQualifierLoc := []; D_getNominatedNamespace := None;
     D_getNamespaceLoc := PLocInvalid; D_getTargetNameLoc := PLocInvalid;
     D_getNamespace := ref;
     D_getSynthesize := false; D_getAccessControl := AC_None;
     D_isInstanceMethod := false; D_isVariadic := false;
     D_getReturnType := QualType_null;
     D_getClassInterface := None; D_getImplementation := None;
     D_protocols := []; D_getCategoryDecl := None; D_getSuperClass := None;
     D_getPropertyImplementation := PC_None; D_getPropertyAttributes := 0;
     D_getPropertyType := QualType_null;
     D_getGetterMethodDecl := ref; D_getSetterMethodDecl := ref;
     D_getPropertyImplKind := PI_Synthesize;
     D_getPropertyDecl := None; D_getPropertyIvarDecl := None;
     D_capturesCXXThis := false; D_captures := [] |}.

Definition mkStmt (p : ptr) (stmtClass : StmtClass) (range : SourceRange)
    (children : list (option Stmt)) (decls : list (option Decl))
    (blockDecl : option Decl) : Stmt :=
  let noref := mkDeclRef nullptr cDecl "" "" in
  {| S_ptr := p; S_getStmtClass := stmtClass; S_getSourceRange := range;
     S_children := children;
     S_decls := decls; S_getAttrs := []; S_getName := "";
     S_getLabelName := ""; S_getLabel := nullptr; S_getExceptionDecl := None;
     S_getType := QualType_null; S_getValueKind := VK_RValue;
     S_getObjectKind := OK_Ordinary;
     S_getCastKindName := ""; S_path := []; S_getTypeAsWritten := QualType_null;
     S_getCastName := "";
     S_getDecl := None; S_getFoundDecl := None; S_overload_decls := [];
     S_getDeclarationName := {| DN_getNameKind := DN_Identifier; DN_getAsString := "" |};
     S_requiresADL := false; S_isOverloaded := false; S_getNamingClass := None;
     S_isArrow := false; S_getMemberDecl := noref;
     S_getIdentType := PE_Func; S_getCharacterValue := 0;
     S_isSignedIntegerType := false; S_getBitWidth := 0;
     S_getValueAsString := ""; S_getBytes := ""; S_getBoolValue := false;
     S_getUnaryOpcode := UO_PostInc; S_isPostfix := false;
     S_getTraitKind := UETT_SizeOf; S_isArgumentType := false;
     S_getArgumentType := QualType_null; S_getAccessorName := "";
     S_getBinaryOpcode := BO_PtrMemD;
     S_getComputationLHSType := QualType_null;
     S_getComputationResultType := QualType_null;
     S_getBlockDecl := blockDecl; S_getLambdaClass := None;
     S_getSourceExpr := None; S_getObjects := []; S_getSubExpr := None;
     S_isElidable := false; S_requiresZeroInitialization := false;
     S_getConstructorType := QualType_null; S_getTemporary := nullptr;
     S_getExtendingDecl := None; S_isArray := false; S_getArraySize := nullptr;
     S_hasInitializer := false; S_getInitializer := nullptr;
     S_isArrayForm := false;
     S_getCatchParamDecl := None; S_getEncodedType := QualType_null;
     S_getSelector := ""; S_getReceiverInterface := false;
     S_lookupPrivateMethod := nullptr; S_lookupMethod := nullptr;
     S_getReceiverKind := RK_Instance; S_getClassReceiver := QualType_null;
     S_getBoxingMethodSelector := ""; S_getProtocol := noref;
     S_isSuperReceiver := false; S_isMessagingGetter := false;
     S_isMessagingSetter := false; S_isImplicitProperty := false;
     S_getImplicitPropertyGetter := None; S_getImplicitPropertySetter := None;
     S_getExplicitProperty := noref;
     S_getAtIndexMethodDecl := None; S_setAtIndexMethodDecl := None;
     S_isArraySubscriptRefExpr := false; S_getIvarDecl := noref;
     S_isFreeIvar := false |}.

(** [EmptyDecl::Create(Context, DC, SourceLocation())] allocated at [p]. *)
Definition EmptyDecl_Create (p : ptr) (DC : ptr) : Decl :=
  mkDecl (mkDeclRef p cEmptyDecl "" "") DC SourceRange_invalid [] [] None.

(** [new (Context) NullStmt(SourceLocation())] allocated at [p]. *)
Definition NullStmt_new (p : ptr) : Stmt :=
  mkStmt p cNullStmt SourceRange_invalid [] [] None.

(** ** Options

    Modelled from the spec: the file-membership predicate is pluggable
    ([deduplicationService], consulted through
    [FileUtils::shouldTraverseDeclFile] with [basePath]); neither it nor
    [normalizeSourcePath] is part of the sources. *)
Record ASTExporterOptions : Type := {
  withPointers : bool;
  basePath : string;
  normalizeSourcePath : string → string;
  deduplicationService : option (string → Decl → bool)
}.

Definition shouldTraverseDeclFile (service : string → Decl → bool)
    (basePath : string) (D : Decl) : bool := service basePath D.

(** ** State updates *)

(** [pointerMap[Ptr] = pointerCounter++] *)
Definition assign_pointer (Ptr : ptr) (w : World) : World :=
  {| pointerMap := <[Ptr := pointerCounter w]> (pointerMap w);
     pointerCounter := wrap_int (pointerCounter w + 1);
     NullPtrStmt := NullPtrStmt w; NullPtrDecl := NullPtrDecl w;
     NullPtrComment := NullPtrComment w;
     LastLocFilename := LastLocFilename w; LastLocLine := LastLocLine w;
     FC := FC w; allocated := allocated w; consulted := consulted w |}.

(** [LastLocFilename = file; LastLocLine = line;] *)
Definition set_LastLoc (file : string) (line : Z) (w : World) : World :=
  {| pointerMap := pointerMap w; pointerCounter := pointerCounter w;
     NullPtrStmt := NullPtrStmt w; NullPtrDecl := NullPtrDecl w;
     NullPtrComment := NullPtrComment w;
     LastLocFilename := file; LastLocLine := line;
     FC := FC w; allocated := allocated w; consulted := consulted w |}.

(** [FC = C;] *)
Definition set_FC (C : ptr) (w : World) : World :=
  {| pointerMap := pointerMap w; pointerCounter := pointerCounter w;
     NullPtrStmt := NullPtrStmt w; NullPtrDecl := NullPtrDecl w;
     NullPtrComment := NullPtrComment w;
     LastLocFilename := LastLocFilename w; LastLocLine := LastLocLine w;
     FC := C; allocated := allocated w; consulted := consulted w |}.

(** A call of [FileUtils::shouldTraverseDeclFile] on the declaration at [D]. *)
Definition log_consulted (D : ptr) (w : World) : World :=
  {| pointerMap := pointerMap w; pointerCounter := pointerCounter w;
     NullPtrStmt := NullPtrStmt w; NullPtrDecl := NullPtrDecl w;
     NullPtrComment := NullPtrComment w;
     LastLocFilename := LastLocFilename w; LastLocLine := LastLocLine w;
     FC := FC w; allocated := allocated w; consulted := consulted w ++ [D] |}.

Definition modify (f : World → World) : M unit := λ w, (tt, f w, []).

(** ** [dumpName]: splitting the qualified name

    [std::string::find(token, pos)] is [String.index pos token s], with
    [None] for [npos]; [substr(pos, n)] is [String.substring pos n s]. *)

(** The [while (lastChar != npos)] loop.  It is run with more fuel than it
    can use (see [split_qualName_components]); [None] would mean the fuel ran
    out. *)
Fixpoint split_loop (fuel : nat) (qualName : string) (splitted : list string)
    (firstChar : nat) (lastChar : option nat) : option (list string * nat) :=
  match lastChar with
  | None => Some (splitted, firstChar)
  | Some lastChar =>
      match fuel with
      | O => None
      | S fuel =>
          let splitted := splitted ++ [String.substring firstChar (lastChar - firstChar) qualName] in
          let firstChar := (lastChar + String.length "::")%nat in
          split_loop fuel qualName splitted firstChar (String.index firstChar "::" qualName)
      end
  end.

(** The vector [splitted] after the final [push_back]. *)
Definition split_qualName (qualName : string) : option (list string) :=
  match split_loop (S (String.length qualName)) qualName [] 0
          (String.index 0 "::" qualName) with
  | Some (splitted, firstChar) =>
      Some (splitted ++
            [String.substring firstChar (String.length qualName - firstChar) qualName])
  | None => None
  end.

(** What the constructor of the exporter asks of the [ASTContext]: the
    translation unit, the types, and memory for the three nodes it builds
    ([new (Context) ...], [EmptyDecl::Create(Context, ...)]).  The
    allocator is clang's: [Allocate n] is the address it returns for the
    node allocated when [n] nodes have been allocated before. *)
Record ASTContext : Type := {
  getTranslationUnitDecl : ptr;
  getTypes : list Type_;
  Allocate : nat → ptr
}.

(** The member initialisers
    [NullPtrStmt(new (Context) NullStmt(SourceLocation()))],
    [NullPtrDecl(EmptyDecl::Create(Context, Context.getTranslationUnitDecl(), SourceLocation()))]
    and
    [NullPtrComment(new (Context) Comment(Comment::NoCommentKind, SourceLocation(), SourceLocation()))]:
    three allocations, in the order of the members. *)
Definition allocate_sentinels (Context : ASTContext) (w : World) : World :=
  {| pointerMap := pointerMap w; pointerCounter := pointerCounter w;
     NullPtrStmt := Allocate Context (allocated w);
     NullPtrDecl := Allocate Context (S (allocated w));
     NullPtrComment := Allocate Context (S (S (allocated w)));
     LastLocFilename := LastLocFilename w; LastLocLine := LastLocLine w;
     FC := FC w; allocated := S (S (S (allocated w))); consulted := consulted w |}.

(** ** Member functions of the exporter *)

Section Exporter.
(** The text [printf("%p")] produces for an address (implementation
    defined). *)
Variable fmt_p : ptr → string.

(** [writePointer(OF, withPointers, Ptr)] *)
Definition writePointer (withPointers : bool) (Ptr : ptr) : M unit :=
  if withPointers then
    emitString (snprintf20 (fmt_p Ptr))
  else
    w ← get;
    (if decide (pointerMap w !! Ptr = None)
     then modify (assign_pointer Ptr)
     else mret tt) ;;
    w ← get;
    emitString (snprintf20 (pretty (default 0 (pointerMap w !! Ptr)))).

Variable Options : ASTExporterOptions.

Definition dumpPointer (Ptr : ptr) : M unit :=
  writePointer (withPointers Options) Ptr.

Definition dumpSourceLocation (Loc : SourceLocation) : M unit :=
  match Loc with
  | PLocInvalid => ObjectScope 0 (mret tt)
  | PLocValid Filename Line Column =>
      w ← get;
      (if negb (String.eqb Filename (LastLocFilename w)) then
         ObjectScope 3 (
           emitTag "file" ;;
           emitString (normalizeSourcePath Options Filename) ;;
           emitTag "line" ;;
           emitInteger Line ;;
           emitTag "column" ;;
           emitInteger Column)
       else if negb (Line =? LastLocLine w) then
         ObjectScope 2 (
           emitTag "line" ;;
           emitInteger Line ;;
           emitTag "column" ;;
           emitInteger Column)
       else
         ObjectScope 1 (
           emitTag "column" ;;
           emitInteger Column)) ;;
      modify (set_LastLoc Filename Line)
  end.

Definition dumpSourceRange (R : SourceRange) : M unit :=
  TupleScope 2 (
    dumpSourceLocation (getBegin R) ;;
    dumpSourceLocation (getEnd R)).

Definition dumpTypeOld (T : option TypeRef) : M unit :=
  match T with
  | None => emitSimpleVariant "NoType"
  | Some T => VariantScope "Type" (emitString (TR_getDesugaredAsString T))
  end.

Definition dumpPointerToType (qt : QualType) : M unit :=
  dumpPointer (QT_getTypePtrOrNull qt).

Definition dumpQualType (T : QualType) : M unit :=
  let ShouldEmitDesugared := negb (QT_isNull T) && QT_isSugared T in
  ObjectScope (2 + b2z ShouldEmitDesugared) (
    emitTag "raw" ;;
    emitString (QT_getAsString T) ;;
    when ShouldEmitDesugared (
      emitTag "desugared" ;;
      emitString (QT_getDesugaredAsString T)) ;;
    emitTag "type_ptr" ;;
    dumpPointerToType T).

Definition dumpName (decl : DeclRef) : M unit :=
  ObjectScope 2 (
    emitTag "name" ;;
    emitString (DR_getNameAsString decl) ;;
    emitTag "qual_name" ;;
    let qualName := DR_getQualifiedNameAsString decl in
    let splitted := default [] (split_qualName qualName) in
    ArrayScope (len splitted) (
      (* for (int i = splitted.size() - 1; i >= 0; i--) *)
      forM_ emitString (rev splitted))).

Definition dumpDeclRef (D : DeclRef) : M unit :=
  let ND := isa_NamedDecl (DR_getKind D) in
  let VD := isa_ValueDecl (DR_getKind D) in
  let IsHidden := ND && DR_isHidden D in
  ObjectScope (2 + b2z ND + b2z VD + b2z IsHidden) (
    emitTag "kind" ;;
    emitSimpleVariant (getDeclKindName (DR_getKind D)) ;;
    emitTag "decl_pointer" ;;
    dumpPointer (DR_ptr D) ;;
    when ND (
      emitTag "name" ;;
      dumpName D ;;
      emitFlag "is_hidden" IsHidden) ;;
    when VD (
      emitTag "qual_type" ;;
      dumpQualType (DR_getType D))).

Definition dumpAttr (Att : Attr) : M unit :=
  let tag := A_getKindName Att +:+ "Attr" in
  VariantScope tag (
    let IsInherited := A_isInherited Att in
    let IsImplicit := A_isImplicit Att in
    ObjectScope (3 + b2z IsInherited + b2z IsImplicit) (
      emitTag "pointer" ;;
      dumpPointer (A_ptr Att) ;;
      emitTag "source_range" ;;
      dumpSourceRange (A_getRange Att) ;;
      emitTag "parameters" ;;
      ArrayScope (len (A_parameters Att)) (
        forM_ emitString (A_parameters Att)) ;;
      emitFlag "is_inherited" IsInherited ;;
      emitFlag "is_implicit" IsImplicit)).

(** [dumpPreviousDeclOptionallyWithTag] calls
    [dumpPreviousDeclImpl(OF, cast<...>(D))] with two arguments; only the
    overload [(ATDWriter &OF, bool withPointers, ...)] takes two, and its
    body is empty. *)
Definition dumpPreviousDeclOptionallyWithTag (withPointers : bool) (D : DeclRef) : M unit :=
  mret tt.

Definition dumpDeclarationName (Name : DeclarationName) : M unit :=
  ObjectScope 2 (
    emitTag "kind" ;;
    match DN_getNameKind Name with
    | DN_Identifier => emitSimpleVariant "Identifier"
    | DN_ObjCZeroArgSelector => emitSimpleVariant "ObjCZeroArgSelector"
    | DN_ObjCOneArgSelector => emitSimpleVariant "ObjCOneArgSelector"
    | DN_ObjCMultiArgSelector => emitSimpleVariant "ObjCMultiArgSelector"
    | DN_CXXConstructorName => emitSimpleVariant "CXXConstructorName"
    | DN_CXXDestructorName => emitSimpleVariant "CXXDestructorName"
    | DN_CXXConversionFunctionName => emitSimpleVariant "CXXConversionFunctionName"
    | DN_CXXOperatorName => emitSimpleVariant "CXXOperatorName"
    | DN_CXXLiteralOperatorName => emitSimpleVariant "CXXLiteralOperatorName"
    | DN_CXXUsingDirective => emitSimpleVariant "CXXUsingDirective"
    end ;;
    emitTag "name" ;;
    emitString (DN_getAsString Name)).

(** [NNS] is the chain [NNS, NNS.getPrefix(), ...]; [NestedNames] is
    filled in that order and emptied from the back. *)
Definition dumpNestedNameSpecifierLoc (NNS : list NestedNameSpecifierLoc) : M unit :=
  let NestedNames := NNS in
  ArrayScope (len NestedNames) (
    forM_ (λ NNS,
      ObjectScope 2 (
        emitTag "kind" ;;
        match NNS_getKind NNS with
        | NNS_Identifier => emitSimpleVariant "Identifier"
        | NNS_Namespace =>
            emitSimpleVariant "Namespace" ;;
            emitTag "ref" ;;
            dumpDeclRef (NNS_getAsNamespace NNS)
        | NNS_NamespaceAlias =>
            emitSimpleVariant "NamespaceAlias" ;;
            emitTag "ref" ;;
            dumpDeclRef (NNS_getAsNamespaceAlias NNS)
        | NNS_TypeSpec => emitSimpleVariant "TypeSpec"
        | NNS_TypeSpecWithTemplate => emitSimpleVariant "TypeSpecWithTemplate"
        | NNS_Global => emitSimpleVariant "Global"
        | NNS_Super => emitSimpleVariant "Super"
        end))
      (rev NestedNames)).

Definition dumpCXXBaseSpecifier (Base : CXXBaseSpecifier) : M unit :=
  let IsVirtual := BS_isVirtual Base in
  ObjectScope (1 + b2z IsVirtual) (
    emitTag "name" ;;
    emitString (BS_getRecordName Base) ;;
    emitFlag "virtual" IsVirtual).

Definition dumpSelector (sel : string) : M unit := emitString sel.
Definition dumpCXXTemporary (Temporary : ptr) : M unit := dumpPointer Temporary.

Variable Context : ASTContext.

(** [types]: the types of the context, then [nullptr]. *)
Definition types : list (option Type_) := (Some <$> getTypes Context) ++ [None].

(** *** Comments *)

Section CommentVisitors.
Variable dumpComment : Comment → M unit.

Definition visitComment (C : Comment) : M unit :=
  ObjectScope 2 (
    emitTag "parent_pointer" ;;
    dumpPointer (C_ptr C) ;;
    emitTag "source_range" ;;
    dumpSourceRange (C_getSourceRange C)) ;;
  ArrayScope (len (C_children C)) (
    forM_ dumpComment (C_children C)).

Definition visitTextComment (C : Comment) : M unit :=
  visitComment C ;;
  emitString (C_getText C).

(** [ConstCommentVisitor::visit], for a node [C] of a class of
    [CommentNodes.inc].  The visitor is clang's and not part of the
    sources; as clang's visitors do, it is taken to call the [visit...] of
    the class of [C], which the exporter defines for [TextComment] and
    which otherwise falls back on the one of the parent class, up to
    [visitComment] for the root.  Nothing is assumed about a node of the
    kind [NoCommentKind], which is no class of the list (see
    [dumpComment]). *)
Definition ConstCommentVisitor_visit (C : Comment) : CommentClass → M unit :=
  fix visit c :=
    match c with
    | cTextComment => visitTextComment C
    | cChildOfComment _ => visitComment C
    | cOtherComment _ PARENT => visit PARENT
    end.

Definition dumpComment_body (C : Comment) : M unit :=
  VariantScope (getCommentKindName (C_getCommentKind C)) (
    TupleScope_unsized (
      ConstCommentVisitor_visit C (C_getCommentKind C))).
End CommentVisitors.

(** [dumpComment(C)] for a [C] that is not null. *)
Fixpoint dumpComment_rec (C : Comment) : M unit :=
  dumpComment_body dumpComment_rec C.

(** [dumpComment(C)].  For a null [C] the member [NullPtrComment] takes its
    place: the node the constructor built with [Comment::NoCommentKind].
    That kind is no class of [CommentNodes.inc], and what clang's
    [ConstCommentVisitor::visit] does with such a node (as for any kind it
    has no case for) is not determined by the sources: the model gives no
    encoding then ([None]). *)
Definition dumpComment (C : option Comment) : option (M unit) :=
  match C with
  | None => None
  | Some C => Some (dumpComment_rec C)
  end.

(** [FC = C; dumpComment(C); FC = 0;], for the full comment of a
    declaration, which is not null. *)
Definition dumpFullComment (C : Comment) : M unit :=
  modify (set_FC (C_ptr C)) ;;
  dumpComment_rec C ;;
  modify (set_FC nullptr).

(** *** Types *)

(** [QualType(nullptr, 0).getAsString()] *)
Definition null_type_getAsString : string := "NULL TYPE".

Definition VisitType (T : option Type_) : M unit :=
  let HasDesugaredType :=
    match T with
    | Some T => negb (T_getUnqualifiedDesugaredType T =? T_ptr T)
    | None => false
    end in
  ObjectScope (2 + b2z HasDesugaredType) (
    emitTag "pointer" ;;
    dumpPointer (from_option T_ptr nullptr T) ;;
    emitTag "raw" ;;
    emitString (from_option T_getAsString null_type_getAsString T) ;;
    when HasDesugaredType (
      emitTag "desugared_type" ;;
      dumpPointer (from_option T_getUnqualifiedDesugaredType nullptr T))).

Definition VisitAdjustedType (T : Type_) : M unit :=
  VisitType (Some T) ;;
  dumpPointerToType (T_getAdjustedType T).

Definition VisitArrayType (T : Type_) : M unit :=
  VisitType (Some T) ;;
  dumpPointerToType (T_getElementType T).

Definition VisitConstantArrayType (T : Type_) : M unit :=
  VisitArrayType T ;;
  emitInteger (T_getSize T).

Definition VisitAtomicType (T : Type_) : M unit :=
  VisitType (Some T) ;;
  dumpPointerToType (T_getValueType T).

Definition VisitBlockPointerType (T : Type_) : M unit :=
  VisitType (Some T) ;;
  dumpPointerToType (T_getPointeeType T).

Definition VisitBuiltinType (T : Type_) : M unit :=
  VisitType (Some T) ;;
  let type_name := T_getBuiltinKindName T in
  emitSimpleVariant type_name.

Definition VisitDecltypeType (T : Type_) : M unit :=
  VisitType (Some T) ;;
  dumpPointerToType (T_getUnderlyingType T).

Definition VisitFunctionType (T : Type_) : M unit :=
  VisitType (Some T) ;;
  ObjectScope 1 (
    emitTag "return_type" ;;
    dumpPointerToType (T_getReturnType T)).

Definition VisitFunctionProtoType (T : Type_) : M unit :=
  VisitFunctionType T ;;
  let HasParamsType := 0 <? len (T_getParamTypes T) in
  ObjectScope (0 + b2z HasParamsType) (
    when HasParamsType (
      emitTag "params_type" ;;
      ArrayScope (len (T_getParamTypes T)) (
        forM_ dumpPointerToType (T_getParamTypes T)))).

Definition VisitMemberPointerType (T : Type_) : M unit :=
  VisitType (Some T) ;;
  dumpPointerToType (T_getPointeeType T).

Definition VisitObjCObjectPointerType (T : Type_) : M unit :=
  VisitType (Some T) ;;
  dumpPointerToType (T_getPointeeType T).

Definition VisitObjCObjectType (T : Type_) : M unit :=
  VisitType (Some T) ;;
  let numProtocols := len (T_getProtocols T) in
  let HasProtocols := 0 <? numProtocols in
  ObjectScope (1 + b2z HasProtocols) (
    emitTag "base_type" ;;
    dumpPointerToType (T_getBaseType T) ;;
    when HasProtocols (
      emitTag "protocol_decls_ptr" ;;
      ArrayScope numProtocols (
        forM_ dumpPointer (T_getProtocols T)))).

Definition VisitObjCInterfaceType (T : Type_) : M unit :=
  (* skip VisitObjCObjectType deliberately - ObjCInterfaceType can't have any protocols *)
  VisitType (Some T) ;;
  dumpPointer (T_getDecl T).

Definition VisitParenType (T : Type_) : M unit :=
  VisitType (Some T) ;;
  dumpPointerToType (T_getInnerType T).

Definition VisitPointerType (T : Type_) : M unit :=
  VisitType (Some T) ;;
  dumpPointerToType (T_getPointeeType T).

Definition VisitReferenceType (T : Type_) : M unit :=
  VisitType (Some T) ;;
  dumpPointerToType (T_getPointeeType T).

Definition VisitTagType (T : Type_) : M unit :=
  VisitType (Some T) ;;
  dumpPointer (T_getDecl T).

Definition VisitTypedefType (T : Type_) : M unit :=
  VisitType (Some T) ;;
  ObjectScope 2 (
    emitTag "child_type" ;;
    dumpPointerToType (T_desugar T) ;;
    emitTag "decl_ptr" ;;
    dumpPointer (T_getDecl T)).

(** [TypeVisitor::Visit] *)
Definition TypeVisitor_Visit (T : Type_) : TypeClass → M unit :=
  fix Visit c :=
    match c with
    | cType => VisitType (Some T)
    | cAdjustedType => VisitAdjustedType T
    | cArrayType => VisitArrayType T
    | cConstantArrayType => VisitConstantArrayType T
    | cAtomicType => VisitAtomicType T
    | cBlockPointerType => VisitBlockPointerType T
    | cBuiltinType => VisitBuiltinType T
    | cDecltypeType => VisitDecltypeType T
    | cFunctionType => VisitFunctionType T
    | cFunctionProtoType => VisitFunctionProtoType T
    | cMemberPointerType => VisitMemberPointerType T
    | cObjCObjectPointerType => VisitObjCObjectPointerType T
    | cObjCObjectType => VisitObjCObjectType T
    | cObjCInterfaceType => VisitObjCInterfaceType T
    | cParenType => VisitParenType T
    | cPointerType => VisitPointerType T
    | cReferenceType => VisitReferenceType T
    | cTagType => VisitTagType T
    | cTypedefType => VisitTypedefType T
    | cOtherType _ BASE => Visit BASE
    end.

Definition dumpType (T : option Type_) : M unit :=
  let typeClassName :=
    match T with
    | Some T => getTypeClassName (T_getTypeClass T)
    | None => "None"
    end in
  VariantScope (typeClassName +:+ "Type") (
    TupleScope_unsized (
      match T with
      | Some T => TypeVisitor_Visit T (T_getTypeClass T)
      | None => VisitType None
      end)).

(** *** Declarations and statements

    The visitors call [dumpDecl] and [dumpStmt] on the children of the
    node they are given.  They are written first with these two as
    parameters and closed into a structural recursion afterwards. *)

Section Visitors.
Variable dumpDecl_rec : Decl → M unit.   (* dumpDecl on a non-null pointer *)
Variable dumpStmt_rec : Stmt → M unit.   (* dumpStmt on a non-null pointer *)
Variable dumpNullDecl : M unit.          (* dumpDecl(nullptr) *)
Variable dumpNullStmt : M unit.          (* dumpStmt(nullptr) *)

Definition dumpDecl (D : option Decl) : M unit :=
  match D with
  | None => dumpNullDecl
  | Some D => dumpDecl_rec D
  end.

Definition dumpStmt (St : option Stmt) : M unit :=
  match St with
  | None => dumpNullStmt
  | Some St => dumpStmt_rec St
  end.

Definition dumpCXXCtorInitializer (Init : CXXCtorInitializer) : M unit :=
  let E := CI_getInit Init in
  ObjectScope (1 + b2z (notnull E)) (
    emitTag "subject" ;;
    match CI_getAnyMember Init with
    | Some FD => VariantScope "Member" (dumpDeclRef FD)
    | None =>
        if CI_isDelegatingInitializer Init then
          VariantScope "Delegating" (dumpQualType (CI_getType Init))
        else
          VariantScope "BaseClass" (
            TupleScope 2 (
              dumpQualType (CI_getType Init) ;;
              emitBoolean (CI_isBaseVirtual Init)))
    end ;;
    whenSome E (λ E,
      emitTag "init_expr" ;;
      dumpStmt (Some E))).

Definition VisitDecl (D : Decl) : M unit :=
  let ShouldEmitParentPointer :=
    negb (D_getLexicalDeclContext D =? D_getDeclContext D) in
  let Mod := D_getOwningModule D in
  let ND := isa_NamedDecl (D_getKind D) in
  let IsNDHidden := ND && DR_isHidden (D_ref D) in
  let IsDImplicit := D_isImplicit D in
  let IsDUsed := D_isUsed D in
  let IsDReferenced := D_isThisDeclarationReferenced D in
  let IsDInvalid := D_isInvalidDecl D in
  let Comment := D_getLocalCommentForDeclUncached D in
  let maxSize := 4 + b2z ShouldEmitParentPointer + b2z (notnull Mod)
                 + b2z IsNDHidden + b2z IsDImplicit + b2z IsDUsed
                 + b2z IsDReferenced + b2z IsDInvalid + b2z (notnull Comment) in
  ObjectScope maxSize (
    emitTag "pointer" ;;
    dumpPointer (D_ptr D) ;;
    when ShouldEmitParentPointer (
      emitTag "parent_pointer" ;;
      dumpPointer (D_getDeclContext_asDecl D)) ;;
    dumpPreviousDeclOptionallyWithTag (withPointers Options) (D_ref D) ;;
    emitTag "source_range" ;;
    dumpSourceRange (D_getSourceRange D) ;;
    whenSome Mod (λ Mod,
      emitTag "owning_module" ;;
      emitString Mod) ;;
    emitFlag "is_hidden" IsNDHidden ;;
    emitFlag "is_implicit" IsDImplicit ;;
    emitFlag "is_used" IsDUsed ;;
    emitFlag "is_this_declaration_referenced" IsDReferenced ;;
    emitFlag "is_invalid_decl" IsDInvalid ;;
    emitTag "attributes" ;;
    ArrayScope (len (D_getAttrs D)) (
      forM_ dumpAttr (D_getAttrs D)) ;;
    whenSome Comment (λ Comment,
      emitTag "full_comment" ;;
      dumpFullComment Comment)).

(** [Options.deduplicationService == nullptr ||
     FileUtils::shouldTraverseDeclFile(...)] *)
Definition shouldDump (I : Decl) : bool :=
  match deduplicationService Options with
  | None => true
  | Some service => shouldTraverseDeclFile service (basePath Options) I
  end.

(** The call of the service that the test above makes, if any. *)
Definition consult (I : Decl) : M unit :=
  match deduplicationService Options with
  | None => mret tt
  | Some _ => modify (log_consulted (D_ptr I))
  end.

(** The first loop fills [declsToDump]; the second dumps its elements.
    The second loop is written over [D_decls DC], skipping what the
    first did not retain, so that [dumpDecl] is visibly applied to
    children of [DC]; [VisitDeclContext_declsToDump] shows it is the loop
    over [declsToDump]. *)
Definition VisitDeclContext (DC : option Decl) : M unit :=
  match DC with
  | None =>
      ArrayScope 0 (mret tt) ;;
      ObjectScope 0 (mret tt)
  | Some DC =>
      forM_ consult (D_decls DC) ;;
      let declsToDump := List.filter shouldDump (D_decls DC) in
      ArrayScope (len declsToDump) (
        forM_ (λ I, when (shouldDump I) (dumpDecl (Some I))) (D_decls DC)) ;;
      let HasExternalLexicalStorage := D_hasExternalLexicalStorage DC in
      let HasExternalVisibleStorage := D_hasExternalVisibleStorage DC in
      ObjectScope (0 + b2z HasExternalLexicalStorage + b2z HasExternalVisibleStorage) (
        emitFlag "has_external_lexical_storage" HasExternalLexicalStorage ;;
        emitFlag "has_external_visible_storage" HasExternalVisibleStorage)
  end.

Definition VisitCapturedDecl (D : Decl) : M unit :=
  VisitDecl D ;;
  VisitDeclContext (Some D).

Definition VisitLinkageSpecDecl (D : Decl) : M unit :=
  VisitDecl D ;;
  VisitDeclContext (Some D).

Definition VisitNamedDecl (D : Decl) : M unit :=
  VisitDecl D ;;
  dumpName (D_ref D).

Definition VisitNamespaceDecl (D : Decl) : M unit :=
  VisitNamedDecl D ;;
  VisitDeclContext (Some D) ;;
  let IsInline := D_isInline D in
  let IsOriginalNamespace := D_isOriginalNamespace D in
  ObjectScope (0 + b2z IsInline + b2z (negb IsOriginalNamespace)) (
    emitFlag "is_inline" IsInline ;;
    when (negb IsOriginalNamespace) (
      emitTag "original_namespace" ;;
      dumpDeclRef (D_getOriginalNamespace D))).

Definition VisitObjCContainerDecl (D : Decl) : M unit :=
  VisitNamedDecl D ;;
  VisitDeclContext (Some D).

Definition VisitTypeDecl (D : Decl) : M unit :=
  VisitNamedDecl D ;;
  let T := D_getTypeForDecl D in
  dumpTypeOld T ;;
  dumpPointer (from_option TR_ptr nullptr T).

Definition VisitTagDecl (D : Decl) : M unit :=
  VisitTypeDecl D ;;
  VisitDeclContext (Some D).

Definition VisitValueDecl (D : Decl) : M unit :=
  VisitNamedDecl D ;;
  dumpQualType (DR_getType (D_ref D)).

Definition VisitTranslationUnitDecl (D : Decl) : M unit :=
  VisitDecl D ;;
  VisitDeclContext (Some D) ;;
  ArrayScope (len types) (
    forM_ dumpType types).

(** Generated by [ConstDeclVisitor]: [DISPATCH(BASE, BASE)]. *)
Definition VisitTypedefNameDecl : Decl → M unit := VisitTypeDecl.
Definition VisitDeclaratorDecl : Decl → M unit := VisitValueDecl.

Definition VisitTypedefDecl (D : Decl) : M unit :=
  VisitTypedefNameDecl D ;;
  let IsModulePrivate := D_isModulePrivate D in
  ObjectScope (0 + b2z IsModulePrivate) (
    emitFlag "is_module_private" IsModulePrivate).

Definition VisitEnumDecl (D : Decl) : M unit :=
  VisitTagDecl D ;;
  let IsScoped := D_isScoped D in
  let IsModulePrivate := D_isModulePrivate D in
  ObjectScope (0 + b2z IsScoped + b2z IsModulePrivate) (
    when IsScoped (
      emitTag "scope" ;;
      if D_isScopedUsingClassTag D
      then emitSimpleVariant "Class"
      else emitSimpleVariant "Struct") ;;
    emitFlag "is_module_private" IsModulePrivate).

Definition VisitRecordDecl (D : Decl) : M unit :=
  VisitTagDecl D ;;
  let IsModulePrivate := D_isModulePrivate D in
  let IsCompleteDefinition := D_isCompleteDefinition D in
  ObjectScope (0 + b2z IsModulePrivate + b2z IsCompleteDefinition) (
    emitFlag "is_module_private" IsModulePrivate ;;
    emitFlag "is_complete_definition" IsCompleteDefinition).

Definition VisitEnumConstantDecl (D : Decl) : M unit :=
  VisitValueDecl D ;;
  let Init := D_getInitExpr D in
  ObjectScope (0 + b2z (notnull Init)) (
    whenSome Init (λ Init,
      emitTag "init_expr" ;;
      dumpStmt (Some Init))).

Definition VisitIndirectFieldDecl (D : Decl) : M unit :=
  VisitValueDecl D ;;
  ArrayScope (len (D_chain D)) (
    forM_ dumpDeclRef (D_chain D)).

Definition VisitFunctionDecl (D : Decl) : M unit :=
  VisitDeclaratorDecl D ;;
  (* We purposedly do not call VisitDeclContext(D). *)
  let SC := D_getStorageClass D in
  let HasStorageClass := match SC with SC_None => false | _ => true end in
  let IsInlineSpecified := D_isInlineSpecified D in
  let IsVirtualAsWritten := D_isVirtualAsWritten D in
  let IsModulePrivate := D_isModulePrivate D in
  let IsPure := D_isPure D in
  let IsDeletedAsWritten := D_isDeletedAsWritten D in
  let C := isa_CXXConstructorDecl (D_getKind D) in
  let HasCtorInitializers := C && negb (bool_decide (D_inits D = [])) in
  let HasDeclarationBody := D_doesThisDeclarationHaveABody D in
  (* suboptimal: decls_in_prototype_scope and parameters not taken into account accurately *)
  let size := 2 + b2z HasStorageClass + b2z IsInlineSpecified
              + b2z IsVirtualAsWritten + b2z IsModulePrivate + b2z IsPure
              + b2z IsDeletedAsWritten + b2z HasCtorInitializers
              + b2z HasDeclarationBody in
  ObjectScope size (
    match SC with
    | SC_None => mret tt
    | SC_Some specifier =>
        emitTag "storage_class" ;;
        emitString specifier
    end ;;
    emitFlag "is_inline" IsInlineSpecified ;;
    emitFlag "is_virtual" IsVirtualAsWritten ;;
    emitFlag "is_module_private" IsModulePrivate ;;
    emitFlag "is_pure" IsPure ;;
    emitFlag "is_delete_as_written" IsDeletedAsWritten ;;
    (let decls := D_getDeclsInPrototypeScope D in
     when (negb (bool_decide (decls = []))) (
       emitTag "decls_in_prototype_scope" ;;
       ArrayScope (len decls) (
         forM_ dumpDecl decls))) ;;
    when (negb (bool_decide (D_params D = []))) (
      emitTag "parameters" ;;
      ArrayScope (len (D_params D)) (
        forM_ dumpDecl (D_params D))) ;;
    when HasCtorInitializers (
      emitTag "cxx_ctor_initializers" ;;
      ArrayScope (len (D_inits D)) (
        forM_ dumpCXXCtorInitializer (D_inits D))) ;;
    when HasDeclarationBody (
      let Body := D_getBody D in
      whenSome Body (λ Body,
        emitTag "body" ;;
        dumpStmt (Some Body)))).

Definition VisitFieldDecl (D : Decl) : M unit :=
  VisitDeclaratorDecl D ;;
  let IsMutable := D_isMutable D in
  let IsModulePrivate := D_isModulePrivate D in
  let HasBitWidth := D_isBitField D && notnull (D_getBitWidth D) in
  let Init := D_getInClassInitializer D in
  ObjectScope (0 + b2z IsMutable + b2z IsModulePrivate + b2z HasBitWidth
               + b2z (notnull Init)) (
    emitFlag "is_mutable" IsMutable ;;
    emitFlag "is_module_private" IsModulePrivate ;;
    when HasBitWidth (
      emitTag "bit_width_expr" ;;
      dumpStmt (D_getBitWidth D)) ;;
    whenSome Init (λ Init,
      emitTag "init_expr" ;;
      dumpStmt (Some Init))).

Definition VisitVarDecl (D : Decl) : M unit :=
  VisitDeclaratorDecl D ;;
  let SC := D_getStorageClass D in
  let HasStorageClass := match SC with SC_None => false | _ => true end in
  let IsModulePrivate := D_isModulePrivate D in
  let IsNRVOVariable := D_isNRVOVariable D in
  let HasInit := D_hasInit D in
  (* suboptimal: tls_kind is not taken into account accurately *)
  ObjectScope (1 + b2z HasStorageClass + b2z IsModulePrivate
               + b2z IsNRVOVariable + b2z HasInit) (
    match SC with
    | SC_None => mret tt
    | SC_Some specifier =>
        emitTag "storage_class" ;;
        emitString specifier
    end ;;
    match D_getTLSKind D with
    | TLS_None => mret tt
    | TLS_Static => emitTag "tls_kind" ;; emitSimpleVariant "Tls_static"
    | TLS_Dynamic => emitTag "tls_kind" ;; emitSimpleVariant "Tls_dynamic"
    end ;;
    emitFlag "is_module_private" IsModulePrivate ;;
    emitFlag "is_nrvo_variable" IsNRVOVariable ;;
    when HasInit (
      emitTag "init_expr" ;;
      dumpStmt (D_getInit D))).

Definition VisitFileScopeAsmDecl (D : Decl) : M unit :=
  VisitDecl D ;;
  emitString (D_getAsmString D).

Definition VisitImportDecl (D : Decl) : M unit :=
  VisitDecl D ;;
  emitString (D_getImportedModuleName D).

Definition VisitUsingDirectiveDecl (D : Decl) : M unit :=
  VisitNamedDecl D ;;
  let HasNominatedNamespace := notnull (D_getNominatedNamespace D) in
  ObjectScope (3 + b2z HasNominatedNamespace) (
    emitTag "using_location" ;;
    dumpSourceLocation (D_getUsingLoc D) ;;
    emitTag "namespace_key_location" ;;
    dumpSourceLocation (D_getNamespaceKeyLocation D) ;;
    emitTag "nested_name_specifier_locs" ;;
    dumpNestedNameSpecifierLoc (D_getQualifierLoc D) ;;
    whenSome (D_getNominatedNamespace D) (λ NS,
      emitTag "nominated_namespace" ;;
      dumpDeclRef NS)).

Definition VisitNamespaceAliasDecl (D : Decl) : M unit :=
  VisitNamedDecl D ;;
  ObjectScope 4 (
    emitTag "namespace_loc" ;;
    dumpSourceLocation (D_getNamespaceLoc D) ;;
    emitTag "target_name_loc" ;;
    dumpSourceLocation (D_getTargetNameLoc D) ;;
    emitTag "nested_name_specifier_locs" ;;
    dumpNestedNameSpecifierLoc (D_getQualifierLoc D) ;;
    emitTag "namespace" ;;
    dumpDeclRef (D_getNamespace D)).

Definition VisitCXXRecordDecl (D : Decl) : M unit :=
  VisitRecordDecl D ;;
  if negb (D_isCompleteDefinition D) then
    (* We need to return early here. Otherwise plugin will crash. *)
    ObjectScope 0 (mret tt)
  else
    let vBases := List.filter BS_isVirtual (D_bases D) in
    let nonVBases := List.filter (λ base, negb (BS_isVirtual base)) (D_bases D) in
    let HasVBases := 0 <? len vBases in
    let HasNonVBases := 0 <? len nonVBases in
    let IsCLike := D_isCLike D in
    ObjectScope (0 + b2z HasNonVBases + b2z HasVBases + b2z IsCLike) (
      when HasNonVBases (
        emitTag "bases" ;;
        ArrayScope (len nonVBases) (
          forM_ (λ base, dumpPointerToType (BS_getType base)) nonVBases)) ;;
      when HasVBases (
        emitTag "vbases" ;;
        ArrayScope (len vBases) (
          forM_ (λ base, dumpPointerToType (BS_getType base)) vBases)) ;;
      emitFlag "is_c_like" IsCLike).

Definition VisitObjCIvarDecl (D : Decl) : M unit :=
  VisitFieldDecl D ;;
  let IsSynthesize := D_getSynthesize D in
  (* suboptimal: access_control not taken into account accurately *)
  ObjectScope (1 + b2z IsSynthesize) (
    emitFlag "is_synthesize" IsSynthesize ;;
    match D_getAccessControl D with
    | AC_None => mret tt
    | AC_Private => emitTag "access_control" ;; emitSimpleVariant "Private"
    | AC_Protected => emitTag "access_control" ;; emitSimpleVariant "Protected"
    | AC_Public => emitTag "access_control" ;; emitSimpleVariant "Public"
    | AC_Package => emitTag "access_control" ;; emitSimpleVariant "Package"
    end).

Definition VisitObjCMethodDecl (D : Decl) : M unit :=
  VisitNamedDecl D ;;
  (* We purposedly do not call VisitDeclContext(D). *)
  let IsInstanceMethod := D_isInstanceMethod D in
  let HasParameters := negb (bool_decide (D_params D = [])) in
  let IsVariadic := D_isVariadic D in
  let Body := D_getBody D in
  ObjectScope (1 + b2z IsInstanceMethod + b2z HasParameters + b2z IsVariadic
               + b2z (notnull Body)) (
    emitFlag "is_instance_method" IsInstanceMethod ;;
    emitTag "result_type" ;;
    dumpQualType (D_getReturnType D) ;;
    when HasParameters (
      emitTag "parameters" ;;
      ArrayScope (len (D_params D)) (
        forM_ dumpDecl (D_params D))) ;;
    emitFlag "is_variadic" IsVariadic ;;
    whenSome Body (λ Body,
      emitTag "body" ;;
      dumpStmt (Some Body))).

(** The block guarded by [HasProtocols]: the tag, then the array of references. *)
Definition dump_protocols (tag : string) (protocols : list DeclRef) : M unit :=
  let HasProtocols := negb (bool_decide (protocols = [])) in
  when HasProtocols (
    emitTag tag ;;
    ArrayScope (len protocols) (
      forM_ dumpDeclRef protocols)).

Definition VisitObjCCategoryDecl (D : Decl) : M unit :=
  VisitObjCContainerDecl D ;;
  let CI := D_getClassInterface D in
  let Impl := D_getImplementation D in
  let HasProtocols := negb (bool_decide (D_protocols D = [])) in
  ObjectScope (0 + b2z (notnull CI) + b2z (notnull Impl) + b2z HasProtocols) (
    whenSome CI (λ CI,
      emitTag "class_interface" ;;
      dumpDeclRef CI) ;;
    whenSome Impl (λ Impl,
      emitTag "implementation" ;;
      dumpDeclRef Impl) ;;
    dump_protocols "protocols" (D_protocols D)).

(** Generated by [ConstDeclVisitor]: [DISPATCH(ObjCContainerDecl, ObjCContainerDecl)]. *)
Definition VisitObjCImplDecl : Decl → M unit := VisitObjCContainerDecl.

Definition VisitObjCCategoryImplDecl (D : Decl) : M unit :=
  VisitObjCImplDecl D ;;
  let CI := D_getClassInterface D in
  let CD := D_getCategoryDecl D in
  ObjectScope (0 + b2z (notnull CI) + b2z (notnull CD)) (
    whenSome CI (λ CI,
      emitTag "class_interface" ;;
      dumpDeclRef CI) ;;
    whenSome CD (λ CD,
      emitTag "category_decl" ;;
      dumpDeclRef CD)).

Definition VisitObjCProtocolDecl (D : Decl) : M unit :=
  VisitObjCContainerDecl D ;;
  let HasProtocols := negb (bool_decide (D_protocols D = [])) in
  ObjectScope (0 + b2z HasProtocols) (
    dump_protocols "protocols" (D_protocols D)).

Definition VisitObjCInterfaceDecl (D : Decl) : M unit :=
  VisitObjCContainerDecl D ;;
  let SC := D_getSuperClass D in
  let Impl := D_getImplementation D in
  let HasProtocols := negb (bool_decide (D_protocols D = [])) in
  ObjectScope (0 + b2z (notnull SC) + b2z (notnull Impl) + b2z HasProtocols) (
    whenSome SC (λ SC,
      emitTag "super" ;;
      dumpDeclRef SC) ;;
    whenSome Impl (λ Impl,
      emitTag "implementation" ;;
      dumpDeclRef Impl) ;;
    dump_protocols "protocols" (D_protocols D)).

Definition VisitObjCImplementationDecl (D : Decl) : M unit :=
  VisitObjCImplDecl D ;;
  let SC := D_getSuperClass D in
  let CI := D_getClassInterface D in
  let HasInitializers := negb (bool_decide (D_inits D = [])) in
  ObjectScope (0 + b2z (notnull SC) + b2z (notnull CI) + b2z HasInitializers) (
    whenSome SC (λ SC,
      emitTag "super" ;;
      dumpDeclRef SC) ;;
    whenSome CI (λ CI,
      emitTag "class_interface" ;;
      dumpDeclRef CI) ;;
    when HasInitializers (
      emitTag "ivar_initializers" ;;
      ArrayScope (len (D_inits D)) (
        forM_ dumpCXXCtorInitializer (D_inits D)))).

Definition VisitObjCCompatibleAliasDecl (D : Decl) : M unit :=
  VisitNamedDecl D ;;
  let CI := D_getClassInterface D in
  ObjectScope (0 + b2z (notnull CI)) (
    whenSome CI (λ CI,
      emitTag "class_interface" ;;
      dumpDeclRef CI)).

Definition VisitObjCPropertyDecl (D : Decl) : M unit :=
  VisitNamedDecl D ;;
  let PC := D_getPropertyImplementation D in
  let HasPropertyControl := match PC with PC_None => false | _ => true end in
  let Attrs := D_getPropertyAttributes D in
  let HasPropertyAttributes := negb (Attrs =? OBJC_PR_noattr) in
  (* NOTE: class_interface is always None *)
  ObjectScope (1 + b2z HasPropertyControl + b2z HasPropertyAttributes) (
    emitTag "qual_type" ;;
    dumpQualType (D_getPropertyType D) ;;
    match PC with
    | PC_None => mret tt
    | PC_Required => emitTag "property_control" ;; emitSimpleVariant "Required"
    | PC_Optional => emitTag "property_control" ;; emitSimpleVariant "Optional"
    end ;;
    when HasPropertyAttributes (
      emitTag "property_attributes" ;;
      let readonly := has_bits Attrs OBJC_PR_readonly in
      let assign := has_bits Attrs OBJC_PR_assign in
      let readwrite := has_bits Attrs OBJC_PR_readwrite in
      let retain := has_bits Attrs OBJC_PR_retain in
      let copy := has_bits Attrs OBJC_PR_copy in
      let nonatomic := has_bits Attrs OBJC_PR_nonatomic in
      let atomic := has_bits Attrs OBJC_PR_atomic in
      let weak := has_bits Attrs OBJC_PR_weak in
      let strong := has_bits Attrs OBJC_PR_strong in
      let unsafeUnretained := has_bits Attrs OBJC_PR_unsafe_unretained in
      let getter := has_bits Attrs OBJC_PR_getter in
      let setter := has_bits Attrs OBJC_PR_setter in
      let toEmit := b2z readonly + b2z assign + b2z readwrite + b2z retain
                    + b2z copy + b2z nonatomic + b2z atomic + b2z weak
                    + b2z strong + b2z unsafeUnretained + b2z getter + b2z setter in
      ArrayScope toEmit (
        when readonly (emitSimpleVariant "Readonly") ;;
        when assign (emitSimpleVariant "Assign") ;;
        when readwrite (emitSimpleVariant "Readwrite") ;;
        when retain (emitSimpleVariant "Retain") ;;
        when copy (emitSimpleVariant "Copy") ;;
        when nonatomic (emitSimpleVariant "Nonatomic") ;;
        when atomic (emitSimpleVariant "Atomic") ;;
        when weak (emitSimpleVariant "Weak") ;;
        when strong (emitSimpleVariant "Strong") ;;
        when unsafeUnretained (emitSimpleVariant "Unsafe_unretained") ;;
        when getter (
          VariantScope "Getter" (dumpDeclRef (D_getGetterMethodDecl D))) ;;
        when setter (
          VariantScope "Setter" (dumpDeclRef (D_getSetterMethodDecl D)))))).

Definition VisitObjCPropertyImplDecl (D : Decl) : M unit :=
  VisitDecl D ;;
  let PD := D_getPropertyDecl D in
  let ID := D_getPropertyIvarDecl D in
  ObjectScope (1 + b2z (notnull PD) + b2z (notnull ID)) (
    emitTag "implementation" ;;
    match D_getPropertyImplKind D with
    | PI_Synthesize => emitSimpleVariant "Synthesize"
    | PI_Dynamic => emitSimpleVariant "Dynamic"
    end ;;
    whenSome PD (λ PD,
      emitTag "property_decl" ;;
      dumpDeclRef PD) ;;
    whenSome ID (λ ID,
      emitTag "ivar_decl" ;;
      dumpDeclRef ID)).

Definition VisitBlockDecl (D : Decl) : M unit :=
  VisitDecl D ;;
  VisitDeclContext (Some D) ;;
  let HasParameters := negb (bool_decide (D_params D = [])) in
  let IsVariadic := D_isVariadic D in
  let CapturesCXXThis := D_capturesCXXThis D in
  let HasCapturedVariables := negb (bool_decide (D_captures D = [])) in
  let Body := D_getBody D in
  let size := 0 + b2z HasParameters + b2z IsVariadic + b2z CapturesCXXThis
              + b2z HasCapturedVariables + b2z (notnull Body) in
  ObjectScope size (
    when HasParameters (
      emitTag "parameters" ;;
      ArrayScope (len (D_params D)) (
        forM_ dumpDecl (D_params D))) ;;
    emitFlag "is_variadic" IsVariadic ;;
    emitFlag "captures_cxx_this" CapturesCXXThis ;;
    when HasCapturedVariables (
      emitTag "captured_variables" ;;
      ArrayScope (len (D_captures D)) (
        forM_ (λ CII : Capture,
          let IsByRef := Cap_isByRef CII in
          let IsNested := Cap_isNested CII in
          let HasVariable := notnull (Cap_getVariable CII) in
          let HasCopyExpr := Cap_hasCopyExpr CII in
          ObjectScope (0 + b2z IsByRef + b2z IsNested + b2z HasVariable
                       + b2z HasCopyExpr) (
            emitFlag "is_by_ref" IsByRef ;;
            emitFlag "is_nested" IsNested ;;
            whenSome (Cap_getVariable CII) (λ V,
              emitTag "variable" ;;
              dumpDeclRef V) ;;
            when HasCopyExpr (
              emitTag "copy_expr" ;;
              dumpStmt (Cap_getCopyExpr CII))))
          (D_captures D))) ;;
    whenSome Body (λ Body,
      emitTag "body" ;;
      dumpStmt (Some Body))).

(** [ConstDeclVisitor::Visit]: the [switch] on [D->getKind()] calls the
    [Visit...Decl] of the kind; where the exporter defines none, the
    generated one forwards to the [BASE]. *)
Definition ConstDeclVisitor_Visit (D : Decl) : DeclClass → M unit :=
  fix Visit kind :=
    match kind with
    | cDecl => VisitDecl D
    | cBlockDecl => VisitBlockDecl D
    | cCapturedDecl => VisitCapturedDecl D
    | cLinkageSpecDecl => VisitLinkageSpecDecl D
    | cNamespaceDecl => VisitNamespaceDecl D
    | cObjCContainerDecl => VisitObjCContainerDecl D
    | cTagDecl => VisitTagDecl D
    | cTypeDecl => VisitTypeDecl D
    | cTranslationUnitDecl => VisitTranslationUnitDecl D
    | cNamedDecl => VisitNamedDecl D
    | cValueDecl => VisitValueDecl D
    | cTypedefDecl => VisitTypedefDecl D
    | cEnumDecl => VisitEnumDecl D
    | cRecordDecl => VisitRecordDecl D
    | cEnumConstantDecl => VisitEnumConstantDecl D
    | cIndirectFieldDecl => VisitIndirectFieldDecl D
    | cFunctionDecl => VisitFunctionDecl D
    | cFieldDecl => VisitFieldDecl D
    | cVarDecl => VisitVarDecl D
    | cFileScopeAsmDecl => VisitFileScopeAsmDecl D
    | cImportDecl => VisitImportDecl D
    | cUsingDirectiveDecl => VisitUsingDirectiveDecl D
    | cNamespaceAliasDecl => VisitNamespaceAliasDecl D
    | cCXXRecordDecl => VisitCXXRecordDecl D
    | cObjCIvarDecl => VisitObjCIvarDecl D
    | cObjCMethodDecl => VisitObjCMethodDecl D
    | cObjCCategoryDecl => VisitObjCCategoryDecl D
    | cObjCCategoryImplDecl => VisitObjCCategoryImplDecl D
    | cObjCProtocolDecl => VisitObjCProtocolDecl D
    | cObjCInterfaceDecl => VisitObjCInterfaceDecl D
    | cObjCImplementationDecl => VisitObjCImplementationDecl D
    | cObjCCompatibleAliasDecl => VisitObjCCompatibleAliasDecl D
    | cObjCPropertyDecl => VisitObjCPropertyDecl D
    | cObjCPropertyImplDecl => VisitObjCPropertyImplDecl D
    | cOtherDecl _ BASE => Visit BASE
    end.

(** [dumpDecl], once [D] is known not to be null (or has been replaced
    by [NullPtrDecl]). *)
Definition dumpDecl_body (D : Decl) : M unit :=
  VariantScope (getDeclKindName (D_getKind D) +:+ "Decl") (
    TupleScope (tupleSizeOfDeclKind (D_getKind D)) (
      ConstDeclVisitor_Visit D (D_getKind D))).

(** **** Statements *)

Definition VisitStmt (Node : Stmt) : M unit :=
  ObjectScope 2 (
    emitTag "pointer" ;;
    dumpPointer (S_ptr Node) ;;
    emitTag "source_range" ;;
    dumpSourceRange (S_getSourceRange Node)) ;;
  ArrayScope (len (S_children Node)) (
    forM_ dumpStmt (S_children Node)).

Definition VisitDeclStmt (Node : Stmt) : M unit :=
  VisitStmt Node ;;
  ArrayScope (len (S_decls Node)) (
    forM_ dumpDecl (S_decls Node)).

Definition VisitAttributedStmt (Node : Stmt) : M unit :=
  VisitStmt Node ;;
  ArrayScope (len (S_getAttrs Node)) (
    forM_ dumpAttr (S_getAttrs Node)).

Definition VisitLabelStmt (Node : Stmt) : M unit :=
  VisitStmt Node ;;
  emitString (S_getName Node).

Definition VisitGotoStmt (Node : Stmt) : M unit :=
  VisitStmt Node ;;
  ObjectScope 2 (
    emitTag "label" ;;
    emitString (S_getLabelName Node) ;;
    emitTag "pointer" ;;
    dumpPointer (S_getLabel Node)).

Definition VisitCXXCatchStmt (Node : Stmt) : M unit :=
  VisitStmt Node ;;
  let decl := S_getExceptionDecl Node in
  ObjectScope (0 + b2z (notnull decl)) (
    whenSome decl (λ decl,
      emitTag "variable" ;;
      dumpDecl (Some decl))).

Definition VisitExpr (Node : Stmt) : M unit :=
  VisitStmt Node ;;
  let VK := S_getValueKind Node in
  let HasNonDefaultValueKind := match VK with VK_RValue => false | _ => true end in
  let OK := S_getObjectKind Node in
  let HasNonDefaultObjectKind := match OK with OK_Ordinary => false | _ => true end in
  ObjectScope (1 + b2z HasNonDefaultValueKind + b2z HasNonDefaultObjectKind) (
    emitTag "qual_type" ;;
    dumpQualType (S_getType Node) ;;
    match VK with
    | VK_RValue => mret tt
    | VK_LValue => emitTag "value_kind" ;; emitSimpleVariant "LValue"
    | VK_XValue => emitTag "value_kind" ;; emitSimpleVariant "XValue"
    end ;;
    match OK with
    | OK_Ordinary => mret tt
    | OK_BitField => emitTag "object_kind" ;; emitSimpleVariant "BitField"
    | OK_ObjCProperty => emitTag "object_kind" ;; emitSimpleVariant "ObjCProperty"
    | OK_ObjCSubscript => emitTag "object_kind" ;; emitSimpleVariant "ObjCSubscript"
    | OK_VectorComponent => emitTag "object_kind" ;; emitSimpleVariant "VectorComponent"
    end).

Definition VisitCastExpr (Node : Stmt) : M unit :=
  VisitExpr Node ;;
  ObjectScope 2 (
    emitTag "cast_kind" ;;
    emitSimpleVariant (S_getCastKindName Node) ;;
    emitTag "base_path" ;;
    ArrayScope (len (S_path Node)) (
      forM_ dumpCXXBaseSpecifier (S_path Node))).

Definition VisitExplicitCastExpr (Node : Stmt) : M unit :=
  VisitCastExpr Node ;;
  dumpQualType (S_getTypeAsWritten Node).

Definition VisitDeclRefExpr (Node : Stmt) : M unit :=
  VisitExpr Node ;;
  let D := S_getDecl Node in
  let FD := S_getFoundDecl Node in
  let HasFoundDeclRef :=
    match FD with
    | Some FD => negb (from_option DR_ptr nullptr D =? DR_ptr FD)
    | None => false
    end in
  ObjectScope (0 + b2z (notnull D) + b2z HasFoundDeclRef) (
    whenSome D (λ D,
      emitTag "decl_ref" ;;
      dumpDeclRef D) ;;
    when HasFoundDeclRef (
      whenSome FD (λ FD,
        emitTag "found_decl_ref" ;;
        dumpDeclRef FD))).

Definition VisitOverloadExpr (Node : Stmt) : M unit :=
  VisitExpr Node ;;
  (* suboptimal *)
  ObjectScope 2 (
    when (0 <? len (S_overload_decls Node)) (
      emitTag "decls" ;;
      ArrayScope (len (S_overload_decls Node)) (
        forM_ dumpDeclRef (S_overload_decls Node))) ;;
    emitTag "name" ;;
    dumpDeclarationName (S_getDeclarationName Node)).

Definition VisitUnresolvedLookupExpr (Node : Stmt) : M unit :=
  VisitOverloadExpr Node ;;
  let RequiresADL := S_requiresADL Node in
  let IsOverloaded := S_isOverloaded Node in
  let HasNamingClass := notnull (S_getNamingClass Node) in
  ObjectScope (0 + b2z RequiresADL + b2z IsOverloaded + b2z HasNamingClass) (
    emitFlag "requires_ADL" RequiresADL ;;
    emitFlag "is_overloaded" IsOverloaded ;;
    whenSome (S_getNamingClass Node) (λ NC,
      emitTag "naming_class" ;;
      dumpDeclRef NC)).

Definition VisitObjCIvarRefExpr (Node : Stmt) : M unit :=
  VisitExpr Node ;;
  let IsFreeIvar := S_isFreeIvar Node in
  ObjectScope (2 + b2z IsFreeIvar) (
    emitTag "decl_ref" ;;
    dumpDeclRef (S_getIvarDecl Node) ;;
    emitTag "pointer" ;;
    dumpPointer (DR_ptr (S_getIvarDecl Node)) ;;
    emitFlag "is_free_ivar" IsFreeIvar).

Definition VisitPredefinedExpr (Node : Stmt) : M unit :=
  VisitExpr Node ;;
  match S_getIdentType Node with
  | PE_Func => emitSimpleVariant "Func"
  | PE_Function => emitSimpleVariant "Function"
  | PE_LFunction => emitSimpleVariant "LFunction"
  | PE_FuncDName => emitSimpleVariant "FuncDName"
  | PE_FuncSig => emitSimpleVariant "FuncSig"
  | PE_PrettyFunction => emitSimpleVariant "PrettyFunction"
  | PE_PrettyFunctionNoVirtual => emitSimpleVariant "PrettyFunctionNoVirtual"
  end.

Definition VisitCharacterLiteral (Node : Stmt) : M unit :=
  VisitExpr Node ;;
  emitInteger (S_getCharacterValue Node).

Definition VisitIntegerLiteral (Node : Stmt) : M unit :=
  VisitExpr Node ;;
  let IsSigned := S_isSignedIntegerType Node in
  ObjectScope (2 + b2z IsSigned) (
    emitFlag "is_signed" IsSigned ;;
    emitTag "bitwidth" ;;
    emitInteger (S_getBitWidth Node) ;;
    emitTag "value" ;;
    emitString (S_getValueAsString Node)).

Definition VisitFloatingLiteral (Node : Stmt) : M unit :=
  VisitExpr Node ;;
  emitString (S_getValueAsString Node).

Definition VisitStringLiteral (Str : Stmt) : M unit :=
  VisitExpr Str ;;
  emitString (S_getBytes Str).

Definition VisitUnaryOperator (Node : Stmt) : M unit :=
  VisitExpr Node ;;
  let IsPostfix := S_isPostfix Node in
  ObjectScope (1 + b2z IsPostfix) (
    emitTag "kind" ;;
    match S_getUnaryOpcode Node with
    | UO_PostInc => emitSimpleVariant "PostInc"
    | UO_PostDec => emitSimpleVariant "PostDec"
    | UO_PreInc => emitSimpleVariant "PreInc"
    | UO_PreDec => emitSimpleVariant "PreDec"
    | UO_AddrOf => emitSimpleVariant "AddrOf"
    | UO_Deref => emitSimpleVariant "Deref"
    | UO_Plus => emitSimpleVariant "Plus"
    | UO_Minus => emitSimpleVariant "Minus"
    | UO_Not => emitSimpleVariant "Not"
    | UO_LNot => emitSimpleVariant "LNot"
    | UO_Real => emitSimpleVariant "Real"
    | UO_Imag => emitSimpleVariant "Imag"
    | UO_Extension => emitSimpleVariant "Extension"
    end ;;
    emitFlag "is_postfix" IsPostfix).

Definition VisitUnaryExprOrTypeTraitExpr (Node : Stmt) : M unit :=
  VisitExpr Node ;;
  let HasQualType := S_isArgumentType Node in
  ObjectScope (1 + b2z HasQualType) (
    emitTag "kind" ;;
    match S_getTraitKind Node with
    | UETT_SizeOf => emitSimpleVariant "SizeOf"
    | UETT_AlignOf => emitSimpleVariant "AlignOf"
    | UETT_VecStep => emitSimpleVariant "VecStep"
    end ;;
    when HasQualType (
      emitTag "qual_type" ;;
      dumpQualType (S_getArgumentType Node))).

Definition VisitMemberExpr (Node : Stmt) : M unit :=
  VisitExpr Node ;;
  let IsArrow := S_isArrow Node in
  ObjectScope (2 + b2z IsArrow) (
    emitFlag "is_arrow" IsArrow ;;
    emitTag "name" ;;
    let memberDecl := S_getMemberDecl Node in
    dumpName memberDecl ;;
    emitTag "decl_ref" ;;
    dumpDeclRef memberDecl).

Definition VisitExtVectorElementExpr (Node : Stmt) : M unit :=
  VisitExpr Node ;;
  emitString (S_getAccessorName Node).

Definition VisitBinaryOperator (Node : Stmt) : M unit :=
  VisitExpr Node ;;
  ObjectScope 1 (
    emitTag "kind" ;;
    match S_getBinaryOpcode Node with
    | BO_PtrMemD => emitSimpleVariant "PtrMemD"
    | BO_PtrMemI => emitSimpleVariant "PtrMemI"
    | BO_Mul => emitSimpleVariant "Mul"
    | BO_Div => emitSimpleVariant "Div"
    | BO_Rem => emitSimpleVariant "Rem"
    | BO_Add => emitSimpleVariant "Add"
    | BO_Sub => emitSimpleVariant "Sub"
    | BO_Shl => emitSimpleVariant "Shl"
    | BO_Shr => emitSimpleVariant "Shr"
    | BO_LT => emitSimpleVariant "LT"
    | BO_GT => emitSimpleVariant "GT"
    | BO_LE => emitSimpleVariant "LE"
    | BO_GE => emitSimpleVariant "GE"
    | BO_EQ => emitSimpleVariant "EQ"
    | BO_NE => emitSimpleVariant "NE"
    | BO_And => emitSimpleVariant "And"
    | BO_Xor => emitSimpleVariant "Xor"
    | BO_Or => emitSimpleVariant "Or"
    | BO_LAnd => emitSimpleVariant "LAnd"
    | BO_LOr => emitSimpleVariant "LOr"
    | BO_Assign => emitSimpleVariant "Assign"
    | BO_MulAssign => emitSimpleVariant "MulAssign"
    | BO_DivAssign => emitSimpleVariant "DivAssign"
    | BO_RemAssign => emitSimpleVariant "RemAssign"
    | BO_AddAssign => emitSimpleVariant "AddAssign"
    | BO_SubAssign => emitSimpleVariant "SubAssign"
    | BO_ShlAssign => emitSimpleVariant "ShlAssign"
    | BO_ShrAssign => emitSimpleVariant "ShrAssign"
    | BO_AndAssign => emitSimpleVariant "AndAssign"
    | BO_XorAssign => emitSimpleVariant "XorAssign"
    | BO_OrAssign => emitSimpleVariant "OrAssign"
    | BO_Comma => emitSimpleVariant "Comma"
    end).

Definition VisitCompoundAssignOperator (Node : Stmt) : M unit :=
  VisitBinaryOperator Node ;;
  ObjectScope 2 (
    emitTag "lhs_type" ;;
    dumpQualType (S_getComputationLHSType Node) ;;
    emitTag "result_type" ;;
    dumpQualType (S_getComputationResultType Node)).

Definition VisitBlockExpr (Node : Stmt) : M unit :=
  VisitExpr Node ;;
  dumpDecl (S_getBlockDecl Node).

Definition VisitOpaqueValueExpr (Node : Stmt) : M unit :=
  VisitExpr Node ;;
  let Source := S_getSourceExpr Node in
  ObjectScope (0 + b2z (notnull Source)) (
    whenSome Source (λ Source,
      emitTag "source_expr" ;;
      dumpStmt (Some Source))).

Definition VisitAddrLabelExpr (Node : Stmt) : M unit :=
  VisitExpr Node ;;
  ObjectScope 2 (
    emitTag "label" ;;
    emitString (S_getLabelName Node) ;;
    emitTag "pointer" ;;
    dumpPointer (S_getLabel Node)).

Definition VisitCXXNamedCastExpr (Node : Stmt) : M unit :=
  VisitExplicitCastExpr Node ;;
  emitString (S_getCastName Node).

Definition VisitCXXBoolLiteralExpr (Node : Stmt) : M unit :=
  VisitExpr Node ;;
  emitInteger (b2z (S_getBoolValue Node)).

Definition VisitCXXConstructExpr (Node : Stmt) : M unit :=
  VisitExpr Node ;;
  let IsElidable := S_isElidable Node in
  let RequiresZeroInitialization := S_requiresZeroInitialization Node in
  ObjectScope (1 + b2z IsElidable + b2z RequiresZeroInitialization) (
    emitTag "qual_type" ;;
    dumpQualType (S_getConstructorType Node) ;;
    emitFlag "is_elidable" IsElidable ;;
    emitFlag "requires_zero_initialization" RequiresZeroInitialization).

Definition VisitCXXBindTemporaryExpr (Node : Stmt) : M unit :=
  VisitExpr Node ;;
  ObjectScope 1 (
    emitTag "cxx_temporary" ;;
    dumpCXXTemporary (S_getTemporary Node)).

Definition VisitMaterializeTemporaryExpr (Node : Stmt) : M unit :=
  VisitExpr Node ;;
  let VD := S_getExtendingDecl Node in
  ObjectScope (0 + b2z (notnull VD)) (
    whenSome VD (λ VD,
      emitTag "decl_ref" ;;
      dumpDeclRef VD)).

Definition VisitExprWithCleanups (Node : Stmt) : M unit :=
  VisitExpr Node ;;
  let HasDeclRefs := 0 <? len (S_getObjects Node) in
  ObjectScope (1 + b2z HasDeclRefs) (
    when HasDeclRefs (
      emitTag "decl_refs" ;;
      ArrayScope (len (S_getObjects Node)) (
        forM_ dumpDeclRef (S_getObjects Node))) ;;
    emitTag "sub_expr" ;;
    dumpStmt (S_getSubExpr Node)).

Definition VisitLambdaExpr (Node : Stmt) : M unit :=
  VisitExpr Node ;;
  dumpDecl (S_getLambdaClass Node).

Definition VisitCXXNewExpr (Node : Stmt) : M unit :=
  VisitExpr Node ;;
  let IsArray := S_isArray Node in
  let HasArraySize := notnullptr (S_getArraySize Node) in
  let HasInitializer := S_hasInitializer Node in
  ObjectScope (0 + b2z IsArray + b2z HasArraySize + b2z HasInitializer) (
    emitFlag "is_array" IsArray ;;
    when HasArraySize (
      emitTag "array_size_expr" ;;
      dumpPointer (S_getArraySize Node)) ;;
    when HasInitializer (
      emitTag "initializer_expr" ;;
      dumpPointer (S_getInitializer Node))).

Definition VisitCXXDeleteExpr (Node : Stmt) : M unit :=
  VisitExpr Node ;;
  let IsArray := S_isArrayForm Node in
  ObjectScope (0 + b2z IsArray) (
    emitFlag "is_array" IsArray).

Definition VisitObjCMessageExpr (Node : Stmt) : M unit :=
  VisitExpr Node ;;
  let receiver := S_getReceiverInterface Node in
  let selector := S_getSelector Node in
  let '(IsDefinitionFound, m_decl) :=
    if receiver then
      if notnullptr (S_lookupPrivateMethod Node)
      then (true, S_lookupPrivateMethod Node)
      else (false, S_lookupMethod Node)
    else (false, nullptr) in
  let RK := S_getReceiverKind Node in
  let HasNonDefaultReceiverKind := match RK with RK_Instance => false | _ => true end in
  ObjectScope (1 + b2z IsDefinitionFound + b2z (notnullptr m_decl)
               + b2z HasNonDefaultReceiverKind) (
    emitTag "selector" ;;
    emitString selector ;;
    when (notnullptr m_decl) (
      emitFlag "is_definition_found" IsDefinitionFound ;;
      emitTag "decl_pointer" ;;
      dumpPointer m_decl) ;;
    match RK with
    | RK_Instance => mret tt
    | RK_Class =>
        emitTag "receiver_kind" ;;
        VariantScope "Class" (dumpQualType (S_getClassReceiver Node))
    | RK_SuperInstance =>
        emitTag "receiver_kind" ;;
        emitSimpleVariant "SuperInstance"
    | RK_SuperClass =>
        emitTag "receiver_kind" ;;
        emitSimpleVariant "SuperClass"
    end).

Definition VisitObjCBoxedExpr (Node : Stmt) : M unit :=
  VisitExpr Node ;;
  dumpSelector (S_getBoxingMethodSelector Node).

Definition VisitObjCAtCatchStmt (Node : Stmt) : M unit :=
  VisitStmt Node ;;
  match S_getCatchParamDecl Node with
  | Some CatchParam =>
      VariantScope "CatchParam" (dumpDecl (Some CatchParam))
  | None =>
      emitSimpleVariant "CatchAll"
  end.

Definition VisitObjCEncodeExpr (Node : Stmt) : M unit :=
  VisitExpr Node ;;
  dumpQualType (S_getEncodedType Node).

Definition VisitObjCSelectorExpr (Node : Stmt) : M unit :=
  VisitExpr Node ;;
  dumpSelector (S_getSelector Node).

Definition VisitObjCProtocolExpr (Node : Stmt) : M unit :=
  VisitExpr Node ;;
  dumpDeclRef (S_getProtocol Node).

Definition VisitObjCPropertyRefExpr (Node : Stmt) : M unit :=
  VisitExpr Node ;;
  let IsSuperReceiver := S_isSuperReceiver Node in
  let IsMessagingGetter := S_isMessagingGetter Node in
  let IsMessagingSetter := S_isMessagingSetter Node in
  ObjectScope (1 + b2z IsSuperReceiver + b2z IsMessagingGetter
               + b2z IsMessagingSetter) (
    emitTag "kind" ;;
    (if S_isImplicitProperty Node then
       VariantScope "MethodRef" (
         let HasImplicitPropertyGetter := notnull (S_getImplicitPropertyGetter Node) in
         let HasImplicitPropertySetter := notnull (S_getImplicitPropertySetter Node) in
         ObjectScope (0 + b2z HasImplicitPropertyGetter + b2z HasImplicitPropertySetter) (
           whenSome (S_getImplicitPropertyGetter Node) (λ sel,
             emitTag "getter" ;;
             dumpSelector sel) ;;
           whenSome (S_getImplicitPropertySetter Node) (λ sel,
             emitTag "setter" ;;
             dumpSelector sel)))
     else
       VariantScope "PropertyRef" (dumpDeclRef (S_getExplicitProperty Node))) ;;
    emitFlag "is_super_receiver" IsSuperReceiver ;;
    emitFlag "is_messaging_getter" IsMessagingGetter ;;
    emitFlag "is_messaging_setter" IsMessagingSetter).

Definition VisitObjCSubscriptRefExpr (Node : Stmt) : M unit :=
  VisitExpr Node ;;
  let HasGetter := notnull (S_getAtIndexMethodDecl Node) in
  let HasSetter := notnull (S_setAtIndexMethodDecl Node) in
  ObjectScope (1 + b2z HasGetter + b2z HasSetter) (
    emitTag "kind" ;;
    (if S_isArraySubscriptRefExpr Node
     then emitSimpleVariant "ArraySubscript"
     else emitSimpleVariant "DictionarySubscript") ;;
    whenSome (S_getAtIndexMethodDecl Node) (λ sel,
      emitTag "getter" ;;
      dumpSelector sel) ;;
    whenSome (S_setAtIndexMethodDecl Node) (λ sel,
      emitTag "setter" ;;
      dumpSelector sel)).

Definition VisitObjCBoolLiteralExpr (Node : Stmt) : M unit :=
  VisitExpr Node ;;
  emitInteger (b2z (S_getBoolValue Node)).

(** [ConstStmtVisitor::Visit] *)
Definition ConstStmtVisitor_Visit (Node : Stmt) : StmtClass → M unit :=
  fix Visit stmtClass :=
    match stmtClass with
    | cStmt => VisitStmt Node
    | cDeclStmt => VisitDeclStmt Node
    | cAttributedStmt => VisitAttributedStmt Node
    | cLabelStmt => VisitLabelStmt Node
    | cGotoStmt => VisitGotoStmt Node
    | cCXXCatchStmt => VisitCXXCatchStmt Node
    | cExpr => VisitExpr Node
    | cCastExpr => VisitCastExpr Node
    | cExplicitCastExpr => VisitExplicitCastExpr Node
    | cDeclRefExpr => VisitDeclRefExpr Node
    | cPredefinedExpr => VisitPredefinedExpr Node
    | cCharacterLiteral => VisitCharacterLiteral Node
    | cIntegerLiteral => VisitIntegerLiteral Node
    | cFloatingLiteral => VisitFloatingLiteral Node
    | cStringLiteral => VisitStringLiteral Node
    | cUnaryOperator => VisitUnaryOperator Node
    | cUnaryExprOrTypeTraitExpr => VisitUnaryExprOrTypeTraitExpr Node
    | cMemberExpr => VisitMemberExpr Node
    | cExtVectorElementExpr => VisitExtVectorElementExpr Node
    | cBinaryOperator => VisitBinaryOperator Node
    | cCompoundAssignOperator => VisitCompoundAssignOperator Node
    | cAddrLabelExpr => VisitAddrLabelExpr Node
    | cBlockExpr => VisitBlockExpr Node
    | cOpaqueValueExpr => VisitOpaqueValueExpr Node
    | cCXXNamedCastExpr => VisitCXXNamedCastExpr Node
    | cCXXBoolLiteralExpr => VisitCXXBoolLiteralExpr Node
    | cCXXConstructExpr => VisitCXXConstructExpr Node
    | cCXXBindTemporaryExpr => VisitCXXBindTemporaryExpr Node
    | cMaterializeTemporaryExpr => VisitMaterializeTemporaryExpr Node
    | cExprWithCleanups => VisitExprWithCleanups Node
    | cOverloadExpr => VisitOverloadExpr Node
    | cUnresolvedLookupExpr => VisitUnresolvedLookupExpr Node
    | cLambdaExpr => VisitLambdaExpr Node
    | cCXXNewExpr => VisitCXXNewExpr Node
    | cCXXDeleteExpr => VisitCXXDeleteExpr Node
    | cObjCAtCatchStmt => VisitObjCAtCatchStmt Node
    | cObjCEncodeExpr => VisitObjCEncodeExpr Node
    | cObjCMessageExpr => VisitObjCMessageExpr Node
    | cObjCBoxedExpr => VisitObjCBoxedExpr Node
    | cObjCSelectorExpr => VisitObjCSelectorExpr Node
    | cObjCProtocolExpr => VisitObjCProtocolExpr Node
    | cObjCPropertyRefExpr => VisitObjCPropertyRefExpr Node
    | cObjCSubscriptRefExpr => VisitObjCSubscriptRefExpr Node
    | cObjCIvarRefExpr => VisitObjCIvarRefExpr Node
    | cObjCBoolLiteralExpr => VisitObjCBoolLiteralExpr Node
    | cOtherStmt _ PARENT => Visit PARENT
    end.

Definition dumpStmt_body (Node : Stmt) : M unit :=
  VariantScope (getStmtClassName (S_getStmtClass Node)) (
    TupleScope (tupleSizeOfStmtClass (S_getStmtClass Node)) (
      ConstStmtVisitor_Visit Node (S_getStmtClass Node))).

End Visitors.

(** The nodes the members [NullPtrStmt] and [NullPtrDecl] point to in state
    [w]: what the constructor built at these addresses.  Neither has a
    child, so encoding one never asks for the encoding of a null pointer
    again ([dumpNullDecl_unfold], [dumpNullStmt_unfold]). *)
Definition NullPtrStmt_node (w : World) : Stmt := NullStmt_new (NullPtrStmt w).
Definition NullPtrDecl_node (w : World) : Decl :=
  EmptyDecl_Create (NullPtrDecl w) (getTranslationUnitDecl Context).

Fixpoint dumpDecl_rec (nullDecl nullStmt : M unit) (D : Decl) {struct D} : M unit :=
  dumpDecl_body (dumpDecl_rec nullDecl nullStmt) (dumpStmt_rec nullDecl nullStmt)
    nullDecl nullStmt D
with dumpStmt_rec (nullDecl nullStmt : M unit) (Node : Stmt) {struct Node} : M unit :=
  dumpStmt_body (dumpDecl_rec nullDecl nullStmt) (dumpStmt_rec nullDecl nullStmt)
    nullDecl nullStmt Node.

(** [D = NullPtrDecl; ...] and [S = NullPtrStmt; ...] *)
Definition dumpNullDecl : M unit :=
  w ← get; dumpDecl_rec (mret tt) (mret tt) (NullPtrDecl_node w).
Definition dumpNullStmt : M unit :=
  w ← get; dumpStmt_rec (mret tt) (mret tt) (NullPtrStmt_node w).

(** The member functions [dumpDecl] and [dumpStmt]. *)
Definition ASTExporter_dumpDecl (D : option Decl) : M unit :=
  dumpDecl (dumpDecl_rec dumpNullDecl dumpNullStmt) dumpNullDecl D.
Definition ASTExporter_dumpStmt (St : option Stmt) : M unit :=
  dumpStmt (dumpStmt_rec dumpNullDecl dumpNullStmt) dumpNullStmt St.

End Exporter.

(** ** The constructor and an export run *)

(** The member initialisers: the three sentinel nodes, then
    [LastLocFilename(""), LastLocLine(~0U), FC(0)].  The constructor does
    not touch [pointerMap] and [pointerCounter]. *)
Definition ASTExporter_ctor (Context : ASTContext) (w : World) : World :=
  set_FC nullptr (set_LastLoc "" UINT_MAX (allocate_sentinels Context w)).

(** One export: build an exporter, then [dumpDecl] the translation unit. *)
Definition export_run (fmt_p : ptr → string) (Opts : ASTExporterOptions)
    (Context : ASTContext) (TU : Decl) : M unit :=
  λ w, ASTExporter_dumpDecl fmt_p Opts Context (Some TU) (ASTExporter_ctor Context w).

(** ** Notions used to state the properties *)

(** *** Qualified names: the components between the ["::"] separators,
    read from left to right. *)
Definition colon : Ascii.ascii :=
  Ascii.Ascii false true false true true true false false.

Fixpoint components_from (cur : string) (s : string) : list string :=
  match s with
  | EmptyString => [cur]
  | String c s' =>
      match s' with
      | String c' rest =>
          if Ascii.eqb c colon && Ascii.eqb c' colon
          then cur :: components_from "" rest
          else components_from (cur +:+ String c "") s'
      | EmptyString => components_from (cur +:+ String c "") s'
      end
  end.
Definition components (qualName : string) : list string := components_from "" qualName.

Fixpoint string_drop (n : nat) (s : string) : string :=
  match n, s with
  | O, _ => s
  | S n, String _ s' => string_drop n s'
  | S _, EmptyString => EmptyString
  end.

(** *** Source locations: reading the compressed records back.

    The reader keeps the last file and line it has seen; a field that is
    absent from a record is taken from there.  A record without a column
    is the empty record, which stands for an invalid position. *)
Fixpoint field (name : string) (body : list atd) : option atd :=
  match body with
  | ATag t :: v :: rest => if String.eqb t name then Some v else field name rest
  | _ => None
  end.

Definition replay_one (st : string * Z) (r : atd) : PresumedLoc * (string * Z) :=
  match r with
  | AObject _ body =>
      match field "column" body with
      | Some (AInteger c) =>
          let f := match field "file" body with Some (AString f) => f | _ => st.1 end in
          let l := match field "line" body with Some (AInteger l) => l | _ => st.2 end in
          (PLocValid f l c, (f, l))
      | _ => (PLocInvalid, st)
      end
  | _ => (PLocInvalid, st)
  end.

Fixpoint replay (st : string * Z) (rs : list atd) : list PresumedLoc :=
  match rs with
  | [] => []
  | r :: rs => let '(p, st) := replay_one st r in p :: replay st rs
  end.

(** The position with its file name normalized, as it is emitted. *)
Definition normalized (Opts : ASTExporterOptions) (p : PresumedLoc) : PresumedLoc :=
  match p with
  | PLocInvalid => PLocInvalid
  | PLocValid f l c => PLocValid (normalizeSourcePath Opts f) l c
  end.

Definition has_file (p : PresumedLoc) : Prop :=
  match p with
  | PLocInvalid => True
  | PLocValid f _ _ => f ≠ ""
  end.

(** The record shapes of [dumpSourceLocation]. *)
Definition record_empty : atd := AObject 0 [].
Definition record_file_line_column (file : string) (line column : Z) : atd :=
  AObject 3 [ATag "file"; AString file; ATag "line"; AInteger line;
             ATag "column"; AInteger column].
Definition record_line_column (line column : Z) : atd :=
  AObject 2 [ATag "line"; AInteger line; ATag "column"; AInteger column].
Definition record_column (column : Z) : atd :=
  AObject 1 [ATag "column"; AInteger column].

(** *** Identity tokens *)

(** The identities of a list in the order in which they are first seen. *)
Fixpoint first_seen_from (seen : list ptr) (ps : list ptr) : list ptr :=
  match ps with
  | [] => seen
  | p :: ps => first_seen_from (if decide (p ∈ seen) then seen else seen ++ [p]) ps
  end.
Definition first_seen (ps : list ptr) : list ptr := first_seen_from [] ps.

(** The token [writePointer] writes for [Ptr] in state [w]. *)
Definition token_at (fmt_p : ptr → string) (withPointers : bool) (Ptr : ptr)
    (w : World) : string :=
  match written (writePointer fmt_p withPointers Ptr) w with
  | [AString s] => s
  | _ => ""
  end.

(** [w'] is a later state of the run that went through [w]: no entry of
    the identity table was dropped or changed. *)
Definition later (w w' : World) : Prop := pointerMap w ⊆ pointerMap w'.

(** The identity table holds exactly the identities of [seen], each mapped
    to its position in [seen], and the counter is their number. *)
Definition table_of (seen : list ptr) (w : World) : Prop :=
  pointerCounter w = len seen ∧
  ∀ p v, pointerMap w !! p = Some v ↔ ∃ k : nat, v = Z.of_nat k ∧ seen !! k = Some p.

(** The identity token of a by-value encoding ([decl_info.pointer]) and of
    a by-reference record ([decl_ref.decl_pointer]). *)
Definition by_value_token (a : atd) : option atd :=
  match a with
  | AVariant _ [ATuple _ (AObject _ body :: _)] => field "pointer" body
  | _ => None
  end.
Definition by_ref_token (a : atd) : option atd :=
  match a with
  | AObject _ body => field "decl_pointer" body
  | _ => None
  end.

(** *** Declared sizes *)

(** [a] is a variant named [tag] around one tuple declared with [n]
    elements and holding [n] elements. *)
Definition sized_variant (tag : string) (n : Z) (a : atd) : Prop :=
  ∃ body, a = AVariant tag [ATuple (Some n) body] ∧ len body = n.

(** Every tuple inside [a] that was opened with a size holds that many
    elements. *)
Fixpoint tuples_ok (a : atd) : Prop :=
  match a with
  | AObject _ body | AArray _ body | AVariant _ body | ATuple None body =>
      (fix all l := match l with [] => True | x :: l => tuples_ok x ∧ all l end) body
  | ATuple (Some n) body =>
      len body = n ∧
      (fix all l := match l with [] => True | x :: l => tuples_ok x ∧ all l end) body
  | _ => True
  end.

(** The reader at [st] is in step with the exporter at [w]: it holds the
    normalized last file and the last line, unless the exporter has not
    seen a file yet. *)
Definition in_step (Opts : ASTExporterOptions) (w : World) (st : string * Z) : Prop :=
  LastLocFilename w = "" ∨
  st = (normalizeSourcePath Opts (LastLocFilename w), LastLocLine w).

(** *** Inputs of the examples *)

(** Options used in the examples: anonymized pointers, paths left as they
    are, no deduplication service. *)
Definition plain_options : ASTExporterOptions :=
  {| withPointers := false; basePath := ""; normalizeSourcePath := λ path, path;
     deduplicationService := None |}.

(** Options whose [normalizeSourcePath] makes paths absolute. *)
Definition absolute_options : ASTExporterOptions :=
  {| withPointers := false; basePath := "/repo";
     normalizeSourcePath := λ path, "/repo/" +:+ path;
     deduplicationService := None |}.

(** *** Counting and induction *)

(** [m] writes [n] items, whatever the state. *)
Definition emits {A} (n : Z) (m : M A) : Prop := ∀ w, len (written m w) = n.

(** [P] holds of the node [o] points to, if any. *)
Definition opt_all {A} (P : A → Prop) (o : option A) : Prop :=
  ∀ x, o = Some x → P x.

(** [P] and [Q] hold of the declarations and statements a node owns (the
    ones the exporter encodes by value when it encodes the node). *)
Definition Decl_children (P : Decl → Prop) (Q : Stmt → Prop) (D : Decl) : Prop :=
  Forall P (D_decls D) ∧
  opt_all Q (D_getInitExpr D) ∧
  Forall (λ Init, opt_all Q (CI_getInit Init)) (D_inits D) ∧
  opt_all Q (D_getBody D) ∧
  Forall (opt_all P) (D_getDeclsInPrototypeScope D) ∧
  Forall (opt_all P) (D_params D) ∧
  opt_all Q (D_getBitWidth D) ∧
  opt_all Q (D_getInClassInitializer D) ∧
  opt_all Q (D_getInit D) ∧
  Forall (λ CII, opt_all Q (Cap_getCopyExpr CII)) (D_captures D).

Definition Stmt_children (P : Decl → Prop) (Q : Stmt → Prop) (Node : Stmt) : Prop :=
  Forall (opt_all Q) (S_children Node) ∧
  Forall (opt_all P) (S_decls Node) ∧
  opt_all P (S_getExceptionDecl Node) ∧
  opt_all P (S_getBlockDecl Node) ∧
  opt_all P (S_getLambdaClass Node) ∧
  opt_all Q (S_getSourceExpr Node) ∧
  opt_all Q (S_getSubExpr Node) ∧
  opt_all P (S_getCatchParamDecl Node).

(** The classes whose [Visit] routine calls [VisitDeclContext]. *)
Fixpoint lists_members (kind : DeclClass) : bool :=
  match kind with
  | cBlockDecl | cCapturedDecl | cLinkageSpecDecl | cNamespaceDecl
  | cObjCContainerDecl | cTagDecl | cTranslationUnitDecl
  | cEnumDecl | cRecordDecl | cCXXRecordDecl
  | cObjCCategoryDecl | cObjCCategoryImplDecl | cObjCProtocolDecl
  | cObjCInterfaceDecl | cObjCImplementationDecl => true
  | cOtherDecl _ BASE => lists_members BASE
  | _ => false
  end.

(** [S] holds of the address of every direct member of every declaration
    that is owned by the node (the node included) and whose class lists
    its members. *)
Inductive within (S : ptr → Prop) : Decl → Prop :=
| within_Decl D :
    (lists_members (D_getKind D) = true → Forall (λ I, S (D_ptr I)) (D_decls D)) →
    Decl_children (within S) (within_Stmt S) D →
    within S D
with within_Stmt (S : ptr → Prop) : Stmt → Prop :=
| within_Stmt_intro Node :
    Stmt_children (within S) (within_Stmt S) Node →
    within_Stmt S Node.

(** What encoding leaves alone, from a state [w] to a later state [w']:
    no entry of the identity table is dropped or changed; the membership
    service is consulted on declarations at addresses in [S] only, and not
    at all unless a service is configured; with raw pointers the identity
    table is not touched. *)
Definition stays (Opts : ASTExporterOptions) (S : ptr → Prop) (w w' : World) : Prop :=
  later w w' ∧
  (∃ l, consulted w' = consulted w ++ l ∧ Forall S l ∧
        (deduplicationService Opts = None → l = [])) ∧
  (withPointers Opts = true →
     pointerMap w' = pointerMap w ∧ pointerCounter w' = pointerCounter w).

(** [m] is well behaved: it only moves to states allowed by [stays], and
    every tuple it writes holds as many elements as it was opened with. *)
Definition good (Opts : ASTExporterOptions) (S : ptr → Prop) {A} (m : M A) : Prop :=
  ∀ w, stays Opts S w (state_after m w) ∧ Forall tuples_ok (written m w).

(** The four families of nodes, and the encoding of a null pointer of
    each: [dumpDecl(nullptr)], [dumpStmt(nullptr)], [dumpType(nullptr)] and
    [dumpComment(nullptr)], the last of which the sources do not determine. *)
Inductive Family : Type := FDeclaration | FStatement | FType | FComment.

Definition dump_null (fmt_p : ptr → string) (Opts : ASTExporterOptions)
    (Context : ASTContext) (F : Family) : option (M unit) :=
  match F with
  | FDeclaration => Some (ASTExporter_dumpDecl fmt_p Opts Context None)
  | FStatement => Some (ASTExporter_dumpStmt fmt_p Opts Context None)
  | FType => Some (dumpType fmt_p Opts None)
  | FComment => dumpComment fmt_p Opts None
  end.

(** The sentinel node of a family: the member of the exporter that takes
    the place of a null pointer.  There is none for types: [dumpType]
    handles a null pointer itself. *)
Definition sentinel_ptr (F : Family) (w : World) : option ptr :=
  match F with
  | FDeclaration => Some (NullPtrDecl w)
  | FStatement => Some (NullPtrStmt w)
  | FType => None
  | FComment => Some (NullPtrComment w)
  end.

(** The address whose token the encoding of a null pointer carries: that
    of the sentinel node, and the null address where there is none. *)
Definition null_identity (F : Family) (w : World) : ptr :=
  default nullptr (sentinel_ptr F w).

(** A rendering of [%p], for the examples. *)
Definition fmt_example (p : ptr) : string := "0x" +:+ pretty p.

Definition example_context : ASTContext :=
  {| getTranslationUnitDecl := 1000; getTypes := [];
     Allocate := λ n, 501 + Z.of_nat n |}.

(** A type node at [p] of class [c], spelled ["int"], not sugared. *)
Definition example_type (p : ptr) (c : TypeClass) : Type_ :=
  {| T_ptr := p; T_getTypeClass := c; T_getAsString := "int";
     T_getUnqualifiedDesugaredType := p;
     T_getAdjustedType := QualType_null; T_getElementType := QualType_null;
     T_getSize := 0; T_getValueType := QualType_null;
     T_getPointeeType := QualType_null; T_getBuiltinKindName := "Int";
     T_getUnderlyingType := QualType_null; T_getReturnType := QualType_null;
     T_getParamTypes := []; T_getBaseType := QualType_null;
     T_getProtocols := []; T_getDecl := 800;
     T_getInnerType := QualType_null; T_desugar := QualType_null |}.

(** Two translation units without declarations, at different addresses. *)
Definition example_TU (p : ptr) : Decl :=
  mkDecl (mkDeclRef p cTranslationUnitDecl "" "") nullptr SourceRange_invalid [] [] None.

(** [ConstDeclVisitor<ASTExporter>::Visit] and
    [ConstStmtVisitor<ASTExporter>::Visit] of the exporter, once [dumpDecl]
    and [dumpStmt] are the member functions themselves. *)
Definition Visit_Decl (fmt_p : ptr → string) (Opts : ASTExporterOptions)
    (Context : ASTContext) : Decl → DeclClass → M unit :=
  ConstDeclVisitor_Visit fmt_p Opts Context
    (dumpDecl_rec fmt_p Opts Context (dumpNullDecl fmt_p Opts Context) (dumpNullStmt fmt_p Opts Context))
    (dumpStmt_rec fmt_p Opts Context (dumpNullDecl fmt_p Opts Context) (dumpNullStmt fmt_p Opts Context))
    (dumpNullDecl fmt_p Opts Context) (dumpNullStmt fmt_p Opts Context).

Definition Visit_Stmt (fmt_p : ptr → string) (Opts : ASTExporterOptions)
    (Context : ASTContext) : Stmt → StmtClass → M unit :=
  ConstStmtVisitor_Visit fmt_p Opts
    (dumpDecl_rec fmt_p Opts Context (dumpNullDecl fmt_p Opts Context) (dumpNullStmt fmt_p Opts Context))
    (dumpStmt_rec fmt_p Opts Context (dumpNullDecl fmt_p Opts Context) (dumpNullStmt fmt_p Opts Context))
    (dumpNullDecl fmt_p Opts Context) (dumpNullStmt fmt_p Opts Context).

(** [m] tokenizes the identity [p] and keeps the table from there on: the
    state it leaves is later than the one [dumpPointer p] leaves. *)
Definition after (fmt_p : ptr → string) (Opts : ASTExporterOptions) (p : ptr)
    {A} (m : M A) : Prop :=
  ∀ w, later (state_after (dumpPointer fmt_p Opts p) w) (state_after m w).

(** Every item of an output, at any depth. *)
Fixpoint items (a : atd) : list atd :=
  a :: match a with
       | AObject _ body | AArray _ body | ATuple _ body | AVariant _ body =>
           (fix go l := match l with [] => [] | x :: l => items x ++ go l end) body
       | _ => []
       end.

Definition is_token (s : string) (o : option atd) : bool :=
  match o with Some (AString t) => String.eqb s t | _ => false end.

(** How many times the identity with token [s] is encoded by value, and how
    many times it is referred to, in [out]. *)
Definition by_value_count (s : string) (out : list atd) : nat :=
  length (List.filter (λ a, is_token s (by_value_token a)) (out ≫= items)).
Definition by_ref_count (s : string) (out : list atd) : nat :=
  length (List.filter (λ a, is_token s (by_ref_token a)) (out ≫= items)).

(** [e] is among the items [m] writes from [w], at any depth. *)
Definition occurs {A} (e : atd) (m : M A) (w : World) : Prop :=
  e ∈ (written m w ≫= items).

(** [d] is encoded by value in what [m] writes from [w]: a by-value
    encoding of [d] (what [dumpDecl] writes for it, from some state)
    occurs there. *)
Definition by_value_in (fmt_p : ptr → string) (Opts : ASTExporterOptions)
    (Context : ASTContext) (d : option Decl) {A} (m : M A) (w : World) : Prop :=
  ∃ w1 e, written (ASTExporter_dumpDecl fmt_p Opts Context d) w1 = [e] ∧ occurs e m w.

(** The class [c] is [a] or derives from it. *)
Inductive Decl_derives : DeclClass → DeclClass → Prop :=
| Decl_derives_refl c : Decl_derives c c
| Decl_derives_step c b a : DeclBASE c = Some b → Decl_derives b a → Decl_derives c a.
Inductive Stmt_derives : StmtClass → StmtClass → Prop :=
| Stmt_derives_refl c : Stmt_derives c c
| Stmt_derives_step c b a : StmtPARENT c = Some b → Stmt_derives b a → Stmt_derives c a.

(** The declarations a node owns without listing them as its members:
    the declarations in the prototype scope of a function and its
    parameters, the parameters of a method or of a block; the
    declarations of a [DeclStmt], the variable of a catch clause, the
    block of a block expression and the class of a lambda expression. *)
Inductive Decl_owns (D : Decl) : option Decl → Prop :=
| owns_prototype d :
    Decl_derives (D_getKind D) cFunctionDecl → d ∈ D_getDeclsInPrototypeScope D →
    Decl_owns D d
| owns_function_parameter d :
    Decl_derives (D_getKind D) cFunctionDecl → d ∈ D_params D → Decl_owns D d
| owns_method_parameter d :
    Decl_derives (D_getKind D) cObjCMethodDecl → d ∈ D_params D → Decl_owns D d
| owns_block_parameter d :
    Decl_derives (D_getKind D) cBlockDecl → d ∈ D_params D → Decl_owns D d.

Inductive Stmt_owns (Node : Stmt) : option Decl → Prop :=
| owns_declared d :
    Stmt_derives (S_getStmtClass Node) cDeclStmt → d ∈ S_decls Node → Stmt_owns Node d
| owns_exception_variable d :
    Stmt_derives (S_getStmtClass Node) cCXXCatchStmt →
    S_getExceptionDecl Node = Some d → Stmt_owns Node (Some d)
| owns_block :
    Stmt_derives (S_getStmtClass Node) cBlockExpr → Stmt_owns Node (S_getBlockDecl Node)
| owns_lambda_class :
    Stmt_derives (S_getStmtClass Node) cLambdaExpr → Stmt_owns Node (S_getLambdaClass Node)
| owns_catch_parameter d :
    Stmt_derives (S_getStmtClass Node) cObjCAtCatchStmt →
    S_getCatchParamDecl Node = Some d → Stmt_owns Node (Some d).

(** A block with one parameter: clang makes a named parameter a member of
    the block's declaration context and lists it as a parameter too. *)
Definition example_param : Decl :=
  mkDecl (mkDeclRef 3001 (cOtherDecl "ParmVar" cVarDecl) "x" "x") 3000
    SourceRange_invalid [] [] None.
Definition example_block : Decl :=
  mkDecl (mkDeclRef 3000 cBlockDecl "" "") 1000 SourceRange_invalid
    [example_param] [Some example_param] None.

(** A translation unit with a variable [v] and a function [f] whose body
    refers to [v]; the service of [filtering_options] rejects [v]. *)
Definition example_var : Decl :=
  mkDecl (mkDeclRef 2001 cVarDecl "v" "v") 1000 SourceRange_invalid [] [] None.
Definition example_ref_expr : Stmt :=
  let e := mkStmt 2003 cDeclRefExpr SourceRange_invalid [] [] None in
  MkStmt (S_ptr e) (S_getStmtClass e) (S_getSourceRange e) (S_children e)
    (S_decls e) (S_getAttrs e) (S_getName e) (S_getLabelName e) (S_getLabel e)
    (S_getExceptionDecl e) (S_getType e) (S_getValueKind e) (S_getObjectKind e)
    (S_getCastKindName e) (S_path e) (S_getTypeAsWritten e) (S_getCastName e)
    (Some (D_ref example_var)) (S_getFoundDecl e) (S_overload_decls e)
    (S_getDeclarationName e) (S_requiresADL e) (S_isOverloaded e)
    (S_getNamingClass e) (S_isArrow e) (S_getMemberDecl e) (S_getIdentType e)
    (S_getCharacterValue e) (S_isSignedIntegerType e) (S_getBitWidth e)
    (S_getValueAsString e) (S_getBytes e) (S_getBoolValue e) (S_getUnaryOpcode e)
    (S_isPostfix e) (S_getTraitKind e) (S_isArgumentType e) (S_getArgumentType e)
    (S_getAccessorName e) (S_getBinaryOpcode e) (S_getComputationLHSType e)
    (S_getComputationResultType e) (S_getBlockDecl e) (S_getLambdaClass e)
    (S_getSourceExpr e) (S_getObjects e) (S_getSubExpr e) (S_isElidable e)
    (S_requiresZeroInitialization e) (S_getConstructorType e) (S_getTemporary e)
    (S_getExtendingDecl e) (S_isArray e) (S_getArraySize e) (S_hasInitializer e)
    (S_getInitializer e) (S_isArrayForm e) (S_getCatchParamDecl e)
    (S_getEncodedType e) (S_getSelector e) (S_getReceiverInterface e)
    (S_lookupPrivateMethod e) (S_lookupMethod e) (S_getReceiverKind e)
    (S_getClassReceiver e) (S_getBoxingMethodSelector e) (S_getProtocol e)
    (S_isSuperReceiver e) (S_isMessagingGetter e) (S_isMessagingSetter e)
    (S_isImplicitProperty e) (S_getImplicitPropertyGetter e)
    (S_getImplicitPropertySetter e) (S_getExplicitProperty e)
    (S_getAtIndexMethodDecl e) (S_setAtIndexMethodDecl e)
    (S_isArraySubscriptRefExpr e) (S_getIvarDecl e) (S_isFreeIvar e).
Definition example_function : Decl :=
  mkDecl (mkDeclRef 2002 cFunctionDecl "f" "f") 1000 SourceRange_invalid [] []
    (Some example_ref_expr).
Definition example_unit : Decl :=
  mkDecl (mkDeclRef 1000 cTranslationUnitDecl "" "") nullptr SourceRange_invalid
    [example_var; example_function] [] None.

(** Options with a membership service that rejects the declaration at
    address [2001]. *)
Definition filtering_options : ASTExporterOptions :=
  {| withPointers := false; basePath := "/repo";
     normalizeSourcePath := λ path, path;
     deduplicationService := Some (λ _ D, negb (D_ptr D =? 2001)) |}.

(** [VisitDeclContext] of the exporter, with [dumpDecl] the member function. *)
Definition ASTExporter_VisitDeclContext (fmt_p : ptr → string)
    (Opts : ASTExporterOptions) (Context : ASTContext) : option Decl → M unit :=
  VisitDeclContext Opts
    (dumpDecl_rec fmt_p Opts Context (dumpNullDecl fmt_p Opts Context) (dumpNullStmt fmt_p Opts Context))
    (dumpNullDecl fmt_p Opts Context).

(** The addresses the membership service is asked about when the members
    [l] of a scope are listed. *)
Definition asked (Opts : ASTExporterOptions) (l : list Decl) : list ptr :=
  match deduplicationService Opts with
  | Some _ => D_ptr <$> l
  | None => []
  end.

(** [out] begins with the items of [pre]. *)
Definition starts {A} (pre : list atd) (m : M A) (w : World) : Prop :=
  ∃ rest, written m w = pre ++ rest.

(** ** Notions used to state the further properties *)

(** *** Well-formed output

    What a reader of the output relies on: a tag only occurs inside an
    object, where tags and values alternate; the size an object was
    opened with and its tags pass the test [ok]; an array or tuple opened
    with a size holds exactly that many values; a variant wraps one
    value. *)
Section WellFormedWith.
Variable ok : Z → list string → bool.

Fixpoint well_formed_with (a : atd) : bool :=
  match a with
  | ATag _ => false
  | AString _ | AInteger _ | ABoolean _ | ASimpleVariant _ => true
  | AObject size body =>
      match (fix fields (l : list atd) : option (list string) :=
               match l with
               | [] => Some []
               | ATag t :: v :: l =>
                   if well_formed_with v then (t ::.) <$> fields l else None
               | _ => None
               end) body with
      | Some ts => ok size ts
      | None => false
      end
  | AArray size body | ATuple size body =>
      (fix all (l : list atd) : bool :=
         match l with [] => true | x :: l => well_formed_with x && all l end) body
      && match size with Some n => len body =? n | None => true end
  | AVariant _ body =>
      match body with [v] => well_formed_with v | _ => false end
  end.

(** The tags of an object body, if tags and well-formed values alternate
    in it. *)
Fixpoint field_tags (l : list atd) : option (list string) :=
  match l with
  | [] => Some []
  | ATag t :: v :: l =>
      if well_formed_with v then (t ::.) <$> field_tags l else None
  | _ => None
  end.
End WellFormedWith.

(** No tag occurs twice. *)
Definition distinct (ts : list string) : bool := bool_decide (NoDup ts).

(** An object holds at most the number of fields it was opened with
    ([maxSize]), and no tag twice. *)
Definition fits (size : Z) (ts : list string) : bool :=
  (len ts <=? size) && distinct ts.

Definition well_formed : atd → bool := well_formed_with fits.

(** *** The record types of the ATD annotations

    Each [/// type t = { ... }] of the [\atd] comments, in the order of
    the file: the field names, with [true] for a field that is neither
    optional ([?]) nor defaulted ([~]). *)

Definition atd_records : list (string * list (string * bool)) := [
  ("source_location", [("file", false); ("line", false); ("column", false)]);
  ("qual_type", [("raw", true); ("desugared", false); ("type_ptr", true)]);
  ("named_decl_info", [("name", true); ("qual_name", true)]);
  ("decl_ref", [("kind", true); ("decl_pointer", true); ("name", false);
      ("is_hidden", false); ("qual_type", false)]);
  ("decl_context_info", [("has_external_lexical_storage", false);
      ("has_external_visible_storage", false)]);
  ("lookups", [("decl_ref", true); ("primary_context_pointer", false);
      ("lookups", true); ("has_undeserialized_decls", false)]);
  ("lookup", [("decl_name", true); ("decl_refs", true)]);
  ("attribute_info", [("pointer", true); ("source_range", true); ("parameters", true);
      ("is_inherited", false); ("is_implicit", false)]);
  ("cxx_ctor_initializer", [("subject", true); ("init_expr", false)]);
  ("declaration_name", [("kind", true); ("name", true)]);
  ("nested_name_specifier_loc", [("kind", true); ("ref", false)]);
  ("decl_info", [("pointer", true); ("parent_pointer", false);
      ("previous_decl", false); ("source_range", true); ("owning_module", false);
      ("is_hidden", false); ("is_implicit", false); ("is_used", false);
      ("is_this_declaration_referenced", false); ("is_invalid_decl", false);
      ("attributes", true); ("full_comment", false)]);
  ("namespace_decl_info", [("is_inline", false); ("original_namespace", false)]);
  ("typedef_decl_info", [("is_module_private", false)]);
  ("enum_decl_info", [("scope", false); ("is_module_private", false)]);
  ("record_decl_info", [("is_module_private", false);
      ("is_complete_definition", false)]);
  ("enum_constant_decl_info", [("init_expr", false)]);
  ("function_decl_info", [("storage_class", false); ("is_inline", false);
      ("is_virtual", false); ("is_module_private", false); ("is_pure", false);
      ("is_delete_as_written", false); ("decls_in_prototype_scope", false);
      ("parameters", false); ("cxx_ctor_initializers", false); ("body", false)]);
  ("field_decl_info", [("is_mutable", false); ("is_module_private", false);
      ("init_expr", false); ("bit_width_expr", false)]);
  ("var_decl_info", [("storage_class", false); ("tls_kind", false);
      ("is_module_private", false); ("is_nrvo_variable", false); ("init_expr", false)]);
  ("using_directive_decl_info", [("using_location", true);
      ("namespace_key_location", true); ("nested_name_specifier_locs", true);
      ("nominated_namespace", false)]);
  ("namespace_alias_decl_info", [("namespace_loc", true); ("target_name_loc", true);
      ("nested_name_specifier_locs", true); ("namespace", true)]);
  ("cxx_record_decl_info", [("bases", false); ("vbases", false); ("is_c_like", false)]);
  ("obj_c_ivar_decl_info", [("is_synthesize", false); ("access_control", false)]);
  ("obj_c_method_decl_info", [("is_instance_method", false); ("result_type", true);
      ("parameters", false); ("is_variadic", false); ("body", false)]);
  ("obj_c_category_decl_info", [("class_interface", false); ("implementation", false);
      ("protocols", false)]);
  ("obj_c_category_impl_decl_info", [("class_interface", false);
      ("category_decl", false)]);
  ("obj_c_protocol_decl_info", [("protocols", false)]);
  ("obj_c_interface_decl_info", [("super", false); ("implementation", false);
      ("protocols", false)]);
  ("obj_c_implementation_decl_info", [("super", false); ("class_interface", false);
      ("ivar_initializers", false)]);
  ("obj_c_compatible_alias_decl_info", [("class_interface", false)]);
  ("obj_c_property_decl_info", [("class_interface", false); ("qual_type", true);
      ("property_control", false); ("property_attributes", false)]);
  ("obj_c_property_impl_decl_info", [("implementation", true);
      ("property_decl", false); ("ivar_decl", false)]);
  ("block_decl_info", [("parameters", false); ("is_variadic", false);
      ("captures_cxx_this", false); ("captured_variables", false); ("body", false)]);
  ("block_captured_variable", [("is_by_ref", false); ("is_nested", false);
      ("variable", false); ("copy_expr", false)]);
  ("stmt_info", [("pointer", true); ("source_range", true)]);
  ("goto_stmt_info", [("label", true); ("pointer", true)]);
  ("cxx_catch_stmt_info", [("variable", false)]);
  ("expr_info", [("qual_type", true); ("value_kind", false); ("object_kind", false)]);
  ("cxx_base_specifier", [("name", true); ("virtual", false)]);
  ("cast_expr_info", [("cast_kind", true); ("base_path", true)]);
  ("decl_ref_expr_info", [("decl_ref", false); ("found_decl_ref", false)]);
  ("overload_expr_info", [("decls", false); ("name", true)]);
  ("unresolved_lookup_expr_info", [("requires_ADL", false); ("is_overloaded", false);
      ("naming_class", false)]);
  ("obj_c_ivar_ref_expr_info", [("decl_ref", true); ("pointer", true);
      ("is_free_ivar", false)]);
  ("integer_literal_info", [("is_signed", false); ("bitwidth", true); ("value", true)]);
  ("unary_operator_info", [("kind", true); ("is_postfix", false)]);
  ("unary_expr_or_type_trait_expr_info", [("kind", true); ("qual_type", false)]);
  ("member_expr_info", [("is_arrow", false); ("name", true); ("decl_ref", true)]);
  ("binary_operator_info", [("kind", true)]);
  ("compound_assign_operator_info", [("lhs_type", true); ("result_type", true)]);
  ("opaque_value_expr_info", [("source_expr", false)]);
  ("addr_label_expr_info", [("label", true); ("pointer", true)]);
  ("cxx_construct_expr_info", [("qual_type", true); ("is_elidable", false);
      ("requires_zero_initialization", false)]);
  ("cxx_bind_temporary_expr_info", [("cxx_temporary", true)]);
  ("materialize_temporary_expr_info", [("decl_ref", false)]);
  ("expr_with_cleanups_info", [("decl_refs", false); ("sub_expr", true)]);
  ("cxx_new_expr_info", [("is_array", false); ("array_size_expr", false);
      ("initializer_expr", false)]);
  ("cxx_delete_expr_info", [("is_array", false)]);
  ("obj_c_message_expr_info", [("selector", true); ("is_definition_found", false);
      ("decl_pointer", false); ("receiver_kind", false)]);
  ("obj_c_property_ref_expr_info", [("kind", true); ("is_super_receiver", false);
      ("is_messaging_getter", false); ("is_messaging_setter", false)]);
  ("obj_c_method_ref_info", [("getter", false); ("setter", false)]);
  ("obj_c_subscript_ref_expr_info", [("kind", true); ("getter", false);
      ("setter", false)]);
  ("comment_info", [("parent_pointer", true); ("source_range", true)]);
  ("type_info", [("pointer", true); ("raw", true); ("desugared_type", false)]);
  ("function_type_info", [("return_type", true)]);
  ("params_type_info", [("params_type", false)]);
  ("objc_object_type_info", [("base_type", true); ("protocol_decls_ptr", false)]);
  ("typedef_type_info", [("child_type", true); ("decl_ptr", true)])
].

(** [ts] are tags of a record of the type with fields [fields]: no tag
    twice, every tag a field of the type, every mandatory field present. *)
Definition conforms (fields : list (string * bool)) (ts : list string) : bool :=
  distinct ts
  && forallb (λ t, bool_decide (t ∈ fields.*1)) ts
  && forallb (λ f : string * bool, implb f.2 (bool_decide (f.1 ∈ ts))) fields.

Definition is_atd_record (ts : list string) : bool :=
  existsb (λ r : string * list (string * bool), conforms r.2 ts) atd_records.

(** At most the declared number of fields, and the tags of an instance
    of a declared record type. *)
Definition is_instance (size : Z) (ts : list string) : bool :=
  (len ts <=? size) && is_atd_record ts.

(** Well formed, and every record an instance of a declared record type. *)
Definition conforming : atd → bool := well_formed_with is_instance.

(** The record types whose instances may hold fewer fields than the size
    they are opened with. *)
Definition short_records : list string :=
  ["decl_info"; "function_decl_info"; "var_decl_info"; "obj_c_ivar_decl_info";
   "overload_expr_info"; "nested_name_specifier_loc"].

Definition is_short_record (ts : list string) : bool :=
  existsb (λ r : string * list (string * bool),
             bool_decide (r.1 ∈ short_records) && conforms r.2 ts) atd_records.

(** An instance that holds exactly the declared number of fields, unless
    it is an instance of one of the types of [short_records]. *)
Definition is_exact_instance (size : Z) (ts : list string) : bool :=
  is_instance size ts && ((len ts =? size) || is_short_record ts).

(** Conforming, and every record holds exactly the number of fields it
    was opened with, unless it is an instance of one of the types of
    [short_records]. *)
Definition exactly_sized : atd → bool := well_formed_with is_exact_instance.

(** The same test on a list of tags known only between [lo] and [hi]. *)
Definition conforms_bounds (fields : list (string * bool)) (lo hi : list string) : bool :=
  distinct hi
  && forallb (λ t, bool_decide (t ∈ fields.*1)) hi
  && forallb (λ f : string * bool, implb f.2 (bool_decide (f.1 ∈ lo))) fields.

(** The part of a record that is written under a condition. *)
Definition opt {A} (b : bool) (l : list A) : list A := if b then l else [].

Section Judgements.
Variable ok : Z → list string → bool.

(** An object body read item by item: [pending] tells whether the last
    item read was a tag that still waits for its value. *)
Fixpoint fields_from (pending : bool) (l : list atd) : option (list string * bool) :=
  match l with
  | [] => Some ([], pending)
  | x :: l =>
      match x, pending with
      | ATag t, false =>
          (λ r : list string * bool, (t :: r.1, r.2)) <$> fields_from true l
      | ATag _, true => None
      | _, false => None
      | v, true => if well_formed_with ok v then fields_from false l else None
      end
  end.

(** [m] writes [n] values (and no tag), well formed with [ok]. *)
Definition values_with {A} (n : Z) (m : M A) : Prop :=
  ∀ w, len (written m w) = n ∧ forallb (well_formed_with ok) (written m w) = true.

(** [m] writes part of an object body: started with a tag pending or not
    ([p]), it writes the tags [ts], each followed by a well-formed value,
    and ends with a tag pending or not ([p']). *)
Definition writes_fields_with {A} (p : bool) (ts : list string) (p' : bool) (m : M A) : Prop :=
  ∀ w, fields_from p (written m w) = Some (ts, p').
End Judgements.

(** The judgements used for the encoder: with the strictest test. *)
Abbreviation values := (values_with is_exact_instance).
Abbreviation writes_fields := (writes_fields_with is_exact_instance).

(** The tags of an object body, in order. *)
Fixpoint tags (body : list atd) : list string :=
  match body with
  | ATag t :: _ :: rest => t :: tags rest
  | _ => []
  end.

(** ** [dumpLookups]

    Nothing in the file calls it.  [ArrayScope Scope(OF)] opens an array
    without a size. *)
Definition ArrayScope_unsized {A} : M A → M A := scope (AArray None).

(** One step of [all_lookups_iterator]. *)
Record Lookup : Type := {
  LU_getLookupName : string;          (* I.getLookupName().getAsString() *)
  LU_decls : list DeclRef             (* *I *)
}.

(** What [dumpLookups] reads of a [const DeclContext &]. *)
Record DeclContext : Type := {
  DC_ptr : ptr;                       (* &DC *)
  DC_asDecl : DeclRef;                (* cast<Decl>(DC) *)
  DC_getPrimaryContext : ptr;         (* DC.getPrimaryContext() *)
  DC_getPrimaryContext_asDecl : ptr;  (* cast<Decl>(Primary) *)
  DC_noload_lookups : list Lookup;    (* Primary->noload_lookups_begin() .. end() *)
  DC_hasExternalVisibleStorage : bool (* Primary->hasExternalVisibleStorage() *)
}.

Definition dumpLookups (fmt_p : ptr → string) (Opts : ASTExporterOptions)
    (DC : DeclContext) : M unit :=
  ObjectScope 4 (
    emitTag "decl_ref" ;;
    dumpDeclRef fmt_p Opts (DC_asDecl DC) ;;
    let Primary := DC_getPrimaryContext DC in
    when (negb (Primary =? DC_ptr DC)) (
      emitTag "primary_context_pointer" ;;
      dumpPointer fmt_p Opts (DC_getPrimaryContext_asDecl DC)) ;;
    emitTag "lookups" ;;
    ArrayScope_unsized (
      forM_ (λ I,
        ObjectScope 2 (
          emitTag "decl_name" ;;
          emitString (LU_getLookupName I) ;;
          emitTag "decl_refs" ;;
          ArrayScope_unsized (
            forM_ (dumpDeclRef fmt_p Opts) (LU_decls I))))
        (DC_noload_lookups DC)) ;;
    let HasUndeserializedLookups := DC_hasExternalVisibleStorage DC in
    emitFlag "has_undeserialized_decls" HasUndeserializedLookups).

(** ** The tuples of types and comments, as the annotations declare them

    The number of components of [<class>_type_tuple] and of
    [<class>_tuple] in the [\atd] comments: [#define type_tuple
    type_info], [#define type_with_child_info type_info * type_ptr],
    [#define constant_array_type_tuple array_type_tuple * int], ..., and
    [#define @DERIVED@_type_tuple @BASE@_tuple] for the classes without a
    visitor; [#define comment_tuple comment_info * comment list] and
    [#define text_comment_tuple comment_tuple * string]. *)
Definition type_tuple : Z := 1.
Definition type_with_child_info : Z := 1 + 1.

Fixpoint type_tuple_components (c : TypeClass) : Z :=
  match c with
  | cType => type_tuple
  | cAdjustedType => type_with_child_info
  | cArrayType => type_with_child_info
  | cConstantArrayType => type_with_child_info + 1
  | cAtomicType => type_with_child_info
  | cBlockPointerType => type_with_child_info
  | cBuiltinType => type_tuple + 1
  | cDecltypeType => type_with_child_info
  | cFunctionType => type_tuple + 1
  | cFunctionProtoType => (type_tuple + 1) + 1
  | cMemberPointerType => type_with_child_info
  | cObjCObjectPointerType => type_with_child_info
  | cObjCObjectType => type_tuple + 1
  | cObjCInterfaceType => type_tuple + 1
  | cParenType => type_with_child_info
  | cPointerType => type_with_child_info
  | cReferenceType => type_with_child_info
  | cTagType => type_tuple + 1
  | cTypedefType => type_tuple + 1
  | cOtherType _ BASE => type_tuple_components BASE
  end.

Fixpoint comment_tuple_components (c : CommentClass) : Z :=
  match c with
  | cTextComment => (1 + 1) + 1
  | cChildOfComment _ => 1 + 1
  | cOtherComment _ PARENT => comment_tuple_components PARENT
  end.

(** The file and line of the last valid position of a list, if any. *)
Definition last_valid (ps : list PresumedLoc) : option (string * Z) :=
  foldl (λ acc p, match p with
                  | PLocInvalid => acc
                  | PLocValid f l _ => Some (f, l)
                  end) None ps.

(** What the position that follows the positions [ps] of an exporter is
    compared with: the file and the line of the last valid position of
    [ps], and the initial values of the constructor when [ps] has none. *)
Definition compared_with (ps : list PresumedLoc) : string * Z :=
  default ("", UINT_MAX) (last_valid ps).

(** [s] holds no ["::"]. *)
Definition separator_free (s : string) : Prop := String.index 0 "::" s = None.

(** *** The ways the state changes

    The only assignments to the globals and to the members of the exporter
    that the file makes once an exporter is built: a new entry of the
    identity table ([writePointer], without raw pointers and for an
    identity that has none), the last location ([dumpSourceLocation]),
    [FC] ([dumpFullComment]), and, in the model, the log of the calls of
    the membership service ([VisitDeclContext], when one is configured). *)
Inductive update (Opts : ASTExporterOptions) : World → World → Prop :=
| update_pointer Ptr w :
    withPointers Opts = false → pointerMap w !! Ptr = None →
    update Opts w (assign_pointer Ptr w)
| update_LastLoc file line w : update Opts w (set_LastLoc file line w)
| update_FC C w : update Opts w (set_FC C w)
| update_consulted D w :
    deduplicationService Opts ≠ None → update Opts w (log_consulted D w).

(** Any number of them, one after the other. *)
Definition updates (Opts : ASTExporterOptions) : World → World → Prop :=
  rtc (update Opts).

(** [m] changes the state in these ways only. *)
Definition only_updates (Opts : ASTExporterOptions) {A} (m : M A) : Prop :=
  ∀ w, updates Opts w (state_after m w).

(** The identity table of [w'] holds the identities of [seen] followed by
    new ones, none twice; and unless there are more than [INT_MAX] of
    them, each is mapped to its position, no two share a number, and the
    token of each is the decimal text of its position. *)
Definition dense_from (fmt_p : ptr → string) (seen : list ptr) (w' : World) : Prop :=
  ∃ new,
    NoDup (seen ++ new) ∧
    (∀ p, is_Some (pointerMap w' !! p) ↔ p ∈ seen ++ new) ∧
    (len (seen ++ new) ≤ INT_MAX →
       table_of (seen ++ new) w' ∧
       (∀ p q v, pointerMap w' !! p = Some v → pointerMap w' !! q = Some v → p = q) ∧
       (∀ (k : nat) p, (seen ++ new) !! k = Some p →
          written (writePointer fmt_p false p) w' = [AString (pretty (Z.of_nat k))])).

(** Options with raw pointers, otherwise as [plain_options]. *)
Definition raw_options : ASTExporterOptions :=
  {| withPointers := true; basePath := ""; normalizeSourcePath := λ path, path;
     deduplicationService := None |}.

(** The identity token of the entry of a type ([type_info.pointer]) and
    the one a [qual_type] refers to ([qual_type.type_ptr]). *)
Definition type_entry_token (a : atd) : option atd :=
  match a with
  | AVariant _ [ATuple _ (AObject _ body :: _)] => field "pointer" body
  | _ => None
  end.
Definition type_ptr_token (a : atd) : option atd :=
  match a with
  | AObject _ body => field "type_ptr" body
  | _ => None
  end.

(** The tag of the entry of a type. *)
Definition type_entry_tag (T : option Type_) : string :=
  match T with
  | Some T => getTypeClassName (T_getTypeClass T)
  | None => "None"
  end +:+ "Type".

(** A [qual_type] that refers to the type at [p]. *)
Definition example_qual_type (p : ptr) : QualType :=
  {| QT_isNull := false; QT_getAsString := "int"; QT_isSugared := false;
     QT_getDesugaredAsString := "int"; QT_getTypePtrOrNull := p |}.

(** A context with two types. *)
Definition typed_context : ASTContext :=
  {| getTranslationUnitDecl := 1000;
     getTypes := [example_type 700 cBuiltinType; example_type 701 cPointerType];
     Allocate := λ n, 501 + Z.of_nat n |}.

(** *** What the output depends on

    Two states agree when the members [NullPtrStmt] and [NullPtrDecl] are
    the same (two states of one exporter), they hold the same last
    location and, unless raw pointers are written, the same identity
    table. *)
Definition agree (Opts : ASTExporterOptions) (w w' : World) : Prop :=
  NullPtrStmt w = NullPtrStmt w' ∧ NullPtrDecl w = NullPtrDecl w' ∧
  LastLocFilename w = LastLocFilename w' ∧ LastLocLine w = LastLocLine w' ∧
  (withPointers Opts = false →
     pointerMap w = pointerMap w' ∧ pointerCounter w = pointerCounter w').

(** From states that agree, [m] writes the same output and leaves states
    that agree. *)
Definition reads_only (Opts : ASTExporterOptions) (m : M unit) : Prop :=
  ∀ w w', agree Opts w w' →
    written m w = written m w' ∧ agree Opts (state_after m w) (state_after m w').

(** * Properties *)

(** ** Running computations *)

Lemma run_bind {A B} (m : M A) (k : A → M B) w :
  (m ≫= k) w =
  let '(a, w1, o1) := m w in let '(b, w2, o2) := k a w1 in (b, w2, o1 ++ o2).
Proof. reflexivity. Qed.

Lemma written_bind {A B} (m : M A) (k : A → M B) w :
  written (m ≫= k) w = written m w ++ written (k (m w).1.1) (state_after m w).
Proof.
  unfold written, state_after. rewrite run_bind.
  destruct (m w) as [[a w1] o1]; simpl. by destruct (k a w1) as [[b w2] o2].
Qed.

Lemma state_after_bind {A B} (m : M A) (k : A → M B) w :
  state_after (m ≫= k) w = state_after (k (m w).1.1) (state_after m w).
Proof.
  unfold state_after. rewrite run_bind.
  destruct (m w) as [[a w1] o1]; simpl. by destruct (k a w1) as [[b w2] o2].
Qed.

Lemma written_scope {A} wrap (m : M A) w : written (scope wrap m) w = [wrap (written m w)].
Proof. unfold written, scope. by destruct (m w) as [[a w1] o]. Qed.

Lemma state_after_scope {A} wrap (m : M A) w : state_after (scope wrap m) w = state_after m w.
Proof. unfold state_after, scope. by destruct (m w) as [[a w1] o]. Qed.

Lemma written_forM_nil {A} (f : A → M unit) w : written (forM_ f []) w = [].
Proof. reflexivity. Qed.

Lemma written_forM_cons {A} (f : A → M unit) x l w :
  written (forM_ f (x :: l)) w = written (f x) w ++ written (forM_ f l) (state_after (f x) w).
Proof. change (forM_ f (x :: l)) with (f x ;; forM_ f l). by rewrite written_bind. Qed.

Lemma state_after_forM_cons {A} (f : A → M unit) x l w :
  state_after (forM_ f (x :: l)) w = state_after (forM_ f l) (state_after (f x) w).
Proof. change (forM_ f (x :: l)) with (f x ;; forM_ f l). by rewrite state_after_bind. Qed.

(** ** The location compressor *)

Section LocationCompressor.
Variable Opts : ASTExporterOptions.
Variable Context : ASTContext.

Lemma dumpSourceLocation_invalid w :
  written (dumpSourceLocation Opts PLocInvalid) w = [record_empty] ∧
  state_after (dumpSourceLocation Opts PLocInvalid) w = w.
Proof. done. Qed.

Lemma dumpSourceLocation_valid f l c w :
  written (dumpSourceLocation Opts (PLocValid f l c)) w =
    [if decide (f = LastLocFilename w) then
       if decide (l = LastLocLine w) then record_column c
       else record_line_column l c
     else record_file_line_column (normalizeSourcePath Opts f) l c] ∧
  state_after (dumpSourceLocation Opts (PLocValid f l c)) w = set_LastLoc f l w.
Proof.
  unfold dumpSourceLocation, written, state_after. rewrite run_bind. cbn -[String.eqb Z.eqb].
  destruct (String.eqb_spec f (LastLocFilename w)) as [->|Hf].
  - rewrite decide_True by done. cbn -[Z.eqb].
    destruct (Z.eqb_spec l (LastLocLine w)) as [->|Hl].
    + rewrite decide_True by done. done.
    + rewrite decide_False by done. done.
  - rewrite decide_False by done. done.
Qed.

Lemma last_valid_app ps p :
  last_valid (ps ++ [p]) =
  match p with PLocInvalid => last_valid ps | PLocValid f l _ => Some (f, l) end.
Proof. unfold last_valid. by rewrite foldl_app. Qed.

Lemma state_after_forM_snoc {A} (f : A → M unit) l x w :
  state_after (forM_ f (l ++ [x])) w = state_after (f x) (state_after (forM_ f l) w).
Proof.
  revert w. induction l as [|y l IH]; intros w.
  - cbn [app]. rewrite state_after_forM_cons. done.
  - cbn [app]. rewrite !state_after_forM_cons. apply IH.
Qed.

(** After any sequence of positions the last location is that of the last
    valid one, and what it was before when none is valid. *)
Lemma LastLoc_after_positions ps w :
  let w' := state_after (forM_ (dumpSourceLocation Opts) ps) w in
  (LastLocFilename w', LastLocLine w')
    = default (LastLocFilename w, LastLocLine w) (last_valid ps).
Proof.
  induction ps as [|p ps IH] using rev_ind; [done|].
  cbv zeta in *. rewrite state_after_forM_snoc, last_valid_app.
  destruct p as [|f l c].
  - by destruct (dumpSourceLocation_invalid
                   (state_after (forM_ (dumpSourceLocation Opts) ps) w)) as [_ ->].
  - by destruct (dumpSourceLocation_valid f l c
                   (state_after (forM_ (dumpSourceLocation Opts) ps) w)) as [_ ->].
Qed.

(** C2, amended.  [dumpSourceLocation] writes exactly one record.  The
    record is empty when the position being encoded is invalid, and the
    state is then left alone.  Otherwise the position is compared with
    the last location the exporter holds: the record is {file, line,
    column} when the file differs, {line, column} when the file is the
    same and the line differs, {column} when both are the same; the
    position becomes the last location.  The last location an exporter
    holds after it has encoded the positions [ps] is the file and the line
    of the last valid position among them, and the initial values of the
    constructor (the empty file name and the line [~0U]) when none of them
    is valid; so the record of the next position is chosen by comparison
    with these. *)
Theorem dumpSourceLocation_shapes :
  (∀ (Loc : SourceLocation) (w : World),
     match Loc with
     | PLocInvalid =>
         written (dumpSourceLocation Opts Loc) w = [record_empty] ∧
         state_after (dumpSourceLocation Opts Loc) w = w
     | PLocValid f l c =>
         written (dumpSourceLocation Opts Loc) w =
           [if decide (f = LastLocFilename w) then
              if decide (l = LastLocLine w) then record_column c
              else record_line_column l c
            else record_file_line_column (normalizeSourcePath Opts f) l c] ∧
         state_after (dumpSourceLocation Opts Loc) w = set_LastLoc f l w
     end) ∧
  (∀ (ps : list PresumedLoc) (w : World),
     let w' := state_after (forM_ (dumpSourceLocation Opts) ps) (ASTExporter_ctor Context w) in
     (LastLocFilename w', LastLocLine w') = compared_with ps) ∧
  (∀ (ps : list PresumedLoc) (Loc : SourceLocation) (w : World),
     let w' := state_after (forM_ (dumpSourceLocation Opts) ps) (ASTExporter_ctor Context w) in
     written (dumpSourceLocation Opts Loc) w' =
       [match Loc with
        | PLocInvalid => record_empty
        | PLocValid f l c =>
            if decide (f = (compared_with ps).1) then
              if decide (l = (compared_with ps).2) then record_column c
              else record_line_column l c
            else record_file_line_column (normalizeSourcePath Opts f) l c
        end] ∧
     compared_with (ps ++ [Loc]) =
       match Loc with
       | PLocInvalid => compared_with ps
       | PLocValid f l c => (f, l)
       end).
Proof.
  assert (∀ ps w,
    let w' := state_after (forM_ (dumpSourceLocation Opts) ps) (ASTExporter_ctor Context w) in
    (LastLocFilename w', LastLocLine w') = compared_with ps) as Hlast.
  { intros ps w. apply (LastLoc_after_positions ps (ASTExporter_ctor Context w)). }
  split; [|split; [exact Hlast|]].
  - intros [|f l c] w; [apply dumpSourceLocation_invalid | apply dumpSourceLocation_valid].
  - intros ps Loc w w'. specialize (Hlast ps w). cbv zeta in Hlast. fold w' in Hlast.
    split.
    + destruct Loc as [|f l c].
      * by destruct (dumpSourceLocation_invalid w') as [-> _].
      * destruct (dumpSourceLocation_valid f l c w') as [-> _].
        rewrite <-Hlast. reflexivity.
    + unfold compared_with. rewrite last_valid_app. by destruct Loc.
Qed.

Lemma replay_one_empty st : replay_one st record_empty = (PLocInvalid, st).
Proof. done. Qed.
Lemma replay_one_flc st f l c :
  replay_one st (record_file_line_column f l c) = (PLocValid f l c, (f, l)).
Proof. done. Qed.
Lemma replay_one_lc st l c :
  replay_one st (record_line_column l c) = (PLocValid st.1 l c, (st.1, l)).
Proof. done. Qed.
Lemma replay_one_c st c :
  replay_one st (record_column c) = (PLocValid st.1 st.2 c, (st.1, st.2)).
Proof. done. Qed.

Lemma replay_forM_dumpSourceLocation ps : ∀ w st,
  in_step Opts w st → Forall has_file ps →
  replay st (written (forM_ (dumpSourceLocation Opts) ps) w) = normalized Opts <$> ps.
Proof.
  induction ps as [|p ps IH]; intros w st Hst Hps; [done|].
  apply Forall_cons in Hps as [Hp Hps].
  rewrite written_forM_cons. destruct p as [|f l c].
  - destruct (dumpSourceLocation_invalid w) as [-> ->].
    cbn [app replay]. rewrite replay_one_empty. cbn. f_equal. by apply IH.
  - destruct (dumpSourceLocation_valid f l c w) as [-> ->].
    cbn [app replay]. cbn in Hp.
    destruct (decide (f = LastLocFilename w)) as [->|Hf].
    + destruct Hst as [He| ->]; [congruence|].
      destruct (decide (l = LastLocLine w)) as [->|Hl].
      * rewrite replay_one_c. cbn. f_equal. apply IH; [|done]. by right.
      * rewrite replay_one_lc. cbn. f_equal. apply IH; [|done]. by right.
    + rewrite replay_one_flc. cbn. f_equal. apply IH; [|done]. by right.
Qed.

(** C7, amended.  Reading back the records written for [ps] by a fresh
    exporter gives [ps] with every file name replaced by its normalized
    form (lines and columns as they were, invalid positions as invalid),
    provided no valid position has an empty file name. *)
Theorem replay_reproduces_normalized (ps : list PresumedLoc) (w : World) :
  Forall has_file ps →
  replay ("", UINT_MAX)
    (written (forM_ (dumpSourceLocation Opts) ps) (ASTExporter_ctor Context w))
  = normalized Opts <$> ps.
Proof. intros Hps. apply replay_forM_dumpSourceLocation; [by left | done]. Qed.
End LocationCompressor.

(** C2, as stated, fails: the first position a fresh exporter encodes (no
    previous position) and a position encoded right after an invalid one
    both get a record that is not empty (here a full one). *)
Lemma dumpSourceLocation_previous_invalid_not_empty :
  let w0 := ASTExporter_ctor example_context process_start in
  let p := PLocValid "a.c" 1 1 in
  written (dumpSourceLocation plain_options p) w0 ≠ [record_empty] ∧
  written (dumpSourceLocation plain_options p)
    (state_after (dumpSourceLocation plain_options PLocInvalid) w0) ≠ [record_empty].
Proof. split; discriminate. Qed.

Lemma replay_reproduces_normalized_witness :
  let ps := [PLocValid "a.c" 1 1; PLocValid "a.c" 1 7; PLocInvalid;
             PLocValid "a.c" 2 3; PLocValid "b.h" 2 3] in
  Forall has_file ps ∧
  replay ("", UINT_MAX)
    (written (forM_ (dumpSourceLocation absolute_options) ps)
       (ASTExporter_ctor example_context process_start))
  = normalized absolute_options <$> ps.
Proof.
  split.
  - repeat constructor; done.
  - apply (replay_reproduces_normalized absolute_options). repeat constructor; done.
Defined.

(** With the identity as normalization the positions come back exactly. *)
Corollary replay_reproduces_exactly (Opts : ASTExporterOptions) Context ps w :
  (∀ path, normalizeSourcePath Opts path = path) →
  Forall has_file ps →
  replay ("", UINT_MAX)
    (written (forM_ (dumpSourceLocation Opts) ps) (ASTExporter_ctor Context w)) = ps.
Proof.
  intros Hid Hps. rewrite replay_forM_dumpSourceLocation; [|by left|done].
  induction ps as [|[|f l c] ps IH]; cbn; [done| |].
  - f_equal. apply IH. by inversion Hps.
  - rewrite Hid. f_equal. apply IH. by inversion Hps.
Qed.

(** C7, as stated, fails: the file name that is written is the normalized
    one, so it is the normalized position that comes back. *)
Lemma replay_differs_when_paths_are_normalized :
  let ps := [PLocValid "a.c" 1 1] in
  replay ("", UINT_MAX)
    (written (forM_ (dumpSourceLocation absolute_options) ps)
       (ASTExporter_ctor example_context process_start)) ≠ ps.
Proof. discriminate. Qed.

(** ** Primitive writer calls *)

Lemma written_emit x w : written (emit x) w = [x].
Proof. done. Qed.
Lemma state_after_emit x w : state_after (emit x) w = w.
Proof. done. Qed.
Lemma written_ret {A} (a : A) w : written (mret a) w = [].
Proof. done. Qed.
Lemma state_after_ret {A} (a : A) w : state_after (mret a) w = w.
Proof. done. Qed.

Lemma written_emitTag t w : written (emitTag t) w = [ATag t].
Proof. done. Qed.
Lemma written_emitString s w : written (emitString s) w = [AString s].
Proof. done. Qed.
Lemma written_emitInteger z w : written (emitInteger z) w = [AInteger z].
Proof. done. Qed.
Lemma written_emitBoolean b w : written (emitBoolean b) w = [ABoolean b].
Proof. done. Qed.
Lemma written_emitSimpleVariant t w : written (emitSimpleVariant t) w = [ASimpleVariant t].
Proof. done. Qed.
Lemma state_after_emitTag t w : state_after (emitTag t) w = w.
Proof. done. Qed.
Lemma state_after_emitString s w : state_after (emitString s) w = w.
Proof. done. Qed.
Lemma state_after_emitInteger z w : state_after (emitInteger z) w = w.
Proof. done. Qed.
Lemma state_after_emitBoolean b w : state_after (emitBoolean b) w = w.
Proof. done. Qed.
Lemma state_after_emitSimpleVariant t w : state_after (emitSimpleVariant t) w = w.
Proof. done. Qed.
Lemma state_after_emitFlag t b w : state_after (emitFlag t b) w = w.
Proof. by destruct b. Qed.
Lemma written_emitFlag t b w :
  written (emitFlag t b) w = if b then [ATag t; ABoolean true] else [].
Proof. by destruct b. Qed.

Lemma forM_emitString l w :
  written (forM_ emitString l) w = AString <$> l ∧
  state_after (forM_ emitString l) w = w.
Proof.
  revert w. induction l as [|x l IH]; intros w; [done|].
  rewrite written_forM_cons, state_after_forM_cons.
  rewrite state_after_emitString, written_emitString. destruct (IH w) as [-> ->]. done.
Qed.

(** Rewriting a run into the runs of its parts. *)
Ltac run :=
  repeat first
    [ rewrite written_bind | rewrite state_after_bind
    | rewrite written_scope | rewrite state_after_scope
    | rewrite written_emit | rewrite state_after_emit
    | rewrite written_emitTag | rewrite state_after_emitTag
    | rewrite written_emitString | rewrite state_after_emitString
    | rewrite written_emitInteger | rewrite state_after_emitInteger
    | rewrite written_emitBoolean | rewrite state_after_emitBoolean
    | rewrite written_emitSimpleVariant | rewrite state_after_emitSimpleVariant
    | rewrite written_emitFlag | rewrite state_after_emitFlag
    | rewrite written_ret | rewrite state_after_ret
    | progress cbv beta ].

(** ** [dumpName] *)

Section QualifiedNames.
#[local] Open Scope nat_scope.
Lemma substring_drop n s : String.substring n (String.length s - n) s = string_drop n s.
Proof.
  revert n. induction s as [|c s IH]; intros [|n]; cbn; try done.
  f_equal. specialize (IH 0). by rewrite Nat.sub_0_r in IH.
Qed.

Lemma substring_from_drop n m s : String.substring n m s = String.substring 0 m (string_drop n s).
Proof.
  revert n. induction s as [|c s IH]; intros [|n]; cbn; try done.
  by destruct m.
Qed.

Lemma string_drop_drop n m s : string_drop n (string_drop m s) = string_drop (m + n) s.
Proof.
  revert m. induction s as [|c s IH]; intros [|m]; cbn; try done.
  by destruct n.
Qed.

Lemma string_drop_length n s : String.length (string_drop n s) = String.length s - n.
Proof.
  revert n. induction s as [|c s IH]; intros [|n]; cbn; try done.
Qed.

Lemma index_drop n t s :
  n ≤ String.length s →
  String.index n t s = (λ k, n + k) <$> String.index 0 t (string_drop n s).
Proof.
  revert s. induction n as [|n IH]; intros s Hn.
  - cbn. by destruct (String.index 0 t s).
  - destruct s as [|c s]; [cbn in Hn; lia|].
    cbn [String.index string_drop]. rewrite IH by (cbn in Hn; lia).
    by destruct (String.index 0 t (string_drop n s)).
Qed.

Lemma append_cons cur c s : (cur +:+ String c "") +:+ s = cur +:+ String c s.
Proof.
  induction cur as [|a cur IH]; [reflexivity|].
  change (String a ((cur +:+ String c "") +:+ s) = String a (cur +:+ String c s)).
  by rewrite IH.
Qed.

Lemma append_empty_r s : s +:+ "" = s.
Proof.
  induction s as [|a s IH]; [reflexivity|].
  change (String a (s +:+ "") = String a s). by rewrite IH.
Qed.

Lemma index_0_cons t c s :
  String.index 0 t (String c s) =
  if String.prefix t (String c s) then Some 0 else S <$> String.index 0 t s.
Proof. cbn [String.index]. by destruct (String.index 0 t s). Qed.

Lemma prefix_colons c c' rest :
  String.prefix "::" (String c (String c' rest)) = Ascii.eqb c colon && Ascii.eqb c' colon.
Proof.
  destruct (Ascii.eqb_spec c colon) as [->|Hc], (Ascii.eqb_spec c' colon) as [->|Hc'];
    cbn [andb].
  - apply String.prefix_correct. by destruct rest.
  - apply not_true_is_false. rewrite String.prefix_correct. destruct rest; cbn; unfold colon in *; congruence.
  - apply not_true_is_false. rewrite String.prefix_correct. destruct rest; cbn; unfold colon in *; congruence.
  - apply not_true_is_false. rewrite String.prefix_correct. destruct rest; cbn; unfold colon in *; congruence.
Qed.

Lemma prefix_colons_1 c : String.prefix "::" (String c "") = false.
Proof. apply not_true_is_false. rewrite String.prefix_correct. cbn. congruence. Qed.

Lemma components_from_cons2 cur c c' rest :
  components_from cur (String c (String c' rest)) =
  if Ascii.eqb c colon && Ascii.eqb c' colon
  then cur :: components_from "" rest
  else components_from (cur +:+ String c "") (String c' rest).
Proof. reflexivity. Qed.

Lemma components_index s : ∀ cur,
  match String.index 0 "::" s with
  | None => components_from cur s = [cur +:+ s]
  | Some k =>
      k + 2 ≤ String.length s ∧
      components_from cur s =
        (cur +:+ String.substring 0 k s) :: components_from "" (string_drop (k + 2) s)
  end.
Proof.
  induction s as [|c s IH]; intros cur.
  - cbn. by rewrite append_empty_r.
  - rewrite index_0_cons. destruct s as [|c' rest].
    + rewrite prefix_colons_1. reflexivity.
    + rewrite prefix_colons, components_from_cons2.
      destruct (Ascii.eqb c colon && Ascii.eqb c' colon).
      * cbn. split; [lia|]. by rewrite append_empty_r.
      * specialize (IH (cur +:+ String c "")).
        destruct (String.index 0 "::" (String c' rest)) as [k|]; cbn [fmap option_fmap option_map].
        -- destruct IH as [Hk IH]. split; [cbn in *; lia|].
           rewrite IH. cbn [String.substring string_drop Nat.add]. by rewrite append_cons.
        -- rewrite IH. by rewrite append_cons.
Qed.

Lemma split_loop_components q : ∀ n fuel f acc,
  String.length q - f ≤ n → f ≤ String.length q → n < fuel →
  ∃ sp f', split_loop fuel q acc f (String.index f "::" q) = Some (sp, f') ∧
           f' ≤ String.length q ∧
           sp ++ [string_drop f' q] = acc ++ components_from "" (string_drop f q).
Proof.
  induction n as [|n IH]; intros fuel f acc Hn Hf Hfuel;
    (destruct fuel as [|fuel]; [lia|]).
  - rewrite index_drop by done.
    pose proof (components_index (string_drop f q) "") as Hc.
    destruct (String.index 0 "::" (string_drop f q)) as [k|].
    + destruct Hc as [Hk _]. rewrite string_drop_length in Hk. lia.
    + exists acc, f. by rewrite Hc.
  - rewrite index_drop by done.
    pose proof (components_index (string_drop f q) "") as Hc.
    destruct (String.index 0 "::" (string_drop f q)) as [k|].
    + destruct Hc as [Hk Hc]. rewrite string_drop_length in Hk.
      cbn [fmap option_fmap option_map split_loop String.length].
      destruct (IH fuel (f + k + 2)
                  (acc ++ [String.substring f (f + k - f) q])) as (sp & f' & Hl & Hf' & Heq);
        [lia..|].
      exists sp, f'. split; [exact Hl|]. split; [exact Hf'|].
      rewrite Heq, Hc, <- app_assoc. cbn [app]. do 3 f_equal.
      * replace (f + k - f) with k by lia. apply substring_from_drop.
      * rewrite string_drop_drop. f_equal. lia.
    + exists acc, f. by rewrite Hc.
Qed.

Lemma split_qualName_components q : split_qualName q = Some (components q).
Proof.
  unfold split_qualName.
  destruct (split_loop_components q (String.length q) (S (String.length q)) 0 [])
    as (sp & f' & -> & Hf' & Heq); [lia..|].
  rewrite substring_drop, Heq. done.
Qed.

Lemma components_from_not_nil cur s : components_from cur s ≠ [].
Proof.
  remember (String.length s) as n eqn:Hn. revert s cur Hn.
  induction (lt_wf n) as [n _ IH]; intros s cur ->.
  destruct s as [|c [|c' rest]]; [done..|].
  rewrite components_from_cons2. destruct (_ && _); [done|].
  assert (Hlt : String.length (String c' rest) < String.length (String c (String c' rest)))
    by (cbn [String.length]; lia).
  exact (IH _ Hlt (String c' rest) _ eq_refl).
Qed.

(** The components, glued with the separator, give the name back. *)
Lemma concat_components_from s : ∀ cur,
  String.concat "::" (components_from cur s) = cur +:+ s.
Proof.
  remember (String.length s) as n eqn:Hn. revert s Hn.
  induction (lt_wf n) as [n _ IH]; intros s -> cur.
  destruct s as [|c [|c' rest]].
  - cbn. by rewrite append_empty_r.
  - reflexivity.
  - rewrite components_from_cons2.
    assert (Hstep : String.concat "::" (components_from (cur +:+ String c "") (String c' rest))
                    = cur +:+ String c (String c' rest)).
    { assert (Hlt : String.length (String c' rest) < String.length (String c (String c' rest)))
        by (cbn [String.length]; lia).
      rewrite (IH _ Hlt (String c' rest) eq_refl). apply append_cons. }
    destruct (Ascii.eqb_spec c colon) as [->|Hc], (Ascii.eqb_spec c' colon) as [->|Hc'];
      cbn [andb]; [|exact Hstep..].
    pose proof (components_from_not_nil "" rest) as Hne.
    assert (Hlt : String.length rest < String.length (String colon (String colon rest)))
      by (cbn [String.length]; lia).
    pose proof (IH (String.length rest) Hlt rest eq_refl "") as Hrest.
    destruct (components_from "" rest) as [|x l]; [done|].
    cbn [String.concat]. cbn [String.concat] in Hrest. by rewrite Hrest.
Qed.
End QualifiedNames.

(** C10.  [dumpName] writes one object with the two fields [name] and
    [qual_name]; [qual_name] is an array declared with as many elements as
    the qualified name has components between its ["::"] separators, and
    it holds these components in reverse order, the unqualified name
    first. *)
Theorem dumpName_qual_name (decl : DeclRef) (w : World) :
  let comps := components (DR_getQualifiedNameAsString decl) in
  written (dumpName decl) w =
    [AObject 2 [ATag "name"; AString (DR_getNameAsString decl);
                ATag "qual_name";
                AArray (Some (len comps)) (AString <$> rev comps)]] ∧
  state_after (dumpName decl) w = w.
Proof.
  unfold dumpName. rewrite split_qualName_components. cbn [default from_option id].
  unfold ObjectScope, ArrayScope. run.
  destruct (forM_emitString (rev (components (DR_getQualifiedNameAsString decl))) w)
    as [-> ->].
  done.
Qed.

(** ** The identity table ([writePointer]) *)

Section IdentityTable.
Variable fmt_p : ptr → string.

Lemma substring_all s : ∀ n, (String.length s ≤ n)%nat → String.substring 0 n s = s.
Proof.
  induction s as [|c s IH]; intros [|n] Hn; cbn in *; try done; try lia.
  f_equal. apply IH. lia.
Qed.

Lemma pretty_N_go_length (k : nat) : ∀ x s,
  (x < 10 ^ N.of_nat k)%N →
  (String.length (pretty_N_go x s) ≤ k + String.length s)%nat.
Proof.
  induction k as [|k IH]; intros x s Hx.
  - assert (x = 0%N) as -> by (cbn in Hx; lia). rewrite pretty_N_go_0. lia.
  - destruct (decide (x = 0%N)) as [->|Hx0]; [rewrite pretty_N_go_0; lia|].
    rewrite pretty_N_go_step by lia.
    etrans; [apply IH|cbn; lia].
    rewrite Nat2N.inj_succ, N.pow_succ_r' in Hx.
    apply N.Div0.div_lt_upper_bound. lia.
Qed.

Lemma pretty_Z_length z :
  0 ≤ z ≤ INT_MAX → (String.length (pretty z) ≤ 10)%nat.
Proof.
  intros Hz. destruct z as [|p|p]; [cbn; lia| |lia].
  change (pretty (Z.pos p)) with (pretty (N.pos p)).
  unfold pretty, pretty_N. rewrite decide_False by done.
  etrans; [apply (pretty_N_go_length 10)|cbn; lia].
  unfold INT_MAX in Hz. cbn. lia.
Qed.

Lemma snprintf20_pretty z : 0 ≤ z ≤ INT_MAX → snprintf20 (pretty z) = pretty z.
Proof.
  intros Hz. apply substring_all. pose proof (pretty_Z_length z Hz). lia.
Qed.

Lemma wrap_int_small z : -2147483648 ≤ z ≤ INT_MAX → wrap_int z = z.
Proof. unfold wrap_int, INT_MAX. intros Hz. rewrite Z.mod_small; lia. Qed.

(** What one call does, in either case. *)
Lemma writePointer_seen p v w :
  pointerMap w !! p = Some v →
  written (writePointer fmt_p false p) w = [AString (snprintf20 (pretty v))] ∧
  state_after (writePointer fmt_p false p) w = w.
Proof.
  intros Hp. unfold writePointer, written, state_after, mbind, M_bind, get. cbn -[decide].
  destruct (decide (pointerMap w !! p = None)) as [E|E]; [congruence|].
  cbn. by rewrite Hp.
Qed.

Lemma writePointer_fresh p w :
  pointerMap w !! p = None →
  written (writePointer fmt_p false p) w = [AString (snprintf20 (pretty (pointerCounter w)))] ∧
  state_after (writePointer fmt_p false p) w = assign_pointer p w.
Proof.
  intros Hp. unfold writePointer, written, state_after, mbind, M_bind, get. cbn -[decide].
  destruct (decide (pointerMap w !! p = None)) as [E|E]; [|done].
  cbn. by rewrite lookup_insert_eq.
Qed.

Lemma writePointer_raw p w :
  written (writePointer fmt_p true p) w = [AString (snprintf20 (fmt_p p))] ∧
  state_after (writePointer fmt_p true p) w = w.
Proof. done. Qed.

Lemma table_of_start : table_of [] process_start.
Proof.
  split; [done|]. intros p v. cbn. rewrite lookup_empty. split; [done|].
  by intros (k & _ & ?).
Qed.

Lemma table_of_elem seen w p :
  table_of seen w → (p ∈ seen ↔ pointerMap w !! p ≠ None).
Proof.
  intros [_ Hm]. rewrite list_elem_of_lookup. split.
  - intros [k Hk]. assert (pointerMap w !! p = Some (Z.of_nat k)) as ->; [|done].
    apply Hm. eauto.
  - intros Hp. destruct (pointerMap w !! p) as [v|] eqn:E; [|done].
    apply Hm in E as (k & _ & ?). eauto.
Qed.

Lemma table_of_assign seen w p :
  table_of seen w → pointerMap w !! p = None → len seen < INT_MAX →
  table_of (seen ++ [p]) (assign_pointer p w).
Proof.
  intros [Hc Hm] Hp Hlen. split.
  - cbn. rewrite Hc, wrap_int_small; unfold len in *; [|unfold INT_MAX in *; lia].
    rewrite length_app. cbn. lia.
  - intros q v. cbn. destruct (decide (p = q)) as [<-|Hpq].
    + rewrite lookup_insert_eq. split.
      * intros [= <-]. exists (length seen). split; [by rewrite Hc|].
        by rewrite lookup_app_r, Nat.sub_diag.
      * intros (k & -> & Hk). f_equal. rewrite Hc. unfold len. f_equal.
        destruct (decide (k < length seen)%nat) as [Hlt|Hge].
        -- rewrite lookup_app_l in Hk by done.
           assert (pointerMap w !! p = Some (Z.of_nat k)) by (apply Hm; eauto). congruence.
        -- apply lookup_lt_Some in Hk. rewrite length_app in Hk. cbn in Hk. lia.
    + rewrite lookup_insert_ne by done. rewrite Hm. split.
      * intros (k & -> & Hk). exists k. split; [done|].
        by apply lookup_app_l_Some.
      * intros (k & -> & Hk). exists k. split; [done|].
        apply lookup_app_Some in Hk as [Hk|[_ Hk]]; [done|].
        apply list_lookup_singleton_Some in Hk as [_ ?]. done.
Qed.

Lemma table_of_NoDup seen w : table_of seen w → NoDup seen.
Proof.
  intros [_ Hm]. apply NoDup_alt. intros i j p Hi Hj.
  assert (pointerMap w !! p = Some (Z.of_nat i)) as Hi' by (apply Hm; eauto).
  assert (pointerMap w !! p = Some (Z.of_nat j)) as Hj' by (apply Hm; eauto).
  rewrite Hi' in Hj'. injection Hj'. lia.
Qed.

Lemma first_seen_from_prefix ps : ∀ seen, seen `prefix_of` first_seen_from seen ps.
Proof.
  induction ps as [|p ps IH]; intros seen; cbn; [done|].
  destruct (decide (p ∈ seen)); [apply IH|].
  etrans; [|apply IH]. by apply prefix_app_r.
Qed.

Lemma first_seen_from_elem ps : ∀ seen a,
  a ∈ first_seen_from seen ps ↔ a ∈ seen ∨ a ∈ ps.
Proof.
  induction ps as [|p ps IH]; intros seen a; cbn [first_seen_from].
  - rewrite elem_of_nil. tauto.
  - rewrite IH, elem_of_cons. destruct (decide (p ∈ seen)) as [Hp|Hp].
    + split; [tauto|]. intros [?|[->|?]]; auto.
    + rewrite elem_of_app, list_elem_of_singleton. tauto.
Qed.

(** The tokens of a sequence of calls: each is the decimal text of the
    position of the identity in the final first-seen order.  The counter
    does not overflow as long as there are at most [INT_MAX] identities. *)
Lemma writePointer_sequence ps : ∀ seen w,
  table_of seen w → len (first_seen_from seen ps) ≤ INT_MAX →
  table_of (first_seen_from seen ps)
    (state_after (forM_ (writePointer fmt_p false) ps) w) ∧
  ∃ toks : list string,
    written (forM_ (writePointer fmt_p false) ps) w = AString <$> toks ∧
    length toks = length ps ∧
    ∀ i a, ps !! i = Some a →
      ∃ k : nat, first_seen_from seen ps !! k = Some a ∧
                 toks !! i = Some (pretty (Z.of_nat k)).
Proof.
  induction ps as [|p ps IH]; intros seen w Hw Hlen.
  - split; [done|]. exists []. by repeat split.
  - rewrite written_forM_cons, state_after_forM_cons.
    cbn [first_seen_from] in *.
    pose proof (table_of_elem seen w p Hw) as Hel.
    destruct (pointerMap w !! p) as [v|] eqn:Hp.
    + destruct (writePointer_seen p v w Hp) as [-> ->].
      rewrite decide_True in * by (apply Hel; done).
      pose proof (prefix_length _ _ (first_seen_from_prefix ps seen)) as Hpre.
      destruct (IH seen w Hw Hlen) as (Hw' & toks & Hout & Hl & Htoks).
      split; [done|].
      destruct Hw as [Hc Hm]. apply Hm in Hp as (k & -> & Hk).
      assert (Z.of_nat k < len seen)
        by (apply lookup_lt_Some in Hk; unfold len, ptr in *; lia).
      rewrite snprintf20_pretty by (unfold len, ptr in *; lia).
      exists (pretty (Z.of_nat k) :: toks). split; [by rewrite Hout|].
      split; [cbn; lia|]. intros [|i] a Ha; cbn in Ha.
      * injection Ha as <-. exists k. split; [|done].
        by eapply prefix_lookup_Some, first_seen_from_prefix.
      * by apply Htoks.
    + destruct (writePointer_fresh p w Hp) as [-> ->].
      rewrite decide_False in * by (rewrite Hel; intros H; by apply H).
      pose proof (prefix_length _ _ (first_seen_from_prefix ps (seen ++ [p]))) as Hpre.
      rewrite length_app in Hpre. cbn [length] in Hpre.
      assert (table_of (seen ++ [p]) (assign_pointer p w)) as Hw1.
      { apply table_of_assign; [done..|unfold len, ptr in *; lia]. }
      destruct (IH _ _ Hw1 Hlen) as (Hw' & toks & Hout & Hl & Htoks).
      split; [done|].
      destruct Hw as [Hc Hm]. rewrite Hc.
      rewrite snprintf20_pretty by (unfold len, ptr in *; lia).
      exists (pretty (len seen) :: toks). split; [by rewrite Hout|].
      split; [cbn; lia|]. intros [|i] a Ha; cbn in Ha.
      * injection Ha as <-. exists (length seen). split; [|done].
        eapply prefix_lookup_Some; [|apply first_seen_from_prefix].
        by rewrite lookup_app_r, Nat.sub_diag.
      * by apply Htoks.
Qed.

(** C3, amended.  In anonymized mode, take the calls of a run that starts
    with a table that numbers the identities of a list [seen] by their
    positions (the empty list when the process starts; what the exports
    made before left otherwise, since nothing resets the table), and that
    ends with at most [INT_MAX] identities in the table.  Every call
    writes one string; two calls write the same token exactly when they
    are given the same identity (so a repeated identity gets its token
    again); the identities in the table after the run are those of [seen]
    followed by the ones the run saw first, in that order and none twice,
    and the token of each is the decimal text of its position in that
    list: the numbers go on from the number of identities in [seen], and
    start at zero only when the table was empty; the table the run leaves
    is of the same form again. *)
Theorem writePointer_tokens (seen ps : list ptr) (w : World) :
  table_of seen w → len (first_seen_from seen ps) ≤ INT_MAX →
  ∃ toks : list string,
    written (forM_ (writePointer fmt_p false) ps) w = AString <$> toks ∧
    length toks = length ps ∧
    (∀ i j a b s t,
       ps !! i = Some a → ps !! j = Some b →
       toks !! i = Some s → toks !! j = Some t →
       (s = t ↔ a = b)) ∧
    (∃ new, first_seen_from seen ps = seen ++ new ∧ NoDup (seen ++ new) ∧
            ∀ a, a ∈ new ↔ a ∈ ps ∧ a ∉ seen) ∧
    (∀ i a k,
       ps !! i = Some a → first_seen_from seen ps !! k = Some a →
       toks !! i = Some (pretty (Z.of_nat k))) ∧
    table_of (first_seen_from seen ps)
      (state_after (forM_ (writePointer fmt_p false) ps) w).
Proof.
  intros Hw Hlen.
  destruct (writePointer_sequence ps seen w Hw Hlen) as (Hw' & toks & Hout & Hl & Htoks).
  pose proof (table_of_NoDup _ _ Hw') as Hnd.
  exists toks. split; [done|]. split; [done|]. split; [|split; [|split; [|done]]].
  - intros i j a b s t Ha Hb Hs Ht.
    destruct (Htoks i a Ha) as (ka & Hka & Hs').
    destruct (Htoks j b Hb) as (kb & Hkb & Ht').
    rewrite Hs in Hs'. rewrite Ht in Ht'. injection Hs' as ->. injection Ht' as ->.
    split.
    + intros Heq. apply (inj pretty) in Heq. apply Nat2Z.inj in Heq as ->. congruence.
    + intros <-. by rewrite (NoDup_lookup _ _ _ _ Hnd Hka Hkb).
  - destruct (first_seen_from_prefix ps seen) as [new Hnew]. exists new.
    split; [done|]. split; [by rewrite <-Hnew|].
    intros a. pose proof (first_seen_from_elem ps seen a) as Hel.
    rewrite Hnew, elem_of_app in Hel. rewrite Hnew in Hnd.
    apply NoDup_app in Hnd as (_ & Hdis & _). split.
    + intros Ha. assert (a ∉ seen) as Hns by (intros Hs; by apply (Hdis a)).
      split; [|done]. destruct Hel as [[?|?] _]; [by right|done|done].
    + intros [Ha Hns]. destruct Hel as [_ [?|?]]; [by right|done|done].
  - intros i a k Ha Hk. destruct (Htoks i a Ha) as (k' & Hk' & ->).
    by rewrite (NoDup_lookup _ _ _ _ Hnd Hk Hk').
Qed.
End IdentityTable.

(** ** Counting the items a member function writes *)

Lemma emits_cast {A} k n (m : M A) : emits k m → k = n → emits n m.
Proof. by intros ? <-. Qed.

Lemma emits_ret {A} (a : A) : emits 0 (mret a).
Proof. done. Qed.

Lemma emits_bind {A B} n k (m : M A) (f : A → M B) :
  emits n m → (∀ a, emits k (f a)) → emits (n + k) (m ≫= f).
Proof.
  intros Hm Hf w. rewrite written_bind. unfold len in *. rewrite length_app.
  rewrite Nat2Z.inj_add. f_equal; [apply Hm | apply Hf].
Qed.

Lemma emits_scope {A} wrap (m : M A) : emits 1 (scope wrap m).
Proof. intros w. by rewrite written_scope. Qed.

Lemma emits_emit x : emits 1 (emit x).
Proof. done. Qed.

Lemma emits_forM_0 {A} (f : A → M unit) l : (∀ x, emits 0 (f x)) → emits 0 (forM_ f l).
Proof.
  intros Hf. induction l as [|x l IH]; intros w; [done|].
  rewrite written_forM_cons. unfold len. rewrite length_app, Nat2Z.inj_add.
  fold (len (written (f x) w)). rewrite (Hf x w). apply IH.
Qed.

Lemma emits_modify f : emits 0 (modify f).
Proof. done. Qed.

Create HintDb emits discriminated.
#[local] Hint Resolve emits_ret emits_emit : emits.

Ltac head_of t := lazymatch t with ?f _ => head_of f | _ => t end.

Ltac emits_step :=
  lazymatch goal with
  | |- emits _ (_ ≫= _) => eapply emits_bind; [|intros ?]
  | |- emits _ (scope _ _) => apply emits_scope
  | |- emits _ (ObjectScope _ _) => apply emits_scope
  | |- emits _ (ArrayScope _ _) => apply emits_scope
  | |- emits _ (TupleScope _ _) => apply emits_scope
  | |- emits _ (TupleScope_unsized _) => apply emits_scope
  | |- emits _ (VariantScope _ _) => apply emits_scope
  | |- emits _ (emitString _) => apply emits_emit
  | |- emits _ (emitInteger _) => apply emits_emit
  | |- emits _ (emitSimpleVariant _) => apply emits_emit
  | |- emits _ (emitBoolean _) => apply emits_emit
  | |- emits _ (emitTag _) => apply emits_emit
  | |- emits _ (mret _) => apply emits_ret
  | |- emits _ (modify _) => apply emits_modify
  | |- emits _ (forM_ _ _) => apply emits_forM_0; intros ?
  | |- emits _ (match ?x with _ => _ end) => destruct x
  | |- emits _ ?m =>
      first [ solve [auto 2 with emits nocore]
            | let h := head_of m in progress unfold h
            | progress cbv beta zeta ]
  end.
Ltac emits_tac := eapply emits_cast; [repeat emits_step | try reflexivity].

Section Arity.
Variable fmt_p : ptr → string.
Variable Opts : ASTExporterOptions.
Variable Context : ASTContext.
Variable dD : Decl → M unit.
Variable dS : Stmt → M unit.
Variable nD nS : M unit.
Hypothesis emits_dD : ∀ D, emits 1 (dD D).
Hypothesis emits_nD : emits 1 nD.

Abbreviation Visit := (ConstDeclVisitor_Visit fmt_p Opts Context dD dS nD nS).
Abbreviation VisitS := (ConstStmtVisitor_Visit fmt_p Opts dD dS nD nS).

Lemma emits_dumpDecl o : emits 1 (dumpDecl dD nD o).
Proof. destruct o; [apply emits_dD | apply emits_nD]. Qed.
#[local] Hint Resolve emits_dumpDecl : emits.

Lemma emits_writePointer b p : emits 1 (writePointer fmt_p b p).
Proof.
  intros w. destruct b; [done|].
  destruct (pointerMap w !! p) as [v|] eqn:Hp.
  - by destruct (writePointer_seen fmt_p p v w Hp) as [-> _].
  - by destruct (writePointer_fresh fmt_p p w Hp) as [-> _].
Qed.
#[local] Hint Resolve emits_writePointer : emits.

Lemma emits_dumpSourceLocation Loc : emits 1 (dumpSourceLocation Opts Loc).
Proof.
  intros w. destruct Loc as [|f l c].
  - by destruct (dumpSourceLocation_invalid Opts w) as [-> _].
  - by destruct (dumpSourceLocation_valid Opts f l c w) as [-> _].
Qed.

(** A declaration: the fields of [c] are those of its base followed by
    as many as the two sizes differ. *)
Lemma Visit_Decl_step D c b w :
  DeclBASE c = Some b →
  ∃ own, written (Visit D c) w = written (Visit D b) w ++ own ∧
         len own = tupleSizeOfDeclKind c - tupleSizeOfDeclKind b.
Proof.
  intros Hb.
  destruct c; cbn in Hb; simplify_eq;
    try (cbn [ConstDeclVisitor_Visit tupleSizeOfDeclKind];
         exists []; split; [by rewrite app_nil_r | unfold len; cbn [length]; lia]).
  all: unfold cTypedefNameDecl, cDeclaratorDecl, cObjCImplDecl;
       cbn [ConstDeclVisitor_Visit tupleSizeOfDeclKind].
  all: lazymatch goal with
       | |- ∃ _, written ?m _ = _ ∧ _ => let h := head_of m in unfold h
       end.
  all: rewrite written_bind; eexists; split; [reflexivity|].
  all: lazymatch goal with |- len (written ?m ?w) = ?n => generalize w; change (emits n m) end.
  all: emits_tac.
Qed.

Lemma Visit_Stmt_step Node c b w :
  StmtPARENT c = Some b →
  ∃ own, written (VisitS Node c) w = written (VisitS Node b) w ++ own ∧
         len own = tupleSizeOfStmtClass c - tupleSizeOfStmtClass b.
Proof.
  intros Hb.
  destruct c; cbn in Hb; simplify_eq;
    try (cbn [ConstStmtVisitor_Visit tupleSizeOfStmtClass];
         exists []; split; [by rewrite app_nil_r | unfold len; cbn [length]; lia]).
  all: cbn [ConstStmtVisitor_Visit tupleSizeOfStmtClass].
  all: lazymatch goal with
       | |- ∃ _, written ?m _ = _ ∧ _ => let h := head_of m in unfold h
       end.
  all: rewrite written_bind; eexists; split; [reflexivity|].
  all: lazymatch goal with |- len (written ?m ?w) = ?n => generalize w; change (emits n m) end.
  all: emits_tac.
Qed.

(** The number of fields written for a kind is the size the resolver gives. *)
Lemma Visit_Decl_emits D c : emits (tupleSizeOfDeclKind c) (Visit D c).
Proof.
  induction c; cbn [ConstDeclVisitor_Visit tupleSizeOfDeclKind]; try done.
  all: emits_tac.
Qed.

Lemma Visit_Stmt_emits Node c : emits (tupleSizeOfStmtClass c) (VisitS Node c).
Proof.
  induction c; cbn [ConstStmtVisitor_Visit tupleSizeOfStmtClass]; try done.
  all: emits_tac.
Qed.
End Arity.

(** ** Induction on declarations and statements *)

Section Induction.
Variable P : Decl → Prop.
Variable Q : Stmt → Prop.
Hypothesis HP : ∀ D, Decl_children P Q D → P D.
Hypothesis HQ : ∀ Node, Stmt_children P Q Node → Q Node.

Lemma Decl_Stmt_ind : (∀ D, P D) ∧ (∀ Node, Q Node).
Proof.
  assert (∀ D, P D) as HD.
  { fix IHD 1 with (IHS (Node : Stmt) {struct Node} : Q Node).
    - intros D. apply HP. destruct D. unfold Decl_children. cbn.
      repeat split.
      all: lazymatch goal with
           | |- Forall _ ?l =>
               induction l as [|x l IHl]; constructor; [|exact IHl]
           | |- _ => idtac
           end.
      all: try lazymatch goal with
           | |- opt_all _ (?f ?x) => destruct x; cbn
           end.
      all: lazymatch goal with
           | |- opt_all _ ?o =>
               intros ? Hx; destruct o; [injection Hx as <- | discriminate Hx]
           | |- _ => idtac
           end.
      all: first [apply IHD | apply IHS].
    - intros Node. apply HQ. destruct Node. unfold Stmt_children. cbn.
      repeat split.
      all: lazymatch goal with
           | |- Forall _ ?l =>
               induction l as [|x l IHl]; constructor; [|exact IHl]
           | |- _ => idtac
           end.
      all: lazymatch goal with
           | |- opt_all _ ?o =>
               intros ? Hx; destruct o; [injection Hx as <- | discriminate Hx]
           | |- _ => idtac
           end.
      all: first [apply IHD | apply IHS]. }
  split; [exact HD|].
  fix IHS 1. intros Node. apply HQ. destruct Node. unfold Stmt_children. cbn.
  repeat split.
  all: lazymatch goal with
       | |- Forall _ ?l =>
           induction l as [|x l IHl]; constructor; [|exact IHl]
       | |- _ => idtac
       end.
  all: lazymatch goal with
       | |- opt_all _ ?o =>
           intros ? Hx; destruct o; [injection Hx as <- | discriminate Hx]
       | |- _ => idtac
       end.
  all: first [apply HD | apply IHS].
Qed.
End Induction.

(** ** What every member function preserves *)

Lemma opt_all_impl {A} (P Q : A → Prop) o :
  opt_all P o → (∀ x, P x → Q x) → opt_all Q o.
Proof. unfold opt_all. auto. Qed.

Lemma opt_all_intro {A} (Q : A → Prop) o : (∀ x, Q x) → opt_all Q o.
Proof. unfold opt_all. auto. Qed.

Lemma opt_all_Some {A} (P : A → Prop) x : opt_all P (Some x) ↔ P x.
Proof. unfold opt_all. split; [auto | by intros ? ? [= <-]]. Qed.

Lemma opt_all_None {A} (P : A → Prop) : opt_all P None.
Proof. by intros ?. Qed.

Lemma tuples_ok_all l :
  (fix all l := match l with [] => True | x :: l => tuples_ok x ∧ all l end) l
  ↔ Forall tuples_ok l.
Proof.
  induction l as [|x l IH]; [by split|].
  rewrite Forall_cons, <-IH. done.
Qed.

Lemma tuples_ok_AObject n body : tuples_ok (AObject n body) ↔ Forall tuples_ok body.
Proof. apply tuples_ok_all. Qed.
Lemma tuples_ok_AArray n body : tuples_ok (AArray n body) ↔ Forall tuples_ok body.
Proof. apply tuples_ok_all. Qed.
Lemma tuples_ok_AVariant t body : tuples_ok (AVariant t body) ↔ Forall tuples_ok body.
Proof. apply tuples_ok_all. Qed.
Lemma tuples_ok_ATuple_unsized body : tuples_ok (ATuple None body) ↔ Forall tuples_ok body.
Proof. apply tuples_ok_all. Qed.
Lemma tuples_ok_ATuple n body :
  tuples_ok (ATuple (Some n) body) ↔ len body = n ∧ Forall tuples_ok body.
Proof. cbn. by rewrite tuples_ok_all. Qed.

Section Preserved.
Variable fmt_p : ptr → string.
Variable Opts : ASTExporterOptions.
Variable Context : ASTContext.
Variable S : ptr → Prop.

Lemma later_refl w : later w w.
Proof. unfold later. reflexivity. Qed.

Lemma later_trans w1 w2 w3 : later w1 w2 → later w2 w3 → later w1 w3.
Proof. unfold later. intros. by etrans. Qed.

Lemma stays_refl w : stays Opts S w w.
Proof.
  split; [unfold later; reflexivity|]. split; [|done].
  exists []. by rewrite app_nil_r.
Qed.

Lemma stays_same_table w w' :
  pointerMap w' = pointerMap w → pointerCounter w' = pointerCounter w →
  consulted w' = consulted w →
  stays Opts S w w'.
Proof.
  intros Hm Hc Hl. split; [unfold later; by rewrite Hm|]. split; [|done].
  exists []. by rewrite app_nil_r.
Qed.

Lemma stays_trans w1 w2 w3 : stays Opts S w1 w2 → stays Opts S w2 w3 → stays Opts S w1 w3.
Proof.
  intros (Hl1 & (l1 & Hc1 & HS1 & Hn1) & Hp1) (Hl2 & (l2 & Hc2 & HS2 & Hn2) & Hp2).
  split; [unfold later in *; by etrans|]. split.
  - exists (l1 ++ l2). split; [by rewrite Hc2, Hc1, app_assoc|].
    split; [by apply Forall_app|]. intros Hs. by rewrite Hn1, Hn2.
  - intros H. destruct (Hp1 H), (Hp2 H). split; congruence.
Qed.

Lemma good_ret {A} (a : A) : good Opts S (mret a).
Proof. intros w. split; [apply stays_refl | constructor]. Qed.

Lemma good_bind {A B} (m : M A) (f : A → M B) :
  good Opts S m → (∀ a, good Opts S (f a)) → good Opts S (m ≫= f).
Proof.
  intros Hm Hf w. rewrite state_after_bind, written_bind.
  destruct (Hm w) as [Hs1 Ht1].
  destruct (Hf (m w).1.1 (state_after m w)) as [Hs2 Ht2].
  split; [by eapply stays_trans | by apply Forall_app].
Qed.

Lemma good_emit x : tuples_ok x → good Opts S (emit x).
Proof. intros Hx w. split; [apply stays_refl | by repeat constructor]. Qed.

Lemma good_modify f : (∀ w, stays Opts S w (f w)) → good Opts S (modify f).
Proof. intros Hf w. split; [apply Hf | constructor]. Qed.

Lemma good_get : good Opts S get.
Proof. intros w. split; [apply stays_refl | constructor]. Qed.

Lemma good_scope {A} wrap (m : M A) :
  (∀ body, Forall tuples_ok body → tuples_ok (wrap body)) →
  good Opts S m → good Opts S (scope wrap m).
Proof.
  intros Hwrap Hm w. rewrite state_after_scope, written_scope.
  destruct (Hm w) as [Hs Ht]. split; [done|]. apply Forall_singleton. by apply Hwrap.
Qed.

Lemma good_ObjectScope {A} n (m : M A) : good Opts S m → good Opts S (ObjectScope n m).
Proof. apply good_scope. intros body. by rewrite tuples_ok_AObject. Qed.
Lemma good_ArrayScope {A} n (m : M A) : good Opts S m → good Opts S (ArrayScope n m).
Proof. apply good_scope. intros body. by rewrite tuples_ok_AArray. Qed.
Lemma good_VariantScope {A} t (m : M A) : good Opts S m → good Opts S (VariantScope t m).
Proof. apply good_scope. intros body. by rewrite tuples_ok_AVariant. Qed.
Lemma good_TupleScope_unsized {A} (m : M A) : good Opts S m → good Opts S (TupleScope_unsized m).
Proof. apply good_scope. intros body. by rewrite tuples_ok_ATuple_unsized. Qed.

Lemma good_TupleScope {A} n (m : M A) :
  emits n m → good Opts S m → good Opts S (TupleScope n m).
Proof.
  intros Hn Hm w. unfold TupleScope. rewrite state_after_scope, written_scope.
  destruct (Hm w) as [Hs Ht]. split; [done|]. apply Forall_singleton.
  rewrite tuples_ok_ATuple. split; [apply Hn | done].
Qed.

Lemma good_emitFlag t b : good Opts S (emitFlag t b).
Proof.
  destruct b; [|apply good_ret].
  apply good_bind; [by apply good_emit | intros _; by apply good_emit].
Qed.

Lemma good_when b m : good Opts S m → good Opts S (when b m).
Proof. destruct b; [done | intros _; apply good_ret]. Qed.

Lemma good_whenSome {A} (o : option A) f :
  opt_all (λ x, good Opts S (f x)) o → good Opts S (whenSome o f).
Proof. destruct o; [by rewrite opt_all_Some | intros _; apply good_ret]. Qed.

Lemma good_forM {A} (f : A → M unit) l :
  Forall (λ x, good Opts S (f x)) l → good Opts S (forM_ f l).
Proof.
  induction 1 as [|x l Hx Hl IH]; [apply good_ret|].
  change (forM_ f (x :: l)) with (f x ;; forM_ f l). by apply good_bind.
Qed.

(** The three places where the state changes. *)
Lemma good_dumpPointer p : good Opts S (dumpPointer fmt_p Opts p).
Proof.
  intros w. unfold dumpPointer. destruct (withPointers Opts) eqn:Hwp.
  - destruct (writePointer_raw fmt_p p w) as [-> ->].
    split; [apply stays_refl | by repeat constructor].
  - destruct (pointerMap w !! p) as [v|] eqn:Hp.
    + destruct (writePointer_seen fmt_p p v w Hp) as [-> ->].
      split; [apply stays_refl | by repeat constructor].
    + destruct (writePointer_fresh fmt_p p w Hp) as [-> ->].
      split; [|by repeat constructor]. split; [by apply insert_subseteq|].
      split; [|congruence]. exists []. by rewrite app_nil_r.
Qed.

Lemma good_dumpSourceLocation Loc : good Opts S (dumpSourceLocation Opts Loc).
Proof.
  intros w. destruct Loc as [|f l c].
  - destruct (dumpSourceLocation_invalid Opts w) as [-> ->].
    split; [apply stays_refl | by repeat constructor].
  - destruct (dumpSourceLocation_valid Opts f l c w) as [-> ->].
    split; [by apply stays_same_table|]. apply Forall_singleton.
    repeat case_decide; cbn; tauto.
Qed.

Lemma good_set_FC C : good Opts S (modify (set_FC C)).
Proof. apply good_modify. intros w. by apply stays_same_table. Qed.

Lemma good_consult I : S (D_ptr I) → good Opts S (consult Opts I).
Proof.
  intros HI. unfold consult.
  destruct (deduplicationService Opts) eqn:Hs; [|apply good_ret].
  apply good_modify. intros w. split; [unfold later; reflexivity|]. split; [|done].
  exists [D_ptr I]. split; [done|]. split; [by constructor | by rewrite Hs].
Qed.

Create HintDb good discriminated.
#[local] Hint Resolve good_dumpPointer good_dumpSourceLocation good_set_FC
  good_get good_emitFlag : good.

Ltac child_tac :=
  first [ assumption
        | apply opt_all_Some; assumption
        | apply opt_all_None
        | match goal with
          | E : ?t = Some _, H : opt_all _ ?t |- _ => rewrite E in H; exact H
          end ].

Ltac good_step :=
  lazymatch goal with
  | |- good _ _ (_ ≫= _) => apply good_bind; [|intros ?]
  | |- good _ _ (mret _) => apply good_ret
  | |- good _ _ (ObjectScope _ _) => apply good_ObjectScope
  | |- good _ _ (ArrayScope _ _) => apply good_ArrayScope
  | |- good _ _ (VariantScope _ _) => apply good_VariantScope
  | |- good _ _ (TupleScope_unsized _) => apply good_TupleScope_unsized
  | |- good _ _ (TupleScope _ _) => apply good_TupleScope; [emits_tac|]
  | |- good _ _ (emitTag _) => apply good_emit; exact I
  | |- good _ _ (emitString _) => apply good_emit; exact I
  | |- good _ _ (emitInteger _) => apply good_emit; exact I
  | |- good _ _ (emitBoolean _) => apply good_emit; exact I
  | |- good _ _ (emitSimpleVariant _) => apply good_emit; exact I
  | |- good _ _ (when _ _) => apply good_when
  | |- good _ _ (whenSome _ _) =>
      apply good_whenSome;
      first [ eapply opt_all_impl; [eassumption | cbv beta; intros ? ?]
            | apply opt_all_intro; intros ? ]
  | |- good _ _ (forM_ _ _) =>
      apply good_forM;
      first [ eapply Forall_impl; [eassumption | cbv beta; intros ? ?]
            | apply Forall_forall; intros ? _ ]
  | |- good _ _ (match ?x with _ => _ end) => destruct x eqn:?
  | |- good _ _ ?m =>
      first [ solve [auto 2 with good nocore]
            | let h := head_of m in progress unfold h
            | progress cbv beta zeta ]
  end.
Ltac good_tac := repeat good_step.

Lemma good_dumpSourceRange R : good Opts S (dumpSourceRange Opts R).
Proof. unfold dumpSourceRange. apply good_TupleScope; [|good_tac].
  eapply emits_cast; [eapply emits_bind; [apply emits_dumpSourceLocation|intros ?; apply emits_dumpSourceLocation]|done]. Qed.
#[local] Hint Resolve good_dumpSourceRange : good.

Lemma good_dumpQualType T : good Opts S (dumpQualType fmt_p Opts T).
Proof. good_tac. Qed.
#[local] Hint Resolve good_dumpQualType : good.

Lemma good_dumpName decl : good Opts S (dumpName decl).
Proof. good_tac. Qed.
#[local] Hint Resolve good_dumpName : good.

Lemma good_dumpDeclRef D : good Opts S (dumpDeclRef fmt_p Opts D).
Proof. good_tac. Qed.
#[local] Hint Resolve good_dumpDeclRef : good.

Lemma good_dumpAttr Att : good Opts S (dumpAttr fmt_p Opts Att).
Proof. good_tac. Qed.
#[local] Hint Resolve good_dumpAttr : good.

Lemma good_VisitType T : good Opts S (VisitType fmt_p Opts T).
Proof. good_tac. Qed.
#[local] Hint Resolve good_VisitType : good.

Lemma good_dumpType T : good Opts S (dumpType fmt_p Opts T).
Proof.
  unfold dumpType. apply good_VariantScope, good_TupleScope_unsized.
  destruct T as [T|]; [|good_tac].
  induction (T_getTypeClass T); cbn [TypeVisitor_Visit]; [good_tac..|done].
Qed.
#[local] Hint Resolve good_dumpType : good.

(** Comments own their children; the encoder follows them. *)
Lemma Comment_children_ind (P : Comment → Prop) :
  (∀ C, Forall P (C_children C) → P C) → ∀ C, P C.
Proof.
  intros HP. fix IH 1. intros C. apply HP. destruct C as [p k r children t]. cbn.
  induction children as [|x l IHl]; constructor; [apply IH | exact IHl].
Qed.

Lemma good_dumpComment_rec C : good Opts S (dumpComment_rec fmt_p Opts C).
Proof.
  induction C as [C IH] using Comment_children_ind.
  assert (dumpComment_rec fmt_p Opts C
          = dumpComment_body fmt_p Opts (dumpComment_rec fmt_p Opts) C) as ->
    by (by destruct C).
  unfold dumpComment_body. apply good_VariantScope, good_TupleScope_unsized.
  induction (C_getCommentKind C); cbn [ConstCommentVisitor_visit]; [good_tac..|done].
Qed.

Lemma good_dumpFullComment C : good Opts S (dumpFullComment fmt_p Opts C).
Proof.
  unfold dumpFullComment.
  repeat (apply good_bind; [|intros ?]); auto using good_set_FC, good_dumpComment_rec.
Qed.
#[local] Hint Resolve good_dumpFullComment : good.

Lemma good_VisitDecl D : good Opts S (VisitDecl fmt_p Opts D).
Proof. good_tac. Qed.
#[local] Hint Resolve good_VisitDecl : good.

Lemma good_VisitNamedDecl D : good Opts S (VisitNamedDecl fmt_p Opts D).
Proof. good_tac. Qed.
#[local] Hint Resolve good_VisitNamedDecl : good.

(** *** Declarations and statements, given their children *)

Variable dD : Decl → M unit.
Variable dS : Stmt → M unit.
Variable nD nS : M unit.
Hypothesis emits_dD : ∀ D, emits 1 (dD D).
Hypothesis emits_nD : emits 1 nD.
Hypothesis good_nD : good Opts S nD.
Hypothesis good_nS : good Opts S nS.

Lemma good_dumpDecl o :
  opt_all (λ D, good Opts S (dD D)) o → good Opts S (dumpDecl dD nD o).
Proof. destruct o; [by rewrite opt_all_Some | intros _; apply good_nD]. Qed.

Lemma good_dumpStmt o :
  opt_all (λ Node, good Opts S (dS Node)) o → good Opts S (dumpStmt dS nS o).
Proof. destruct o; [by rewrite opt_all_Some | intros _; apply good_nS]. Qed.

Ltac good_step' :=
  lazymatch goal with
  | |- good _ _ (dumpDecl _ _ _) => apply good_dumpDecl; child_tac
  | |- good _ _ (dumpStmt _ _ _) => apply good_dumpStmt; child_tac
  | |- _ => good_step
  end.
Ltac good_tac' := repeat good_step'.

Lemma good_dumpCXXCtorInitializer Init :
  opt_all (λ Node, good Opts S (dS Node)) (CI_getInit Init) →
  good Opts S (dumpCXXCtorInitializer fmt_p Opts dS nS Init).
Proof. intros H. unfold dumpCXXCtorInitializer. good_tac'. Qed.

Lemma good_VisitDeclContext DC :
  Forall (λ I, S (D_ptr I)) (D_decls DC) →
  Forall (λ D, good Opts S (dD D)) (D_decls DC) →
  good Opts S (VisitDeclContext Opts dD nD (Some DC)).
Proof.
  intros HS Hd. unfold VisitDeclContext. apply good_bind; [|intros _].
  - apply good_forM. eapply Forall_impl; [exact HS|]. apply good_consult.
  - good_tac'.
Qed.

Lemma good_VisitStmt Node :
  Forall (opt_all (λ Node, good Opts S (dS Node))) (S_children Node) →
  good Opts S (VisitStmt fmt_p Opts dS nS Node).
Proof. intros H. unfold VisitStmt. good_tac'. Qed.
#[local] Hint Resolve good_VisitStmt : good.

Lemma good_VisitExpr Node :
  Forall (opt_all (λ Node, good Opts S (dS Node))) (S_children Node) →
  good Opts S (VisitExpr fmt_p Opts dS nS Node).
Proof. intros H. unfold VisitExpr. good_tac'. Qed.
#[local] Hint Resolve good_VisitExpr : good.

Lemma good_VisitCastExpr Node :
  Forall (opt_all (λ Node, good Opts S (dS Node))) (S_children Node) →
  good Opts S (VisitCastExpr fmt_p Opts dS nS Node).
Proof. intros H. unfold VisitCastExpr. good_tac'. Qed.
#[local] Hint Resolve good_VisitCastExpr : good.

Lemma good_VisitValueDecl D : good Opts S (VisitValueDecl fmt_p Opts D).
Proof. good_tac. Qed.
#[local] Hint Resolve good_VisitValueDecl : good.

Lemma good_VisitTypeDecl D : good Opts S (VisitTypeDecl fmt_p Opts D).
Proof. good_tac. Qed.
#[local] Hint Resolve good_VisitTypeDecl : good.

Lemma good_Visit_Decl D c :
  (lists_members c = true → Forall (λ I, S (D_ptr I)) (D_decls D)) →
  Decl_children (λ D, good Opts S (dD D)) (λ Node, good Opts S (dS Node)) D →
  good Opts S (ConstDeclVisitor_Visit fmt_p Opts Context dD dS nD nS D c).
Proof.
  intros Hm (Hdecls & Hinitexpr & Hinits & Hbody & Hproto & Hparams & Hbw & Hici & Hinit & Hcap).
  assert (lists_members c = true → good Opts S (VisitDeclContext Opts dD nD (Some D))) as HDC
    by (intros Hc; apply good_VisitDeclContext; auto).
  clear Hm. induction c; cbn [ConstDeclVisitor_Visit lists_members] in *; [..|auto].
  all: try specialize (HDC eq_refl).
  all: good_tac'.
Qed.

Lemma good_Visit_Stmt Node c :
  Stmt_children (λ D, good Opts S (dD D)) (λ Node, good Opts S (dS Node)) Node →
  good Opts S (ConstStmtVisitor_Visit fmt_p Opts dD dS nD nS Node c).
Proof.
  intros (Hchildren & Hdecls & Hexc & Hblock & Hlambda & Hsrc & Hsub & Hcatch).
  induction c; cbn [ConstStmtVisitor_Visit]; [..|done].
  all: good_tac'.
Qed.
(** *** The identity of a node is tokenized first *)

Lemma after_dumpPointer p : after fmt_p Opts p (dumpPointer fmt_p Opts p).
Proof. intros w. apply later_refl. Qed.

Lemma after_bind_l {A B} p (m : M A) (k : A → M B) :
  after fmt_p Opts p m → (∀ a, good Opts S (k a)) → after fmt_p Opts p (m ≫= k).
Proof.
  intros Hm Hk w. rewrite state_after_bind.
  eapply later_trans; [apply Hm | apply Hk].
Qed.

Lemma after_skip {A B} p (m : M A) (k : A → M B) :
  (∀ w, state_after m w = w) → (∀ a, after fmt_p Opts p (k a)) →
  after fmt_p Opts p (m ≫= k).
Proof. intros Hm Hk w. rewrite state_after_bind, Hm. apply Hk. Qed.

Lemma after_scope {A} p wrap (m : M A) :
  after fmt_p Opts p m → after fmt_p Opts p (scope wrap m).
Proof. intros Hm w. rewrite state_after_scope. apply Hm. Qed.

Lemma after_VisitDecl D : after fmt_p Opts (D_ptr D) (VisitDecl fmt_p Opts D).
Proof.
  unfold VisitDecl. apply after_scope.
  apply after_skip; [done | intros _].
  apply after_bind_l; [apply after_dumpPointer | intros _]. good_tac.
Qed.

Lemma after_dumpDeclRef D : after fmt_p Opts (DR_ptr D) (dumpDeclRef fmt_p Opts D).
Proof.
  unfold dumpDeclRef. apply after_scope.
  do 3 (apply after_skip; [done | intros _]).
  apply after_bind_l; [apply after_dumpPointer | intros _]. good_tac.
Qed.

Ltac after_tac :=
  lazymatch goal with
  | |- after _ _ _ (VisitDecl _ _ _) => apply after_VisitDecl
  | |- after _ _ _ (_ ≫= _) => apply after_bind_l; [after_tac | intros ?; good_tac']
  | |- after _ _ _ ?m => let h := head_of m in unfold h; after_tac
  end.

Lemma after_Visit_Decl D c :
  (lists_members c = true → Forall (λ I, S (D_ptr I)) (D_decls D)) →
  Decl_children (λ D, good Opts S (dD D)) (λ Node, good Opts S (dS Node)) D →
  after fmt_p Opts (D_ptr D) (ConstDeclVisitor_Visit fmt_p Opts Context dD dS nD nS D c).
Proof.
  intros Hm (Hdecls & Hinitexpr & Hinits & Hbody & Hproto & Hparams & Hbw & Hici & Hinit & Hcap).
  assert (lists_members c = true → good Opts S (VisitDeclContext Opts dD nD (Some D))) as HDC
    by (intros Hc; apply good_VisitDeclContext; auto).
  clear Hm. induction c; cbn [ConstDeclVisitor_Visit lists_members] in *; [..|auto].
  all: try specialize (HDC eq_refl).
  all: after_tac.
Qed.
End Preserved.

(** ** The whole encoder *)

Section Whole.
Variable fmt_p : ptr → string.
Variable Opts : ASTExporterOptions.
Variable Context : ASTContext.
Variable S : ptr → Prop.

Lemma dumpDecl_rec_unfold n1 n2 D :
  dumpDecl_rec fmt_p Opts Context n1 n2 D =
  dumpDecl_body fmt_p Opts Context
    (dumpDecl_rec fmt_p Opts Context n1 n2) (dumpStmt_rec fmt_p Opts Context n1 n2)
    n1 n2 D.
Proof. by destruct D. Qed.

Lemma dumpStmt_rec_unfold n1 n2 Node :
  dumpStmt_rec fmt_p Opts Context n1 n2 Node =
  dumpStmt_body fmt_p Opts
    (dumpDecl_rec fmt_p Opts Context n1 n2) (dumpStmt_rec fmt_p Opts Context n1 n2)
    n1 n2 Node.
Proof. by destruct Node. Qed.

(** Encoding a sentinel never asks for the encoding of a null pointer. *)
Lemma dumpNullDecl_unfold :
  dumpNullDecl fmt_p Opts Context =
  (w ← get;
   VariantScope "EmptyDecl" (
     TupleScope 1 (VisitDecl fmt_p Opts (NullPtrDecl_node Context w)))).
Proof. reflexivity. Qed.

Lemma dumpNullStmt_unfold dS nS :
  dumpNullStmt fmt_p Opts Context =
  (w ← get;
   VariantScope "NullStmt" (
     TupleScope 2 (VisitStmt fmt_p Opts dS nS (NullPtrStmt_node w)))).
Proof. reflexivity. Qed.

(** Reading a member: the computation goes on with the state it is in. *)
Lemma written_get_bind {A} (f : World → M A) w :
  written (get ≫= f) w = written (f w) w.
Proof. by rewrite written_bind. Qed.

Lemma state_after_get_bind {A} (f : World → M A) w :
  state_after (get ≫= f) w = state_after (f w) w.
Proof. by rewrite state_after_bind. Qed.

Lemma emits_dumpDecl_rec n1 n2 D : emits 1 (dumpDecl_rec fmt_p Opts Context n1 n2 D).
Proof. rewrite dumpDecl_rec_unfold. apply emits_scope. Qed.

Lemma emits_dumpStmt_rec n1 n2 Node : emits 1 (dumpStmt_rec fmt_p Opts Context n1 n2 Node).
Proof. rewrite dumpStmt_rec_unfold. apply emits_scope. Qed.

Lemma emits_dumpNullDecl : emits 1 (dumpNullDecl fmt_p Opts Context).
Proof. intros w. unfold dumpNullDecl. rewrite written_get_bind. apply emits_dumpDecl_rec. Qed.

Lemma good_dumpNullDecl : good Opts S (dumpNullDecl fmt_p Opts Context).
Proof.
  rewrite dumpNullDecl_unfold. apply good_bind; [apply good_get | intros w0].
  apply good_VariantScope, good_TupleScope; [|apply good_VisitDecl].
  intros w. unfold VisitDecl, ObjectScope. by rewrite written_scope.
Qed.

Lemma good_dumpNullStmt : good Opts S (dumpNullStmt fmt_p Opts Context).
Proof.
  rewrite (dumpNullStmt_unfold (λ _, mret tt) (mret tt)).
  apply good_bind; [apply good_get | intros w0].
  apply good_VariantScope, good_TupleScope.
  - intros w. unfold VisitStmt, ObjectScope, ArrayScope.
    by rewrite written_bind, !written_scope.
  - apply good_VisitStmt; [apply good_ret | constructor].
Qed.

Lemma Forall_combine {X} (A B C : X → Prop) l :
  Forall A l → Forall B l → (∀ x, A x → B x → C x) → Forall C l.
Proof. induction 1; inversion 1; intros; constructor; eauto. Qed.

Ltac children_mp :=
  repeat match goal with H : _ ∧ _ |- _ => destruct H end;
  repeat split;
  first [ multimatch goal with
          | Ha : Forall _ ?l, Hb : Forall _ ?l |- Forall _ ?l =>
              apply (Forall_combine _ _ _ l Ha Hb);
              solve [cbv beta; unfold opt_all; eauto]
          end
        | solve [unfold opt_all in *; eauto] ].

Lemma Decl_children_mp (P P' : Decl → Prop) (Q Q' : Stmt → Prop) D :
  Decl_children P Q D →
  Decl_children (λ D, P D → P' D) (λ Node, Q Node → Q' Node) D →
  Decl_children P' Q' D.
Proof. unfold Decl_children. intros H1 H2. children_mp. Qed.

Lemma Stmt_children_mp (P P' : Decl → Prop) (Q Q' : Stmt → Prop) Node :
  Stmt_children P Q Node →
  Stmt_children (λ D, P D → P' D) (λ Node, Q Node → Q' Node) Node →
  Stmt_children P' Q' Node.
Proof. unfold Stmt_children. intros H1 H2. children_mp. Qed.

Lemma good_dump_rec :
  (∀ D, within S D →
        good Opts S (dumpDecl_rec fmt_p Opts Context
                     (dumpNullDecl fmt_p Opts Context) (dumpNullStmt fmt_p Opts Context) D)) ∧
  (∀ Node, within_Stmt S Node →
        good Opts S (dumpStmt_rec fmt_p Opts Context
                     (dumpNullDecl fmt_p Opts Context) (dumpNullStmt fmt_p Opts Context) Node)).
Proof.
  apply Decl_Stmt_ind.
  - intros D IH HD. destruct HD as [D Hm HD].
    rewrite dumpDecl_rec_unfold. unfold dumpDecl_body.
    apply good_VariantScope, good_TupleScope.
    + apply Visit_Decl_emits.
    + apply good_Visit_Decl; [apply good_dumpNullDecl | apply good_dumpNullStmt | done |].
      by eapply Decl_children_mp.
  - intros Node IH HS. destruct HS as [Node HS].
    rewrite dumpStmt_rec_unfold. unfold dumpStmt_body.
    apply good_VariantScope, good_TupleScope.
    + apply Visit_Stmt_emits; [apply emits_dumpDecl_rec | apply emits_dumpNullDecl].
    + apply good_Visit_Stmt; [apply good_dumpNullDecl | apply good_dumpNullStmt |].
      by eapply Stmt_children_mp.
Qed.

Lemma good_ASTExporter_dumpDecl D :
  opt_all (within S) D → good Opts S (ASTExporter_dumpDecl fmt_p Opts Context D).
Proof.
  destruct D as [D|]; [|intros _; apply good_dumpNullDecl].
  rewrite opt_all_Some. apply good_dump_rec.
Qed.

Lemma good_ASTExporter_dumpStmt Node :
  opt_all (within_Stmt S) Node → good Opts S (ASTExporter_dumpStmt fmt_p Opts Context Node).
Proof.
  destruct Node as [Node|]; [|intros _; apply good_dumpNullStmt].
  rewrite opt_all_Some. apply good_dump_rec.
Qed.
End Whole.

(** With no restriction on the addresses, every tree qualifies. *)
Lemma within_any :
  (∀ D, within (λ _, True) D) ∧ (∀ Node, within_Stmt (λ _, True) Node).
Proof.
  apply Decl_Stmt_ind.
  - intros D HD. constructor; [|done]. intros _. by apply Forall_forall.
  - intros Node HS. by constructor.
Qed.

Section Unrestricted.
Variable fmt_p : ptr → string.
Variable Opts : ASTExporterOptions.
Variable Context : ASTContext.

Lemma good_dumpDecl_any D :
  good Opts (λ _, True) (ASTExporter_dumpDecl fmt_p Opts Context D).
Proof. apply good_ASTExporter_dumpDecl. intros ? _. apply within_any. Qed.

Lemma good_dumpStmt_any Node :
  good Opts (λ _, True) (ASTExporter_dumpStmt fmt_p Opts Context Node).
Proof. apply good_ASTExporter_dumpStmt. intros ? _. apply within_any. Qed.
End Unrestricted.

Section Sentinels.
Variable fmt_p : ptr → string.
Variable Opts : ASTExporterOptions.
Variable Context : ASTContext.

Lemma written_dumpPointer p w :
  written (dumpPointer fmt_p Opts p) w = [AString (token_at fmt_p (withPointers Opts) p w)].
Proof.
  unfold token_at, dumpPointer. destruct (withPointers Opts); [done|].
  destruct (pointerMap w !! p) as [v|] eqn:Hp.
  - by destruct (writePointer_seen fmt_p p v w Hp) as [-> _].
  - by destruct (writePointer_fresh fmt_p p w Hp) as [-> _].
Qed.

(** Once an identity has a token, it keeps it. *)
Lemma dumpPointer_stable p w w' :
  later (state_after (dumpPointer fmt_p Opts p) w) w' →
  written (dumpPointer fmt_p Opts p) w' = written (dumpPointer fmt_p Opts p) w.
Proof.
  unfold dumpPointer, later. destruct (withPointers Opts); [done|].
  destruct (pointerMap w !! p) as [v|] eqn:Hp.
  - destruct (writePointer_seen fmt_p p v w Hp) as [-> ->]. intros Hl.
    assert (pointerMap w' !! p = Some v) as Hp' by (by eapply lookup_weaken).
    by destruct (writePointer_seen fmt_p p v w' Hp') as [-> _].
  - destruct (writePointer_fresh fmt_p p w Hp) as [-> ->]. intros Hl.
    assert (pointerMap w' !! p = Some (pointerCounter w)) as Hp'.
    { eapply lookup_weaken; [|done]. cbn. by rewrite lookup_insert_eq. }
    by destruct (writePointer_seen fmt_p p _ w' Hp') as [-> _].
Qed.

Lemma token_at_stable p w w' :
  later (state_after (dumpPointer fmt_p Opts p) w) w' →
  token_at fmt_p (withPointers Opts) p w' = token_at fmt_p (withPointers Opts) p w.
Proof.
  intros Hl. apply dumpPointer_stable in Hl. rewrite !written_dumpPointer in Hl. congruence.
Qed.

Lemma written_dumpNullDecl w :
  written (dumpNullDecl fmt_p Opts Context) w =
  [AVariant "EmptyDecl" [ATuple (Some 1) [AObject 4 (
     [ATag "pointer"] ++ written (dumpPointer fmt_p Opts (NullPtrDecl w)) w ++
     [ATag "source_range"; ATuple (Some 2) [record_empty; record_empty];
      ATag "attributes"; AArray (Some 0) []])]]].
Proof.
  rewrite dumpNullDecl_unfold, written_get_bind.
  unfold VisitDecl, VariantScope, TupleScope, ObjectScope.
  rewrite !written_scope. do 3 f_equal.
  rewrite written_bind, written_emitTag. f_equal.
  rewrite written_bind. f_equal. cbn -[dumpPointer]. rewrite Z.eqb_refl. reflexivity.
Qed.

Lemma written_dumpNullStmt w :
  written (dumpNullStmt fmt_p Opts Context) w =
  [AVariant "NullStmt" [ATuple (Some 2) [
     AObject 2 (
       [ATag "pointer"] ++ written (dumpPointer fmt_p Opts (NullPtrStmt w)) w ++
       [ATag "source_range"; ATuple (Some 2) [record_empty; record_empty]]);
     AArray (Some 0) []]]].
Proof.
  rewrite (dumpNullStmt_unfold _ _ _ (λ _, mret tt) (mret tt)), written_get_bind.
  unfold VisitStmt, VariantScope, TupleScope, ObjectScope, ArrayScope.
  rewrite !written_scope, written_bind, !written_scope. do 5 f_equal.
  rewrite written_bind, written_emitTag. f_equal.
  rewrite written_bind. f_equal.
Qed.

Lemma written_dumpType_null w :
  written (dumpType fmt_p Opts None) w =
  [AVariant "NoneType" [ATuple None [AObject 2 (
     [ATag "pointer"] ++ written (dumpPointer fmt_p Opts nullptr) w ++
     [ATag "raw"; AString "NULL TYPE"])]]].
Proof.
  unfold dumpType, VisitType, VariantScope, TupleScope_unsized, ObjectScope.
  rewrite !written_scope. do 3 f_equal.
  rewrite written_bind, written_emitTag. f_equal.
  rewrite written_bind. f_equal.
Qed.

(** The encoding of a null pointer tokenizes the identity it carries. *)
Lemma dump_null_after F m w :
  dump_null fmt_p Opts Context F = Some m →
  later (state_after (dumpPointer fmt_p Opts (null_identity F w)) w) (state_after m w).
Proof.
  destruct F; intros Hm; simplify_eq/=.
  - unfold ASTExporter_dumpDecl, dumpDecl. rewrite dumpNullDecl_unfold, state_after_get_bind.
    unfold VisitDecl, VariantScope, TupleScope, ObjectScope.
    rewrite !state_after_scope, state_after_bind, state_after_emitTag, state_after_bind.
    cbn -[dumpPointer]. rewrite Z.eqb_refl. apply later_refl.
  - unfold ASTExporter_dumpStmt, dumpStmt.
    rewrite (dumpNullStmt_unfold _ _ _ (λ _, mret tt) (mret tt)), state_after_get_bind.
    unfold VisitStmt, VariantScope, TupleScope, ObjectScope, ArrayScope.
    rewrite !state_after_scope, state_after_bind, !state_after_scope.
    rewrite state_after_bind, state_after_emitTag, state_after_bind. apply later_refl.
  - unfold dumpType, VisitType, VariantScope, TupleScope_unsized, ObjectScope.
    rewrite !state_after_scope, state_after_bind, state_after_emitTag, state_after_bind.
    apply later_refl.
Qed.

(** What is written for a null pointer, with the token of its identity. *)
Lemma written_dump_null F m w :
  dump_null fmt_p Opts Context F = Some m →
  let tok := AString (token_at fmt_p (withPointers Opts) (null_identity F w) w) in
  written m w =
  match F with
  | FDeclaration =>
      [AVariant "EmptyDecl" [ATuple (Some 1) [AObject 4
         [ATag "pointer"; tok;
          ATag "source_range"; ATuple (Some 2) [record_empty; record_empty];
          ATag "attributes"; AArray (Some 0) []]]]]
  | FStatement =>
      [AVariant "NullStmt" [ATuple (Some 2)
         [AObject 2
            [ATag "pointer"; tok;
             ATag "source_range"; ATuple (Some 2) [record_empty; record_empty]];
          AArray (Some 0) []]]]
  | _ =>
      [AVariant "NoneType" [ATuple None [AObject 2
         [ATag "pointer"; tok; ATag "raw"; AString "NULL TYPE"]]]]
  end.
Proof.
  destruct F; intros Hm; simplify_eq/=.
  - change (ASTExporter_dumpDecl fmt_p Opts Context None)
      with (dumpNullDecl fmt_p Opts Context).
    by rewrite written_dumpNullDecl, written_dumpPointer.
  - change (ASTExporter_dumpStmt fmt_p Opts Context None)
      with (dumpNullStmt fmt_p Opts Context).
    by rewrite written_dumpNullStmt, written_dumpPointer.
  - by rewrite written_dumpType_null, written_dumpPointer.
Qed.
End Sentinels.

(** ** Tuples and their declared sizes *)

Section TupleArity.
Variable fmt_p : ptr → string.
Variable Opts : ASTExporterOptions.
Variable Context : ASTContext.

Lemma written_dumpDecl_Some D w :
  written (ASTExporter_dumpDecl fmt_p Opts Context (Some D)) w =
  [AVariant (getDeclKindName (D_getKind D) +:+ "Decl")
     [ATuple (Some (tupleSizeOfDeclKind (D_getKind D)))
        (written (Visit_Decl fmt_p Opts Context D (D_getKind D)) w)]].
Proof.
  unfold ASTExporter_dumpDecl, dumpDecl. rewrite dumpDecl_rec_unfold.
  unfold dumpDecl_body, VariantScope, TupleScope. by rewrite !written_scope.
Qed.

Lemma written_dumpStmt_Some Node w :
  written (ASTExporter_dumpStmt fmt_p Opts Context (Some Node)) w =
  [AVariant (getStmtClassName (S_getStmtClass Node))
     [ATuple (Some (tupleSizeOfStmtClass (S_getStmtClass Node)))
        (written (Visit_Stmt fmt_p Opts Context Node (S_getStmtClass Node)) w)]].
Proof.
  unfold ASTExporter_dumpStmt, dumpStmt. rewrite dumpStmt_rec_unfold.
  unfold dumpStmt_body, VariantScope, TupleScope. by rewrite !written_scope.
Qed.

Lemma Visit_Decl_len D c w :
  len (written (Visit_Decl fmt_p Opts Context D c) w) = tupleSizeOfDeclKind c.
Proof. exact (Visit_Decl_emits fmt_p Opts Context _ _ _ _ D c w). Qed.

Lemma Visit_Stmt_len Node c w :
  len (written (Visit_Stmt fmt_p Opts Context Node c) w) = tupleSizeOfStmtClass c.
Proof.
  exact (Visit_Stmt_emits fmt_p Opts _ _ _ _
           (emits_dumpDecl_rec fmt_p Opts Context _ _)
           (emits_dumpNullDecl fmt_p Opts Context) Node c w).
Qed.

(** C1, amended.  For every declaration and every statement (a null
    pointer being replaced by the sentinel of its family), in any state:
    the encoding is one variant, named after the kind, around one tuple
    that is opened with the size the resolver gives for the kind
    ([tupleSizeOfDeclKind], [tupleSizeOfStmtClass]) and holds exactly that
    many fields; and the same is true of every sized tuple nested in it. *)
Theorem arity_of_declarations_and_statements :
  (∀ (D : option Decl) (w : World),
     let k := D_getKind (default (NullPtrDecl_node Context w) D) in
     ∃ a, written (ASTExporter_dumpDecl fmt_p Opts Context D) w = [a] ∧
          sized_variant (getDeclKindName k +:+ "Decl") (tupleSizeOfDeclKind k) a ∧
          tuples_ok a) ∧
  (∀ (St : option Stmt) (w : World),
     let c := S_getStmtClass (default (NullPtrStmt_node w) St) in
     ∃ a, written (ASTExporter_dumpStmt fmt_p Opts Context St) w = [a] ∧
          sized_variant (getStmtClassName c) (tupleSizeOfStmtClass c) a ∧
          tuples_ok a).
Proof.
  split.
  - intros D w k.
    destruct (good_dumpDecl_any fmt_p Opts Context D w) as [_ Hok].
    destruct D as [D|]; cbn in k; subst k.
    + rewrite written_dumpDecl_Some in *. eexists. split; [done|].
      split; [|by rewrite Forall_singleton in Hok].
      eexists. split; [done|]. apply Visit_Decl_len.
    + change (ASTExporter_dumpDecl fmt_p Opts Context None)
        with (dumpNullDecl fmt_p Opts Context) in *.
      rewrite written_dumpNullDecl in *. eexists. split; [done|].
      split; [|by rewrite Forall_singleton in Hok]. eexists. split; done.
  - intros St w c.
    destruct (good_dumpStmt_any fmt_p Opts Context St w) as [_ Hok].
    destruct St as [St|]; cbn in c; subst c.
    + rewrite written_dumpStmt_Some in *. eexists. split; [done|].
      split; [|by rewrite Forall_singleton in Hok].
      eexists. split; [done|]. apply Visit_Stmt_len.
    + change (ASTExporter_dumpStmt fmt_p Opts Context None)
        with (dumpNullStmt fmt_p Opts Context) in *.
      rewrite written_dumpNullStmt in *. eexists. split; [done|].
      split; [|by rewrite Forall_singleton in Hok]. eexists. split; done.
Qed.

Lemma written_dumpType T w :
  ∃ body, written (dumpType fmt_p Opts T) w =
    [AVariant (from_option (λ T, getTypeClassName (T_getTypeClass T)) "None" T +:+ "Type")
       [ATuple None body]].
Proof.
  unfold dumpType, VariantScope, TupleScope_unsized. rewrite !written_scope.
  destruct T; eexists; reflexivity.
Qed.

Lemma written_dumpComment C w :
  ∃ body, written (dumpComment_rec fmt_p Opts C) w =
    [AVariant (getCommentKindName (C_getCommentKind C)) [ATuple None body]].
Proof.
  assert (∀ C, dumpComment_rec fmt_p Opts C
          = dumpComment_body fmt_p Opts (dumpComment_rec fmt_p Opts) C) as ->
    by (by intros []).
  unfold dumpComment_body, VariantScope, TupleScope_unsized. rewrite !written_scope.
  eexists; reflexivity.
Qed.

(** C8, amended.  A declaration or a statement is encoded as one variant,
    named after its kind, around one tuple opened with the arity of the
    kind and filled by the [Visit] routine of the kind.  The fields that
    routine writes are those its base class writes, in the same order,
    followed by the kind's own; there are as many of the latter as the two
    arities differ; the root class writes its own fields only.  A type or
    a comment node is encoded as one variant around one tuple as well, but
    that tuple is opened without a size ([dumpComment] of a comment that is
    not null is [dumpComment_rec]). *)
Theorem one_variant_one_tuple_ancestors_first :
  (∀ D w,
     written (ASTExporter_dumpDecl fmt_p Opts Context (Some D)) w =
     [AVariant (getDeclKindName (D_getKind D) +:+ "Decl")
        [ATuple (Some (tupleSizeOfDeclKind (D_getKind D)))
           (written (Visit_Decl fmt_p Opts Context D (D_getKind D)) w)]]) ∧
  (∀ D c w,
     match DeclBASE c with
     | Some b =>
         ∃ own, written (Visit_Decl fmt_p Opts Context D c) w
                  = written (Visit_Decl fmt_p Opts Context D b) w ++ own ∧
                len own = tupleSizeOfDeclKind c - tupleSizeOfDeclKind b
     | None => len (written (Visit_Decl fmt_p Opts Context D c) w) = tupleSizeOfDeclKind c
     end) ∧
  (∀ Node w,
     written (ASTExporter_dumpStmt fmt_p Opts Context (Some Node)) w =
     [AVariant (getStmtClassName (S_getStmtClass Node))
        [ATuple (Some (tupleSizeOfStmtClass (S_getStmtClass Node)))
           (written (Visit_Stmt fmt_p Opts Context Node (S_getStmtClass Node)) w)]]) ∧
  (∀ Node c w,
     match StmtPARENT c with
     | Some b =>
         ∃ own, written (Visit_Stmt fmt_p Opts Context Node c) w
                  = written (Visit_Stmt fmt_p Opts Context Node b) w ++ own ∧
                len own = tupleSizeOfStmtClass c - tupleSizeOfStmtClass b
     | None => len (written (Visit_Stmt fmt_p Opts Context Node c) w) = tupleSizeOfStmtClass c
     end) ∧
  (∀ T w, ∃ body,
     written (dumpType fmt_p Opts T) w =
     [AVariant (from_option (λ T, getTypeClassName (T_getTypeClass T)) "None" T +:+ "Type")
        [ATuple None body]]) ∧
  (∀ C w, ∃ body,
     dumpComment fmt_p Opts (Some C) = Some (dumpComment_rec fmt_p Opts C) ∧
     written (dumpComment_rec fmt_p Opts C) w =
     [AVariant (getCommentKindName (C_getCommentKind C)) [ATuple None body]]).
Proof.
  split; [apply written_dumpDecl_Some|].
  split.
  { intros D c w. destruct (DeclBASE c) as [b|] eqn:Hb.
    - exact (Visit_Decl_step fmt_p Opts Context _ _ _ _ D c b w Hb).
    - apply Visit_Decl_len. }
  split; [apply written_dumpStmt_Some|].
  split.
  { intros Node c w. destruct (StmtPARENT c) as [b|] eqn:Hb.
    - exact (Visit_Stmt_step fmt_p Opts _ _ _ _
               (emits_dumpDecl_rec fmt_p Opts Context _ _)
               (emits_dumpNullDecl fmt_p Opts Context) Node c b w Hb).
    - apply Visit_Stmt_len. }
  split; [apply written_dumpType|].
  intros C w. destruct (written_dumpComment C w) as [body H]. by exists body.
Qed.

(** C6, amended.  Nothing resets the identity table: the constructor of
    an exporter leaves the table and its counter as they are, and encoding
    a declaration or a statement, or running a whole export, only adds
    entries to it. *)
Theorem identity_table_is_never_reset :
  (∀ w, pointerMap (ASTExporter_ctor Context w) = pointerMap w ∧
        pointerCounter (ASTExporter_ctor Context w) = pointerCounter w) ∧
  (∀ D w, later w (state_after (ASTExporter_dumpDecl fmt_p Opts Context D) w)) ∧
  (∀ St w, later w (state_after (ASTExporter_dumpStmt fmt_p Opts Context St) w)) ∧
  (∀ TU w, later w (state_after (export_run fmt_p Opts Context TU) w)).
Proof.
  split; [done|]. split; [|split].
  - intros D w. apply (good_dumpDecl_any fmt_p Opts Context D w).
  - intros St w. apply (good_dumpStmt_any fmt_p Opts Context St w).
  - intros TU w. unfold export_run, state_after.
    apply (good_dumpDecl_any fmt_p Opts Context (Some TU) (ASTExporter_ctor Context w)).
Qed.
End TupleArity.

(** C1, as stated, fails for the families without a resolver: the tuple
    of a type is opened without a size, so no arity is declared for it. *)
Lemma type_tuple_has_no_declared_size :
  let out := written (dumpType fmt_example plain_options (Some (example_type 700 cBuiltinType)))
               (ASTExporter_ctor example_context process_start) in
  out = [AVariant "BuiltinType" [ATuple None [
           AObject 2 [ATag "pointer"; AString "0"; ATag "raw"; AString "int"];
           ASimpleVariant "Int"]]] ∧
  ¬ ∃ tag n a, out = [a] ∧ sized_variant tag n a.
Proof.
  split; [reflexivity|].
  intros (tag & n & a & Ha & body & -> & _). discriminate Ha.
Qed.

(** C8, as stated, fails for types: the tuple of a type has no declared
    arity, and [VisitObjCInterfaceType] does not write the fields of its
    base class [ObjCObjectType]. *)
Lemma ObjCInterfaceType_skips_its_base :
  let T := example_type 700 cObjCInterfaceType in
  let w := ASTExporter_ctor example_context process_start in
  written (dumpType fmt_example plain_options (Some T)) w =
    [AVariant "ObjCInterfaceType" [ATuple None [
       AObject 2 [ATag "pointer"; AString "0"; ATag "raw"; AString "int"];
       AString "1"]]] ∧
  TypeBASE cObjCInterfaceType = Some cObjCObjectType ∧
  ¬ ∃ own,
      written (TypeVisitor_Visit fmt_example plain_options T cObjCInterfaceType) w =
      written (TypeVisitor_Visit fmt_example plain_options T cObjCObjectType) w ++ own.
Proof.
  split; [reflexivity|]. split; [reflexivity|].
  intros [own Hown]. vm_compute in Hown. discriminate Hown.
Qed.

(** C6, as stated, fails: a second export in the same process starts with
    the table the first one left.  The translation unit of the first
    export keeps its token, and the second export numbers on from there. *)
Lemma tokens_carry_over_to_the_next_export :
  let run p := export_run fmt_example plain_options example_context (example_TU p) in
  let w1 := state_after (run 1000) process_start in
  pointerMap (ASTExporter_ctor example_context w1) !! 1000 = Some 0 ∧
  pointerCounter (ASTExporter_ctor example_context w1) = 2 ∧
  by_value_token <$> written (run 2000) process_start = [Some (AString "0")] ∧
  by_value_token <$> written (run 2000) w1 = [Some (AString "2")].
Proof. vm_compute. done. Qed.

(** C3, as stated, fails in every export but the first of a process:
    the table is not reset, so the identities a later export sees first
    are not numbered from zero.  Here the first export has left two
    identities in the table. *)
Lemma numbers_do_not_start_at_zero_in_a_later_export :
  let w1 := state_after (export_run fmt_example plain_options example_context
                           (example_TU 1000)) process_start in
  let w2 := ASTExporter_ctor example_context w1 in
  pointerMap w2 !! 3000 = None ∧ pointerMap w2 !! 3001 = None ∧
  written (forM_ (writePointer fmt_example false) [3000; 3001; 3000]) w2
    = [AString "2"; AString "3"; AString "2"].
Proof. vm_compute. done. Qed.

(** The identities of a run that starts with the table another run left. *)
Lemma writePointer_tokens_witness :
  let seen := [100; 200] in
  let w := state_after (forM_ (writePointer fmt_example false) seen) process_start in
  let ps := [300; 100; 300; 400] in
  table_of seen w ∧ len (first_seen_from seen ps) ≤ INT_MAX ∧
  ∃ toks : list string,
    written (forM_ (writePointer fmt_example false) ps) w = AString <$> toks ∧
    length toks = length ps ∧
    (∀ i j a b s t,
       ps !! i = Some a → ps !! j = Some b →
       toks !! i = Some s → toks !! j = Some t →
       (s = t ↔ a = b)) ∧
    (∃ new, first_seen_from seen ps = seen ++ new ∧ NoDup (seen ++ new) ∧
            ∀ a, a ∈ new ↔ a ∈ ps ∧ a ∉ seen) ∧
    (∀ i a k,
       ps !! i = Some a → first_seen_from seen ps !! k = Some a →
       toks !! i = Some (pretty (Z.of_nat k))) ∧
    table_of (first_seen_from seen ps)
      (state_after (forM_ (writePointer fmt_example false) ps) w).
Proof.
  intros seen w ps.
  assert (table_of seen w) as Hw.
  { by apply (writePointer_sequence fmt_example seen [] process_start table_of_start). }
  split; [exact Hw|]. split; [done|].
  by apply (writePointer_tokens fmt_example seen ps w Hw).
Defined.

(** ** Listings, and the two forms of a declaration *)

Lemma emits_forM {A} (f : A → M unit) l : (∀ x, emits 1 (f x)) → emits (len l) (forM_ f l).
Proof.
  intros Hf. induction l as [|x l IH]; intros w; [done|].
  rewrite written_forM_cons. specialize (Hf x w).
  specialize (IH (state_after (f x) w)). unfold len in *.
  rewrite length_app. cbn [length]. lia.
Qed.

Lemma emits_one {A} (m : M A) w : emits 1 m → ∃ a, written m w = [a].
Proof.
  intros Hm. specialize (Hm w). destruct (written m w) as [|a [|??]]; [done | eauto |].
  unfold len in Hm. cbn [length] in Hm. lia.
Qed.

Lemma forM_one_each {A} (f : A → M unit) l : ∀ w,
  (∀ x, emits 1 (f x)) →
  Forall2 (λ x a, ∃ w1, written (f x) w1 = [a]) l (written (forM_ f l) w).
Proof.
  induction l as [|x l IH]; intros w Hf; [constructor|].
  rewrite written_forM_cons. destruct (emits_one (f x) w (Hf x)) as [a Ha]. rewrite Ha.
  constructor; [by exists w | by apply IH].
Qed.

(** The second loop of [VisitDeclContext] is the loop over [declsToDump]. *)
Lemma forM_when_filter {A} (p : A → bool) (f : A → M unit) l w :
  forM_ (λ I, when (p I) (f I)) l w = forM_ f (List.filter p l) w.
Proof.
  revert w. induction l as [|x l IH]; intros w; [done|].
  change (forM_ (λ I, when (p I) (f I)) (x :: l))
    with (when (p x) (f x) ;; forM_ (λ I, when (p I) (f I)) l).
  cbn [List.filter]. rewrite run_bind. destruct (p x); cbn [when].
  - change (forM_ f (x :: List.filter p l)) with (f x ;; forM_ f (List.filter p l)).
    rewrite run_bind. destruct (f x w) as [[[] w1] o1]. by rewrite IH.
  - cbn. rewrite IH. by destruct (forM_ f (List.filter p l) w) as [[[] w2] o2].
Qed.

(** *** Declarations encoded by value outside a listing *)

Section ByValue.
Variable fmt_p : ptr → string.
Variable Opts : ASTExporterOptions.
Variable Context : ASTContext.

Lemma items_inside l :
  (fix go (l : list atd) : list atd :=
     match l with [] => [] | x :: l => items x ++ go l end) l = l ≫= items.
Proof. induction l as [|x l IH]; [done|]. cbn. by rewrite IH. Qed.

Lemma items_self a : a ∈ items a.
Proof. destruct a; cbn; apply list_elem_of_here. Qed.

Abbreviation BV := (by_value_in fmt_p Opts Context).

Lemma BV_here d w : BV d (ASTExporter_dumpDecl fmt_p Opts Context d) w.
Proof.
  assert (∃ e, written (ASTExporter_dumpDecl fmt_p Opts Context d) w = [e]) as [e He].
  { apply emits_one. destruct d; [apply emits_dumpDecl_rec | apply emits_dumpNullDecl]. }
  exists w, e. split; [done|]. unfold occurs. rewrite He. cbn.
  rewrite app_nil_r. apply items_self.
Qed.

Lemma BV_bind_l {A B} d (m : M A) (k : A → M B) w : BV d m w → BV d (m ≫= k) w.
Proof.
  intros (w1 & e & He & Ho). exists w1, e. split; [done|].
  unfold occurs in *. rewrite written_bind, bind_app, elem_of_app. by left.
Qed.

Lemma BV_bind_r {A B} d (m : M A) (k : A → M B) w :
  BV d (k (m w).1.1) (state_after m w) → BV d (m ≫= k) w.
Proof.
  intros (w1 & e & He & Ho). exists w1, e. split; [done|].
  unfold occurs in *. rewrite written_bind, bind_app, elem_of_app. by right.
Qed.

Lemma BV_seq {B} d (m : M unit) (k : unit → M B) w :
  BV d (k tt) (state_after m w) → BV d (m ≫= k) w.
Proof. intros H. apply BV_bind_r. by destruct ((m w).1.1). Qed.

Lemma BV_scope {A} d wrap (m : M A) w :
  (∀ o e, e ∈ o ≫= items → e ∈ items (wrap o)) → BV d m w → BV d (scope wrap m) w.
Proof.
  intros Hwrap (w1 & e & He & Ho). exists w1, e. split; [done|].
  unfold occurs in *. rewrite written_scope. cbn. rewrite app_nil_r. by apply Hwrap.
Qed.

Lemma inside_AObject n o e : e ∈ o ≫= items → e ∈ items (AObject n o).
Proof. intros H. cbn [items]. rewrite items_inside. by apply list_elem_of_further. Qed.
Lemma inside_AArray n o e : e ∈ o ≫= items → e ∈ items (AArray n o).
Proof. intros H. cbn [items]. rewrite items_inside. by apply list_elem_of_further. Qed.
Lemma inside_ATuple n o e : e ∈ o ≫= items → e ∈ items (ATuple n o).
Proof. intros H. cbn [items]. rewrite items_inside. by apply list_elem_of_further. Qed.
Lemma inside_AVariant t o e : e ∈ o ≫= items → e ∈ items (AVariant t o).
Proof. intros H. cbn [items]. rewrite items_inside. by apply list_elem_of_further. Qed.

Lemma BV_forM d l w :
  d ∈ l → BV d (forM_ (ASTExporter_dumpDecl fmt_p Opts Context) l) w.
Proof.
  revert w. induction l as [|x l IH]; intros w Hd; [by apply elem_of_nil in Hd|].
  change (forM_ ?f (x :: l)) with (f x ;; forM_ f l).
  apply elem_of_cons in Hd as [->|Hd].
  - apply BV_bind_l, BV_here.
  - apply BV_seq. by apply IH.
Qed.
End ByValue.

Section Owned.
Variable fmt_p : ptr → string.
Variable Opts : ASTExporterOptions.
Variable Context : ASTContext.

Abbreviation BV := (by_value_in fmt_p Opts Context).

Ltac bv_go :=
  cbv beta zeta;
  lazymatch goal with
  | |- by_value_in _ _ _ _ (forM_ (dumpDecl _ _) _) _ => apply BV_forM; assumption
  | |- by_value_in _ _ _ _ (dumpDecl _ _ _) _ => apply BV_here
  | |- by_value_in _ _ _ _ (ObjectScope _ _) _ =>
      apply BV_scope; [apply inside_AObject | bv_go]
  | |- by_value_in _ _ _ _ (ArrayScope _ _) _ =>
      apply BV_scope; [apply inside_AArray | bv_go]
  | |- by_value_in _ _ _ _ (VariantScope _ _) _ =>
      apply BV_scope; [apply inside_AVariant | bv_go]
  | |- by_value_in _ _ _ _ (_ ≫= _) _ =>
      first [ apply BV_bind_l; bv_go | apply BV_seq; bv_go ]
  | |- by_value_in _ _ _ _ (when (negb (bool_decide (?l = []))) _) _ =>
      rewrite (bool_decide_false (l = []))
        by (intros E; match goal with
                      | H : _ ∈ l |- _ => rewrite E in H; by apply elem_of_nil in H
                      end);
      cbn [negb when]; bv_go
  | |- by_value_in _ _ _ _ (whenSome (Some _) _) _ => cbn [whenSome]; bv_go
  end.

Lemma BV_function_prototype D d w :
  d ∈ D_getDeclsInPrototypeScope D → BV d (Visit_Decl fmt_p Opts Context D cFunctionDecl) w.
Proof.
  intros Hd. unfold Visit_Decl. cbn [ConstDeclVisitor_Visit]. unfold VisitFunctionDecl. bv_go.
Qed.

Lemma BV_function_parameter D d w :
  d ∈ D_params D → BV d (Visit_Decl fmt_p Opts Context D cFunctionDecl) w.
Proof.
  intros Hd. unfold Visit_Decl. cbn [ConstDeclVisitor_Visit]. unfold VisitFunctionDecl. bv_go.
Qed.

Lemma BV_method_parameter D d w :
  d ∈ D_params D → BV d (Visit_Decl fmt_p Opts Context D cObjCMethodDecl) w.
Proof.
  intros Hd. unfold Visit_Decl. cbn [ConstDeclVisitor_Visit]. unfold VisitObjCMethodDecl. bv_go.
Qed.

Lemma BV_block_parameter D d w :
  d ∈ D_params D → BV d (Visit_Decl fmt_p Opts Context D cBlockDecl) w.
Proof.
  intros Hd. unfold Visit_Decl. cbn [ConstDeclVisitor_Visit]. unfold VisitBlockDecl. bv_go.
Qed.

Lemma BV_declared Node d w :
  d ∈ S_decls Node → BV d (Visit_Stmt fmt_p Opts Context Node cDeclStmt) w.
Proof.
  intros Hd. unfold Visit_Stmt. cbn [ConstStmtVisitor_Visit]. unfold VisitDeclStmt. bv_go.
Qed.

Lemma BV_exception_variable Node d w :
  S_getExceptionDecl Node = Some d →
  BV (Some d) (Visit_Stmt fmt_p Opts Context Node cCXXCatchStmt) w.
Proof.
  intros Hd. unfold Visit_Stmt. cbn [ConstStmtVisitor_Visit]. unfold VisitCXXCatchStmt.
  rewrite Hd. bv_go.
Qed.

Lemma BV_block Node w :
  BV (S_getBlockDecl Node) (Visit_Stmt fmt_p Opts Context Node cBlockExpr) w.
Proof. unfold Visit_Stmt. cbn [ConstStmtVisitor_Visit]. unfold VisitBlockExpr. bv_go. Qed.

Lemma BV_lambda_class Node w :
  BV (S_getLambdaClass Node) (Visit_Stmt fmt_p Opts Context Node cLambdaExpr) w.
Proof. unfold Visit_Stmt. cbn [ConstStmtVisitor_Visit]. unfold VisitLambdaExpr. bv_go. Qed.

Lemma BV_catch_parameter Node d w :
  S_getCatchParamDecl Node = Some d →
  BV (Some d) (Visit_Stmt fmt_p Opts Context Node cObjCAtCatchStmt) w.
Proof.
  intros Hd. unfold Visit_Stmt. cbn [ConstStmtVisitor_Visit]. unfold VisitObjCAtCatchStmt.
  rewrite Hd. bv_go.
Qed.

Lemma BV_Decl_derives D c a d w :
  Decl_derives c a →
  BV d (Visit_Decl fmt_p Opts Context D a) w → BV d (Visit_Decl fmt_p Opts Context D c) w.
Proof.
  induction 1 as [|c b a Hb _ IH]; [done|]. intros H%IH.
  assert (∃ own, written (Visit_Decl fmt_p Opts Context D c) w
                 = written (Visit_Decl fmt_p Opts Context D b) w ++ own) as [own Hown].
  { unfold Visit_Decl. edestruct Visit_Decl_step as (own & Hown & _); [exact Hb|].
    exists own. exact Hown. }
  destruct H as (w1 & e & He & Ho). exists w1, e. split; [done|].
  unfold occurs in *. rewrite Hown, bind_app, elem_of_app. by left.
Qed.

Lemma BV_Stmt_derives Node c a d w :
  Stmt_derives c a →
  BV d (Visit_Stmt fmt_p Opts Context Node a) w → BV d (Visit_Stmt fmt_p Opts Context Node c) w.
Proof.
  induction 1 as [|c b a Hb _ IH]; [done|]. intros H%IH.
  assert (∃ own, written (Visit_Stmt fmt_p Opts Context Node c) w
                 = written (Visit_Stmt fmt_p Opts Context Node b) w ++ own) as [own Hown].
  { unfold Visit_Stmt.
    edestruct (Visit_Stmt_step fmt_p Opts) as (own & Hown & _);
      [| |exact Hb|exists own; exact Hown].
    - apply (emits_dumpDecl_rec fmt_p Opts Context).
    - apply (emits_dumpNullDecl fmt_p Opts Context). }
  destruct H as (w1 & e & He & Ho). exists w1, e. split; [done|].
  unfold occurs in *. rewrite Hown, bind_app, elem_of_app. by left.
Qed.

Lemma inside_node t n o e : e ∈ o ≫= items → e ∈ [AVariant t [ATuple n o]] ≫= items.
Proof.
  intros H. cbn. rewrite app_nil_r. apply inside_AVariant. cbn. rewrite app_nil_r.
  by apply inside_ATuple.
Qed.

Lemma BV_dumpDecl_Some D d w :
  BV d (Visit_Decl fmt_p Opts Context D (D_getKind D)) w →
  BV d (ASTExporter_dumpDecl fmt_p Opts Context (Some D)) w.
Proof.
  intros (w1 & e & He & Ho). exists w1, e. split; [done|].
  unfold occurs in *. rewrite written_dumpDecl_Some. by apply inside_node.
Qed.

Lemma BV_dumpStmt_Some Node d w :
  BV d (Visit_Stmt fmt_p Opts Context Node (S_getStmtClass Node)) w →
  BV d (ASTExporter_dumpStmt fmt_p Opts Context (Some Node)) w.
Proof.
  intros (w1 & e & He & Ho). exists w1, e. split; [done|].
  unfold occurs in *. rewrite written_dumpStmt_Some. by apply inside_node.
Qed.

Lemma owned_by_value :
  (∀ D d w, Decl_owns D d →
     BV d (ASTExporter_dumpDecl fmt_p Opts Context (Some D)) w) ∧
  (∀ Node d w, Stmt_owns Node d →
     BV d (ASTExporter_dumpStmt fmt_p Opts Context (Some Node)) w).
Proof.
  split.
  - intros D d w H. apply BV_dumpDecl_Some.
    destruct H as [d Hc Hd|d Hc Hd|d Hc Hd|d Hc Hd]; apply (BV_Decl_derives _ _ _ _ _ Hc).
    + by apply BV_function_prototype.
    + by apply BV_function_parameter.
    + by apply BV_method_parameter.
    + by apply BV_block_parameter.
  - intros Node d w H. apply BV_dumpStmt_Some.
    destruct H as [d Hc Hd|d Hc Hd|Hc|Hc|d Hc Hd]; apply (BV_Stmt_derives _ _ _ _ _ Hc).
    + by apply BV_declared.
    + by apply BV_exception_variable.
    + apply BV_block.
    + apply BV_lambda_class.
    + by apply BV_catch_parameter.
Qed.
End Owned.

(** *** Listings *)

Section Listing.
Variable fmt_p : ptr → string.
Variable Opts : ASTExporterOptions.
Variable Context : ASTContext.

Lemma consult_loop l w :
  written (forM_ (consult Opts) l) w = [] ∧
  consulted (state_after (forM_ (consult Opts) l) w) = consulted w ++ asked Opts l ∧
  pointerMap (state_after (forM_ (consult Opts) l) w) = pointerMap w.
Proof.
  unfold asked, consult. destruct (deduplicationService Opts).
  - revert w. induction l as [|x l IH]; intros w.
    + cbn. by rewrite app_nil_r.
    + rewrite written_forM_cons, state_after_forM_cons.
      destruct (IH (log_consulted (D_ptr x) w)) as (Hw & Hc & Hp).
      change (state_after (modify (log_consulted (D_ptr x))) w)
        with (log_consulted (D_ptr x) w).
      rewrite Hw, Hc, Hp. cbn. by rewrite <-app_assoc.
  - revert w. induction l as [|x l IH]; intros w.
    + cbn. by rewrite app_nil_r.
    + rewrite written_forM_cons, state_after_forM_cons. apply IH.
Qed.

Lemma VisitDeclContext_declsToDump DC w :
  ASTExporter_VisitDeclContext fmt_p Opts Context (Some DC) w =
  (forM_ (consult Opts) (D_decls DC) ;;
   let declsToDump := List.filter (shouldDump Opts) (D_decls DC) in
   ArrayScope (len declsToDump) (
     forM_ (λ I, ASTExporter_dumpDecl fmt_p Opts Context (Some I)) declsToDump) ;;
   ObjectScope (0 + b2z (D_hasExternalLexicalStorage DC) + b2z (D_hasExternalVisibleStorage DC)) (
     emitFlag "has_external_lexical_storage" (D_hasExternalLexicalStorage DC) ;;
     emitFlag "has_external_visible_storage" (D_hasExternalVisibleStorage DC))) w.
Proof.
  unfold ASTExporter_VisitDeclContext, VisitDeclContext. rewrite !run_bind.
  destruct (forM_ (consult Opts) (D_decls DC) w) as [[[] w1] o1].
  cbv zeta. rewrite !run_bind. unfold ArrayScope, scope.
  rewrite (forM_when_filter (shouldDump Opts)). reflexivity.
Qed.

(** What a listing writes. *)
Lemma written_VisitDeclContext DC w :
  let retained := List.filter (shouldDump Opts) (D_decls DC) in
  let w1 := state_after (forM_ (consult Opts) (D_decls DC)) w in
  let body := written (forM_ (λ I, ASTExporter_dumpDecl fmt_p Opts Context (Some I)) retained) w1 in
  ∃ storage,
    written (ASTExporter_VisitDeclContext fmt_p Opts Context (Some DC)) w
      = [AArray (Some (len retained)) body; storage] ∧
    len body = len retained.
Proof.
  intros retained w1 body. unfold written at 1. rewrite VisitDeclContext_declsToDump.
  match goal with |- context [(?m w).2] => change ((m w).2) with (written m w) end.
  rewrite written_bind. destruct (consult_loop (D_decls DC) w) as (-> & _ & _).
  cbv zeta. rewrite written_bind. unfold ArrayScope, ObjectScope.
  rewrite !written_scope. eexists. split; [reflexivity|].
  apply emits_forM. intros I. apply emits_dumpDecl_rec.
Qed.

(** The test of the first loop is the verdict of the membership service,
    and no test at all when no service is configured. *)
Lemma filter_shouldDump l :
  List.filter (shouldDump Opts) l =
  match deduplicationService Opts with
  | Some service => List.filter (λ I, service (basePath Opts) I) l
  | None => l
  end.
Proof.
  unfold shouldDump. destruct (deduplicationService Opts) as [service|]; [done|].
  induction l as [|x l IH]; [done|]. cbn [List.filter]. by rewrite IH.
Qed.

(** A listing, in terms of the verdicts of the service: the array is
    declared with the number of members the service accepts and holds
    their encodings by value, in order. *)
Lemma listing_by_service DC w :
  let retained :=
    match deduplicationService Opts with
    | Some service => List.filter (λ I, service (basePath Opts) I) (D_decls DC)
    | None => D_decls DC
    end in
  let w1 := state_after (forM_ (consult Opts) (D_decls DC)) w in
  let body := written (forM_ (λ I, ASTExporter_dumpDecl fmt_p Opts Context (Some I))
                         retained) w1 in
  ∃ storage,
    written (ASTExporter_VisitDeclContext fmt_p Opts Context (Some DC)) w
      = [AArray (Some (len retained)) body; storage] ∧
    len body = len retained ∧
    Forall2 (λ I e, ∃ w', written (ASTExporter_dumpDecl fmt_p Opts Context (Some I)) w' = [e])
      retained body.
Proof.
  cbv zeta. rewrite <-filter_shouldDump.
  destruct (written_VisitDeclContext DC w) as (storage & Hout & Hlen).
  exists storage. split; [exact Hout|]. split; [exact Hlen|].
  apply (forM_one_each (λ I, ASTExporter_dumpDecl fmt_p Opts Context (Some I))).
  intros I. apply emits_dumpDecl_rec.
Qed.

(** *** The identity tokens of the two forms *)

Lemma starts_refl {A} (m : M A) w : starts (written m w) m w.
Proof. exists []. by rewrite app_nil_r. Qed.

Lemma starts_bind {A B} pre (m : M A) (k : A → M B) w :
  starts pre m w → starts pre (m ≫= k) w.
Proof. intros [rest Hm]. unfold starts. rewrite written_bind, Hm, <-app_assoc. eauto. Qed.

Lemma Visit_Decl_starts D c w :
  starts (written (VisitDecl fmt_p Opts D) w) (Visit_Decl fmt_p Opts Context D c) w.
Proof.
  unfold Visit_Decl.
  induction c; cbn [ConstDeclVisitor_Visit]; [..|done].
  all: repeat lazymatch goal with
       | |- starts _ (VisitDecl _ _ _) _ => apply starts_refl
       | |- starts _ (_ ≫= _) _ => apply starts_bind
       | |- starts _ ?m _ => let h := head_of m in unfold h
       end.
Qed.

Lemma written_VisitDecl D w :
  ∃ n more,
    written (VisitDecl fmt_p Opts D) w =
    [AObject n (ATag "pointer"
                :: AString (token_at fmt_p (withPointers Opts) (D_ptr D) w) :: more)].
Proof.
  unfold VisitDecl, ObjectScope.
  rewrite written_scope, written_bind, written_emitTag, written_bind, written_dumpPointer.
  eexists _, _. reflexivity.
Qed.

Lemma by_value_token_dumpDecl D w :
  ∃ a, written (ASTExporter_dumpDecl fmt_p Opts Context (Some D)) w = [a] ∧
       by_value_token a = Some (AString (token_at fmt_p (withPointers Opts) (D_ptr D) w)).
Proof.
  rewrite written_dumpDecl_Some.
  destruct (Visit_Decl_starts D (D_getKind D) w) as [rest ->].
  destruct (written_VisitDecl D w) as (n & more & ->).
  eexists. split; [reflexivity|]. reflexivity.
Qed.

Lemma written_dumpDeclRef D w :
  ∃ n rest,
    written (dumpDeclRef fmt_p Opts D) w =
    [AObject n (ATag "kind" :: ASimpleVariant (getDeclKindName (DR_getKind D))
                :: ATag "decl_pointer"
                :: AString (token_at fmt_p (withPointers Opts) (DR_ptr D) w) :: rest)].
Proof.
  unfold dumpDeclRef, ObjectScope.
  rewrite written_scope, written_bind, written_emitTag, written_bind,
    written_emitSimpleVariant, written_bind, written_emitTag, written_bind,
    written_dumpPointer.
  eexists _, _. reflexivity.
Qed.

Lemma by_ref_token_dumpDeclRef D w :
  ∃ r, written (dumpDeclRef fmt_p Opts D) w = [r] ∧
       by_ref_token r = Some (AString (token_at fmt_p (withPointers Opts) (DR_ptr D) w)).
Proof.
  destruct (written_dumpDeclRef D w) as (n & rest & ->).
  eexists. split; reflexivity.
Qed.

Lemma Decl_children_all (P : Decl → Prop) (Q : Stmt → Prop) D :
  (∀ D, P D) → (∀ Node, Q Node) → Decl_children P Q D.
Proof.
  intros HP HQ. unfold Decl_children.
  repeat split;
    repeat first [apply Forall_forall; intros ? _ | apply opt_all_intro; intros ?];
    auto.
Qed.

Lemma Stmt_children_all (P : Decl → Prop) (Q : Stmt → Prop) Node :
  (∀ D, P D) → (∀ Node, Q Node) → Stmt_children P Q Node.
Proof.
  intros HP HQ. unfold Stmt_children.
  repeat split;
    repeat first [apply Forall_forall; intros ? _ | apply opt_all_intro; intros ?];
    auto.
Qed.

Lemma after_dumpDecl D :
  after fmt_p Opts (D_ptr D) (ASTExporter_dumpDecl fmt_p Opts Context (Some D)).
Proof.
  unfold ASTExporter_dumpDecl, dumpDecl. rewrite dumpDecl_rec_unfold.
  unfold dumpDecl_body, VariantScope, TupleScope. do 2 apply after_scope.
  apply (after_Visit_Decl fmt_p Opts Context (λ _, True)).
  - apply good_dumpNullDecl.
  - apply good_dumpNullStmt.
  - intros _. by apply Forall_forall.
  - pose proof within_any as [HD HS].
    destruct (good_dump_rec fmt_p Opts Context (λ _, True)) as [GD GS].
    apply Decl_children_all; auto.
Qed.

(** C5, amended.  A listing holds, by value, in order and one element
    each, the members of the scope that the membership service accepts
    (all of them when no service is configured), and no other.  A
    declaration is encoded by value as well, outside any listing, wherever
    a node owns it: the declarations in the prototype scope of a function
    and its parameters, the parameters of a method or of a block, the
    declarations of a [DeclStmt], the variable of a catch clause, the
    block of a block expression, the class of a lambda expression.  A
    by-reference record gives the kind and the identity token first.
    Wherever in a run a declaration is encoded by value and referred to,
    in either order, the reference carries the identity token of the
    encoding by value. *)
Theorem by_value_and_by_reference :
  (∀ DC w,
     let retained :=
       match deduplicationService Opts with
       | Some service => List.filter (λ I, service (basePath Opts) I) (D_decls DC)
       | None => D_decls DC
       end in
     let w1 := state_after (forM_ (consult Opts) (D_decls DC)) w in
     let body := written (forM_ (λ I, ASTExporter_dumpDecl fmt_p Opts Context (Some I))
                            retained) w1 in
     ∃ storage,
       written (ASTExporter_VisitDeclContext fmt_p Opts Context (Some DC)) w
         = [AArray (Some (len retained)) body; storage] ∧
       len body = len retained ∧
       Forall2 (λ I e, ∃ w', written (ASTExporter_dumpDecl fmt_p Opts Context (Some I)) w'
                              = [e])
         retained body) ∧
  (∀ D d w, Decl_owns D d →
     by_value_in fmt_p Opts Context d
       (ASTExporter_dumpDecl fmt_p Opts Context (Some D)) w) ∧
  (∀ Node d w, Stmt_owns Node d →
     by_value_in fmt_p Opts Context d
       (ASTExporter_dumpStmt fmt_p Opts Context (Some Node)) w) ∧
  (∀ D w, ∃ n tok rest,
     written (dumpDeclRef fmt_p Opts D) w =
     [AObject n (ATag "kind" :: ASimpleVariant (getDeclKindName (DR_getKind D))
                 :: ATag "decl_pointer" :: AString tok :: rest)]) ∧
  (∀ D w w',
     later (state_after (ASTExporter_dumpDecl fmt_p Opts Context (Some D)) w) w' →
     ∃ a r tok,
       written (ASTExporter_dumpDecl fmt_p Opts Context (Some D)) w = [a] ∧
       written (dumpDeclRef fmt_p Opts (D_ref D)) w' = [r] ∧
       by_value_token a = Some tok ∧ by_ref_token r = Some tok) ∧
  (∀ D w w',
     later (state_after (dumpDeclRef fmt_p Opts (D_ref D)) w) w' →
     ∃ r a tok,
       written (dumpDeclRef fmt_p Opts (D_ref D)) w = [r] ∧
       written (ASTExporter_dumpDecl fmt_p Opts Context (Some D)) w' = [a] ∧
       by_ref_token r = Some tok ∧ by_value_token a = Some tok).
Proof.
  split; [apply listing_by_service|].
  split; [apply owned_by_value|]. split; [apply owned_by_value|]. split; [|split].
  - intros D w. destruct (written_dumpDeclRef D w) as (n & rest & ->).
    eexists _, _, _. reflexivity.
  - intros D w w' Hl.
    destruct (by_value_token_dumpDecl D w) as (a & Ha & Hta).
    destruct (by_ref_token_dumpDeclRef (D_ref D) w') as (r & Hr & Htr).
    exists a, r, (AString (token_at fmt_p (withPointers Opts) (D_ptr D) w)).
    split; [done|]. split; [done|]. split; [done|].
    rewrite Htr. do 2 f_equal. apply token_at_stable.
    eapply later_trans; [apply after_dumpDecl | done].
  - intros D w w' Hl.
    destruct (by_ref_token_dumpDeclRef (D_ref D) w) as (r & Hr & Htr).
    destruct (by_value_token_dumpDecl D w') as (a & Ha & Hta).
    exists r, a, (AString (token_at fmt_p (withPointers Opts) (D_ptr D) w)).
    split; [done|]. split; [done|]. split; [done|].
    rewrite Hta. do 2 f_equal. apply token_at_stable.
    eapply later_trans; [apply (after_dumpDeclRef fmt_p Opts (λ _, True)) | done].
Qed.

(** C9.  The membership service is asked about the members of a scope
    when the scope is listed, once each and before any of them is encoded;
    the array is declared with the number of members the service accepts
    (all of them when no service is configured) and holds the encoding of
    each of these, in order, and of no other: a member the service rejects
    is left out.  A reference never asks the service and is always
    written.  A declaration handed to [dumpDecl] is encoded, whatever the
    service would say of it.  Over a whole encoding, the service is asked
    only about direct members of declarations whose class lists its
    members, and not at all when no service is configured. *)
Theorem file_filter_only_when_listing :
  (∀ DC w,
     let retained :=
       match deduplicationService Opts with
       | Some service => List.filter (λ I, service (basePath Opts) I) (D_decls DC)
       | None => D_decls DC
       end in
     let w1 := state_after (forM_ (consult Opts) (D_decls DC)) w in
     let body := written (forM_ (λ I, ASTExporter_dumpDecl fmt_p Opts Context (Some I))
                            retained) w1 in
     consulted w1 = consulted w ++ asked Opts (D_decls DC) ∧
     ∃ storage,
       written (ASTExporter_VisitDeclContext fmt_p Opts Context (Some DC)) w
         = [AArray (Some (len retained)) body; storage] ∧
       len body = len retained ∧
       Forall2 (λ I e, ∃ w', written (ASTExporter_dumpDecl fmt_p Opts Context (Some I)) w'
                              = [e])
         retained body) ∧
  (∀ service DC I,
     deduplicationService Opts = Some service →
     I ∈ D_decls DC → service (basePath Opts) I = false →
     I ∉ List.filter (λ I, service (basePath Opts) I) (D_decls DC)) ∧
  (∀ D w,
     consulted (state_after (dumpDeclRef fmt_p Opts D) w) = consulted w ∧
     len (written (dumpDeclRef fmt_p Opts D) w) = 1) ∧
  (∀ D w, len (written (ASTExporter_dumpDecl fmt_p Opts Context D) w) = 1) ∧
  (∀ (S : ptr → Prop) D w,
     opt_all (within S) D →
     ∃ l, consulted (state_after (ASTExporter_dumpDecl fmt_p Opts Context D) w)
            = consulted w ++ l ∧
          Forall S l ∧
          (deduplicationService Opts = None → l = [])).
Proof.
  split; [|split; [|split; [|split]]].
  - intros DC w retained w1 body. split; [apply consult_loop|].
    apply listing_by_service.
  - intros service DC I _ _ HI [_ HI']%list_elem_of_In%filter_In. by rewrite HI in HI'.
  - intros D w. split.
    + destruct (good_dumpDeclRef fmt_p Opts (λ _, False) D w) as [(_ & (l & Hl & HF & _) & _) _].
      destruct l; [by rewrite app_nil_r in Hl | by inversion HF].
    + destruct (written_dumpDeclRef D w) as (n & rest & ->). done.
  - intros [D|] w.
    + by rewrite written_dumpDecl_Some.
    + apply emits_dumpNullDecl.
  - intros S D w HD.
    destruct (good_ASTExporter_dumpDecl fmt_p Opts Context S D HD w) as [(_ & Hc & _) _].
    exact Hc.
Qed.
End Listing.

(** C5, as stated, fails.  The parameter of a block is a member of the
    block and is encoded again among its parameters: twice by value.  A
    variable rejected by the membership service is referred to from a
    function body and encoded by value nowhere. *)
Lemma by_value_twice_or_never :
  let out1 := written (ASTExporter_dumpDecl fmt_example plain_options example_context
                         (Some example_block)) (ASTExporter_ctor example_context process_start) in
  let out2 := written (export_run fmt_example filtering_options example_context example_unit)
                process_start in
  token_at fmt_example false (D_ptr example_param)
    (state_after (ASTExporter_dumpDecl fmt_example plain_options example_context
                    (Some example_block)) (ASTExporter_ctor example_context process_start)) = "1" ∧
  by_value_count "1" out1 = 2%nat ∧
  token_at fmt_example false (D_ptr example_var)
    (state_after (export_run fmt_example filtering_options example_context example_unit)
       process_start) = "4" ∧
  by_ref_count "4" out2 = 1%nat ∧ by_value_count "4" out2 = 0%nat.
Proof. vm_compute. done. Qed.

(** A block owns its parameter; a variable is encoded and then referred
    to. *)
Lemma by_value_and_by_reference_witness :
  let w := ASTExporter_ctor example_context process_start in
  let w' := state_after (ASTExporter_dumpDecl fmt_example plain_options example_context
                           (Some example_var)) w in
  (Decl_owns example_block (Some example_param) ∧
   by_value_in fmt_example plain_options example_context (Some example_param)
     (ASTExporter_dumpDecl fmt_example plain_options example_context (Some example_block))
     w) ∧
  later w' w' ∧
  ∃ a r tok,
    written (ASTExporter_dumpDecl fmt_example plain_options example_context (Some example_var)) w
      = [a] ∧
    written (dumpDeclRef fmt_example plain_options (D_ref example_var)) w' = [r] ∧
    by_value_token a = Some tok ∧ by_ref_token r = Some tok.
Proof.
  intros w w'.
  destruct (by_value_and_by_reference fmt_example plain_options example_context)
    as (_ & Howned & _ & _ & Htok & _).
  assert (Decl_owns example_block (Some example_param)) as Ho.
  { apply owns_block_parameter; [apply Decl_derives_refl | apply list_elem_of_here]. }
  split; [split; [exact Ho | exact (Howned _ _ w Ho)]|].
  split; [apply later_refl|].
  apply Htok, later_refl.
Defined.

(** The service of [filtering_options] rejects the variable of the
    example, which is left out of the listing of the translation unit; it
    is asked about the two members of the unit only. *)
Lemma file_filter_only_when_listing_witness :
  let S := λ p : ptr, p = 2001 ∨ p = 2002 in
  let service := λ (_ : string) (D : Decl), negb (D_ptr D =? 2001) in
  (deduplicationService filtering_options = Some service ∧
   example_var ∈ D_decls example_unit ∧
   service (basePath filtering_options) example_var = false ∧
   example_var ∉ List.filter (λ I, service (basePath filtering_options) I)
                  (D_decls example_unit)) ∧
  opt_all (within S) (Some example_unit) ∧
  ∃ l, consulted (state_after (ASTExporter_dumpDecl fmt_example filtering_options
                                 example_context (Some example_unit))
                    (ASTExporter_ctor example_context process_start))
         = consulted (ASTExporter_ctor example_context process_start) ++ l ∧
       Forall S l ∧
       (deduplicationService filtering_options = None → l = []).
Proof.
  intros S service.
  destruct (file_filter_only_when_listing fmt_example filtering_options example_context)
    as (_ & Hrejected & _ & _ & Hasked).
  assert (opt_all (within S) (Some example_unit)) as H.
  { apply opt_all_Some.
    repeat first
      [ exact I
      | progress (intros; simplify_eq/=)
      | apply Forall_nil_2
      | apply Forall_cons_2
      | apply within_Decl
      | apply within_Stmt_intro
      | split
      | (left; reflexivity)
      | (right; reflexivity) ]. }
  assert (example_var ∈ D_decls example_unit) as Hin by apply list_elem_of_here.
  split.
  { split; [reflexivity|]. split; [exact Hin|]. split; [reflexivity|].
    exact (Hrejected service example_unit example_var eq_refl Hin eq_refl). }
  split; [exact H|].
  exact (Hasked S (Some example_unit) _ H).
Defined.

(** * Further properties *)

(** ** Well-formed output *)

Lemma well_formed_with_AObject ok size body :
  well_formed_with ok (AObject size body) =
  match field_tags ok body with
  | Some ts => ok size ts
  | None => false
  end.
Proof. reflexivity. Qed.

Lemma well_formed_with_all ok l :
  (fix all (l : list atd) : bool :=
     match l with [] => true | x :: l => well_formed_with ok x && all l end) l
  = forallb (well_formed_with ok) l.
Proof. induction l as [|x l IH]; [done|]. cbn. by rewrite IH. Qed.

Lemma well_formed_with_AArray ok size body :
  well_formed_with ok (AArray size body) =
  forallb (well_formed_with ok) body
  && match size with Some n => len body =? n | None => true end.
Proof. cbn [well_formed_with]. by rewrite well_formed_with_all. Qed.

Lemma well_formed_with_ATuple ok size body :
  well_formed_with ok (ATuple size body) =
  forallb (well_formed_with ok) body
  && match size with Some n => len body =? n | None => true end.
Proof. cbn [well_formed_with]. by rewrite well_formed_with_all. Qed.

(** Induction on an item, with the property known of the items inside. *)
Section atd_induction.
Variable P : atd → Prop.
Hypothesis P_tag : ∀ t, P (ATag t).
Hypothesis P_string : ∀ s, P (AString s).
Hypothesis P_integer : ∀ z, P (AInteger z).
Hypothesis P_boolean : ∀ b, P (ABoolean b).
Hypothesis P_simple : ∀ t, P (ASimpleVariant t).
Hypothesis P_object : ∀ n body, Forall P body → P (AObject n body).
Hypothesis P_array : ∀ n body, Forall P body → P (AArray n body).
Hypothesis P_tuple : ∀ n body, Forall P body → P (ATuple n body).
Hypothesis P_variant : ∀ t body, Forall P body → P (AVariant t body).

Lemma atd_nested_ind : ∀ a, P a.
Proof.
  fix IH 1. intros [t|s|z|b|t|n body|n body|n body|t body].
  - apply P_tag.
  - apply P_string.
  - apply P_integer.
  - apply P_boolean.
  - apply P_simple.
  - apply P_object. induction body; constructor; [apply IH | assumption].
  - apply P_array. induction body; constructor; [apply IH | assumption].
  - apply P_tuple. induction body; constructor; [apply IH | assumption].
  - apply P_variant. induction body; constructor; [apply IH | assumption].
Qed.
End atd_induction.

Lemma field_tags_mono ok ok' (n : nat) : ∀ l,
  (length l ≤ n)%nat →
  Forall (λ v, well_formed_with ok v = true → well_formed_with ok' v = true) l →
  ∀ ts, field_tags ok l = Some ts → field_tags ok' l = Some ts.
Proof.
  induction n as [|n IH]; intros l Hn Hl ts.
  { destruct l; [done | cbn in Hn; lia]. }
  destruct l as [|x [|v l]]; [done | by destruct x |].
  destruct x; try done. cbn [field_tags]. cbn [length] in Hn.
  inversion Hl as [|? ? _ Hl']. inversion Hl' as [|? ? Hv Hl'']. subst.
  destruct (well_formed_with ok v) eqn:E; [|done]. rewrite (Hv eq_refl).
  destruct (field_tags ok l) as [ts'|] eqn:E'; [|done].
  intros [= <-]. rewrite (IH l) with (ts := ts'); [done | lia | done | done].
Qed.

Lemma well_formed_with_mono ok ok' :
  (∀ size ts, ok size ts = true → ok' size ts = true) →
  ∀ a, well_formed_with ok a = true → well_formed_with ok' a = true.
Proof.
  intros Hok a. induction a as [| | | | |n body IH|n body IH|n body IH|t body IH]
    using atd_nested_ind; try done.
  - rewrite !well_formed_with_AObject.
    destruct (field_tags ok body) as [ts|] eqn:E; [|done].
    rewrite (field_tags_mono ok ok' (length body) body (le_n _) IH ts E).
    apply Hok.
  - rewrite !well_formed_with_AArray. intros [H1 H2]%andb_true_iff. rewrite H2, andb_true_r.
    apply forallb_forall. intros x Hx. rewrite Forall_forall in IH. apply IH.
    + by apply list_elem_of_In.
    + by apply (proj1 (forallb_forall _ _) H1).
  - rewrite !well_formed_with_ATuple. intros [H1 H2]%andb_true_iff. rewrite H2, andb_true_r.
    apply forallb_forall. intros x Hx. rewrite Forall_forall in IH. apply IH.
    + by apply list_elem_of_In.
    + by apply (proj1 (forallb_forall _ _) H1).
  - cbn. destruct body as [|v [|??]]; try done. by inversion IH.
Qed.

Lemma conforms_distinct fields ts : conforms fields ts = true → distinct ts = true.
Proof. unfold conforms. by intros [[H _]%andb_true_iff _]%andb_true_iff. Qed.

Lemma is_atd_record_distinct ts : is_atd_record ts = true → distinct ts = true.
Proof.
  unfold is_atd_record. intros (r & _ & Hr)%existsb_exists. by eapply conforms_distinct.
Qed.

Lemma conforming_well_formed a : conforming a = true → well_formed a = true.
Proof.
  apply well_formed_with_mono. intros size ts. unfold is_instance, fits.
  intros [-> H]%andb_true_iff. by apply is_atd_record_distinct.
Qed.

Lemma is_exact_instance_is_instance size ts :
  is_exact_instance size ts = true → is_instance size ts = true.
Proof. unfold is_exact_instance. by intros [-> _]%andb_true_iff. Qed.

Lemma exactly_sized_conforming a : exactly_sized a = true → conforming a = true.
Proof. apply well_formed_with_mono, is_exact_instance_is_instance. Qed.

Lemma is_instance_intro size ts :
  len ts ≤ size → is_atd_record ts = true → is_instance size ts = true.
Proof. intros Hl Hr. unfold is_instance. rewrite Hr, andb_true_r. by apply Z.leb_le. Qed.

Lemma is_exact_instance_eq size ts :
  len ts = size → is_atd_record ts = true → is_exact_instance size ts = true.
Proof.
  intros Hl Hr. unfold is_exact_instance. rewrite is_instance_intro by (done || lia).
  rewrite (proj2 (Z.eqb_eq _ _) Hl). done.
Qed.

Lemma is_exact_instance_short size ts :
  len ts ≤ size → is_atd_record ts = true → is_short_record ts = true →
  is_exact_instance size ts = true.
Proof.
  intros Hl Hr Hs. unfold is_exact_instance. rewrite is_instance_intro by done.
  rewrite Hs. by rewrite orb_true_r.
Qed.

Lemma conforms_between fields lo ts hi :
  lo `sublist_of` ts → ts `sublist_of` hi →
  conforms_bounds fields lo hi = true → conforms fields ts = true.
Proof.
  intros Hlo Hhi. unfold conforms, conforms_bounds, distinct.
  rewrite !andb_true_iff, !bool_decide_eq_true.
  intros [[Hnd Hin] Hm]. split; [split|].
  - by eapply sublist_NoDup.
  - apply forallb_forall. intros t Ht.
    apply (proj1 (forallb_forall _ _) Hin).
    apply list_elem_of_In. eapply sublist_subseteq; [exact Hhi|]. by apply list_elem_of_In.
  - apply forallb_forall. intros f Hf.
    pose proof (proj1 (forallb_forall _ _) Hm f Hf) as H. cbv beta in *.
    destruct (f.2); [|done]. cbn [implb] in *. apply bool_decide_eq_true.
    apply bool_decide_eq_true in H. by eapply sublist_subseteq.
Qed.

Lemma is_atd_record_between lo ts hi :
  lo `sublist_of` ts → ts `sublist_of` hi →
  existsb (λ r : string * list (string * bool), conforms_bounds r.2 lo hi) atd_records = true →
  is_atd_record ts = true.
Proof.
  intros Hlo Hhi (r & Hr & Hb)%existsb_exists. apply existsb_exists.
  exists r. split; [done|]. by eapply conforms_between.
Qed.

Lemma is_short_record_between lo ts hi :
  lo `sublist_of` ts → ts `sublist_of` hi →
  existsb (λ r : string * list (string * bool),
             bool_decide (r.1 ∈ short_records) && conforms_bounds r.2 lo hi) atd_records
  = true →
  is_short_record ts = true.
Proof.
  intros Hlo Hhi (r & Hr & [Hs Hb]%andb_true_iff)%existsb_exists. apply existsb_exists.
  exists r. split; [done|]. rewrite Hs. by eapply conforms_between.
Qed.

Lemma sublist_opt {A} (b : bool) (l k : list A) :
  l `sublist_of` k → opt b l `sublist_of` k.
Proof. destruct b; [done|]. intros _. apply sublist_nil_l. Qed.

Section Rules.
Variable ok : Z → list string → bool.

Lemma fields_from_count l :
  (∀ ts, fields_from ok false l = Some (ts, false) → field_tags ok l = Some ts) ∧
  (∀ x ts, fields_from ok false (x :: l) = Some (ts, false) →
           field_tags ok (x :: l) = Some ts).
Proof.
  induction l as [|y l [IH1 IH2]].
  - split; [by intros ts [= <-]|]. intros x ts. by destruct x.
  - split; [apply IH2|]. intros x ts. destruct x; try done.
    cbn [fields_from field_tags].
    destruct y; try done; cbn [fields_from].
    all: destruct (well_formed_with ok _); [|done].
    all: destruct (fields_from ok false l) as [[k p]|] eqn:E; [|done].
    all: cbn; intros [= <- ->]; by rewrite (IH1 _ eq_refl).
Qed.

Lemma fields_from_app l1 : ∀ p l2,
  fields_from ok p (l1 ++ l2) =
  match fields_from ok p l1 with
  | Some (ts1, p1) =>
      match fields_from ok p1 l2 with
      | Some (ts2, p2) => Some (ts1 ++ ts2, p2)
      | None => None
      end
  | None => None
  end.
Proof.
  induction l1 as [|x l1 IH]; intros p l2.
  - cbn. by destruct (fields_from ok p l2) as [[n2 p2]|].
  - cbn [app fields_from].
    destruct x, p; try done; rewrite ?IH; try done.
    all: try (destruct (well_formed_with ok _); [|done]).
    all: destruct (fields_from ok _ l1) as [[n1 p1]|]; [|done]; cbn.
    all: by destruct (fields_from ok p1 l2) as [[n2 p2]|].
Qed.

(** *** Rules for [values] *)

Lemma V_cast {A} k n (m : M A) : values_with ok k m → k = n → values_with ok n m.
Proof. by intros ? <-. Qed.

Lemma V_ret {A} (a : A) : values_with ok 0 (mret a).
Proof. done. Qed.

Lemma V_modify f : values_with ok 0 (modify f).
Proof. done. Qed.

Lemma V_get : values_with ok 0 get.
Proof. done. Qed.

Lemma V_bind {A B} n k (m : M A) (f : A → M B) :
  values_with ok n m → (∀ a, values_with ok k (f a)) → values_with ok (n + k) (m ≫= f).
Proof.
  intros Hm Hf w. rewrite written_bind.
  destruct (Hm w) as [<- H1]. destruct (Hf (m w).1.1 (state_after m w)) as [<- H2].
  split; [unfold len; rewrite length_app; lia|].
  by rewrite forallb_app, H1, H2.
Qed.

Lemma V_emit x : well_formed_with ok x = true → values_with ok 1 (emit x).
Proof. intros Hx w. cbn. by rewrite Hx. Qed.

Lemma V_scope {A} wrap (m : M A) :
  (∀ w, well_formed_with ok (wrap (written m w)) = true) → values_with ok 1 (scope wrap m).
Proof. intros H w. rewrite written_scope. cbn. by rewrite H. Qed.

Lemma V_object {A} ts size (m : M A) :
  writes_fields_with ok false ts false m → ok size ts = true →
  values_with ok 1 (ObjectScope size m).
Proof.
  intros Hm Hok. apply V_scope. intros w. rewrite well_formed_with_AObject.
  destruct (fields_from_count (written m w)) as [H _].
  by rewrite (H _ (Hm w)).
Qed.

Lemma V_array {A} k n (m : M A) : values_with ok k m → k = n → values_with ok 1 (ArrayScope n m).
Proof.
  intros Hm <-. apply V_scope. intros w. rewrite well_formed_with_AArray.
  destruct (Hm w) as [-> ->]. by rewrite Z.eqb_refl.
Qed.

Lemma V_tuple {A} k n (m : M A) : values_with ok k m → k = n → values_with ok 1 (TupleScope n m).
Proof.
  intros Hm <-. apply V_scope. intros w. rewrite well_formed_with_ATuple.
  destruct (Hm w) as [-> ->]. by rewrite Z.eqb_refl.
Qed.

Lemma V_tuple_unsized {A} k (m : M A) : values_with ok k m → values_with ok 1 (TupleScope_unsized m).
Proof.
  intros Hm. apply V_scope. intros w. rewrite well_formed_with_ATuple.
  destruct (Hm w) as [_ ->]. done.
Qed.

Lemma V_variant {A} k t (m : M A) : values_with ok k m → k = 1 → values_with ok 1 (VariantScope t m).
Proof.
  intros Hm ->. apply V_scope. intros w. destruct (Hm w) as [Hl Hw].
  destruct (written m w) as [|v [|??]];
    [done | | unfold len in Hl; cbn [length] in Hl; lia].
  cbn in *. by rewrite andb_true_r in Hw.
Qed.

Lemma V_when b n m : values_with ok n m → values_with ok (b2z b * n) (when b m).
Proof. destruct b; cbn [when b2z]; [by rewrite Z.mul_1_l | done]. Qed.

Lemma V_whenSome {A} (o : option A) n f :
  (∀ x, o = Some x → values_with ok n (f x)) → values_with ok (b2z (notnull o) * n) (whenSome o f).
Proof.
  destruct o as [x|]; cbn [whenSome notnull b2z]; [|done].
  rewrite Z.mul_1_l. intros H. by apply H.
Qed.

Lemma V_forM {A} (f : A → M unit) l :
  Forall (λ x, values_with ok 1 (f x)) l → values_with ok (len l) (forM_ f l).
Proof.
  induction 1 as [|x l Hx _ IH]; [done|]. intros w.
  rewrite written_forM_cons.
  destruct (Hx w) as [H1 H2]. destruct (IH (state_after (f x) w)) as [H3 H4].
  split; [unfold len in *; rewrite length_app; cbn [length]; lia|].
  by rewrite forallb_app, H2, H4.
Qed.

Lemma V_forM_0 {A} (f : A → M unit) l : (∀ x, values_with ok 0 (f x)) → values_with ok 0 (forM_ f l).
Proof.
  intros Hf. induction l as [|x l IH]; [done|]. intros w.
  rewrite written_forM_cons.
  destruct (Hf x w) as [H1 H2]. destruct (IH (state_after (f x) w)) as [H3 H4].
  split; [unfold len in *; rewrite length_app; lia|].
  by rewrite forallb_app, H2, H4.
Qed.

Lemma V_forM_filter {A} (p : A → bool) (f : A → M unit) l :
  Forall (λ x, values_with ok 1 (f x)) l →
  values_with ok (len (List.filter p l)) (forM_ (λ I, when (p I) (f I)) l).
Proof.
  induction 1 as [|x l Hx _ IH]; [done|]. intros w.
  rewrite written_forM_cons. cbn [List.filter].
  destruct (IH (state_after (when (p x) (f x)) w)) as [H3 H4].
  destruct (p x); cbn [when] in *.
  - destruct (Hx w) as [H1 H2].
    split; [unfold len in *; rewrite length_app; cbn [length]; lia|].
    by rewrite forallb_app, H2, H4.
  - done.
Qed.

Lemma values_one {A} (m : M A) w :
  values_with ok 1 m → ∃ a, written m w = [a] ∧ well_formed_with ok a = true.
Proof.
  intros Hm. destruct (Hm w) as [Hl Hw].
  destruct (written m w) as [|a [|??]];
    [done | | unfold len in Hl; cbn [length] in Hl; lia].
  exists a. split; [done|]. cbn in Hw. by rewrite andb_true_r in Hw.
Qed.

(** *** Rules for [writes_fields] *)

Lemma F_ret {A} p (a : A) : writes_fields_with ok p [] p (mret a).
Proof. done. Qed.

Lemma F_bind {A B} p ts1 p1 ts2 p2 (m : M A) (f : A → M B) :
  writes_fields_with ok p ts1 p1 m → (∀ a, writes_fields_with ok p1 ts2 p2 (f a)) →
  writes_fields_with ok p (ts1 ++ ts2) p2 (m ≫= f).
Proof.
  intros Hm Hf w. rewrite written_bind, fields_from_app, (Hm w).
  by rewrite (Hf (m w).1.1 (state_after m w)).
Qed.

Lemma F_tag t : writes_fields_with ok false [t] true (emitTag t).
Proof. done. Qed.

Lemma F_value {A} k (m : M A) : values_with ok k m → k = 1 → writes_fields_with ok true [] false m.
Proof.
  intros Hm -> w. destruct (Hm w) as [Hl Hw].
  destruct (written m w) as [|v [|??]];
    [done | | unfold len in Hl; cbn [length] in Hl; lia].
  cbn in *. rewrite andb_true_r in Hw. rewrite Hw. by destruct v.
Qed.

Lemma F_flag t b : writes_fields_with ok false (opt b [t]) false (emitFlag t b).
Proof. by destruct b. Qed.

Lemma F_when b ts m :
  writes_fields_with ok false ts false m → writes_fields_with ok false (opt b ts) false (when b m).
Proof. by destruct b. Qed.

Lemma F_whenSome {A} (o : option A) ts f :
  (∀ x, o = Some x → writes_fields_with ok false ts false (f x)) →
  writes_fields_with ok false (opt (notnull o) ts) false (whenSome o f).
Proof.
  destruct o as [x|]; cbn [whenSome notnull opt]; [|done].
  intros H. by apply H.
Qed.

End Rules.

Lemma values_mono ok ok' {A} n (m : M A) :
  (∀ size ts, ok size ts = true → ok' size ts = true) →
  values_with ok n m → values_with ok' n m.
Proof.
  intros Hok Hm w. destruct (Hm w) as [-> H]. split; [done|].
  apply forallb_forall. intros x Hx.
  apply (well_formed_with_mono ok ok' Hok), (proj1 (forallb_forall _ _) H x Hx).
Qed.

Create HintDb wf discriminated.

Lemma len_rev {A} (l : list A) : len (rev l) = len l.
Proof. unfold len. by rewrite length_rev. Qed.

Lemma len_app {A} (l k : list A) : len (l ++ k) = len l + len k.
Proof. unfold len. rewrite length_app. lia. Qed.

Lemma len_opt {A} b (l : list A) : len (opt b l) = b2z b * len l.
Proof. destruct b; cbn [opt b2z]; [lia | done]. Qed.

Lemma len_cons {A} (x : A) l : len (x :: l) = 1 + len l.
Proof. unfold len. cbn [length]. lia. Qed.

Lemma len_nil A : len (@nil A) = 0.
Proof. done. Qed.

Lemma b2z_bounds b : 0 ≤ b2z b ≤ 1.
Proof. destruct b; cbn; lia. Qed.

(** Side conditions on sizes: sums of [b2z] terms.  A condition nested
    in another one is decided by cases on the outer one. *)
Ltac wf_nested :=
  repeat match goal with
         | |- context [b2z ?b * ?r] =>
             lazymatch r with
             | context [b2z _] => destruct b; cbn [b2z]
             end
         end.
Ltac wf_bounds :=
  repeat match goal with
         | |- context [b2z ?b] =>
             lazymatch goal with
             | H : 0 ≤ b2z b ≤ 1 |- _ => fail
             | _ => pose proof (b2z_bounds b)
             end
         end.
Ltac wf_arith :=
  cbv beta zeta;
  repeat first [ rewrite len_rev | rewrite len_app | rewrite len_opt
               | rewrite len_cons | rewrite len_nil ];
  cbn [b2z notnull];
  wf_nested;
  first [ reflexivity
        | lia
        | solve [wf_bounds; lia]
        | unfold b2z; repeat case_match; simplify_eq/=; lia ].

(** The same for an equality, without the last resort. *)
Ltac wf_arith_eq :=
  cbv beta zeta;
  repeat first [ rewrite len_rev | rewrite len_app | rewrite len_opt
               | rewrite len_cons | rewrite len_nil ];
  cbn [b2z notnull];
  wf_nested;
  first [ reflexivity
        | lia
        | solve [wf_bounds; lia]
        | solve [unfold b2z; repeat case_match; simplify_eq/=; lia] ].

(** The tags of a record belong to a declared record type. *)
Ltac wf_lo :=
  lazymatch goal with
  | |- _ `sublist_of` (_ ++ _) => eapply sublist_app; [wf_lo | wf_lo]
  | |- _ `sublist_of` (opt _ _) => apply sublist_nil_l
  | |- _ `sublist_of` _ => reflexivity
  end.
Ltac wf_hi :=
  lazymatch goal with
  | |- (_ ++ _) `sublist_of` _ => eapply sublist_app; [wf_hi | wf_hi]
  | |- (opt _ _) `sublist_of` _ => eapply sublist_opt; wf_hi
  | |- _ `sublist_of` _ => reflexivity
  end.
Ltac wf_record :=
  eapply is_atd_record_between; [wf_lo | wf_hi | vm_compute; reflexivity].
Ltac wf_short :=
  eapply is_short_record_between; [wf_lo | wf_hi | vm_compute; reflexivity].

(** The test of an object: exactly sized if it can be shown so, otherwise
    an instance of a type of [short_records]. *)
Ltac wf_ok :=
  lazymatch goal with
  | |- is_exact_instance _ _ = true =>
      first [ apply is_exact_instance_eq; [wf_arith_eq | wf_record]
            | apply is_exact_instance_short; [wf_arith | wf_record | wf_short] ]
  | |- is_instance _ _ = true => apply is_instance_intro; [wf_arith | wf_record]
  end.

(** Case analysis on what the code branches on, before sizes are compared. *)
Ltac wf_cases :=
  repeat match goal with
         | |- context [match ?x with _ => _ end] =>
             lazymatch x with
             | context [match _ with _ => _ end] => fail
             | _ => destruct x eqn:?
             end
         end.

Ltac wf_child :=
  first [ assumption
        | match goal with
          | E : ?t = Some _, H : opt_all _ ?t |- _ => rewrite E in H; exact H
          end
        | lazymatch goal with
          | |- opt_all _ None => apply opt_all_None
          | |- opt_all _ (Some _) => apply opt_all_Some; assumption
          end ].

(** Rules added where the encoder is given for the children of a node. *)
Ltac wf_hook := fail.

Ltac wf_step :=
  first [ wf_hook | wf_rule ]
with wf_rule :=
  lazymatch goal with
  | |- writes_fields_with _ _ _ _ (_ ≫= _) => eapply F_bind; [|intros ?]
  | |- writes_fields_with _ _ _ _ (mret _) => apply F_ret
  | |- writes_fields_with _ _ _ _ (emitTag _) => apply F_tag
  | |- writes_fields_with _ _ _ _ (emitFlag _ _) => apply F_flag
  | |- writes_fields_with _ _ _ _ (when _ _) => eapply F_when
  | |- writes_fields_with _ _ _ _ (whenSome _ _) => eapply F_whenSome; intros ? ?
  | |- writes_fields_with _ _ _ _ (match ?x with _ => _ end) => destruct x eqn:?
  | |- writes_fields_with _ true _ _ _ => eapply F_value; [repeat wf_step|try wf_arith]
  | |- writes_fields_with _ _ _ _ ?m =>
      first [ solve [auto 2 with wf nocore]
            | let h := head_of m in progress unfold h
            | progress cbv beta zeta ]
  | |- values_with _ _ (_ ≫= _) => eapply V_bind; [|intros ?]
  | |- values_with _ _ (mret _) => apply V_ret
  | |- values_with _ _ (modify _) => apply V_modify
  | |- values_with _ _ (ObjectScope _ _) =>
      wf_cases;
      (eapply V_object; [repeat wf_step | try wf_ok])
  | |- values_with _ _ (ArrayScope _ _) => eapply V_array; [repeat wf_step|try wf_arith]
  | |- values_with _ _ (TupleScope _ _) => eapply V_tuple; [repeat wf_step|try wf_arith]
  | |- values_with _ _ (TupleScope_unsized _) => eapply V_tuple_unsized
  | |- values_with _ _ (VariantScope _ _) => eapply V_variant; [repeat wf_step|try wf_arith]
  | |- values_with _ _ (emitString _) => apply V_emit; reflexivity
  | |- values_with _ _ (emitInteger _) => apply V_emit; reflexivity
  | |- values_with _ _ (emitBoolean _) => apply V_emit; reflexivity
  | |- values_with _ _ (emitSimpleVariant _) => apply V_emit; reflexivity
  | |- values_with _ _ (when _ _) => eapply V_when
  | |- values_with _ _ (whenSome _ _) => eapply V_whenSome; intros ? ?
  | |- values_with _ _ (forM_ _ _) =>
      apply V_forM;
      first [ eapply Forall_impl; [eassumption | cbv beta; intros ? ?]
            | apply Forall_forall; intros ? _ ]
  | |- values_with _ _ (match ?x with _ => _ end) => destruct x eqn:?
  | |- values_with _ _ ?m =>
      first [ solve [auto 2 with wf nocore]
            | let h := head_of m in progress unfold h
            | progress cbv beta zeta ]
  end.
Ltac wf_tac := repeat wf_step.
Ltac wf_start := eapply V_cast; [wf_tac | try wf_arith].

Section WellFormed.
Variable fmt_p : ptr → string.
Variable Opts : ASTExporterOptions.
Variable Context : ASTContext.

Lemma V_dumpPointer p : values 1 (dumpPointer fmt_p Opts p).
Proof. intros w. by rewrite written_dumpPointer. Qed.
#[local] Hint Resolve V_dumpPointer : wf.

Lemma V_dumpPointerToType qt : values 1 (dumpPointerToType fmt_p Opts qt).
Proof. apply V_dumpPointer. Qed.
#[local] Hint Resolve V_dumpPointerToType : wf.

Lemma V_dumpSourceLocation Loc : values 1 (dumpSourceLocation Opts Loc).
Proof.
  intros w. destruct Loc as [|f l c].
  - by destruct (dumpSourceLocation_invalid Opts w) as [-> _].
  - destruct (dumpSourceLocation_valid Opts f l c w) as [-> _].
    by repeat case_decide.
Qed.
#[local] Hint Resolve V_dumpSourceLocation : wf.

Lemma V_dumpSourceRange R : values 1 (dumpSourceRange Opts R).
Proof. wf_start. Qed.
#[local] Hint Resolve V_dumpSourceRange : wf.

Lemma V_dumpQualType T : values 1 (dumpQualType fmt_p Opts T).
Proof. wf_start. Qed.
#[local] Hint Resolve V_dumpQualType : wf.

Lemma V_dumpName decl : values 1 (dumpName decl).
Proof. wf_start. Qed.
#[local] Hint Resolve V_dumpName : wf.

Lemma V_dumpDeclRef D : values 1 (dumpDeclRef fmt_p Opts D).
Proof. wf_start. Qed.
#[local] Hint Resolve V_dumpDeclRef : wf.

Lemma V_dumpAttr Att : values 1 (dumpAttr fmt_p Opts Att).
Proof. wf_start. Qed.
#[local] Hint Resolve V_dumpAttr : wf.

Lemma V_dumpDeclarationName Name : values 1 (dumpDeclarationName Name).
Proof. wf_start. Qed.
#[local] Hint Resolve V_dumpDeclarationName : wf.

Lemma V_dumpNestedNameSpecifierLoc NNS :
  values 1 (dumpNestedNameSpecifierLoc fmt_p Opts NNS).
Proof. wf_start. Qed.
#[local] Hint Resolve V_dumpNestedNameSpecifierLoc : wf.

Lemma V_dumpCXXBaseSpecifier Base : values 1 (dumpCXXBaseSpecifier Base).
Proof. wf_start. Qed.
#[local] Hint Resolve V_dumpCXXBaseSpecifier : wf.

Lemma V_dumpTypeOld T : values 1 (dumpTypeOld T).
Proof. wf_start. Qed.
#[local] Hint Resolve V_dumpTypeOld : wf.

Lemma V_dumpSelector sel : values 1 (dumpSelector sel).
Proof. wf_start. Qed.
Lemma V_dumpCXXTemporary p : values 1 (dumpCXXTemporary fmt_p Opts p).
Proof. wf_start. Qed.
#[local] Hint Resolve V_dumpSelector V_dumpCXXTemporary : wf.

Lemma V_VisitType T : values 1 (VisitType fmt_p Opts T).
Proof. wf_start. Qed.
#[local] Hint Resolve V_VisitType : wf.

Lemma V_TypeVisitor_Visit T c : ∃ k, values k (TypeVisitor_Visit fmt_p Opts T c).
Proof.
  induction c; cbn [TypeVisitor_Visit]; [..|done].
  all: eexists; wf_tac.
Qed.

Lemma V_dumpType T : values 1 (dumpType fmt_p Opts T).
Proof.
  unfold dumpType. eapply V_variant; [|reflexivity].
  destruct T as [T|].
  - destruct (V_TypeVisitor_Visit T (T_getTypeClass T)) as [k Hk].
    by eapply V_tuple_unsized.
  - eapply V_tuple_unsized. wf_tac.
Qed.
#[local] Hint Resolve V_dumpType : wf.

Lemma V_dumpComment_rec C : values 1 (dumpComment_rec fmt_p Opts C).
Proof.
  induction C as [C IH] using Comment_children_ind.
  assert (dumpComment_rec fmt_p Opts C
          = dumpComment_body fmt_p Opts (dumpComment_rec fmt_p Opts) C) as ->
    by (by destruct C).
  unfold dumpComment_body. eapply V_variant; [|reflexivity].
  assert (∃ k, values k (ConstCommentVisitor_visit fmt_p Opts (dumpComment_rec fmt_p Opts)
                           C (C_getCommentKind C))) as [k Hk];
    [|by eapply V_tuple_unsized].
  induction (C_getCommentKind C); cbn [ConstCommentVisitor_visit]; [..|done].
  all: eexists; wf_tac.
Qed.

Lemma V_dumpFullComment C : values 1 (dumpFullComment fmt_p Opts C).
Proof.
  unfold dumpFullComment. eapply V_cast.
  - repeat (eapply V_bind; [|intros ?]);
      [apply V_modify | apply V_dumpComment_rec | apply V_modify].
  - reflexivity.
Qed.
#[local] Hint Resolve V_dumpFullComment : wf.

Lemma V_VisitDecl D : values 1 (VisitDecl fmt_p Opts D).
Proof. wf_start. Qed.
#[local] Hint Resolve V_VisitDecl : wf.

(** *** The fields of particular records *)

Lemma field_tags_tags ok (n : nat) : ∀ body ts,
  (length body ≤ n)%nat → field_tags ok body = Some ts → tags body = ts.
Proof.
  induction n as [|n IH]; intros body ts Hn.
  { destruct body; [by intros [= <-] | cbn in Hn; lia]. }
  destruct body as [|x [|v l]]; [by intros [= <-] | by destruct x |].
  destruct x; try done. cbn [field_tags tags]. cbn [length] in Hn.
  destruct (well_formed_with ok v); [|done].
  destruct (field_tags ok l) as [ts'|] eqn:E; [|done].
  intros [= <-]. f_equal. apply IH; [lia | done].
Qed.

Lemma object_record ok {A} ts size (m : M A) w :
  writes_fields_with ok false ts false m →
  ∃ body, written (ObjectScope size m) w = [AObject size body] ∧ tags body = ts.
Proof.
  intros Hm. unfold ObjectScope. rewrite written_scope. eexists. split; [done|].
  eapply (field_tags_tags _ _ _ _ (le_n _)), fields_from_count, Hm.
Qed.

Ltac record_tac_with ok body Hw Ht :=
  lazymatch goal with
  | |- context [written (ObjectScope ?size ?m) ?w] =>
      let H := fresh in
      eassert (writes_fields_with ok false _ false m) as H by wf_tac;
      destruct (object_record ok _ size m w H) as (body & Hw & Ht); clear H
  end.
Ltac record_tac body Hw Ht := record_tac_with is_exact_instance body Hw Ht.

(** X4.  A by-reference record always carries [kind] and [decl_pointer];
    it carries [name] exactly when the declaration is a [NamedDecl],
    [is_hidden] exactly when it is a hidden [NamedDecl], and [qual_type]
    exactly when it is a [ValueDecl]; the fields come in this order, and
    the record is opened with exactly their number. *)
Theorem by_reference_record (D : DeclRef) (w : World) :
  let ND := isa_NamedDecl (DR_getKind D) in
  let VD := isa_ValueDecl (DR_getKind D) in
  let IsHidden := ND && DR_isHidden D in
  ∃ n body,
    written (dumpDeclRef fmt_p Opts D) w = [AObject n body] ∧
    tags body = ["kind"; "decl_pointer"] ++ opt ND ["name"]
                ++ opt IsHidden ["is_hidden"] ++ opt VD ["qual_type"] ∧
    len (tags body) = n.
Proof.
  intros ND VD IsHidden. unfold dumpDeclRef. cbv zeta.
  record_tac body Hw Ht.
  eexists _, body. rewrite Hw, Ht. split; [reflexivity|]. fold ND VD.
  destruct ND, VD, (DR_isHidden D); done.
Qed.

(** X5.  The [decl_info] record of a declaration is opened with one
    field more than it ever holds: the size counts four fixed fields, the
    record holds [pointer], [source_range] and [attributes], and
    [previous_decl] is never written. *)
Theorem decl_info_is_one_short (D : Decl) (w : World) :
  let ND := isa_NamedDecl (D_getKind D) in
  ∃ n body,
    written (VisitDecl fmt_p Opts D) w = [AObject n body] ∧
    tags body =
      ["pointer"]
      ++ opt (negb (D_getLexicalDeclContext D =? D_getDeclContext D)) ["parent_pointer"]
      ++ ["source_range"]
      ++ opt (notnull (D_getOwningModule D)) ["owning_module"]
      ++ opt (ND && DR_isHidden (D_ref D)) ["is_hidden"]
      ++ opt (D_isImplicit D) ["is_implicit"]
      ++ opt (D_isUsed D) ["is_used"]
      ++ opt (D_isThisDeclarationReferenced D) ["is_this_declaration_referenced"]
      ++ opt (D_isInvalidDecl D) ["is_invalid_decl"]
      ++ ["attributes"]
      ++ opt (notnull (D_getLocalCommentForDeclUncached D)) ["full_comment"] ∧
    len (tags body) = n - 1 ∧
    "previous_decl" ∉ tags body.
Proof.
  intros ND. unfold VisitDecl. cbv zeta.
  record_tac body Hw Ht.
  eexists _, body. rewrite Hw, Ht. split; [reflexivity|]. fold ND.
  split; [|split].
  - rewrite ?app_nil_r. reflexivity.
  - wf_arith.
  - intros Hin. eapply sublist_subseteq in Hin; [|wf_hi].
    revert Hin. apply (bool_decide_unpack _). by vm_compute.
Qed.

(** X6.  The records of a qualified type, a name, an attribute, a base
    specifier, a declaration name and a type are opened with exactly the
    number of fields they hold. *)
Theorem utility_records_are_exactly_sized :
  (∀ T w, ∃ n body, written (dumpQualType fmt_p Opts T) w = [AObject n body] ∧
                    len (tags body) = n) ∧
  (∀ decl w, ∃ n body, written (dumpName decl) w = [AObject n body] ∧
                       len (tags body) = n) ∧
  (∀ Att w, ∃ t n body, written (dumpAttr fmt_p Opts Att) w = [AVariant t [AObject n body]] ∧
                        len (tags body) = n) ∧
  (∀ Base w, ∃ n body, written (dumpCXXBaseSpecifier Base) w = [AObject n body] ∧
                       len (tags body) = n) ∧
  (∀ Name w, ∃ n body, written (dumpDeclarationName Name) w = [AObject n body] ∧
                       len (tags body) = n) ∧
  (∀ T w, ∃ n body, written (VisitType fmt_p Opts T) w = [AObject n body] ∧
                    len (tags body) = n).
Proof.
  repeat split.
  - intros T w. unfold dumpQualType. cbv zeta.
    record_tac body Hw Ht.
    eexists _, body. rewrite Hw, Ht. split; [reflexivity|]. wf_arith.
  - intros decl w. unfold dumpName.
    record_tac body Hw Ht.
    eexists _, body. rewrite Hw, Ht. split; [reflexivity|]. wf_arith.
  - intros Att w. unfold dumpAttr, VariantScope. rewrite written_scope. cbv zeta.
    record_tac body Hw Ht.
    eexists _, _, body. rewrite Hw, Ht. split; [reflexivity|]. wf_arith.
  - intros Base w. unfold dumpCXXBaseSpecifier. cbv zeta.
    record_tac body Hw Ht.
    eexists _, body. rewrite Hw, Ht. split; [reflexivity|]. wf_arith.
  - intros Name w. unfold dumpDeclarationName.
    destruct (DN_getNameKind Name).
    all: record_tac body Hw Ht.
    all: eexists _, body; rewrite Hw, Ht; (split; [reflexivity|]); wf_arith.
  - intros T w. unfold VisitType. cbv zeta.
    record_tac body Hw Ht.
    eexists _, body. rewrite Hw, Ht. split; [reflexivity|]. wf_arith.
Qed.

(** *** [dumpLookups] *)

Lemma C_dumpDeclRef D : values_with is_instance 1 (dumpDeclRef fmt_p Opts D).
Proof. eapply values_mono; [apply is_exact_instance_is_instance | apply V_dumpDeclRef]. Qed.

Lemma C_dumpPointer p : values_with is_instance 1 (dumpPointer fmt_p Opts p).
Proof. eapply values_mono; [apply is_exact_instance_is_instance | apply V_dumpPointer]. Qed.

(** An array opened without a size. *)
Lemma C_unsized_forM {A} (f : A → M unit) l :
  (∀ x, values_with is_instance 1 (f x)) →
  values_with is_instance 1 (ArrayScope_unsized (forM_ f l)).
Proof.
  intros Hf. apply V_scope. intros w. rewrite well_formed_with_AArray, andb_true_r.
  apply (V_forM is_instance). apply Forall_forall. intros x _. apply Hf.
Qed.

(** The record of one lookup result. *)
Lemma C_lookup I :
  values_with is_instance 1
    (ObjectScope 2 (
       emitTag "decl_name" ;;
       emitString (LU_getLookupName I) ;;
       emitTag "decl_refs" ;;
       ArrayScope_unsized (forM_ (dumpDeclRef fmt_p Opts) (LU_decls I)))).
Proof.
  eapply V_object.
  - eapply F_bind; [apply F_tag | intros _].
    eapply F_bind; [eapply F_value; [by apply V_emit | reflexivity] | intros _].
    eapply F_bind; [apply F_tag | intros _].
    eapply F_value; [|reflexivity]. apply C_unsized_forM, C_dumpDeclRef.
  - wf_ok.
Qed.

(** X18.  [dumpLookups] writes one record of the type [lookups] of the
    annotations: [decl_ref], then [primary_context_pointer] exactly when
    the context is not its own primary context, then [lookups], then
    [has_undeserialized_decls] exactly when the primary context has
    external visible storage.  The record is opened with size 4 and
    holds from two to four fields.  [lookups] is an array opened without
    a size, with one record per lookup result. *)
Theorem lookups_record (DC : DeclContext) (w : World) :
  let NotPrimary := negb (DC_getPrimaryContext DC =? DC_ptr DC) in
  ∃ body,
    written (dumpLookups fmt_p Opts DC) w = [AObject 4 body] ∧
    tags body = ["decl_ref"] ++ opt NotPrimary ["primary_context_pointer"]
                ++ ["lookups"]
                ++ opt (DC_hasExternalVisibleStorage DC) ["has_undeserialized_decls"] ∧
    conforming (AObject 4 body) = true ∧
    ∃ entries,
      field "lookups" body = Some (AArray None entries) ∧
      len entries = len (DC_noload_lookups DC).
Proof.
  intros NotPrimary. unfold dumpLookups. cbv zeta. fold NotPrimary.
  lazymatch goal with
  | |- context [written (ObjectScope 4 ?m) w] =>
      eassert (writes_fields_with is_instance false _ false m) as H
  end.
  { eapply F_bind; [apply F_tag | intros _].
    eapply F_bind; [eapply F_value; [apply C_dumpDeclRef | reflexivity] | intros _].
    eapply F_bind; [|intros _].
    { eapply F_when. eapply F_bind; [apply F_tag | intros _].
      eapply F_value; [apply C_dumpPointer | reflexivity]. }
    eapply F_bind; [apply F_tag | intros _].
    eapply F_bind; [|intros _; apply F_flag].
    eapply F_value; [|reflexivity]. apply C_unsized_forM, C_lookup. }
  destruct (object_record is_instance _ 4 _ w H) as (body & Hw & Ht).
  exists body. split; [done|]. split; [by rewrite Ht|]. split.
  - assert (values_with is_instance 1 (ObjectScope 4 _)) as HV
      by (eapply V_object; [exact H | wf_ok]).
    destruct (values_one _ _ w HV) as (a & Ha & Hc). rewrite Hw in Ha. by injection Ha as <-.
  - clear H Ht. unfold ObjectScope, ArrayScope_unsized in Hw. rewrite written_scope in Hw.
    injection Hw as <-. run.
    destruct (values_one _ _ w (C_dumpDeclRef (DC_asDecl DC))) as (r & -> & _).
    match goal with |- context [AArray None ?l] => exists l end. split.
    + destruct NotPrimary; cbn [when]; run; [rewrite written_dumpPointer|]; reflexivity.
    + apply (V_forM is_instance). apply Forall_forall. intros I _. apply C_lookup.
Qed.

(** *** The arity of types and comments *)

Lemma V_TypeVisitor_Visit_arity T c :
  values (type_tuple_components c) (TypeVisitor_Visit fmt_p Opts T c).
Proof.
  induction c; cbn [TypeVisitor_Visit type_tuple_components]; [..|done].
  all: wf_start.
Qed.

Lemma V_ConstCommentVisitor_visit_arity C c :
  values (comment_tuple_components c)
    (ConstCommentVisitor_visit fmt_p Opts (dumpComment_rec fmt_p Opts) C c).
Proof.
  pose proof V_dumpComment_rec as Hrec.
  induction c; cbn [ConstCommentVisitor_visit comment_tuple_components]; [..|done].
  all: wf_start.
Qed.

(** X19.  The tuple of a type and the tuple of a comment node are opened
    without a size, but the number of their elements depends on the class
    of the node only, and it is the number of components the annotations
    give to the tuple of that class (one for the null type, which
    [dumpType] encodes itself). *)
Theorem types_and_comments_have_the_annotated_arity :
  (∀ T w, ∃ body,
     written (dumpType fmt_p Opts T) w = [AVariant (type_entry_tag T) [ATuple None body]] ∧
     len body = from_option (λ T, type_tuple_components (T_getTypeClass T)) type_tuple T) ∧
  (∀ C w,
     let k := C_getCommentKind C in
     ∃ body,
       dumpComment fmt_p Opts (Some C) = Some (dumpComment_rec fmt_p Opts C) ∧
       written (dumpComment_rec fmt_p Opts C) w
       = [AVariant (getCommentKindName k) [ATuple None body]] ∧
       len body = comment_tuple_components k).
Proof.
  split.
  - intros T w. unfold dumpType, VariantScope, TupleScope_unsized. rewrite !written_scope.
    eexists. split; [reflexivity|]. destruct T as [T|]; cbn [from_option].
    + apply V_TypeVisitor_Visit_arity.
    + apply (V_VisitType None).
  - intros C w k. eexists. split; [reflexivity|].
    assert (∀ C, dumpComment_rec fmt_p Opts C
            = dumpComment_body fmt_p Opts (dumpComment_rec fmt_p Opts) C) as ->
      by (by intros []).
    unfold dumpComment_body, VariantScope, TupleScope_unsized. rewrite !written_scope.
    split; [reflexivity|].
    apply V_ConstCommentVisitor_visit_arity.
Qed.

(** *** Declarations and statements, given their children *)

Variable dD : Decl → M unit.
Variable dS : Stmt → M unit.
Variable nD nS : M unit.
Hypothesis V_nD : values 1 nD.
Hypothesis V_nS : values 1 nS.

Lemma V_dumpDecl o :
  opt_all (λ D, values 1 (dD D)) o → values 1 (dumpDecl dD nD o).
Proof. destruct o; [by rewrite opt_all_Some | intros _; apply V_nD]. Qed.

Lemma V_dumpStmt o :
  opt_all (λ Node, values 1 (dS Node)) o → values 1 (dumpStmt dS nS o).
Proof. destruct o; [by rewrite opt_all_Some | intros _; apply V_nS]. Qed.

Lemma V_VisitDeclContext DC :
  Forall (λ D, values 1 (dD D)) (D_decls DC) →
  values 2 (VisitDeclContext Opts dD nD (Some DC)).
Proof.
  intros Hd. unfold VisitDeclContext. eapply V_cast.
  - eapply V_bind; [apply V_forM_0; intros I; unfold consult; wf_tac | intros _].
    cbv zeta. eapply V_bind; [|intros _; wf_tac].
    eapply V_array; [|reflexivity].
    apply (V_forM_filter _ (shouldDump Opts) (λ I, dumpDecl dD nD (Some I))).
    eapply Forall_impl; [exact Hd|]. intros I HI. by apply V_dumpDecl, opt_all_Some.
  - reflexivity.
Qed.

Ltac wf_hook ::=
  lazymatch goal with
  | |- values _ (dumpDecl _ _ _) => apply V_dumpDecl; wf_child
  | |- values _ (dumpStmt _ _ _) => apply V_dumpStmt; wf_child
  | |- values _ (VisitDeclContext _ _ _ (Some _)) => apply V_VisitDeclContext; assumption
  end.

Lemma V_VisitNamedDecl D : values 2 (VisitNamedDecl fmt_p Opts D).
Proof. wf_start. Qed.
#[local] Hint Resolve V_VisitNamedDecl : wf.

Lemma V_VisitValueDecl D : values 3 (VisitValueDecl fmt_p Opts D).
Proof. wf_start. Qed.
#[local] Hint Resolve V_VisitValueDecl : wf.

Lemma V_VisitTypeDecl D : values 4 (VisitTypeDecl fmt_p Opts D).
Proof. wf_start. Qed.
#[local] Hint Resolve V_VisitTypeDecl : wf.

Lemma V_VisitTagDecl D :
  Forall (λ D, values 1 (dD D)) (D_decls D) →
  values 6 (VisitTagDecl fmt_p Opts dD nD D).
Proof. intros H. wf_start. Qed.
#[local] Hint Resolve V_VisitTagDecl : wf.

Lemma V_VisitRecordDecl D :
  Forall (λ D, values 1 (dD D)) (D_decls D) →
  values 7 (VisitRecordDecl fmt_p Opts dD nD D).
Proof. intros H. wf_start. Qed.
#[local] Hint Resolve V_VisitRecordDecl : wf.

Lemma V_VisitObjCContainerDecl D :
  Forall (λ D, values 1 (dD D)) (D_decls D) →
  values 4 (VisitObjCContainerDecl fmt_p Opts dD nD D).
Proof. intros H. wf_start. Qed.
#[local] Hint Resolve V_VisitObjCContainerDecl : wf.

Lemma V_VisitFieldDecl D :
  opt_all (λ Node, values 1 (dS Node)) (D_getBitWidth D) →
  opt_all (λ Node, values 1 (dS Node)) (D_getInClassInitializer D) →
  values 4 (VisitFieldDecl fmt_p Opts dS nS D).
Proof. intros H1 H2. wf_start. Qed.
#[local] Hint Resolve V_VisitFieldDecl : wf.

Lemma V_VisitStmt Node :
  Forall (opt_all (λ Node, values 1 (dS Node))) (S_children Node) →
  values 2 (VisitStmt fmt_p Opts dS nS Node).
Proof. intros H. wf_start. Qed.
#[local] Hint Resolve V_VisitStmt : wf.

Lemma V_VisitExpr Node :
  Forall (opt_all (λ Node, values 1 (dS Node))) (S_children Node) →
  values 3 (VisitExpr fmt_p Opts dS nS Node).
Proof. intros H. wf_start. Qed.
#[local] Hint Resolve V_VisitExpr : wf.

Lemma V_VisitCastExpr Node :
  Forall (opt_all (λ Node, values 1 (dS Node))) (S_children Node) →
  values 4 (VisitCastExpr fmt_p Opts dS nS Node).
Proof. intros H. wf_start. Qed.
#[local] Hint Resolve V_VisitCastExpr : wf.

Lemma V_VisitExplicitCastExpr Node :
  Forall (opt_all (λ Node, values 1 (dS Node))) (S_children Node) →
  values 5 (VisitExplicitCastExpr fmt_p Opts dS nS Node).
Proof. intros H. wf_start. Qed.
#[local] Hint Resolve V_VisitExplicitCastExpr : wf.

Lemma V_VisitBinaryOperator Node :
  Forall (opt_all (λ Node, values 1 (dS Node))) (S_children Node) →
  values 4 (VisitBinaryOperator fmt_p Opts dS nS Node).
Proof. intros H. wf_start. Qed.
#[local] Hint Resolve V_VisitBinaryOperator : wf.

Lemma V_VisitOverloadExpr Node :
  Forall (opt_all (λ Node, values 1 (dS Node))) (S_children Node) →
  values 4 (VisitOverloadExpr fmt_p Opts dS nS Node).
Proof. intros H. wf_start. Qed.
#[local] Hint Resolve V_VisitOverloadExpr : wf.

(** [IsDefinitionFound] is set only together with [m_decl]. *)
Lemma V_VisitObjCMessageExpr Node :
  Forall (opt_all (λ Node, values 1 (dS Node))) (S_children Node) →
  values 4 (VisitObjCMessageExpr fmt_p Opts dS nS Node).
Proof.
  intros H. unfold VisitObjCMessageExpr.
  destruct (S_getReceiverInterface Node);
    [destruct (notnullptr (S_lookupPrivateMethod Node)) eqn:E|];
    cbv beta iota zeta; rewrite ?E; change (notnullptr nullptr) with false.
  all: wf_start.
Qed.
#[local] Hint Resolve V_VisitObjCMessageExpr : wf.

Lemma V_Visit_Decl D c :
  Decl_children (λ D, values 1 (dD D)) (λ Node, values 1 (dS Node)) D →
  values (tupleSizeOfDeclKind c) (ConstDeclVisitor_Visit fmt_p Opts Context dD dS nD nS D c).
Proof.
  intros (Hdecls & Hinitexpr & Hinits & Hbody & Hproto & Hparams & Hbw & Hici & Hinit & Hcap).
  induction c; cbn [ConstDeclVisitor_Visit tupleSizeOfDeclKind]; [..|done].
  all: wf_start.
Qed.

Lemma V_Visit_Stmt Node c :
  Stmt_children (λ D, values 1 (dD D)) (λ Node, values 1 (dS Node)) Node →
  values (tupleSizeOfStmtClass c) (ConstStmtVisitor_Visit fmt_p Opts dD dS nD nS Node c).
Proof.
  intros (Hchildren & Hdecls & Hexc & Hblock & Hlambda & Hsrc & Hsub & Hcatch).
  induction c; cbn [ConstStmtVisitor_Visit tupleSizeOfStmtClass]; [..|done].
  all: wf_start.
Qed.

End WellFormed.

Section WellFormedOutput.
Variable fmt_p : ptr → string.
Variable Opts : ASTExporterOptions.
Variable Context : ASTContext.

Lemma V_dumpNullDecl : values 1 (dumpNullDecl fmt_p Opts Context).
Proof.
  rewrite dumpNullDecl_unfold. apply (V_bind _ 0 1); [apply V_get | intros w0].
  eapply V_variant; [|reflexivity]. eapply V_tuple; [apply V_VisitDecl | reflexivity].
Qed.

Lemma V_dumpNullStmt : values 1 (dumpNullStmt fmt_p Opts Context).
Proof.
  rewrite (dumpNullStmt_unfold fmt_p Opts Context (λ _, mret tt) (mret tt)).
  apply (V_bind _ 0 1); [apply V_get | intros w0].
  eapply V_variant; [|reflexivity]. eapply V_tuple; [|reflexivity].
  unfold VisitStmt. eapply V_cast.
  - eapply V_bind; [|intros _].
    + eapply V_object.
      * eapply F_bind; [apply F_tag | intros _].
        eapply F_bind; [eapply F_value; [apply V_dumpPointer | reflexivity] | intros _].
        eapply F_bind; [apply F_tag | intros _].
        eapply F_value; [apply V_dumpSourceRange | reflexivity].
      * wf_ok.
    + eapply V_array; [apply V_ret | reflexivity].
  - reflexivity.
Qed.

Lemma V_dump_rec :
  (∀ D, values 1 (dumpDecl_rec fmt_p Opts Context
                    (dumpNullDecl fmt_p Opts Context) (dumpNullStmt fmt_p Opts Context) D)) ∧
  (∀ Node, values 1 (dumpStmt_rec fmt_p Opts Context
                       (dumpNullDecl fmt_p Opts Context) (dumpNullStmt fmt_p Opts Context) Node)).
Proof.
  apply Decl_Stmt_ind.
  - intros D IH. rewrite dumpDecl_rec_unfold. unfold dumpDecl_body.
    eapply V_variant; [|reflexivity]. eapply V_tuple; [|reflexivity].
    apply V_Visit_Decl; [apply V_dumpNullDecl | apply V_dumpNullStmt | exact IH].
  - intros Node IH. rewrite dumpStmt_rec_unfold. unfold dumpStmt_body.
    eapply V_variant; [|reflexivity]. eapply V_tuple; [|reflexivity].
    apply V_Visit_Stmt; [apply V_dumpNullDecl | apply V_dumpNullStmt | exact IH].
Qed.

Lemma V_ASTExporter_dumpDecl D : values 1 (ASTExporter_dumpDecl fmt_p Opts Context D).
Proof. destruct D; [apply V_dump_rec | apply V_dumpNullDecl]. Qed.

Lemma V_ASTExporter_dumpStmt St : values 1 (ASTExporter_dumpStmt fmt_p Opts Context St).
Proof. destruct St; [apply V_dump_rec | apply V_dumpNullStmt]. Qed.

Lemma exactly_sized_one {A} (m : M A) w :
  values 1 m → ∃ a, written m w = [a] ∧ exactly_sized a = true.
Proof. apply values_one. Qed.

Lemma conforming_one {A} (m : M A) w :
  values 1 m → ∃ a, written m w = [a] ∧ conforming a = true.
Proof.
  intros Hm. apply values_one.
  eapply values_mono; [apply is_exact_instance_is_instance | exact Hm].
Qed.

Lemma well_formed_one {A} (m : M A) w :
  values 1 m → ∃ a, written m w = [a] ∧ well_formed a = true.
Proof.
  intros Hm. destruct (conforming_one m w Hm) as (a & Ha & Hc).
  exists a. split; [done|]. by apply conforming_well_formed.
Qed.

(** X1.  Whatever the tree and the state, [dumpDecl], [dumpStmt] and a
    whole export write one value, and that value is well formed at every
    depth: tags occur only inside objects and alternate with values, no
    object holds more fields than the size it was opened with or holds
    the same tag twice, every array and every sized tuple holds exactly
    the declared number of values, and every variant wraps one value. *)
Theorem output_is_well_formed :
  (∀ D w, ∃ a, written (ASTExporter_dumpDecl fmt_p Opts Context D) w = [a] ∧
               well_formed a = true) ∧
  (∀ St w, ∃ a, written (ASTExporter_dumpStmt fmt_p Opts Context St) w = [a] ∧
                well_formed a = true) ∧
  (∀ TU w, ∃ a, written (export_run fmt_p Opts Context TU) w = [a] ∧
                well_formed a = true).
Proof.
  split; [|split].
  - intros D w. apply well_formed_one, V_ASTExporter_dumpDecl.
  - intros St w. apply well_formed_one, V_ASTExporter_dumpStmt.
  - intros TU w. apply (well_formed_one _ (ASTExporter_ctor Context w)), V_ASTExporter_dumpDecl.
Qed.

(** X2.  A type, null or not, and a comment node are each written as one
    well-formed value; so is the full comment of a declaration. *)
Theorem types_and_comments_are_well_formed :
  (∀ T w, ∃ a, written (dumpType fmt_p Opts T) w = [a] ∧ well_formed a = true) ∧
  (∀ C w, ∃ a, written (dumpComment_rec fmt_p Opts C) w = [a] ∧
               well_formed a = true) ∧
  (∀ C w, ∃ a, written (dumpFullComment fmt_p Opts C) w = [a] ∧
               well_formed a = true).
Proof.
  split; [|split].
  - intros T w. apply well_formed_one, V_dumpType.
  - intros C w. apply well_formed_one, V_dumpComment_rec.
  - intros C w. apply well_formed_one, V_dumpFullComment.
Qed.

(** X3.  Every record written, at any depth of the encoding of a
    declaration, statement, type or comment node, is an instance of one of the
    record types declared in the ATD annotations of the file: each of
    its tags is a field of that type, no tag occurs twice, and every
    field of the type that is neither optional nor defaulted is
    present. *)
Theorem records_are_instances_of_the_annotated_types :
  (∀ D w, ∃ a, written (ASTExporter_dumpDecl fmt_p Opts Context D) w = [a] ∧
               conforming a = true) ∧
  (∀ St w, ∃ a, written (ASTExporter_dumpStmt fmt_p Opts Context St) w = [a] ∧
                conforming a = true) ∧
  (∀ T w, ∃ a, written (dumpType fmt_p Opts T) w = [a] ∧ conforming a = true) ∧
  (∀ C w, ∃ a, written (dumpComment_rec fmt_p Opts C) w = [a] ∧
               conforming a = true).
Proof.
  split; [|split; [|split]].
  - intros D w. apply conforming_one, V_ASTExporter_dumpDecl.
  - intros St w. apply conforming_one, V_ASTExporter_dumpStmt.
  - intros T w. apply conforming_one, V_dumpType.
  - intros C w. apply conforming_one, V_dumpComment_rec.
Qed.

(** X21.  Every record written, at any depth of the encoding of a
    declaration, statement, type or comment node, holds exactly as many fields
    as the size it was opened with, unless it is an instance of one of
    six record types: [decl_info], [function_decl_info], [var_decl_info],
    [obj_c_ivar_decl_info], [overload_expr_info] and
    [nested_name_specifier_loc], which may hold fewer. *)
Theorem records_are_exactly_sized_but_for_six_types :
  (∀ D w, ∃ a, written (ASTExporter_dumpDecl fmt_p Opts Context D) w = [a] ∧
               exactly_sized a = true) ∧
  (∀ St w, ∃ a, written (ASTExporter_dumpStmt fmt_p Opts Context St) w = [a] ∧
                exactly_sized a = true) ∧
  (∀ T w, ∃ a, written (dumpType fmt_p Opts T) w = [a] ∧ exactly_sized a = true) ∧
  (∀ C w, ∃ a, written (dumpComment_rec fmt_p Opts C) w = [a] ∧
               exactly_sized a = true).
Proof.
  split; [|split; [|split]].
  - intros D w. apply exactly_sized_one, V_ASTExporter_dumpDecl.
  - intros St w. apply exactly_sized_one, V_ASTExporter_dumpStmt.
  - intros T w. apply exactly_sized_one, V_dumpType.
  - intros C w. apply exactly_sized_one, V_dumpComment_rec.
Qed.
End WellFormedOutput.

(** ** More on source locations *)

Section Locations.
Variable Opts : ASTExporterOptions.
Variable Context : ASTContext.

Lemma written_dumpSourceRange R w :
  written (dumpSourceRange Opts R) w =
  [ATuple (Some 2)
     (written (dumpSourceLocation Opts (getBegin R)) w ++
      written (dumpSourceLocation Opts (getEnd R))
        (state_after (dumpSourceLocation Opts (getBegin R)) w))].
Proof. unfold dumpSourceRange, TupleScope. by rewrite written_scope, written_bind. Qed.

(** X7.  The two ends of a range share the compression state: when both
    are valid and in the same file, the end is written without its file,
    and without its line too when the range stays on one line, whatever
    was encoded before; when the beginning is invalid, the end is encoded
    as it would be on its own.  The state left is that of the end. *)
Theorem range_end_is_relative_to_its_beginning :
  (∀ f l c l' c' w,
     let R := {| getBegin := PLocValid f l c; getEnd := PLocValid f l' c' |} in
     ∃ r, written (dumpSourceRange Opts R) w =
            [ATuple (Some 2)
               [r; if decide (l' = l) then record_column c'
                   else record_line_column l' c']] ∧
          state_after (dumpSourceRange Opts R) w = set_LastLoc f l' w) ∧
  (∀ e w,
     let R := {| getBegin := PLocInvalid; getEnd := e |} in
     written (dumpSourceRange Opts R) w =
       [ATuple (Some 2) (record_empty :: written (dumpSourceLocation Opts e) w)] ∧
     state_after (dumpSourceRange Opts R) w = state_after (dumpSourceLocation Opts e) w).
Proof.
  split.
  - intros f l c l' c' w R. rewrite written_dumpSourceRange.
    unfold dumpSourceRange, TupleScope. rewrite state_after_scope, state_after_bind.
    cbn [getBegin getEnd R].
    destruct (dumpSourceLocation_valid Opts f l c w) as [-> ->].
    destruct (dumpSourceLocation_valid Opts f l' c' (set_LastLoc f l w)) as [-> ->].
    cbn [LastLocFilename LastLocLine set_LastLoc].
    destruct (decide (f = f)) as [_|]; [|done]. eexists. split; reflexivity.
  - intros e w R. rewrite written_dumpSourceRange.
    unfold dumpSourceRange, TupleScope. rewrite state_after_scope, state_after_bind.
    cbn [getBegin getEnd R].
    by destruct (dumpSourceLocation_invalid Opts w) as [-> ->].
Qed.

(** X8.  What the compressor remembers after any sequence of positions
    is the file and the line of the last valid one, and what it had before
    when none is valid: an invalid position leaves it as it is.  Encoding
    positions never touches the identity table, the comment in progress
    or the log of the membership service. *)
Theorem compressor_remembers_the_last_valid_position (ps : list PresumedLoc) (w : World) :
  let w' := state_after (forM_ (dumpSourceLocation Opts) ps) w in
  (LastLocFilename w', LastLocLine w')
    = default (LastLocFilename w, LastLocLine w) (last_valid ps) ∧
  pointerMap w' = pointerMap w ∧ pointerCounter w' = pointerCounter w ∧
  FC w' = FC w ∧ consulted w' = consulted w.
Proof.
  induction ps as [|p ps IH] using rev_ind; [done|].
  cbv zeta in *. rewrite state_after_forM_snoc, last_valid_app.
  destruct IH as (IH1 & IH2 & IH3 & IH4 & IH5).
  destruct p as [|f l c].
  - by destruct (dumpSourceLocation_invalid Opts
                   (state_after (forM_ (dumpSourceLocation Opts) ps) w)) as [_ ->].
  - by destruct (dumpSourceLocation_valid Opts f l c
                   (state_after (forM_ (dumpSourceLocation Opts) ps) w)) as [_ ->].
Qed.

(** X9.  The first position an exporter encodes is written in full when
    its file name is not empty.  A valid position with an empty file name
    is taken to be in the file of the initial state: its record has no
    file, and no line either when its line is [~0U]. *)
Theorem first_position_of_an_exporter (f : string) (l c : Z) (w : World) :
  written (dumpSourceLocation Opts (PLocValid f l c)) (ASTExporter_ctor Context w) =
  [if decide (f = "") then
     if decide (l = UINT_MAX) then record_column c else record_line_column l c
   else record_file_line_column (normalizeSourcePath Opts f) l c].
Proof.
  by destruct (dumpSourceLocation_valid Opts f l c (ASTExporter_ctor Context w)) as [-> _].
Qed.

End Locations.

(** ** More on qualified names *)

Section SplitAndJoin.

Lemma separator_free_cons c s :
  separator_free (String c s) ↔
  String.prefix "::" (String c s) = false ∧ separator_free s.
Proof.
  unfold separator_free. rewrite index_0_cons.
  destruct (String.prefix "::" (String c s)).
  - split; [done | by intros [? _]].
  - destruct (String.index 0 "::" s); cbn; split; try done. by intros [_ ?].
Qed.

Lemma separator_free_1 c : separator_free (String c "").
Proof. apply separator_free_cons. by rewrite prefix_colons_1. Qed.

Lemma separator_free_prefix a : ∀ b, separator_free (a +:+ b) → separator_free a.
Proof.
  induction a as [|x a IH]; intros b; [done|].
  cbn [String.append]. intros [Hp Hf]%separator_free_cons.
  apply separator_free_cons. split; [|by eapply IH].
  destruct a as [|y a]; [apply prefix_colons_1|].
  cbn [String.append] in Hp. by rewrite prefix_colons in *.
Qed.

Lemma separator_free_snoc a : ∀ c c',
  separator_free (a +:+ String c "") →
  Ascii.eqb c colon && Ascii.eqb c' colon = false →
  separator_free (a +:+ String c (String c' "")).
Proof.
  induction a as [|x a IH]; intros c c' Hf Hc.
  - cbn [String.append]. apply separator_free_cons.
    rewrite prefix_colons. split; [done | apply separator_free_1].
  - cbn [String.append] in *. apply separator_free_cons in Hf as [Hp Hf].
    apply separator_free_cons. split; [|by apply IH].
    destruct a as [|y a]; cbn [String.append] in *; by rewrite prefix_colons in *.
Qed.

Lemma components_from_separator_free s : ∀ cur,
  separator_free (cur +:+ match s with String c _ => String c "" | _ => "" end) →
  Forall separator_free (components_from cur s).
Proof.
  remember (String.length s) as n eqn:Hn. revert s Hn.
  induction (lt_wf n) as [n _ IH]; intros s -> cur Hcur.
  destruct s as [|c [|c' rest]].
  - cbn. rewrite append_empty_r in Hcur. by constructor.
  - cbn. by constructor.
  - rewrite components_from_cons2.
    destruct (Ascii.eqb c colon && Ascii.eqb c' colon) eqn:Hcc.
    + constructor; [by eapply separator_free_prefix|].
      eapply (IH (String.length rest)); [cbn [String.length]; lia | done |].
      destruct rest; [done | apply separator_free_1].
    + eapply (IH (String.length (String c' rest))); [cbn [String.length]; lia | done |].
      rewrite append_cons. by apply separator_free_snoc.
Qed.

(** X10.  The loop of [dumpName] always ends, with at least one
    component, and the array it fills is the qualified name cut at its
    separators and reversed: joined again with ["::"] in the opposite
    order, its elements give the qualified name back. *)
Theorem qualified_name_round_trip (decl : DeclRef) (w : World) :
  ∃ comps,
    split_qualName (DR_getQualifiedNameAsString decl) = Some (rev comps) ∧
    written (dumpName decl) w =
      [AObject 2 [ATag "name"; AString (DR_getNameAsString decl);
                  ATag "qual_name";
                  AArray (Some (len comps)) (AString <$> comps)]] ∧
    comps ≠ [] ∧
    String.concat "::" (rev comps) = DR_getQualifiedNameAsString decl.
Proof.
  exists (rev (components (DR_getQualifiedNameAsString decl))).
  rewrite rev_involutive. split; [apply split_qualName_components|]. split; [|split].
  - unfold dumpName. rewrite split_qualName_components. cbn [default from_option id].
    unfold ObjectScope, ArrayScope. run.
    destruct (forM_emitString (rev (components (DR_getQualifiedNameAsString decl))) w)
      as [-> _].
    unfold len. by rewrite length_rev.
  - intros H. apply (f_equal (@rev _)) in H. rewrite rev_involutive in H.
    by apply components_from_not_nil in H.
  - apply (concat_components_from _ "").
Qed.

(** X11.  No component of a qualified name holds a separator: the name
    is cut at every ["::"], read from the left. *)
Theorem components_hold_no_separator (qualName : string) :
  ∃ splitted,
    split_qualName qualName = Some splitted ∧
    Forall separator_free splitted.
Proof.
  exists (components qualName). split; [apply split_qualName_components|].
  apply components_from_separator_free.
  destruct qualName; [done | apply separator_free_1].
Qed.
End SplitAndJoin.

(** ** The state changes in four ways only *)

Section Updates.
Variable fmt_p : ptr → string.
Variable Opts : ASTExporterOptions.
Variable Context : ASTContext.

Lemma updates_refl w : updates Opts w w.
Proof. apply rtc_refl. Qed.

Lemma updates_once w w' : update Opts w w' → updates Opts w w'.
Proof. apply rtc_once. Qed.

Lemma U_ret {A} (a : A) : only_updates Opts (mret a).
Proof. intros w. apply updates_refl. Qed.

Lemma U_bind {A B} (m : M A) (f : A → M B) :
  only_updates Opts m → (∀ a, only_updates Opts (f a)) → only_updates Opts (m ≫= f).
Proof.
  intros Hm Hf w. rewrite state_after_bind.
  eapply rtc_trans; [apply Hm | apply Hf].
Qed.

Lemma U_emit x : only_updates Opts (emit x).
Proof. intros w. apply updates_refl. Qed.

Lemma U_get : only_updates Opts get.
Proof. intros w. apply updates_refl. Qed.

Lemma U_scope {A} wrap (m : M A) : only_updates Opts m → only_updates Opts (scope wrap m).
Proof. intros Hm w. rewrite state_after_scope. apply Hm. Qed.

Lemma U_emitFlag t b : only_updates Opts (emitFlag t b).
Proof. destruct b; intros w; apply updates_refl. Qed.

Lemma U_when b m : only_updates Opts m → only_updates Opts (when b m).
Proof. destruct b; [done | intros _; apply U_ret]. Qed.

Lemma U_whenSome {A} (o : option A) f :
  opt_all (λ x, only_updates Opts (f x)) o → only_updates Opts (whenSome o f).
Proof. destruct o; [by rewrite opt_all_Some | intros _; apply U_ret]. Qed.

Lemma U_forM {A} (f : A → M unit) l :
  Forall (λ x, only_updates Opts (f x)) l → only_updates Opts (forM_ f l).
Proof.
  induction 1 as [|x l Hx Hl IH]; [apply U_ret|].
  change (forM_ f (x :: l)) with (f x ;; forM_ f l). by apply U_bind.
Qed.

(** The places where the state changes. *)
Lemma U_dumpPointer p : only_updates Opts (dumpPointer fmt_p Opts p).
Proof.
  intros w. unfold dumpPointer. destruct (withPointers Opts) eqn:Hwp.
  - destruct (writePointer_raw fmt_p p w) as [_ ->]. apply updates_refl.
  - destruct (pointerMap w !! p) as [v|] eqn:Hp.
    + destruct (writePointer_seen fmt_p p v w Hp) as [_ ->]. apply updates_refl.
    + destruct (writePointer_fresh fmt_p p w Hp) as [_ ->].
      by apply updates_once, update_pointer.
Qed.

Lemma U_dumpSourceLocation Loc : only_updates Opts (dumpSourceLocation Opts Loc).
Proof.
  intros w. destruct Loc as [|f l c].
  - destruct (dumpSourceLocation_invalid Opts w) as [_ ->]. apply updates_refl.
  - destruct (dumpSourceLocation_valid Opts f l c w) as [_ ->].
    apply updates_once, update_LastLoc.
Qed.

Lemma U_set_FC C : only_updates Opts (modify (set_FC C)).
Proof. intros w. apply updates_once, update_FC. Qed.

Lemma U_consult I : only_updates Opts (consult Opts I).
Proof.
  unfold consult. destruct (deduplicationService Opts) eqn:Hs; [|apply U_ret].
  intros w. apply updates_once, update_consulted. by rewrite Hs.
Qed.

Create HintDb upd discriminated.
#[local] Hint Resolve U_dumpPointer U_dumpSourceLocation U_set_FC U_consult
  U_get U_emitFlag : upd.

Ltac upd_child :=
  first [ assumption
        | apply opt_all_Some; assumption
        | match goal with
          | E : ?t = Some _, H : opt_all _ ?t |- _ => rewrite E in H; exact H
          end
        | lazymatch goal with
          | |- opt_all _ None => apply opt_all_None
          | |- opt_all _ (Some _) => apply opt_all_Some; assumption
          end ].

Ltac upd_hook := fail.

Ltac upd_step := first [ upd_hook | upd_rule ]
with upd_rule :=
  lazymatch goal with
  | |- only_updates _ (_ ≫= _) => apply U_bind; [|intros ?]
  | |- only_updates _ (mret _) => apply U_ret
  | |- only_updates _ (ObjectScope _ _) => apply U_scope
  | |- only_updates _ (ArrayScope _ _) => apply U_scope
  | |- only_updates _ (VariantScope _ _) => apply U_scope
  | |- only_updates _ (TupleScope_unsized _) => apply U_scope
  | |- only_updates _ (TupleScope _ _) => apply U_scope
  | |- only_updates _ (emitTag _) => apply U_emit
  | |- only_updates _ (emitString _) => apply U_emit
  | |- only_updates _ (emitInteger _) => apply U_emit
  | |- only_updates _ (emitBoolean _) => apply U_emit
  | |- only_updates _ (emitSimpleVariant _) => apply U_emit
  | |- only_updates _ (when _ _) => apply U_when
  | |- only_updates _ (whenSome _ _) =>
      apply U_whenSome;
      first [ eapply opt_all_impl; [eassumption | cbv beta; intros ? ?]
            | apply opt_all_intro; intros ? ]
  | |- only_updates _ (forM_ _ _) =>
      apply U_forM;
      first [ eapply Forall_impl; [eassumption | cbv beta; intros ? ?]
            | apply Forall_forall; intros ? _ ]
  | |- only_updates _ (match ?x with _ => _ end) => destruct x eqn:?
  | |- only_updates _ ?m =>
      first [ solve [auto 2 with upd nocore]
            | let h := head_of m in progress unfold h
            | progress cbv beta zeta ]
  end.
Ltac upd_tac := repeat upd_step.

Lemma U_dumpSourceRange R : only_updates Opts (dumpSourceRange Opts R).
Proof. upd_tac. Qed.
#[local] Hint Resolve U_dumpSourceRange : upd.

Lemma U_dumpQualType T : only_updates Opts (dumpQualType fmt_p Opts T).
Proof. upd_tac. Qed.
#[local] Hint Resolve U_dumpQualType : upd.

Lemma U_dumpName decl : only_updates Opts (dumpName decl).
Proof. upd_tac. Qed.
#[local] Hint Resolve U_dumpName : upd.

Lemma U_dumpDeclRef D : only_updates Opts (dumpDeclRef fmt_p Opts D).
Proof. upd_tac. Qed.
#[local] Hint Resolve U_dumpDeclRef : upd.

Lemma U_dumpAttr Att : only_updates Opts (dumpAttr fmt_p Opts Att).
Proof. upd_tac. Qed.
#[local] Hint Resolve U_dumpAttr : upd.

Lemma U_VisitType T : only_updates Opts (VisitType fmt_p Opts T).
Proof. upd_tac. Qed.
#[local] Hint Resolve U_VisitType : upd.

Lemma U_dumpType T : only_updates Opts (dumpType fmt_p Opts T).
Proof.
  unfold dumpType. do 2 apply U_scope.
  destruct T as [T|]; [|upd_tac].
  induction (T_getTypeClass T); cbn [TypeVisitor_Visit]; [upd_tac..|done].
Qed.
#[local] Hint Resolve U_dumpType : upd.

Lemma U_dumpComment_rec C : only_updates Opts (dumpComment_rec fmt_p Opts C).
Proof.
  induction C as [C IH] using Comment_children_ind.
  assert (dumpComment_rec fmt_p Opts C
          = dumpComment_body fmt_p Opts (dumpComment_rec fmt_p Opts) C) as ->
    by (by destruct C).
  unfold dumpComment_body. do 2 apply U_scope.
  induction (C_getCommentKind C); cbn [ConstCommentVisitor_visit]; [upd_tac..|done].
Qed.

Lemma U_dumpFullComment C : only_updates Opts (dumpFullComment fmt_p Opts C).
Proof.
  unfold dumpFullComment.
  repeat (apply U_bind; [|intros ?]); auto using U_set_FC, U_dumpComment_rec.
Qed.
#[local] Hint Resolve U_dumpFullComment : upd.

Lemma U_VisitDecl D : only_updates Opts (VisitDecl fmt_p Opts D).
Proof. upd_tac. Qed.
#[local] Hint Resolve U_VisitDecl : upd.

Lemma U_VisitNamedDecl D : only_updates Opts (VisitNamedDecl fmt_p Opts D).
Proof. upd_tac. Qed.
#[local] Hint Resolve U_VisitNamedDecl : upd.

Lemma U_VisitValueDecl D : only_updates Opts (VisitValueDecl fmt_p Opts D).
Proof. upd_tac. Qed.
#[local] Hint Resolve U_VisitValueDecl : upd.

Lemma U_VisitTypeDecl D : only_updates Opts (VisitTypeDecl fmt_p Opts D).
Proof. upd_tac. Qed.
#[local] Hint Resolve U_VisitTypeDecl : upd.

Lemma updates_later w w' : updates Opts w w' → later w w'.
Proof.
  intros Hu. unfold updates in Hu. revert w' Hu.
  apply rtc_ind_r; [unfold later; reflexivity | intros y z _ Hyz IH].
  unfold later in *. etrans; [exact IH|].
  destruct Hyz as [p y' Hwp Hp|f l y'|C y'|D y' Hs]; [|done..].
  by apply insert_subseteq.
Qed.

Lemma A_here p : after fmt_p Opts p (dumpPointer fmt_p Opts p).
Proof. intros w. unfold later. reflexivity. Qed.

Lemma A_then {A B} p (m : M A) (k : A → M B) :
  after fmt_p Opts p m → (∀ a, only_updates Opts (k a)) → after fmt_p Opts p (m ≫= k).
Proof.
  intros Hm Hk w. rewrite state_after_bind. unfold later.
  etrans; [apply Hm | apply updates_later, Hk].
Qed.

Lemma A_skip {A B} p (m : M A) (k : A → M B) :
  (∀ w, state_after m w = w) → (∀ a, after fmt_p Opts p (k a)) →
  after fmt_p Opts p (m ≫= k).
Proof. intros Hm Hk w. rewrite state_after_bind, Hm. apply Hk. Qed.

Lemma A_scope {A} p wrap (m : M A) :
  after fmt_p Opts p m → after fmt_p Opts p (scope wrap m).
Proof. intros Hm w. rewrite state_after_scope. apply Hm. Qed.

Section Children.
Variable dD : Decl → M unit.
Variable dS : Stmt → M unit.
Variable nD nS : M unit.
Hypothesis U_nD : only_updates Opts nD.
Hypothesis U_nS : only_updates Opts nS.

Lemma U_dumpDecl o :
  opt_all (λ D, only_updates Opts (dD D)) o → only_updates Opts (dumpDecl dD nD o).
Proof. destruct o; [by rewrite opt_all_Some | intros _; apply U_nD]. Qed.

Lemma U_dumpStmt o :
  opt_all (λ Node, only_updates Opts (dS Node)) o → only_updates Opts (dumpStmt dS nS o).
Proof. destruct o; [by rewrite opt_all_Some | intros _; apply U_nS]. Qed.

Ltac upd_hook ::=
  lazymatch goal with
  | |- only_updates _ (dumpDecl _ _ _) => apply U_dumpDecl; upd_child
  | |- only_updates _ (dumpStmt _ _ _) => apply U_dumpStmt; upd_child
  end.

Lemma U_VisitDeclContext DC :
  Forall (λ D, only_updates Opts (dD D)) (D_decls DC) →
  only_updates Opts (VisitDeclContext Opts dD nD (Some DC)).
Proof. intros Hd. unfold VisitDeclContext. upd_tac. Qed.

Lemma U_VisitStmt Node :
  Forall (opt_all (λ Node, only_updates Opts (dS Node))) (S_children Node) →
  only_updates Opts (VisitStmt fmt_p Opts dS nS Node).
Proof. intros H. unfold VisitStmt. upd_tac. Qed.
#[local] Hint Resolve U_VisitStmt : upd.

Lemma U_VisitExpr Node :
  Forall (opt_all (λ Node, only_updates Opts (dS Node))) (S_children Node) →
  only_updates Opts (VisitExpr fmt_p Opts dS nS Node).
Proof. intros H. unfold VisitExpr. upd_tac. Qed.
#[local] Hint Resolve U_VisitExpr : upd.

Lemma U_VisitCastExpr Node :
  Forall (opt_all (λ Node, only_updates Opts (dS Node))) (S_children Node) →
  only_updates Opts (VisitCastExpr fmt_p Opts dS nS Node).
Proof. intros H. unfold VisitCastExpr. upd_tac. Qed.
#[local] Hint Resolve U_VisitCastExpr : upd.

Lemma U_Visit_Decl D c :
  Decl_children (λ D, only_updates Opts (dD D)) (λ Node, only_updates Opts (dS Node)) D →
  only_updates Opts (ConstDeclVisitor_Visit fmt_p Opts Context dD dS nD nS D c).
Proof.
  intros (Hdecls & Hinitexpr & Hinits & Hbody & Hproto & Hparams & Hbw & Hici & Hinit & Hcap).
  pose proof (U_VisitDeclContext D Hdecls) as HDC.
  induction c; cbn [ConstDeclVisitor_Visit]; [..|done].
  all: upd_tac.
Qed.

Lemma U_Visit_Stmt Node c :
  Stmt_children (λ D, only_updates Opts (dD D)) (λ Node, only_updates Opts (dS Node)) Node →
  only_updates Opts (ConstStmtVisitor_Visit fmt_p Opts dD dS nD nS Node c).
Proof.
  intros (Hchildren & Hdecls & Hexc & Hblock & Hlambda & Hsrc & Hsub & Hcatch).
  induction c; cbn [ConstStmtVisitor_Visit]; [..|done].
  all: upd_tac.
Qed.

(** Every statement routine begins with [VisitStmt], which tokenizes the
    address of the node. *)
Lemma A_VisitStmt Node :
  Forall (opt_all (λ Node, only_updates Opts (dS Node))) (S_children Node) →
  after fmt_p Opts (S_ptr Node) (VisitStmt fmt_p Opts dS nS Node).
Proof.
  intros H. unfold VisitStmt.
  apply A_then; [|intros _; upd_tac].
  apply A_scope. apply A_skip; [done | intros _].
  apply A_then; [apply A_here | intros _; upd_tac].
Qed.

Lemma A_Visit_Stmt Node c :
  Stmt_children (λ D, only_updates Opts (dD D)) (λ Node, only_updates Opts (dS Node)) Node →
  after fmt_p Opts (S_ptr Node) (ConstStmtVisitor_Visit fmt_p Opts dD dS nD nS Node c).
Proof.
  intros (Hchildren & Hdecls & Hexc & Hblock & Hlambda & Hsrc & Hsub & Hcatch).
  induction c; cbn [ConstStmtVisitor_Visit]; [..|done].
  all: repeat lazymatch goal with
       | |- after _ _ _ (VisitStmt _ _ _ _ _) => by apply A_VisitStmt
       | |- after _ _ _ (_ ≫= _) => apply A_then; [|intros ?; upd_tac]
       | |- after _ _ _ ?m => let h := head_of m in unfold h
       end.
Qed.
End Children.

Lemma U_dumpNullDecl : only_updates Opts (dumpNullDecl fmt_p Opts Context).
Proof.
  rewrite dumpNullDecl_unfold. apply U_bind; [apply U_get | intros w0].
  do 2 apply U_scope. apply U_VisitDecl.
Qed.

Lemma U_dumpNullStmt : only_updates Opts (dumpNullStmt fmt_p Opts Context).
Proof.
  rewrite (dumpNullStmt_unfold fmt_p Opts Context (λ _, mret tt) (mret tt)).
  apply U_bind; [apply U_get | intros w0].
  do 2 apply U_scope. apply U_VisitStmt; [apply U_ret | constructor].
Qed.

Lemma U_dump_rec :
  (∀ D, only_updates Opts
          (dumpDecl_rec fmt_p Opts Context
             (dumpNullDecl fmt_p Opts Context) (dumpNullStmt fmt_p Opts Context) D)) ∧
  (∀ Node, only_updates Opts
             (dumpStmt_rec fmt_p Opts Context
                (dumpNullDecl fmt_p Opts Context) (dumpNullStmt fmt_p Opts Context) Node)).
Proof.
  apply Decl_Stmt_ind.
  - intros D IH. rewrite dumpDecl_rec_unfold. unfold dumpDecl_body. do 2 apply U_scope.
    apply U_Visit_Decl; [apply U_dumpNullDecl | apply U_dumpNullStmt | exact IH].
  - intros Node IH. rewrite dumpStmt_rec_unfold. unfold dumpStmt_body. do 2 apply U_scope.
    apply U_Visit_Stmt; [apply U_dumpNullDecl | apply U_dumpNullStmt | exact IH].
Qed.

Lemma U_ASTExporter_dumpDecl D :
  only_updates Opts (ASTExporter_dumpDecl fmt_p Opts Context D).
Proof. destruct D; [apply U_dump_rec | apply U_dumpNullDecl]. Qed.

Lemma U_ASTExporter_dumpStmt St :
  only_updates Opts (ASTExporter_dumpStmt fmt_p Opts Context St).
Proof. destruct St; [apply U_dump_rec | apply U_dumpNullStmt]. Qed.

(** Encoding a statement tokenizes its address. *)
Lemma A_ASTExporter_dumpStmt Node :
  after fmt_p Opts (S_ptr Node) (ASTExporter_dumpStmt fmt_p Opts Context (Some Node)).
Proof.
  unfold ASTExporter_dumpStmt, dumpStmt. rewrite dumpStmt_rec_unfold.
  unfold dumpStmt_body. do 2 apply A_scope.
  apply A_Visit_Stmt; [apply U_dumpNullDecl | apply U_dumpNullStmt |].
  apply Stmt_children_all; apply U_dump_rec.
Qed.

(** The identity [m] tokenizes is in the table afterwards. *)
Lemma recorded_at {A} p (m : M A) w :
  withPointers Opts = false →
  later (state_after (dumpPointer fmt_p Opts p) w) (state_after m w) →
  is_Some (pointerMap (state_after m w) !! p).
Proof.
  intros Hwp Hm. unfold later, dumpPointer in Hm. rewrite Hwp in Hm.
  destruct (pointerMap w !! p) as [v|] eqn:Hp.
  - destruct (writePointer_seen fmt_p p v w Hp) as [_ Hs]. rewrite Hs in Hm.
    exists v. by eapply lookup_weaken.
  - destruct (writePointer_fresh fmt_p p w Hp) as [_ Hs]. rewrite Hs in Hm.
    exists (pointerCounter w). eapply lookup_weaken; [|exact Hm].
    cbn. by rewrite lookup_insert_eq.
Qed.

(** An export is the constructor, then the encoding of the translation
    unit by the exporter it built. *)
Lemma U_export_run TU w :
  updates Opts (ASTExporter_ctor Context w)
    (state_after (export_run fmt_p Opts Context TU) w).
Proof. apply (U_ASTExporter_dumpDecl (Some TU) (ASTExporter_ctor Context w)). Qed.

(** X12.  Once an exporter is built, encoding a declaration, a statement,
    a type or a comment node changes the state in four ways only: a new
    entry of the identity table for an identity that has none (never with
    raw pointers), the last location, [FC], and the log of the calls of the
    membership service (never without a service).  So no entry of the
    table is ever removed or overwritten, and the counter moves only
    together with a new entry.  A whole export begins with the
    constructor, which sets the members of the new exporter and leaves the
    identity table, its counter and the log as they are; from there on the
    export changes the state in the four ways only. *)
Theorem the_state_changes_in_four_ways_only :
  (∀ D w, updates Opts w (state_after (ASTExporter_dumpDecl fmt_p Opts Context D) w)) ∧
  (∀ St w, updates Opts w (state_after (ASTExporter_dumpStmt fmt_p Opts Context St) w)) ∧
  (∀ T w, updates Opts w (state_after (dumpType fmt_p Opts T) w)) ∧
  (∀ C w, updates Opts w (state_after (dumpComment_rec fmt_p Opts C) w)) ∧
  (∀ C w, updates Opts w (state_after (dumpFullComment fmt_p Opts C) w)) ∧
  (∀ TU w,
     let w0 := ASTExporter_ctor Context w in
     pointerMap w0 = pointerMap w ∧ pointerCounter w0 = pointerCounter w ∧
     consulted w0 = consulted w ∧
     updates Opts w0 (state_after (export_run fmt_p Opts Context TU) w)).
Proof.
  repeat split; try intros x w.
  - apply U_ASTExporter_dumpDecl.
  - apply U_ASTExporter_dumpStmt.
  - apply U_dumpType.
  - apply U_dumpComment_rec.
  - apply U_dumpFullComment.
  - apply U_export_run.
Qed.

(** *** The identity table stays dense *)

Lemma table_of_same seen w w' :
  pointerMap w' = pointerMap w → pointerCounter w' = pointerCounter w →
  table_of seen w → table_of seen w'.
Proof. unfold table_of. by intros -> ->. Qed.

Lemma updates_table seen w w' :
  table_of seen w → updates Opts w w' →
  ∃ new, NoDup (seen ++ new) ∧
         (∀ p, is_Some (pointerMap w' !! p) ↔ p ∈ seen ++ new) ∧
         (len (seen ++ new) ≤ INT_MAX → table_of (seen ++ new) w').
Proof.
  intros Hw Hu. unfold updates in Hu. revert w' Hu.
  apply rtc_ind_r; [|intros y z Hxy Hyz IH].
  - exists []. rewrite app_nil_r. split; [by eapply table_of_NoDup|]. split; [|done].
    intros p. rewrite (table_of_elem seen w p Hw). by rewrite not_eq_None_Some.
  - destruct IH as (new & Hnd & Hdom & Htab). destruct Hyz as [p y' Hwp Hp|f l y'|C y'|D y' Hs].
    2-4: by exists new.
    exists (new ++ [p]). rewrite !app_assoc.
    assert (p ∉ seen ++ new) as Hnew.
    { rewrite <-Hdom. unfold ptr in *. rewrite Hp. by intros [? ?]. }
    split; [|split].
    + apply NoDup_app. split; [done|]. split; [|apply NoDup_singleton].
      intros q Hq ->%list_elem_of_singleton. done.
    + intros q. cbn [assign_pointer pointerMap]. rewrite lookup_insert_is_Some, elem_of_app,
        list_elem_of_singleton, <-Hdom.
      destruct (decide (p = q)) as [->|Hne]; [split; auto|].
      split.
      * intros [?|[_ ?]]; [done | by left].
      * intros [?|Hq]; [by right | by subst].
    + intros Hlen. apply table_of_assign; [|done|].
      * apply Htab. unfold len in *. rewrite length_app in Hlen. cbn in Hlen. lia.
      * unfold len in *. rewrite length_app in Hlen. cbn in Hlen. lia.
Qed.

Lemma table_of_token seen w k p :
  table_of seen w → len seen ≤ INT_MAX → seen !! k = Some p →
  written (writePointer fmt_p false p) w = [AString (pretty (Z.of_nat k))].
Proof.
  intros Hw Hlen Hk. pose proof Hw as [_ Hm].
  assert (pointerMap w !! p = Some (Z.of_nat k)) as Hp by (apply Hm; eauto).
  destruct (writePointer_seen fmt_p p _ w Hp) as [-> _].
  rewrite snprintf20_pretty; [done|].
  apply lookup_lt_Some in Hk. unfold len in Hlen. lia.
Qed.

Lemma table_of_inj seen w p q v :
  table_of seen w → pointerMap w !! p = Some v → pointerMap w !! q = Some v → p = q.
Proof.
  intros [_ Hm] Hp Hq.
  apply Hm in Hp as (k & -> & Hk). apply Hm in Hq as (k' & Hkk & Hk').
  apply Nat2Z.inj in Hkk as <-. congruence.
Qed.

Lemma dense_after {A} (m : M A) seen w :
  only_updates Opts m → table_of seen w → dense_from fmt_p seen (state_after m w).
Proof.
  intros Hm Hw. destruct (updates_table seen w _ Hw (Hm w)) as (new & Hnd & Hdom & Htab).
  exists new. split; [done|]. split; [done|]. intros Hlen. specialize (Htab Hlen).
  split; [done|]. split.
  - intros p q v. by apply (table_of_inj (seen ++ new)).
  - intros k p. by apply (table_of_token (seen ++ new)).
Qed.

(** X13.  Identity numbers stay unambiguous over whole encodings, and
    from one export to the next.  If the identity table holds the
    identities of a list [seen], each mapped to its position, and the
    counter is their number (as when the process starts, with no
    identity), then after encoding any declaration or statement, or after
    a whole export, it holds [seen] followed by new identities, none
    twice; unless raw pointers are written, the identity of the node that
    was encoded (of the sentinel node, for a null pointer) is among them;
    and as long as they are at most [INT_MAX] altogether, each is again
    mapped to its position, so that no two identities share a number, and
    the token of each is the decimal text of its position. *)
Theorem the_identity_table_stays_dense (seen : list ptr) (w : World) :
  table_of seen w →
  (∀ D, let w' := state_after (ASTExporter_dumpDecl fmt_p Opts Context D) w in
        dense_from fmt_p seen w' ∧
        (withPointers Opts = false →
           is_Some (pointerMap w' !! D_ptr (default (NullPtrDecl_node Context w) D)))) ∧
  (∀ St, let w' := state_after (ASTExporter_dumpStmt fmt_p Opts Context St) w in
         dense_from fmt_p seen w' ∧
         (withPointers Opts = false →
            is_Some (pointerMap w' !! S_ptr (default (NullPtrStmt_node w) St)))) ∧
  (∀ TU, let w' := state_after (export_run fmt_p Opts Context TU) w in
         dense_from fmt_p seen w' ∧
         (withPointers Opts = false → is_Some (pointerMap w' !! D_ptr TU))).
Proof.
  intros Hw. repeat split.
  - apply dense_after; [apply U_ASTExporter_dumpDecl | done].
  - intros Hwp. apply recorded_at; [done|]. destruct D as [D|]; cbn [default].
    + apply after_dumpDecl.
    + apply (dump_null_after fmt_p Opts Context FDeclaration _ w eq_refl).
  - apply dense_after; [apply U_ASTExporter_dumpStmt | done].
  - intros Hwp. apply recorded_at; [done|]. destruct St as [St|]; cbn [default].
    + apply A_ASTExporter_dumpStmt.
    + apply (dump_null_after fmt_p Opts Context FStatement _ w eq_refl).
  - apply (dense_after (ASTExporter_dumpDecl fmt_p Opts Context (Some TU)) seen
             (ASTExporter_ctor Context w)); [apply U_ASTExporter_dumpDecl|].
    by apply (table_of_same seen w).
  - intros Hwp.
    apply (recorded_at (D_ptr TU) (ASTExporter_dumpDecl fmt_p Opts Context (Some TU))
             (ASTExporter_ctor Context w) Hwp), after_dumpDecl.
Qed.

Lemma updates_raw w w' :
  withPointers Opts = true → updates Opts w w' →
  pointerMap w' = pointerMap w ∧ pointerCounter w' = pointerCounter w.
Proof.
  intros Hwp Hu. unfold updates in Hu. revert w' Hu.
  apply rtc_ind_r; [done | intros y z Hxy Hyz IH].
  destruct Hyz; [congruence|done..].
Qed.

(** X14.  With raw pointers ([withPointers] set) nothing touches the
    identity table: after encoding a declaration, a statement, a type or
    a comment node, or after a whole export, the table and its counter
    are what they were. *)
Theorem raw_pointers_leave_the_table_alone :
  withPointers Opts = true →
  (∀ D w, let w' := state_after (ASTExporter_dumpDecl fmt_p Opts Context D) w in
          pointerMap w' = pointerMap w ∧ pointerCounter w' = pointerCounter w) ∧
  (∀ St w, let w' := state_after (ASTExporter_dumpStmt fmt_p Opts Context St) w in
           pointerMap w' = pointerMap w ∧ pointerCounter w' = pointerCounter w) ∧
  (∀ T w, let w' := state_after (dumpType fmt_p Opts T) w in
          pointerMap w' = pointerMap w ∧ pointerCounter w' = pointerCounter w) ∧
  (∀ C w, let w' := state_after (dumpComment_rec fmt_p Opts C) w in
          pointerMap w' = pointerMap w ∧ pointerCounter w' = pointerCounter w) ∧
  (∀ TU w, let w' := state_after (export_run fmt_p Opts Context TU) w in
           pointerMap w' = pointerMap w ∧ pointerCounter w' = pointerCounter w).
Proof.
  intros Hwp. split; [|split; [|split; [|split]]]; intros x w; cbv zeta.
  - apply (updates_raw _ _ Hwp), U_ASTExporter_dumpDecl.
  - apply (updates_raw _ _ Hwp), U_ASTExporter_dumpStmt.
  - apply (updates_raw _ _ Hwp), U_dumpType.
  - apply (updates_raw _ _ Hwp), U_dumpComment_rec.
  - by destruct (updates_raw _ _ Hwp (U_export_run x w)) as [-> ->].
Qed.

(** *** Types and the references to them *)

Lemma A_VisitType T :
  after fmt_p Opts (from_option T_ptr nullptr T) (VisitType fmt_p Opts T).
Proof.
  unfold VisitType. apply A_scope. apply A_skip; [done | intros _].
  apply A_then; [apply A_here | intros _; upd_tac].
Qed.

Lemma A_TypeVisitor_Visit T c :
  after fmt_p Opts (T_ptr T) (TypeVisitor_Visit fmt_p Opts T c).
Proof.
  induction c; cbn [TypeVisitor_Visit]; [..|done].
  all: repeat lazymatch goal with
       | |- after _ _ _ (VisitType _ _ _) => apply (A_VisitType (Some T))
       | |- after _ _ _ (_ ≫= _) => apply A_then; [|intros ?; upd_tac]
       | |- after _ _ _ ?m => let h := head_of m in unfold h
       end.
Qed.

Lemma A_dumpType T :
  after fmt_p Opts (from_option T_ptr nullptr T) (dumpType fmt_p Opts T).
Proof.
  unfold dumpType. do 2 apply A_scope.
  destruct T as [T|]; [apply A_TypeVisitor_Visit | apply (A_VisitType None)].
Qed.

Lemma state_after_dumpQualType Q w :
  state_after (dumpQualType fmt_p Opts Q) w
  = state_after (dumpPointer fmt_p Opts (QT_getTypePtrOrNull Q)) w.
Proof.
  unfold dumpQualType, dumpPointerToType, ObjectScope. run.
  by destruct (negb (QT_isNull Q) && QT_isSugared Q).
Qed.

Lemma written_dumpQualType Q w :
  ∃ r, written (dumpQualType fmt_p Opts Q) w = [r] ∧
       type_ptr_token r
       = Some (AString (token_at fmt_p (withPointers Opts) (QT_getTypePtrOrNull Q) w)).
Proof.
  unfold dumpQualType, dumpPointerToType, ObjectScope. run.
  eexists. split; [reflexivity|].
  destruct (negb (QT_isNull Q) && QT_isSugared Q); cbn [when]; run;
    rewrite written_dumpPointer; reflexivity.
Qed.

Lemma written_VisitType T w :
  let p := from_option T_ptr nullptr T in
  let HasDesugaredType :=
    from_option (λ T, negb (T_getUnqualifiedDesugaredType T =? T_ptr T)) false T in
  written (VisitType fmt_p Opts T) w =
  [AObject (2 + b2z HasDesugaredType)
     ([ATag "pointer"; AString (token_at fmt_p (withPointers Opts) p w);
       ATag "raw"; AString (from_option T_getAsString null_type_getAsString T)]
      ++ if HasDesugaredType
         then [ATag "desugared_type";
               AString (token_at fmt_p (withPointers Opts)
                          (from_option T_getUnqualifiedDesugaredType nullptr T)
                          (state_after (dumpPointer fmt_p Opts p) w))]
         else [])].
Proof.
  unfold VisitType, ObjectScope. run. rewrite written_dumpPointer.
  destruct T as [T|]; cbn [from_option].
  - destruct (negb (T_getUnqualifiedDesugaredType T =? T_ptr T)); cbn [when]; run;
      [rewrite written_dumpPointer|]; reflexivity.
  - reflexivity.
Qed.

Lemma TypeVisitor_Visit_starts T c w :
  starts (written (VisitType fmt_p Opts (Some T)) w) (TypeVisitor_Visit fmt_p Opts T c) w.
Proof.
  induction c; cbn [TypeVisitor_Visit]; [..|done].
  all: repeat lazymatch goal with
       | |- starts _ (VisitType _ _ _) _ => apply starts_refl
       | |- starts _ (_ ≫= _) _ => apply starts_bind
       | |- starts _ ?m _ => let h := head_of m in unfold h
       end.
Qed.

Lemma written_type_entry T w :
  ∃ n more rest,
    written (dumpType fmt_p Opts T) w =
    [AVariant (type_entry_tag T)
       [ATuple None
          (AObject n
             (ATag "pointer"
              :: AString (token_at fmt_p (withPointers Opts) (from_option T_ptr nullptr T) w)
              :: ATag "raw"
              :: AString (from_option T_getAsString null_type_getAsString T)
              :: more)
           :: rest)]] ∧
    (n = 2 ∧ more = [] ∨ n = 3 ∧ ∃ tok, more = [ATag "desugared_type"; AString tok]).
Proof.
  unfold dumpType, VariantScope, TupleScope_unsized. rewrite !written_scope.
  assert (∃ rest,
    written (match T with
             | Some T => TypeVisitor_Visit fmt_p Opts T (T_getTypeClass T)
             | None => VisitType fmt_p Opts None
             end) w = written (VisitType fmt_p Opts T) w ++ rest) as [rest ->].
  { destruct T as [T|]; [apply TypeVisitor_Visit_starts|].
    exists []. by rewrite app_nil_r. }
  rewrite written_VisitType. cbv zeta.
  destruct (from_option (λ T, negb (T_getUnqualifiedDesugaredType T =? T_ptr T)) false T);
    eexists _, _, _; (split; [destruct T; reflexivity|]).
  - right. split; [done|]. by eexists.
  - by left.
Qed.

(** X15.  The entry of a type, null or not, is a variant tagged with the
    name of its class followed by ["Type"] (["NoneType"] for the null
    type); whatever the class, its tuple begins with the record of
    [VisitType], whose first two fields are [pointer], the identity token
    of the type itself (of the null address for the null type), and
    [raw], its spelling (["NULL TYPE"]); the record has one more field,
    [desugared_type], or none. *)
Theorem type_entries_begin_with_the_type_record (T : option Type_) (w : World) :
  ∃ n more rest,
    written (dumpType fmt_p Opts T) w =
    [AVariant (type_entry_tag T)
       [ATuple None
          (AObject n
             (ATag "pointer"
              :: AString (token_at fmt_p (withPointers Opts) (from_option T_ptr nullptr T) w)
              :: ATag "raw"
              :: AString (from_option T_getAsString null_type_getAsString T)
              :: more)
           :: rest)]] ∧
    (n = 2 ∧ more = [] ∨ n = 3 ∧ ∃ tok, more = [ATag "desugared_type"; AString tok]).
Proof. apply written_type_entry. Qed.

Lemma type_entry_token_dumpType T w :
  ∃ e, written (dumpType fmt_p Opts T) w = [e] ∧
       type_entry_token e
       = Some (AString (token_at fmt_p (withPointers Opts) (from_option T_ptr nullptr T) w)).
Proof.
  destruct (written_type_entry T w) as (n & more & rest & -> & _).
  eexists. split; reflexivity.
Qed.

(** X16.  References to types resolve.  Wherever in a run a type (or the
    null type) is entered and a [qual_type] refers to its address, in
    either order, the [type_ptr] of the [qual_type] is the [pointer] of
    the entry; so is the bare token [dumpPointerToType] writes. *)
Theorem type_references_resolve (T : option Type_) (Q : QualType) (w w' : World) :
  QT_getTypePtrOrNull Q = from_option T_ptr nullptr T →
  (later (state_after (dumpType fmt_p Opts T) w) w' →
   ∃ e r tok,
     written (dumpType fmt_p Opts T) w = [e] ∧
     written (dumpQualType fmt_p Opts Q) w' = [r] ∧
     type_entry_token e = Some tok ∧ type_ptr_token r = Some tok ∧
     written (dumpPointerToType fmt_p Opts Q) w' = [tok]) ∧
  (later (state_after (dumpQualType fmt_p Opts Q) w) w' →
   ∃ r e tok,
     written (dumpQualType fmt_p Opts Q) w = [r] ∧
     written (dumpType fmt_p Opts T) w' = [e] ∧
     type_ptr_token r = Some tok ∧ type_entry_token e = Some tok).
Proof.
  intros HQ. split; intros Hl.
  - destruct (type_entry_token_dumpType T w) as (e & He & Hte).
    destruct (written_dumpQualType Q w') as (r & Hr & Htr).
    exists e, r, (AString (token_at fmt_p (withPointers Opts) (from_option T_ptr nullptr T) w)).
    split; [done|]. split; [done|]. split; [done|].
    assert (token_at fmt_p (withPointers Opts) (QT_getTypePtrOrNull Q) w'
            = token_at fmt_p (withPointers Opts) (from_option T_ptr nullptr T) w) as Htok.
    { rewrite HQ. apply token_at_stable.
      unfold later in *. etrans; [apply A_dumpType | exact Hl]. }
    split; [by rewrite Htr, Htok|].
    unfold dumpPointerToType. by rewrite written_dumpPointer, Htok.
  - destruct (written_dumpQualType Q w) as (r & Hr & Htr).
    destruct (type_entry_token_dumpType T w') as (e & He & Hte).
    exists r, e, (AString (token_at fmt_p (withPointers Opts) (QT_getTypePtrOrNull Q) w)).
    split; [done|]. split; [done|]. split; [done|].
    rewrite Hte, <-HQ. do 2 f_equal. apply token_at_stable.
    by rewrite <-state_after_dumpQualType.
Qed.

Lemma written_forM_one {A} (f : A → M unit) l : ∀ w,
  (∀ x w, ∃ a, written (f x) w = [a]) →
  Forall2 (λ x a, ∃ w1, written (f x) w1 = [a]) l (written (forM_ f l) w).
Proof.
  induction l as [|x l IH]; intros w Hf; [constructor|].
  rewrite written_forM_cons. destruct (Hf x w) as [a Ha]. rewrite Ha.
  constructor; [by exists w | by apply IH].
Qed.

(** X17.  A translation unit ends with the table of the types: its tuple
    has four elements, the last of which is an array of as many entries
    as the context has types, plus one; the entries are those of the
    types of the context, in order, and the last one is the entry of the
    null type, tagged ["NoneType"]. *)
Theorem translation_unit_ends_with_the_type_table (D : Decl) (w : World) :
  D_getKind D = cTranslationUnitDecl →
  ∃ pre table none,
    written (ASTExporter_dumpDecl fmt_p Opts Context (Some D)) w =
    [AVariant "TranslationUnitDecl"
       [ATuple (Some 4)
          (pre ++ [AArray (Some (len (getTypes Context) + 1)) (table ++ [none])])]] ∧
    len pre = 3 ∧
    Forall2 (λ T e, ∃ w1, written (dumpType fmt_p Opts (Some T)) w1 = [e])
      (getTypes Context) table ∧
    ∃ w1, written (dumpType fmt_p Opts None) w1 = [none].
Proof.
  intros Hk. rewrite written_dumpDecl_Some, Hk.
  unfold Visit_Decl. cbn [ConstDeclVisitor_Visit]. unfold VisitTranslationUnitDecl.
  rewrite !written_bind. unfold ArrayScope at 1. rewrite written_scope.
  set (w1 := state_after _ (state_after _ w)).
  assert (∀ T w, ∃ a, written (dumpType fmt_p Opts T) w = [a]) as Hone.
  { intros T w0. destruct (type_entry_token_dumpType T w0) as (e & He & _). eauto. }
  pose proof (written_forM_one (dumpType fmt_p Opts) (types Context) w1 Hone) as Hall.
  unfold types in *.
  apply Forall2_app_inv_l in Hall as (table & last & Htable & Hlast & ->).
  apply Forall2_cons_inv_l in Hlast as (none & rest & Hnone & Hrest & ->).
  apply Forall2_nil_inv_l in Hrest as ->.
  eexists _, table, none. split; [|split; [|split]].
  - rewrite app_assoc.
    assert (len ((Some <$> getTypes Context) ++ [@None Type_]) = len (getTypes Context) + 1)
      as -> by (unfold len; rewrite length_app, length_fmap; cbn; lia).
    reflexivity.
  - destruct (written_VisitDecl fmt_p Opts D w) as (n & more & ->).
    destruct (written_VisitDeclContext fmt_p Opts Context D
                (state_after (VisitDecl fmt_p Opts D) w)) as (storage & Hdc & _).
    unfold ASTExporter_VisitDeclContext in Hdc. by rewrite Hdc.
  - apply Forall2_fmap_l in Htable. exact Htable.
  - exact Hnone.
Qed.

End Updates.

Lemma the_identity_table_stays_dense_witness :
  let w' := state_after (export_run fmt_example plain_options example_context example_unit)
              process_start in
  table_of [] process_start ∧
  dense_from fmt_example [] w' ∧
  (withPointers plain_options = false → is_Some (pointerMap w' !! D_ptr example_unit)).
Proof.
  split; [apply table_of_start|].
  apply (the_identity_table_stays_dense fmt_example plain_options example_context
           [] process_start table_of_start).
Defined.

Lemma raw_pointers_leave_the_table_alone_witness :
  withPointers raw_options = true ∧
  let w' := state_after (export_run fmt_example raw_options example_context example_unit)
              process_start in
  pointerMap w' = pointerMap process_start ∧
  pointerCounter w' = pointerCounter process_start.
Proof.
  split; [reflexivity|].
  apply (raw_pointers_leave_the_table_alone fmt_example raw_options example_context
           eq_refl).
Defined.

Lemma type_references_resolve_witness :
  let T := Some (example_type 700 cBuiltinType) in
  let Q := example_qual_type 700 in
  let w := ASTExporter_ctor example_context process_start in
  let w' := state_after (dumpType fmt_example plain_options T) w in
  QT_getTypePtrOrNull Q = from_option T_ptr nullptr T ∧
  later w' w' ∧
  ∃ e r tok,
    written (dumpType fmt_example plain_options T) w = [e] ∧
    written (dumpQualType fmt_example plain_options Q) w' = [r] ∧
    type_entry_token e = Some tok ∧ type_ptr_token r = Some tok ∧
    written (dumpPointerToType fmt_example plain_options Q) w' = [tok].
Proof.
  split; [reflexivity|]. split; [apply later_refl|].
  apply (type_references_resolve fmt_example plain_options
           (Some (example_type 700 cBuiltinType)) (example_qual_type 700)
           (ASTExporter_ctor example_context process_start) _ eq_refl).
  apply later_refl.
Defined.

Lemma translation_unit_ends_with_the_type_table_witness :
  D_getKind (example_TU 1000) = cTranslationUnitDecl ∧
  ∃ pre table none,
    written (ASTExporter_dumpDecl fmt_example plain_options typed_context
               (Some (example_TU 1000))) (ASTExporter_ctor example_context process_start) =
    [AVariant "TranslationUnitDecl"
       [ATuple (Some 4)
          (pre ++ [AArray (Some (len (getTypes typed_context) + 1)) (table ++ [none])])]] ∧
    len pre = 3 ∧
    Forall2 (λ T e, ∃ w1, written (dumpType fmt_example plain_options (Some T)) w1 = [e])
      (getTypes typed_context) table ∧
    ∃ w1, written (dumpType fmt_example plain_options None) w1 = [none].
Proof.
  split; [reflexivity|].
  apply (translation_unit_ends_with_the_type_table fmt_example plain_options typed_context
           (example_TU 1000) (ASTExporter_ctor example_context process_start) eq_refl).
Defined.

(** ** What the output depends on *)

Section Dependence.
Variable fmt_p : ptr → string.
Variable Opts : ASTExporterOptions.
Variable Context : ASTContext.

Lemma R_ret : reads_only Opts (mret tt).
Proof. by intros w w' H. Qed.

Lemma R_bind (m : M unit) (f : unit → M unit) :
  reads_only Opts m → (∀ a, reads_only Opts (f a)) → reads_only Opts (m ≫= f).
Proof.
  intros Hm Hf w w' H. rewrite !state_after_bind, !written_bind.
  destruct (Hm w w' H) as [-> H1].
  destruct ((m w).1.1), ((m w').1.1).
  by destruct (Hf () _ _ H1) as [-> H2].
Qed.

Lemma R_emit x : reads_only Opts (emit x).
Proof. by intros w w' H. Qed.

Lemma R_scope wrap (m : M unit) : reads_only Opts m → reads_only Opts (scope wrap m).
Proof.
  intros Hm w w' H. rewrite !state_after_scope, !written_scope.
  by destruct (Hm w w' H) as [-> H1].
Qed.

Lemma R_emitFlag t b : reads_only Opts (emitFlag t b).
Proof. by destruct b; intros w w' H. Qed.

Lemma R_when b m : reads_only Opts m → reads_only Opts (when b m).
Proof. destruct b; [done | intros _; apply R_ret]. Qed.

Lemma R_whenSome {A} (o : option A) f :
  opt_all (λ x, reads_only Opts (f x)) o → reads_only Opts (whenSome o f).
Proof. destruct o; [by rewrite opt_all_Some | intros _; apply R_ret]. Qed.

Lemma R_forM {A} (f : A → M unit) l :
  Forall (λ x, reads_only Opts (f x)) l → reads_only Opts (forM_ f l).
Proof.
  induction 1 as [|x l Hx Hl IH]; [apply R_ret|].
  change (forM_ f (x :: l)) with (f x ;; forM_ f l). by apply R_bind.
Qed.

(** The places where the state is read or changed. *)
Lemma R_dumpPointer p : reads_only Opts (dumpPointer fmt_p Opts p).
Proof.
  intros w w' H. pose proof H as (HS & HD & Hf & Hl & Ht). unfold dumpPointer, agree in *.
  destruct (withPointers Opts) eqn:Hwp.
  - destruct (writePointer_raw fmt_p p w) as [-> ->].
    destruct (writePointer_raw fmt_p p w') as [-> ->]. done.
  - destruct (Ht eq_refl) as [Hm Hc].
    destruct (pointerMap w !! p) as [v|] eqn:Hp.
    + destruct (writePointer_seen fmt_p p v w Hp) as [-> ->].
      rewrite Hm in Hp. destruct (writePointer_seen fmt_p p v w' Hp) as [-> ->]. done.
    + destruct (writePointer_fresh fmt_p p w Hp) as [-> ->].
      rewrite Hm in Hp. destruct (writePointer_fresh fmt_p p w' Hp) as [-> ->].
      rewrite Hc. do 5 (split; [done|]).
      intros _. cbn. by rewrite Hm, Hc.
Qed.

Lemma R_dumpSourceLocation Loc : reads_only Opts (dumpSourceLocation Opts Loc).
Proof.
  intros w w' H. pose proof H as (HS & HD & Hf & Hl & Ht). destruct Loc as [|f l c].
  - destruct (dumpSourceLocation_invalid Opts w) as [-> ->].
    destruct (dumpSourceLocation_invalid Opts w') as [-> ->]. done.
  - destruct (dumpSourceLocation_valid Opts f l c w) as [-> ->].
    destruct (dumpSourceLocation_valid Opts f l c w') as [-> ->].
    rewrite Hf, Hl. done.
Qed.

Lemma R_set_FC C : reads_only Opts (modify (set_FC C)).
Proof. by intros w w' H. Qed.

Lemma R_consult I : reads_only Opts (consult Opts I).
Proof.
  unfold consult. destruct (deduplicationService Opts); [|apply R_ret].
  by intros w w' H.
Qed.

Create HintDb dep discriminated.
#[local] Hint Resolve R_dumpPointer R_dumpSourceLocation R_set_FC R_consult
  R_emitFlag : dep.

Ltac dep_child :=
  first [ assumption
        | apply opt_all_Some; assumption
        | match goal with
          | E : ?t = Some _, H : opt_all _ ?t |- _ => rewrite E in H; exact H
          end
        | lazymatch goal with
          | |- opt_all _ None => apply opt_all_None
          | |- opt_all _ (Some _) => apply opt_all_Some; assumption
          end ].

Ltac dep_hook := fail.

Ltac dep_step := first [ dep_hook | dep_rule ]
with dep_rule :=
  lazymatch goal with
  | |- reads_only _ (_ ≫= _) => apply R_bind; [|intros ?]
  | |- reads_only _ (mret _) => apply R_ret
  | |- reads_only _ (ObjectScope _ _) => apply R_scope
  | |- reads_only _ (ArrayScope _ _) => apply R_scope
  | |- reads_only _ (VariantScope _ _) => apply R_scope
  | |- reads_only _ (TupleScope_unsized _) => apply R_scope
  | |- reads_only _ (TupleScope _ _) => apply R_scope
  | |- reads_only _ (emitTag _) => apply R_emit
  | |- reads_only _ (emitString _) => apply R_emit
  | |- reads_only _ (emitInteger _) => apply R_emit
  | |- reads_only _ (emitBoolean _) => apply R_emit
  | |- reads_only _ (emitSimpleVariant _) => apply R_emit
  | |- reads_only _ (when _ _) => apply R_when
  | |- reads_only _ (whenSome _ _) =>
      apply R_whenSome;
      first [ eapply opt_all_impl; [eassumption | cbv beta; intros ? ?]
            | apply opt_all_intro; intros ? ]
  | |- reads_only _ (forM_ _ _) =>
      apply R_forM;
      first [ eapply Forall_impl; [eassumption | cbv beta; intros ? ?]
            | apply Forall_forall; intros ? _ ]
  | |- reads_only _ (match ?x with _ => _ end) => destruct x eqn:?
  | |- reads_only _ ?m =>
      first [ solve [auto 2 with dep nocore]
            | let h := head_of m in progress unfold h
            | progress cbv beta zeta ]
  end.
Ltac dep_tac := repeat dep_step.

Lemma R_dumpSourceRange R : reads_only Opts (dumpSourceRange Opts R).
Proof. dep_tac. Qed.
#[local] Hint Resolve R_dumpSourceRange : dep.

Lemma R_dumpQualType T : reads_only Opts (dumpQualType fmt_p Opts T).
Proof. dep_tac. Qed.
#[local] Hint Resolve R_dumpQualType : dep.

Lemma R_dumpName decl : reads_only Opts (dumpName decl).
Proof. dep_tac. Qed.
#[local] Hint Resolve R_dumpName : dep.

Lemma R_dumpDeclRef D : reads_only Opts (dumpDeclRef fmt_p Opts D).
Proof. dep_tac. Qed.
#[local] Hint Resolve R_dumpDeclRef : dep.

Lemma R_dumpAttr Att : reads_only Opts (dumpAttr fmt_p Opts Att).
Proof. dep_tac. Qed.
#[local] Hint Resolve R_dumpAttr : dep.

Lemma R_VisitType T : reads_only Opts (VisitType fmt_p Opts T).
Proof. dep_tac. Qed.
#[local] Hint Resolve R_VisitType : dep.

Lemma R_dumpType T : reads_only Opts (dumpType fmt_p Opts T).
Proof.
  unfold dumpType. do 2 apply R_scope.
  destruct T as [T|]; [|dep_tac].
  induction (T_getTypeClass T); cbn [TypeVisitor_Visit]; [dep_tac..|done].
Qed.
#[local] Hint Resolve R_dumpType : dep.

Lemma R_dumpComment_rec C : reads_only Opts (dumpComment_rec fmt_p Opts C).
Proof.
  induction C as [C IH] using Comment_children_ind.
  assert (dumpComment_rec fmt_p Opts C
          = dumpComment_body fmt_p Opts (dumpComment_rec fmt_p Opts) C) as ->
    by (by destruct C).
  unfold dumpComment_body. do 2 apply R_scope.
  induction (C_getCommentKind C); cbn [ConstCommentVisitor_visit]; [dep_tac..|done].
Qed.

Lemma R_dumpFullComment C : reads_only Opts (dumpFullComment fmt_p Opts C).
Proof.
  unfold dumpFullComment.
  repeat (apply R_bind; [|intros ?]); auto using R_set_FC, R_dumpComment_rec.
Qed.
#[local] Hint Resolve R_dumpFullComment : dep.

Lemma R_VisitDecl D : reads_only Opts (VisitDecl fmt_p Opts D).
Proof. dep_tac. Qed.
#[local] Hint Resolve R_VisitDecl : dep.

Lemma R_VisitNamedDecl D : reads_only Opts (VisitNamedDecl fmt_p Opts D).
Proof. dep_tac. Qed.
#[local] Hint Resolve R_VisitNamedDecl : dep.

Lemma R_VisitValueDecl D : reads_only Opts (VisitValueDecl fmt_p Opts D).
Proof. dep_tac. Qed.
#[local] Hint Resolve R_VisitValueDecl : dep.

Lemma R_VisitTypeDecl D : reads_only Opts (VisitTypeDecl fmt_p Opts D).
Proof. dep_tac. Qed.
#[local] Hint Resolve R_VisitTypeDecl : dep.

Section Children.
Variable dD : Decl → M unit.
Variable dS : Stmt → M unit.
Variable nD nS : M unit.
Hypothesis R_nD : reads_only Opts nD.
Hypothesis R_nS : reads_only Opts nS.

Lemma R_dumpDecl o :
  opt_all (λ D, reads_only Opts (dD D)) o → reads_only Opts (dumpDecl dD nD o).
Proof. destruct o; [by rewrite opt_all_Some | intros _; apply R_nD]. Qed.

Lemma R_dumpStmt o :
  opt_all (λ Node, reads_only Opts (dS Node)) o → reads_only Opts (dumpStmt dS nS o).
Proof. destruct o; [by rewrite opt_all_Some | intros _; apply R_nS]. Qed.

Ltac dep_hook ::=
  lazymatch goal with
  | |- reads_only _ (dumpDecl _ _ _) => apply R_dumpDecl; dep_child
  | |- reads_only _ (dumpStmt _ _ _) => apply R_dumpStmt; dep_child
  end.

Lemma R_VisitDeclContext DC :
  Forall (λ D, reads_only Opts (dD D)) (D_decls DC) →
  reads_only Opts (VisitDeclContext Opts dD nD (Some DC)).
Proof. intros Hd. unfold VisitDeclContext. dep_tac. Qed.

Lemma R_VisitStmt Node :
  Forall (opt_all (λ Node, reads_only Opts (dS Node))) (S_children Node) →
  reads_only Opts (VisitStmt fmt_p Opts dS nS Node).
Proof. intros H. unfold VisitStmt. dep_tac. Qed.
#[local] Hint Resolve R_VisitStmt : dep.

Lemma R_VisitExpr Node :
  Forall (opt_all (λ Node, reads_only Opts (dS Node))) (S_children Node) →
  reads_only Opts (VisitExpr fmt_p Opts dS nS Node).
Proof. intros H. unfold VisitExpr. dep_tac. Qed.
#[local] Hint Resolve R_VisitExpr : dep.

Lemma R_VisitCastExpr Node :
  Forall (opt_all (λ Node, reads_only Opts (dS Node))) (S_children Node) →
  reads_only Opts (VisitCastExpr fmt_p Opts dS nS Node).
Proof. intros H. unfold VisitCastExpr. dep_tac. Qed.
#[local] Hint Resolve R_VisitCastExpr : dep.

Lemma R_Visit_Decl D c :
  Decl_children (λ D, reads_only Opts (dD D)) (λ Node, reads_only Opts (dS Node)) D →
  reads_only Opts (ConstDeclVisitor_Visit fmt_p Opts Context dD dS nD nS D c).
Proof.
  intros (Hdecls & Hinitexpr & Hinits & Hbody & Hproto & Hparams & Hbw & Hici & Hinit & Hcap).
  pose proof (R_VisitDeclContext D Hdecls) as HDC.
  induction c; cbn [ConstDeclVisitor_Visit]; [..|done].
  all: dep_tac.
Qed.

Lemma R_Visit_Stmt Node c :
  Stmt_children (λ D, reads_only Opts (dD D)) (λ Node, reads_only Opts (dS Node)) Node →
  reads_only Opts (ConstStmtVisitor_Visit fmt_p Opts dD dS nD nS Node c).
Proof.
  intros (Hchildren & Hdecls & Hexc & Hblock & Hlambda & Hsrc & Hsub & Hcatch).
  induction c; cbn [ConstStmtVisitor_Visit]; [..|done].
  all: dep_tac.
Qed.
End Children.

(** The sentinel is read from the state: the same node in states that
    agree. *)
Lemma R_dumpNullDecl : reads_only Opts (dumpNullDecl fmt_p Opts Context).
Proof.
  intros w w' H. rewrite dumpNullDecl_unfold, !written_get_bind, !state_after_get_bind.
  pose proof H as (_ & HD & _). unfold NullPtrDecl_node. rewrite HD.
  revert H. apply R_scope, R_scope, R_VisitDecl.
Qed.

Lemma R_dumpNullStmt : reads_only Opts (dumpNullStmt fmt_p Opts Context).
Proof.
  intros w w' H.
  rewrite (dumpNullStmt_unfold fmt_p Opts Context (λ _, mret tt) (mret tt)),
    !written_get_bind, !state_after_get_bind.
  pose proof H as (HS & _). unfold NullPtrStmt_node. rewrite HS.
  revert H. apply R_scope, R_scope. apply R_VisitStmt; [apply R_ret | constructor].
Qed.

Lemma R_dump_rec :
  (∀ D, reads_only Opts
          (dumpDecl_rec fmt_p Opts Context
             (dumpNullDecl fmt_p Opts Context) (dumpNullStmt fmt_p Opts Context) D)) ∧
  (∀ Node, reads_only Opts
             (dumpStmt_rec fmt_p Opts Context
                (dumpNullDecl fmt_p Opts Context) (dumpNullStmt fmt_p Opts Context) Node)).
Proof.
  apply Decl_Stmt_ind.
  - intros D IH. rewrite dumpDecl_rec_unfold. unfold dumpDecl_body. do 2 apply R_scope.
    apply R_Visit_Decl; [apply R_dumpNullDecl | apply R_dumpNullStmt | exact IH].
  - intros Node IH. rewrite dumpStmt_rec_unfold. unfold dumpStmt_body. do 2 apply R_scope.
    apply R_Visit_Stmt; [apply R_dumpNullDecl | apply R_dumpNullStmt | exact IH].
Qed.

Lemma R_ASTExporter_dumpDecl D :
  reads_only Opts (ASTExporter_dumpDecl fmt_p Opts Context D).
Proof. destruct D; [apply R_dump_rec | apply R_dumpNullDecl]. Qed.

Lemma R_ASTExporter_dumpStmt St :
  reads_only Opts (ASTExporter_dumpStmt fmt_p Opts Context St).
Proof. destruct St; [apply R_dump_rec | apply R_dumpNullStmt]. Qed.

(** X20.  What an exporter writes depends on the state only through its
    two sentinel nodes (the members [NullPtrStmt] and [NullPtrDecl]), the
    last location and, unless raw pointers are written, the identity
    table: from two states that agree on these, the same declaration,
    statement, type or comment node is encoded to the same output, and the
    states reached agree again.  [FC], the member [NullPtrComment], the
    allocator and the log of the membership service are never read; with
    raw pointers, neither is the identity table. *)
Theorem what_the_output_depends_on :
  (∀ D w w', agree Opts w w' →
     written (ASTExporter_dumpDecl fmt_p Opts Context D) w
     = written (ASTExporter_dumpDecl fmt_p Opts Context D) w' ∧
     agree Opts (state_after (ASTExporter_dumpDecl fmt_p Opts Context D) w)
                (state_after (ASTExporter_dumpDecl fmt_p Opts Context D) w')) ∧
  (∀ St w w', agree Opts w w' →
     written (ASTExporter_dumpStmt fmt_p Opts Context St) w
     = written (ASTExporter_dumpStmt fmt_p Opts Context St) w' ∧
     agree Opts (state_after (ASTExporter_dumpStmt fmt_p Opts Context St) w)
                (state_after (ASTExporter_dumpStmt fmt_p Opts Context St) w')) ∧
  (∀ T w w', agree Opts w w' →
     written (dumpType fmt_p Opts T) w = written (dumpType fmt_p Opts T) w' ∧
     agree Opts (state_after (dumpType fmt_p Opts T) w)
                (state_after (dumpType fmt_p Opts T) w')) ∧
  (∀ C w w', agree Opts w w' →
     written (dumpComment_rec fmt_p Opts C) w
     = written (dumpComment_rec fmt_p Opts C) w' ∧
     agree Opts (state_after (dumpComment_rec fmt_p Opts C) w)
                (state_after (dumpComment_rec fmt_p Opts C) w')).
Proof.
  split; [|split; [|split]].
  - intros D. apply R_ASTExporter_dumpDecl.
  - intros St. apply R_ASTExporter_dumpStmt.
  - intros T. apply R_dumpType.
  - intros C. apply R_dumpComment_rec.
Qed.
End Dependence.

(** The same declaration from two states of one exporter that differ in
    [FC], in the member [NullPtrComment], in the allocator and in the log. *)
Lemma what_the_output_depends_on_witness :
  let w := ASTExporter_ctor example_context process_start in
  let w' := set_FC 77 (log_consulted 2001 w) in
  agree plain_options w w' ∧
  written (ASTExporter_dumpDecl fmt_example plain_options example_context
             (Some example_unit)) w
  = written (ASTExporter_dumpDecl fmt_example plain_options example_context
               (Some example_unit)) w'.
Proof.
  intros w w'. assert (agree plain_options w w') as H by done.
  split; [exact H|].
  apply (what_the_output_depends_on fmt_example plain_options example_context), H.
Defined.

(** ** The children of statements and comments *)

Section TreeShape.
Variable fmt_p : ptr → string.
Variable Opts : ASTExporterOptions.
Variable Context : ASTContext.

Lemma Visit_Stmt_starts Node c w :
  starts
    (written (VisitStmt fmt_p Opts
                (dumpStmt_rec fmt_p Opts Context (dumpNullDecl fmt_p Opts Context)
                   (dumpNullStmt fmt_p Opts Context))
                (dumpNullStmt fmt_p Opts Context) Node) w)
    (Visit_Stmt fmt_p Opts Context Node c) w.
Proof.
  unfold Visit_Stmt.
  induction c; cbn [ConstStmtVisitor_Visit]; [..|done].
  all: repeat lazymatch goal with
       | |- starts _ (VisitStmt _ _ _ _ _) _ => apply starts_refl
       | |- starts _ (_ ≫= _) _ => apply starts_bind
       | |- starts _ ?m _ => let h := head_of m in unfold h
       end.
Qed.

Lemma emits_ASTExporter_dumpStmt St :
  emits 1 (ASTExporter_dumpStmt fmt_p Opts Context St).
Proof.
  destruct St as [St|]; unfold ASTExporter_dumpStmt, dumpStmt.
  - apply emits_dumpStmt_rec.
  - intros w. unfold dumpNullStmt. rewrite written_get_bind. apply emits_dumpStmt_rec.
Qed.

Lemma emits_dumpComment_rec C : emits 1 (dumpComment_rec fmt_p Opts C).
Proof. destruct C. apply emits_scope. Qed.

Lemma ConstCommentVisitor_visit_starts C c w :
  starts (written (visitComment fmt_p Opts (dumpComment_rec fmt_p Opts) C) w)
    (ConstCommentVisitor_visit fmt_p Opts (dumpComment_rec fmt_p Opts) C c) w.
Proof.
  induction c; cbn [ConstCommentVisitor_visit]; [| |done].
  - apply starts_bind, starts_refl.
  - apply starts_refl.
Qed.

(** X22.  The tree is kept: whatever its class, a statement is written
    with its own record first and then an array that lists all its
    children, in order and none left out, a null child being written as
    the statement that stands for null; the same holds of a comment and
    its children. *)
Theorem statements_and_comments_list_all_their_children :
  (∀ Node w, ∃ info children rest,
     written (ASTExporter_dumpStmt fmt_p Opts Context (Some Node)) w =
     [AVariant (getStmtClassName (S_getStmtClass Node))
        [ATuple (Some (tupleSizeOfStmtClass (S_getStmtClass Node)))
           (info :: AArray (Some (len (S_children Node))) children :: rest)]] ∧
     Forall2 (λ c e, ∃ w1, written (ASTExporter_dumpStmt fmt_p Opts Context c) w1 = [e])
       (S_children Node) children) ∧
  (∀ C w, ∃ info children rest,
     written (dumpComment_rec fmt_p Opts C) w =
     [AVariant (getCommentKindName (C_getCommentKind C))
        [ATuple None (info :: AArray (Some (len (C_children C))) children :: rest)]] ∧
     Forall2 (λ c e, ∃ w1, written (dumpComment_rec fmt_p Opts c) w1 = [e])
       (C_children C) children).
Proof.
  split.
  - intros Node w. rewrite written_dumpStmt_Some.
    destruct (Visit_Stmt_starts Node (S_getStmtClass Node) w) as [rest ->].
    unfold VisitStmt, ObjectScope, ArrayScope. rewrite written_bind, !written_scope.
    eexists _, _, rest. split; [reflexivity|].
    apply (forM_one_each (ASTExporter_dumpStmt fmt_p Opts Context)).
    apply emits_ASTExporter_dumpStmt.
  - intros C w.
    assert (dumpComment_rec fmt_p Opts C
            = dumpComment_body fmt_p Opts (dumpComment_rec fmt_p Opts) C) as ->
      by (by destruct C).
    unfold dumpComment_body, VariantScope, TupleScope_unsized. rewrite !written_scope.
    destruct (ConstCommentVisitor_visit_starts C (C_getCommentKind C) w) as [rest ->].
    unfold visitComment, ObjectScope, ArrayScope. rewrite written_bind, !written_scope.
    eexists _, _, rest. split; [reflexivity|].
    apply (forM_one_each (dumpComment_rec fmt_p Opts)).
    apply emits_dumpComment_rec.
Qed.
End TreeShape.

(** ** Null pointers and the sentinel nodes *)

Section Sentinel.
Variable fmt_p : ptr → string.
Variable Opts : ASTExporterOptions.
Variable Context : ASTContext.

(** No state change an exporter makes touches its sentinel members or
    the allocator. *)
Lemma updates_members w w' :
  updates Opts w w' →
  NullPtrStmt w' = NullPtrStmt w ∧ NullPtrDecl w' = NullPtrDecl w ∧
  NullPtrComment w' = NullPtrComment w ∧ allocated w' = allocated w.
Proof.
  intros Hu. unfold updates in Hu. revert w' Hu.
  apply rtc_ind_r; [done | intros y z _ Hyz IH].
  destruct Hyz; exact IH.
Qed.

(** C4, amended.  The constructor of an exporter allocates the three
    sentinel nodes, one after the other, and keeps their addresses in the
    members [NullPtrStmt], [NullPtrDecl] and [NullPtrComment]; there is no
    sentinel node for types.  No state change an exporter makes touches
    these members, and the encoders make no other state changes.  A null
    declaration, statement or type has an encoding, a null comment has none
    that the sources determine.  Take a family that has one and two points
    [w], [w'] of a run of one exporter, the second one reached after the
    null pointer was encoded at the first: the null pointer is encoded at
    [w'] exactly as it was at [w] (same tag, same fields), with the same
    identity token, which is the token of the sentinel node of the family
    (for a type, of the null address); the three encodings are given in
    full. *)
Theorem sentinel_stability :
  (∀ w, let w0 := ASTExporter_ctor Context w in
     sentinel_ptr FStatement w0 = Some (Allocate Context (allocated w)) ∧
     sentinel_ptr FDeclaration w0 = Some (Allocate Context (S (allocated w))) ∧
     sentinel_ptr FComment w0 = Some (Allocate Context (S (S (allocated w)))) ∧
     sentinel_ptr FType w0 = None ∧
     allocated w0 = S (S (S (allocated w)))) ∧
  (∀ F w w', updates Opts w w' → sentinel_ptr F w' = sentinel_ptr F w) ∧
  (∀ D w, updates Opts w (state_after (ASTExporter_dumpDecl fmt_p Opts Context D) w)) ∧
  (∀ St w, updates Opts w (state_after (ASTExporter_dumpStmt fmt_p Opts Context St) w)) ∧
  (∀ T w, updates Opts w (state_after (dumpType fmt_p Opts T) w)) ∧
  (∀ F, dump_null fmt_p Opts Context F = None ↔ F = FComment) ∧
  (∀ F m w w',
     dump_null fmt_p Opts Context F = Some m →
     updates Opts (state_after m w) w' →
     written m w' = written m w ∧
     token_at fmt_p (withPointers Opts) (null_identity F w') w'
       = token_at fmt_p (withPointers Opts) (null_identity F w) w) ∧
  (∀ F m w,
     dump_null fmt_p Opts Context F = Some m →
     let tok := AString (token_at fmt_p (withPointers Opts) (null_identity F w) w) in
     written m w =
     match F with
     | FDeclaration =>
         [AVariant "EmptyDecl" [ATuple (Some 1) [AObject 4
            [ATag "pointer"; tok;
             ATag "source_range"; ATuple (Some 2) [record_empty; record_empty];
             ATag "attributes"; AArray (Some 0) []]]]]
     | FStatement =>
         [AVariant "NullStmt" [ATuple (Some 2)
            [AObject 2
               [ATag "pointer"; tok;
                ATag "source_range"; ATuple (Some 2) [record_empty; record_empty]];
             AArray (Some 0) []]]]
     | _ =>
         [AVariant "NoneType" [ATuple None [AObject 2
            [ATag "pointer"; tok; ATag "raw"; AString "NULL TYPE"]]]]
     end).
Proof.
  split; [done|]. split; [|split; [|split; [|split; [|split; [|split]]]]].
  - intros F w w' (HS & HD & HC & _)%updates_members.
    destruct F; cbn [sentinel_ptr]; congruence.
  - intros D w. apply U_ASTExporter_dumpDecl.
  - intros St w. apply U_ASTExporter_dumpStmt.
  - intros T w. apply U_dumpType.
  - intros F. by destruct F.
  - intros F m w w' Hm Hu.
    assert (null_identity F w' = null_identity F w) as Hid.
    { unfold null_identity. f_equal.
      apply (updates_members _ w') in Hu as (HS & HD & HC & _).
      assert (∀ F m w, dump_null fmt_p Opts Context F = Some m →
                sentinel_ptr F (state_after m w) = sentinel_ptr F w) as Hkeep.
      { clear. intros F m w Hm.
        assert (updates Opts w (state_after m w)) as (HS & HD & HC & _)%updates_members.
        { destruct F; simplify_eq/=.
          - apply (U_ASTExporter_dumpDecl fmt_p Opts Context None).
          - apply (U_ASTExporter_dumpStmt fmt_p Opts Context None).
          - apply (U_dumpType fmt_p Opts None). }
        destruct F; cbn [sentinel_ptr]; congruence. }
      rewrite <-(Hkeep F m w Hm). destruct F; cbn [sentinel_ptr]; congruence. }
    assert (later (state_after (dumpPointer fmt_p Opts (null_identity F w)) w) w') as Hl.
    { eapply later_trans; [exact (dump_null_after fmt_p Opts Context F m w Hm)|].
      by apply updates_later in Hu. }
    assert (token_at fmt_p (withPointers Opts) (null_identity F w') w'
            = token_at fmt_p (withPointers Opts) (null_identity F w) w) as Htok.
    { rewrite Hid. by apply token_at_stable. }
    split; [|done].
    rewrite (written_dump_null fmt_p Opts Context F m w' Hm),
      (written_dump_null fmt_p Opts Context F m w Hm). cbv zeta.
    by rewrite Htok.
  - intros F m w Hm. by apply (written_dump_null fmt_p Opts Context).
Qed.
End Sentinel.

(** C4, as stated, fails for the Type family, which has no sentinel node:
    the constructor builds three nodes, for statements, declarations and
    comments, and a null type is written by [dumpType] itself with the null
    address as its identity (here with raw pointers, to show the
    addresses).  For a null comment the sources determine no encoding. *)
Lemma null_type_has_no_sentinel_node :
  let w := ASTExporter_ctor example_context process_start in
  (NullPtrStmt w, NullPtrDecl w, NullPtrComment w) = (501, 502, 503) ∧
  sentinel_ptr FType w = None ∧
  written (dumpType fmt_example raw_options None) w =
    [AVariant "NoneType" [ATuple None [AObject 2
       [ATag "pointer"; AString "0x0"; ATag "raw"; AString "NULL TYPE"]]]] ∧
  written (ASTExporter_dumpDecl fmt_example raw_options example_context None) w =
    [AVariant "EmptyDecl" [ATuple (Some 1) [AObject 4
       [ATag "pointer"; AString "0x502";
        ATag "source_range"; ATuple (Some 2) [record_empty; record_empty];
        ATag "attributes"; AArray (Some 0) []]]]] ∧
  dump_null fmt_example raw_options example_context FComment = None.
Proof. vm_compute. done. Qed.

(** Two null declarations of one run, an identity being tokenized in
    between. *)
Lemma sentinel_stability_witness :
  let m := ASTExporter_dumpDecl fmt_example plain_options example_context None in
  let w := ASTExporter_ctor example_context process_start in
  let w' := state_after (dumpPointer fmt_example plain_options 42) (state_after m w) in
  dump_null fmt_example plain_options example_context FDeclaration = Some m ∧
  updates plain_options (state_after m w) w' ∧
  written m w' = written m w ∧
  token_at fmt_example false (null_identity FDeclaration w') w'
    = token_at fmt_example false (null_identity FDeclaration w) w.
Proof.
  intros m w w'.
  assert (updates plain_options (state_after m w) w') as Hu by apply U_dumpPointer.
  split; [reflexivity|]. split; [exact Hu|].
  destruct (sentinel_stability fmt_example plain_options example_context)
    as (_ & _ & _ & _ & _ & _ & H & _).
  exact (H FDeclaration m w w' eq_refl Hu).
Defined.
